(** * BaconBot log engine: shallow embedding of the parser and live watcher

    Sources embedded here:
    - [src/lib/parser.js] (batch [parseLog], zone matcher),
    - [src/unnamed/part_006] (the same file extended with [localToUTC],
      [parseEQDateUTC], [isInRaidWindow] and [autoParseLog]),
    - [src/Bacon Bot Distribution/lib/log-watcher.js] ([LogWatcher]).

    Conventions.
    - A JavaScript string is a list of code units; the model covers the
      code units below 256 (Latin-1), which is where [ascii] lives.
    - A JavaScript time value is [option Z]: [None] is NaN, so a [Date]
      holding [None] is an Invalid Date.  Integer arithmetic is exact.
    - JavaScript exceptions are explicit: functions that can throw return
      an outcome that says so. *)

From Stdlib Require Import List Ascii String ZArith Lia Bool Arith Sorted Permutation.
Import ListNotations.

Set Implicit Arguments.

(** ** Strings *)

Definition str := list ascii.

Definition lit (s : string) : str := list_ascii_of_string s.

Definition code (c : ascii) : nat := nat_of_ascii c.

Definition between (lo hi n : nat) : bool := Nat.leb lo n && Nat.leb n hi.

(** [\d] *)
Definition isDigit (c : ascii) : bool := between 48 57 (code c).

(** [\w] is [[A-Za-z0-9_]] *)
Definition isWord (c : ascii) : bool :=
  between 65 90 (code c) || between 97 122 (code c) || isDigit c
  || Nat.eqb (code c) 95.

(** [\s], which is also the set [String.prototype.trim] removes: TAB, LF,
    VT, FF, CR, SPACE and NBSP are its members below 256. *)
Definition isSpace (c : ascii) : bool :=
  between 9 13 (code c) || Nat.eqb (code c) 32 || Nat.eqb (code c) 160.

(** Line terminators, the characters [.] refuses. *)
Definition isLineTerm (c : ascii) : bool :=
  Nat.eqb (code c) 10 || Nat.eqb (code c) 13.

(** The class [[\w`'-]] of player names. *)
Definition isNameChar (c : ascii) : bool :=
  isWord c || Nat.eqb (code c) 96 || Nat.eqb (code c) 39 || Nat.eqb (code c) 45.

(** [String.prototype.toLowerCase], one code unit: [A-Z] and the Latin-1
    capitals U+00C0..U+00DE (the multiplication sign U+00D7 apart). *)
Definition lowerChar (c : ascii) : ascii :=
  let n := code c in
  if between 65 90 n then ascii_of_nat (n + 32)
  else if between 192 222 n && negb (Nat.eqb n 215) then ascii_of_nat (n + 32)
  else c.

Definition toLowerCase (s : str) : str := map lowerChar s.

Fixpoint dropWhile (p : ascii -> bool) (s : str) : str :=
  match s with
  | [] => []
  | c :: s' => if p c then dropWhile p s' else s
  end.

Fixpoint takeWhile (p : ascii -> bool) (s : str) : str :=
  match s with
  | [] => []
  | c :: s' => if p c then c :: takeWhile p s' else []
  end.

(** [String.prototype.trim] *)
Definition trim (s : str) : str :=
  rev (dropWhile isSpace (rev (dropWhile isSpace s))).

Definition ascii_eqb (a b : ascii) : bool := Ascii.eqb a b.

Fixpoint str_eqb (a b : str) : bool :=
  match a, b with
  | [], [] => true
  | x :: a', y :: b' => ascii_eqb x y && str_eqb a' b'
  | _, _ => false
  end.

(** [stripPrefix p s] is [Some r] exactly when [s = p ++ r]. *)
Fixpoint stripPrefix (p s : str) : option str :=
  match p, s with
  | [], _ => Some s
  | a :: p', b :: s' => if ascii_eqb a b then stripPrefix p' s' else None
  | _ :: _, [] => None
  end.

Definition startsWith (s p : str) : bool :=
  match stripPrefix p s with Some _ => true | None => false end.

(** [s.includes(f)] *)
Fixpoint includes (s f : str) : bool :=
  startsWith s f ||
  match s with
  | [] => false
  | _ :: s' => includes s' f
  end.

(** ** Zone matcher ([parser.js] 60-73, repeated in [log-watcher.js] 15-23) *)

(** [.replace(/^the\s+/, '')]: the pattern is anchored at the start of the
    string and needs at least one white-space character after [the]; the
    greedy [\s+] takes the whole run. *)
Definition replaceLeadingThe (s : str) : str :=
  match stripPrefix (lit "the") s with
  | Some (c :: r) => if isSpace c then dropWhile isSpace r else s
  | _ => s
  end.

(** [name.toLowerCase().replace(/^the\s+/, '').trim()] *)
Definition normalizeZone (name : str) : str :=
  trim (replaceLeadingThe (toLowerCase name)).

(** [zoneName] may be [null] (the initial [currentZone]); [!zoneName] is
    true for [null] and for the empty string. *)
Definition zoneMatchesFilters (zoneName : option str) (filters : list str) : bool :=
  match zoneName with
  | None => false
  | Some [] => false
  | Some z =>
      match filters with
      | [] => false
      | _ =>
          let norm := normalizeZone z in
          existsb (fun f => includes norm f || includes f norm) filters
      end
  end.

(** The normalisation as the specification words it:
    lowercase(trim(name)) with a single leading "the " stripped. *)
Definition spec_normalize (name : str) : str :=
  let s := toLowerCase (trim name) in
  match stripPrefix (lit "the ") s with
  | Some r => r
  | None => s
  end.

(** The matcher as the specification words it. *)
Definition spec_matches (zoneName : str) (filterSet : list str) : bool :=
  match zoneName, filterSet with
  | [], _ => false
  | _, [] => false
  | _, _ =>
      existsb (fun f => includes (spec_normalize zoneName) f
                        || includes f (spec_normalize zoneName)) filterSet
  end.

(** ** Time values and [Date] (ECMAScript built-ins) *)

Local Open Scope Z_scope.

(** A time value in milliseconds since the epoch; [None] is NaN. *)
Definition timeValue := option Z.

(** A [Date] object is its time value; [None] is an Invalid Date.  Dates
    are never mutated by the code, so sharing one between records is not
    observable. *)
Definition Date := timeValue.

Definition msPerSecond : Z := 1000.
Definition msPerMinute : Z := 60000.
Definition msPerHour : Z := 3600000.
Definition msPerDay : Z := 86400000.

(** [TimeClip]: beyond 8.64e15 ms the result is NaN. *)
Definition TimeClip (t : Z) : timeValue :=
  if Z.abs t <=? 8640000000000000 then Some t else None.

(** Day number of the first day of month [m] (1..12) of year [y] plus
    [d - 1], in the proleptic Gregorian calendar the standard prescribes. *)
Definition daysFromCivil (y m d : Z) : Z :=
  let y' := if m <=? 2 then y - 1 else y in
  let era := y' / 400 in
  let yoe := y' - era * 400 in
  let doy := (153 * (m + (if 2 <? m then -3 else 9)) + 2) / 5 + d - 1 in
  let doe := yoe * 365 + yoe / 4 - yoe / 100 + doy in
  era * 146097 + doe - 719468.

(** The calendar date (year, month 1..12, day) of a day number. *)
Definition civilFromDays (z : Z) : Z * Z * Z :=
  let z' := z + 719468 in
  let era := z' / 146097 in
  let doe := z' - era * 146097 in
  let yoe := (doe - doe / 1460 + doe / 36524 - doe / 146096) / 365 in
  let y := yoe + era * 400 in
  let doy := doe - (365 * yoe + yoe / 4 - yoe / 100) in
  let mp := (5 * doy + 2) / 153 in
  let d := doy - (153 * mp + 2) / 5 + 1 in
  let m := if mp <? 10 then mp + 3 else mp - 9 in
  (if m <=? 2 then y + 1 else y, m, d).

(** [MakeDay(year, month, date)], month counted from 0 and free to
    overflow into the neighbouring years. *)
Definition MakeDay (year month date : Z) : Z :=
  daysFromCivil (year + month / 12) (month mod 12 + 1) 1 + date - 1.

Definition MakeTime (hour min sec : Z) : Z :=
  hour * msPerHour + min * msPerMinute + sec * msPerSecond.

Definition MakeDate (day time : Z) : Z := day * msPerDay + time.

(** [MakeFullYear]: years 0..99 mean 1900..1999. *)
Definition MakeFullYear (y : Z) : Z :=
  if (0 <=? y) && (y <=? 99) then 1900 + y else y.

(** [Date.UTC(year, month, day, hour, minute, second)].  The month is the
    one argument the code can pass as [undefined] (a month name missing
    from [MONTHS]); it then converts to NaN and so does the result. *)
Definition DateUTC (year : Z) (month : option Z) (day hour min sec : Z) : timeValue :=
  match month with
  | None => None
  | Some m =>
      TimeClip (MakeDate (MakeDay (MakeFullYear year) m day) (MakeTime hour min sec))
  end.

Definition getUTCDay (d : Date) : option Z :=
  match d with
  | Some t => Some ((t / msPerDay + 4) mod 7)
  | None => None
  end.

Definition getUTCHours (d : Date) : option Z :=
  match d with
  | Some t => Some ((t / msPerHour) mod 24)
  | None => None
  end.

(** Relational comparison of two Dates: both convert to numbers, and any
    comparison with NaN is false. *)
Definition date_lt (a b : Date) : bool :=
  match a, b with
  | Some x, Some y => x <? y
  | _, _ => false
  end.

Definition date_gt (a b : Date) : bool := date_lt b a.

(** Decimal rendering *)

Definition digitChar (n : Z) : ascii := ascii_of_nat (48 + Z.to_nat (n mod 10)).

Fixpoint padDigits (width : nat) (n : Z) : str :=
  match width with
  | O => []
  | S w => padDigits w (n / 10) ++ [digitChar n]
  end.

(** [d.toISOString().slice(0, 10)] of a valid date: [YYYY-MM-DD] for the
    years 0..9999, the first ten characters of the expanded form
    [+YYYYYY-MM-DD] or [-YYYYYY-MM-DD] otherwise. *)
Definition isoDate (t : Z) : str :=
  let '(y, m, d) := civilFromDays (t / msPerDay) in
  let tail := lit "-" ++ padDigits 2 m ++ lit "-" ++ padDigits 2 d in
  if (0 <=? y) && (y <=? 9999) then padDigits 4 y ++ tail
  else firstn 10 ((if y <? 0 then lit "-" else lit "+") ++ padDigits 6 (Z.abs y) ++ tail).

(** ** Host environment

    What the code asks of its platform and the model cannot compute:
    the local time zone of the process ([new Date(y, m, d, ...)] in the
    batch parser) and the time zone database behind
    [Intl.DateTimeFormat]. *)

(** The numeric fields [formatToParts] yields for the options the code
    passes (year, month, day, hour, minute, second, [hour12: false]). *)
Record DateParts := mkParts {
  p_year : Z; p_month : Z; p_day : Z;
  p_hour : Z; p_minute : Z; p_second : Z
}.

Record Host := mkHost {
  (** [LocalTZA(t, false)]: the offset of the process's zone at local time [t] *)
  localTZA : Z -> Z;
  (** [new Intl.DateTimeFormat('en-US', {timeZone: tz, ...})]: [None] when the
      constructor throws a RangeError (unknown zone); otherwise the wall
      clock the zone displays at a UTC instant.  The identifier itself may
      be [undefined] (host default zone). *)
  zoneDisplay : option str -> option (Z -> DateParts)
}.

(** A zone at a fixed offset from UTC, in milliseconds; used to run the
    model on concrete inputs. *)
Definition fixedZoneDisplay (offset : Z) (t : Z) : DateParts :=
  let t' := t + offset in
  let '(y, m, d) := civilFromDays (t' / msPerDay) in
  let r := t' mod msPerDay in
  mkParts y m d (r / msPerHour) ((r mod msPerHour) / msPerMinute)
          ((r mod msPerMinute) / msPerSecond).

(** A host in UTC that knows "UTC" and "America/Phoenix" (UTC-7, no DST). *)
Definition sampleHost : Host :=
  mkHost (fun _ => 0)
         (fun tz =>
            match tz with
            | None => Some (fixedZoneDisplay 0)
            | Some z =>
                if str_eqb z (lit "UTC") then Some (fixedZoneDisplay 0)
                else if str_eqb z (lit "America/Phoenix")
                     then Some (fixedZoneDisplay (-7 * msPerHour))
                else None
            end).

(** ** Timestamp normaliser ([part_006] 261-285) *)

(** What a call that may throw produces. *)
Inductive outcome (A : Type) : Type :=
| Returned (a : A)
| Threw.
Arguments Threw {A}.

(** [localToUTC(year, month, day, hour, minute, second, timezone)].
    [fakeUTC] reads the fields as UTC; constructing the formatter throws on
    an unknown zone and [formatToParts] throws on an Invalid Date; the
    displayed hour 24 is read as 0. *)
Definition localToUTC (host : Host) (year : Z) (month : option Z)
    (day hour minute second : Z) (timezone : option str) : outcome Date :=
  let fakeUTC : Date := DateUTC year month day hour minute second in
  match zoneDisplay host timezone with
  | None => Threw
  | Some formatToParts =>
      match fakeUTC with
      | None => Threw
      | Some fake =>
          let parts := formatToParts fake in
          let h := if p_hour parts =? 24 then 0 else p_hour parts in
          let localViewUTC :=
            DateUTC (p_year parts) (Some (p_month parts - 1)) (p_day parts)
                    h (p_minute parts) (p_second parts) in
          match localViewUTC with
          | None => Returned None
          | Some localView =>
              let offset := fake - localView in
              Returned (TimeClip (fake + offset))
          end
      end
  end.

(** The reading of the specification's words for the normaliser: the
    wall clock a zone displays, read back as if it were UTC ("observed"). *)
Definition observedAsUTC (parts : DateParts) : timeValue :=
  DateUTC (p_year parts) (Some (p_month parts - 1)) (p_day parts)
          (if p_hour parts =? 24 then 0 else p_hour parts)
          (p_minute parts) (p_second parts).

(** ** Line patterns ([parser.js] 20-37, repeated in [log-watcher.js] 8-13)

    Each regular expression is written as the deterministic matcher it
    denotes.  A piece consumes a prefix and returns it with the rest.
    Every greedy quantifier below is followed by something its own class
    excludes, so giving characters back can never help and the longest
    run is the only candidate. *)

Definition piece := str -> option (str * str).

Notation "' p <- e ;; k" :=
  (match e with Some p => k | None => None end)
  (at level 61, p pattern, e at next level, right associativity).

Definition one (p : ascii -> bool) : piece :=
  fun s => match s with
           | c :: r => if p c then Some ([c], r) else None
           | [] => None
           end.

Definition chr (a : ascii) : piece := one (ascii_eqb a).

Definition andThen (a b : piece) : piece :=
  fun s => '(x, r) <- a s ;; '(y, r') <- b r ;; Some (x ++ y, r').

Infix ">>" := andThen (at level 50, left associativity).

Fixpoint times (n : nat) (a : piece) : piece :=
  match n with
  | O => fun s => Some ([], s)
  | S k => a >> times k a
  end.

(** [p+] *)
Definition many1 (p : ascii -> bool) : piece :=
  fun s => match takeWhile p s with
           | [] => None
           | t => Some (t, dropWhile p s)
           end.

(** [\d{1,2}] *)
Definition digits12 : piece :=
  fun s => '(a, r) <- one isDigit s ;;
           match one isDigit r with
           | Some (b, r') => Some (a ++ b, r')
           | None => Some (a, r)
           end.

Definition isBlank (c : ascii) : bool := ascii_eqb " " c.

Definition noLineTerm (s : str) : bool := forallb (fun c => negb (isLineTerm c)) s.

Definition stripSuffix (suf s : str) : option str :=
  option_map (@rev ascii) (stripPrefix (rev suf) (rev s)).

(** [(.+)SUF$] and [(.+?)SUF$]: the end anchor leaves one way to cut. *)
Definition dotPlusThenEnd (suf s : str) : option str :=
  match stripSuffix suf s with
  | Some (c :: g) => if noLineTerm (c :: g) then Some (c :: g) else None
  | _ => None
  end.

(** [\w{3} \w{3} +\d{1,2} \d{2}:\d{2}:\d{2} \d{4}] *)
Definition tsShape : piece :=
  times 3 (one isWord) >> chr " " >> times 3 (one isWord) >> many1 isBlank
  >> digits12 >> chr " " >> times 2 (one isDigit) >> chr ":"
  >> times 2 (one isDigit) >> chr ":" >> times 2 (one isDigit) >> chr " "
  >> times 4 (one isDigit).

(** [LINE_RE]: the bracketed timestamp text of the shape above, one space,
    and the content, which is any run of characters other than line
    terminators up to the end of the line. *)
Definition LINE_RE (line : str) : option (str * str) :=
  match line with
  | "["%char :: r =>
      match tsShape r with
      | Some (tsStr, "]"%char :: " "%char :: content) =>
          if noLineTerm content then Some (tsStr, content) else None
      | _ => None
      end
  | _ => None
  end.

(** [ZONE_ENTRY_RE = /^You have entered (.+)\.$/] *)
Definition ZONE_ENTRY_RE (content : str) : option str :=
  'r <- stripPrefix (lit "You have entered ") content ;;
  dotPlusThenEnd (lit ".") r.

(** [WHO_FOOTER_RE = /^There are \d+ players in (.+)\.$/] *)
Definition WHO_FOOTER_RE (content : str) : option str :=
  'r <- stripPrefix (lit "There are ") content ;;
  '(_, r1) <- many1 isDigit r ;;
  'r2 <- stripPrefix (lit " players in ") r1 ;;
  dotPlusThenEnd (lit ".") r2.

(** [(?:\s+OPEN([^CLOSE]+)CLOSE)?] tried at [s]: the captured group and
    the rest when it matches. *)
Definition bracketed (opening closing : ascii) (s : str) : option (str * str) :=
  '(_, r) <- many1 isSpace s ;;
  '(_, r1) <- chr opening r ;;
  '(g, r2) <- many1 (fun c => negb (ascii_eqb closing c)) r1 ;;
  '(_, r3) <- chr closing r2 ;;
  Some (g, r3).

(** The first alternative of the level/class group, [\d+ [^\]]+]. *)
Definition levelClassShape : piece :=
  many1 isDigit >> chr " " >> many1 (fun c => negb (ascii_eqb "]" c)).

(** The text [\] ] that must follow the level/class group. *)
Definition afterLevelClass (s : str) : option str := stripPrefix (lit "] ") s.

(** [WHO_PLAYER_RE =
     /^\[(\d+ [^\]]+|ANONYMOUS)\] ([\w`'-]+)(?:\s+\(([^)]+)\))?(?:\s+<([^>]+)>)?/]:
    the groups levelClass, name, race, guild; the pattern has no end
    anchor, so whatever follows is ignored. *)
Definition WHO_PLAYER_RE (content : str)
  : option (str * str * option str * option str) :=
  '(_, r) <- chr "[" content ;;
  '(levelClass, r2) <-
     match (' (lc, r1) <- levelClassShape r ;; 'r2 <- afterLevelClass r1 ;; Some (lc, r2)) with
     | Some x => Some x
     | None => 'r1 <- stripPrefix (lit "ANONYMOUS") r ;;
               'r2 <- afterLevelClass r1 ;; Some (lit "ANONYMOUS", r2)
     end ;;
  '(name, r3) <- many1 isNameChar r2 ;;
  let '(race, r4) :=
    match bracketed "(" ")" r3 with
    | Some (g, r') => (Some g, r')
    | None => (None, r3)
    end in
  let guild :=
    match bracketed "<" ">" r4 with
    | Some (g, _) => Some g
    | None => None
    end in
  Some (levelClass, name, race, guild).

(** [SELF_LOOT_RE = /^--You have looted a (.+?)\.--$/] *)
Definition SELF_LOOT_RE (content : str) : option str :=
  'r <- stripPrefix (lit "--You have looted a ") content ;;
  dotPlusThenEnd (lit ".--") r.

(** [OTHER_LOOT_RE = /^--([\w`'-]+) has looted a (.+?)\.--$/] *)
Definition OTHER_LOOT_RE (content : str) : option (str * str) :=
  'r <- stripPrefix (lit "--") content ;;
  '(name, r1) <- many1 isNameChar r ;;
  'r2 <- stripPrefix (lit " has looted a ") r1 ;;
  'item <- dotPlusThenEnd (lit ".--") r2 ;;
  Some (name, item).

Definition whoStart : str := lit "Players on EverQuest:".
Definition whoSeparator : str := lit "---------------------------".

(** ** Calendar text ([parser.js] 39-54, [part_006] 280-285) *)

(** [MONTHS[mon]]; [None] is [undefined]. *)
Definition MONTHS (mon : str) : option Z :=
  let names := [lit "Jan"; lit "Feb"; lit "Mar"; lit "Apr"; lit "May"; lit "Jun";
                lit "Jul"; lit "Aug"; lit "Sep"; lit "Oct"; lit "Nov"; lit "Dec"] in
  (fix find (l : list str) (i : Z) : option Z :=
     match l with
     | [] => None
     | n :: l' => if str_eqb n mon then Some i else find l' (i + 1)
     end) names 0.

(** Unary [+] on a string of decimal digits. *)
Definition toNumber (ds : str) : Z :=
  fold_left (fun acc c => acc * 10 + Z.of_nat (code c - 48)) ds 0.

(** The groups of [/(\w{3}) +(\d{1,2}) (\d{2}):(\d{2}):(\d{2}) (\d{4})/]
    matched at the start of [s]: mon, day, h, min, s, year. *)
Definition dateShapeAt (s : str) : option (str * str * str * str * str * str) :=
  '(mon, r1) <- times 3 (one isWord) s ;;
  '(_, r2) <- many1 isBlank r1 ;;
  '(day, r3) <- digits12 r2 ;;
  '(_, r4) <- chr " " r3 ;;
  '(h, r5) <- times 2 (one isDigit) r4 ;;
  '(_, r6) <- chr ":" r5 ;;
  '(mi, r7) <- times 2 (one isDigit) r6 ;;
  '(_, r8) <- chr ":" r7 ;;
  '(sec, r9) <- times 2 (one isDigit) r8 ;;
  '(_, r10) <- chr " " r9 ;;
  '(year, _) <- times 4 (one isDigit) r10 ;;
  Some (mon, day, h, mi, sec, year).

(** An unanchored pattern matches at the leftmost position it can. *)
Fixpoint search (A : Type) (p : str -> option A) (s : str) : option A :=
  match p s with
  | Some a => Some a
  | None => match s with
            | [] => None
            | _ :: s' => search p s'
            end
  end.

(** [new Date(year, month, day, h, min, s)]: the fields are local time of
    the process. *)
Definition newDateLocal (host : Host) (year : Z) (month : option Z)
    (day hour min sec : Z) : Date :=
  match month with
  | None => None
  | Some m =>
      let t := MakeDate (MakeDay (MakeFullYear year) m day) (MakeTime hour min sec) in
      TimeClip (t - localTZA host t)
  end.

(** [parseEQDate(ts)]: [None] is the [null] of a failed match; a match
    with an unknown month name yields an Invalid Date, not [null]. *)
Definition parseEQDate (host : Host) (ts : str) : option Date :=
  '(mon, day, h, mi, sec, year) <- search dateShapeAt ts ;;
  Some (newDateLocal host (toNumber year) (MONTHS mon) (toNumber day)
                     (toNumber h) (toNumber mi) (toNumber sec)).

(** [parseEQDateUTC(tsStr, timezone)]: [Returned None] is [null]. *)
Definition parseEQDateUTC (host : Host) (tsStr : str) (timezone : option str)
  : outcome (option Date) :=
  match search dateShapeAt tsStr with
  | None => Returned None
  | Some (mon, day, h, mi, sec, year) =>
      match localToUTC host (toNumber year) (MONTHS mon) (toNumber day)
                       (toNumber h) (toNumber mi) (toNumber sec) timezone with
      | Returned d => Returned (Some d)
      | Threw => Threw
      end
  end.

(** ** Records *)

(** An entry buffered from a roster line:
    [{ name, level, class: cls, race, guild }]; [None] is [null]. *)
(** A Number as [parseInt] returns it for decimal digits: a double of
    integer value, written by that value, or [Infinity]. *)
Inductive jsNumber :=
| Finite (v : Z)
| Infinity.

Record Player := mkPlayer {
  name : str;
  level : option jsNumber;
  cls : option str;
  race : option str;
  guild : option str
}.

(** A stored record [{ ...p, firstSeen, lastSeen }]: the spread copies the
    five fields of [p], so the record is those fields and the two bounds. *)
Record Attendee := mkAttendee {
  player : Player;
  firstSeen : Date;
  lastSeen : Date
}.

(** [{ playerName, itemName, timestamp, zone }]; [playerName] is the
    caller's [characterName] for self-loot and may be [null], [zone] is
    the value of [currentZone]. *)
Record LootEvent := mkLoot {
  playerName : option str;
  itemName : str;
  timestamp : Date;
  zone : option str
}.

(** ** [Map] with string keys

    A JavaScript [Map] iterates in insertion order and [set] on a present
    key keeps its place, so it is an association list. *)

Definition jsMap (V : Type) := list (str * V).

Fixpoint mapGet (V : Type) (k : str) (m : jsMap V) : option V :=
  match m with
  | [] => None
  | (k', v) :: m' => if str_eqb k' k then Some v else mapGet k m'
  end.

Fixpoint mapSet (V : Type) (k : str) (v : V) (m : jsMap V) : jsMap V :=
  match m with
  | [] => [(k, v)]
  | (k', v') :: m' =>
      if str_eqb k' k then (k, v) :: m' else (k', v') :: mapSet k v m'
  end.

Definition mapValues (V : Type) (m : jsMap V) : list V := map snd m.
Definition mapKeys (V : Type) (m : jsMap V) : list str := map fst m.

(** ** Roster entry fields ([parser.js] 174-188) *)

Definition notBlank (c : ascii) : bool := negb (isBlank c).

(** The Number for an integer [n] that is not negative: [n] itself up to
    53 bits; beyond, the nearest integer of 53 significant bits, the even
    one of two equally near; [Infinity] when that is 2^1024 or more. *)
Definition toDouble (n : Z) : jsNumber :=
  if n <? 2 ^ 53 then Finite n
  else
    let e := Z.log2 n - 52 in
    let q := n / 2 ^ e in
    let r := n mod 2 ^ e in
    let half := 2 ^ (e - 1) in
    let q' := if (half <? r) || ((r =? half) && Z.odd q) then q + 1 else q in
    if q' * 2 ^ e <? 2 ^ 1024 then Finite (q' * 2 ^ e) else Infinity.

(** [parseInt(s, 10)] on text that starts with its digits (the pattern
    guarantees it): the Number for the integer the leading digits spell,
    NaN ([None]) without any. *)
Definition parseInt10 (s : str) : option jsNumber :=
  match takeWhile isDigit s with
  | [] => None
  | ds => Some (toDouble (toNumber ds))
  end.

(** [x || null] for a number: 0 and NaN are falsy. *)
Definition numOrNull (x : option jsNumber) : option jsNumber :=
  match x with
  | Some (Finite 0) => None
  | _ => x
  end.

(** [x || null] for a string or [undefined]: the empty string is falsy. *)
Definition strOrNull (x : option str) : option str :=
  match x with
  | Some [] => None
  | _ => x
  end.

(** [levelClass.split(' ')]: [parts[0]] is the text before the first
    space and [parts.slice(1).join(' ')] the text after it. *)
Definition levelOf (levelClass : str) : option jsNumber :=
  numOrNull (parseInt10 (takeWhile notBlank levelClass)).

Definition classOf (levelClass : str) : option str :=
  strOrNull (Some (tl (dropWhile notBlank levelClass))).

Definition playerOfMatch (m : str * str * option str * option str) : Player :=
  let '(levelClass, nm, rc, gd) := m in
  if str_eqb levelClass (lit "ANONYMOUS")
  then mkPlayer nm None None (strOrNull rc) (strOrNull gd)
  else mkPlayer nm (levelOf levelClass) (classOf levelClass)
                (strOrNull rc) (strOrNull gd).

(** ** Attendance upsert of the batch and auto parsers
    ([parser.js] 153-166, [part_006] 380-389) *)

Definition upsert (whoBlockTime : Date) (attendanceMap : jsMap Attendee) (p : Player)
  : jsMap Attendee :=
  let key := toLowerCase (name p) in
  match mapGet key attendanceMap with
  | None => mapSet key (mkAttendee p whoBlockTime whoBlockTime) attendanceMap
  | Some existing =>
      let e1 := if date_lt whoBlockTime (firstSeen existing)
                then mkAttendee (player existing) whoBlockTime (lastSeen existing)
                else existing in
      let e2 := if date_gt whoBlockTime (lastSeen e1)
                then mkAttendee (player e1) (firstSeen e1) whoBlockTime
                else e1 in
      mapSet key e2 attendanceMap
  end.

Definition flushRoster (whoBlockTime : Date) (whoPlayers : list Player)
    (attendanceMap : jsMap Attendee) : jsMap Attendee :=
  fold_left (upsert whoBlockTime) whoPlayers attendanceMap.

(** ** Batch parser: [parseLog] ([parser.js] 88-225) *)

Module Batch.

(** The options of one call; [zones] are the caller's raw filters. *)
Record Opts := mkOpts {
  startTime : Date;
  endTime : Date;
  zones : list str;
  characterName : option str
}.

(** The variables the loop updates.  [whoBlockTime] is [null] before the
    first block opens; it is read only in a block, after the assignment
    that opens it, so its initial value is never observed and the model
    starts it as [None]. *)
Record State := mkState {
  attendanceMap : jsMap Attendee;
  lootEvents : list LootEvent;
  currentZone : option str;
  inWhoBlock : bool;
  whoBlockTime : Date;
  whoPlayers : list Player;
  lineCount : Z
}.

Definition init : State := mkState [] [] None false None [] 0.

Definition countLine (st : State) : State :=
  mkState (attendanceMap st) (lootEvents st) (currentZone st) (inWhoBlock st)
          (whoBlockTime st) (whoPlayers st) (lineCount st + 1).

Definition enterZone (z : str) (st : State) : State :=
  mkState (attendanceMap st) (lootEvents st) (Some z) false
          (whoBlockTime st) (whoPlayers st) (lineCount st).

Definition openBlock (ts : Date) (st : State) : State :=
  mkState (attendanceMap st) (lootEvents st) (currentZone st) true
          ts [] (lineCount st).

Definition closeBlock (st : State) : State :=
  mkState (attendanceMap st) (lootEvents st) (currentZone st) false
          (whoBlockTime st) (whoPlayers st) (lineCount st).

Definition setAttendance (m : jsMap Attendee) (st : State) : State :=
  mkState m (lootEvents st) (currentZone st) (inWhoBlock st)
          (whoBlockTime st) (whoPlayers st) (lineCount st).

Definition pushPlayer (p : Player) (st : State) : State :=
  mkState (attendanceMap st) (lootEvents st) (currentZone st) (inWhoBlock st)
          (whoBlockTime st) (whoPlayers st ++ [p]) (lineCount st).

Definition pushLoot (l : LootEvent) (st : State) : State :=
  mkState (attendanceMap st) (lootEvents st ++ [l]) (currentZone st)
          (inWhoBlock st) (whoBlockTime st) (whoPlayers st) (lineCount st).

(** The body of the [for await] loop (lines 106-217) after the line has
    been counted and split by [LINE_RE]: everything from the time window
    filter on. *)
Definition classify (opts : Opts) (zoneFilters : list str)
    (ts : Date) (content : str) (st : State) : State :=
  if date_lt ts (startTime opts) || date_gt ts (endTime opts) then st
  else
    match ZONE_ENTRY_RE content with
    | Some z => enterZone z st
    | None =>
        if str_eqb content whoStart then openBlock ts st
        else if inWhoBlock st then
          if str_eqb content whoSeparator then st
          else
            match WHO_FOOTER_RE content with
            | Some whoZone =>
                let st1 := closeBlock st in
                if zoneMatchesFilters (Some whoZone) zoneFilters
                then setAttendance
                       (flushRoster (whoBlockTime st1) (whoPlayers st1)
                                    (attendanceMap st1)) st1
                else st1
            | None =>
                match WHO_PLAYER_RE content with
                | Some m => pushPlayer (playerOfMatch m) st
                | None => st
                end
            end
        else if negb (zoneMatchesFilters (currentZone st) zoneFilters) then st
        else
          match SELF_LOOT_RE content with
          | Some item =>
              pushLoot (mkLoot (characterName opts) item ts (currentZone st)) st
          | None =>
              match OTHER_LOOT_RE content with
              | Some (who, item) =>
                  pushLoot (mkLoot (Some who) item ts (currentZone st)) st
              | None => st
              end
          end
    end.

(** One iteration of the loop.  The optional progress callback fires on
    [lineCount] alone and cannot touch the variables, so it is left out. *)
Definition parseLine (host : Host) (opts : Opts) (zoneFilters : list str)
    (st : State) (line : str) : State :=
  let st := countLine st in
  match LINE_RE line with
  | None => st
  | Some (tsStr, content) =>
      match parseEQDate host tsStr with
      | None => st
      | Some ts => classify opts zoneFilters ts content st
      end
  end.

Definition scan (host : Host) (opts : Opts) (st : State) (lines : list str) : State :=
  fold_left (parseLine host opts (map normalizeZone (zones opts))) lines st.

Record Result := mkResult {
  attendance : list Attendee;
  loot : list LootEvent;
  lines_read : Z
}.

Definition finish (st : State) : Result :=
  mkResult (mapValues (attendanceMap st)) (lootEvents st) (lineCount st).

(** [parseLog] on the lines [readline] yields from the file. *)
Definition parseLog (host : Host) (opts : Opts) (lines : list str) : Result :=
  finish (scan host opts init lines).

End Batch.

(** ** [Set] of zone names: insertion order, no duplicates.  The elements
    are values of [currentZone] or footer zones. *)

Definition optStr_eqb (a b : option str) : bool :=
  match a, b with
  | Some x, Some y => str_eqb x y
  | None, None => true
  | _, _ => false
  end.

Definition setAdd (z : option str) (zs : list (option str)) : list (option str) :=
  if existsb (optStr_eqb z) zs then zs else zs ++ [z].

(** [a.localeCompare(b)] on calendar-date keys.  The keys are made of
    digits, [-] and (for years past 9999) [+]; the collation orders those
    characters [-] before [+] before the digits in numeric order, and
    compares such strings character by character, a proper prefix first. *)
Definition collationRank (c : ascii) : nat :=
  if ascii_eqb "-" c then 0%nat
  else if ascii_eqb "+" c then 1%nat
  else (2 + code c)%nat.

Fixpoint localeCompare (a b : str) : comparison :=
  match a, b with
  | [], [] => Eq
  | [], _ :: _ => Lt
  | _ :: _, [] => Gt
  | x :: a', y :: b' =>
      match Nat.compare (collationRank x) (collationRank y) with
      | Eq => localeCompare a' b'
      | c => c
      end
  end.

(** [Array.prototype.sort] is stable; with a comparator that is a total
    order on the keys its result is the one stable sorted arrangement,
    which insertion from the right builds. *)
Section Sort.
Variable A : Type.
Variable cmp : A -> A -> comparison.

Fixpoint insertSorted (x : A) (l : list A) : list A :=
  match l with
  | [] => [x]
  | y :: l' =>
      match cmp x y with
      | Gt => y :: insertSorted x l'
      | _ => x :: l
      end
  end.

Definition sortBy (l : list A) : list A := fold_right insertSorted [] l.
End Sort.

(** ** Auto-detecting parser: [autoParseLog] ([part_006] 227-441) *)

Module Auto.

Definition RAID_UTC_DAYS : list Z := [0; 3; 5; 6].
Definition RAID_UTC_START : Z := 13.
Definition RAID_UTC_END : Z := 17.

Definition APPROVED_ZONES : list str :=
  [ lit "Plane of Fear"; lit "Plane of Hate"; lit "Sebilis"; lit "Katta Castellum";
    lit "Kedge Keep"; lit "Nagafen's Lair"; lit "Permafrost"; lit "Veeshan's Peak";
    lit "Timorous Deep"; lit "Dreadlands"; lit "Chardok"; lit "Dragon Necropolis";
    lit "Kael Drakkel"; lit "Temple of Veeshan"; lit "Thurgadin"; lit "Akheva Ruins";
    lit "Greig's End"; lit "Acrylia Caverns"; lit "Ssraeshza Temple"; lit "Umbral Plains";
    lit "Vex Thal"; lit "The Deep" ].

Definition APPROVED_ZONE_FILTERS : list str := map normalizeZone APPROVED_ZONES.

(** [!!zoneName && zoneMatchesFilters(zoneName, APPROVED_ZONE_FILTERS)] *)
Definition isApprovedZone (zoneName : option str) : bool :=
  match zoneName with
  | None => false
  | Some [] => false
  | Some _ => zoneMatchesFilters zoneName APPROVED_ZONE_FILTERS
  end.

(** [RAID_UTC_DAYS.has(d.getUTCDay()) && h >= START && h < END]; on an
    Invalid Date both getters give NaN and the test is false. *)
Definition isInRaidWindow (utcDate : Date) : bool :=
  match getUTCHours utcDate, getUTCDay utcDate with
  | Some h, Some d =>
      existsb (Z.eqb d) RAID_UTC_DAYS && (RAID_UTC_START <=? h) && (h <? RAID_UTC_END)
  | _, _ => false
  end.

Definition DAY_NAMES : list str :=
  [ lit "Sunday"; lit "Monday"; lit "Tuesday"; lit "Wednesday";
    lit "Thursday"; lit "Friday"; lit "Saturday" ].

(** A bucket of [sessionMap]. *)
Record Session := mkSession {
  date : str;
  dayName : str;
  attendanceMap : jsMap Attendee;
  loot : list LootEvent;
  zones : list (option str);
  firstSeen : Date;
  lastSeen : Date
}.

Record Opts := mkOpts {
  timezone : option str;
  characterName : option str
}.

Record State := mkState {
  sessionMap : jsMap Session;
  currentZone : option str;
  inWhoBlock : bool;
  whoBlockUTC : Date;
  whoPlayers : list Player;
  lineCount : Z
}.

Definition init : State := mkState [] None false None [] 0.

(** [getSession(utcDate)] for a valid date [t]: the key, and the map with
    the bucket created if missing and its [lastSeen] moved forward.  (On
    an Invalid Date [toISOString] throws; the callers handle that case.) *)
Definition getSession (t : Z) (sm : jsMap Session) : str * jsMap Session :=
  let key := isoDate t in
  let sm1 :=
    match mapGet key sm with
    | Some _ => sm
    | None =>
        mapSet key
          (mkSession key (nth (Z.to_nat ((t / msPerDay + 4) mod 7)) DAY_NAMES [])
                     [] [] [] (Some t) (Some t)) sm
    end in
  match mapGet key sm1 with
  | Some s =>
      if date_gt (Some t) (lastSeen s)
      then (key, mapSet key (mkSession (date s) (dayName s) (attendanceMap s) (loot s)
                                       (zones s) (firstSeen s) (Some t)) sm1)
      else (key, sm1)
  | None => (key, sm1)
  end.

(** In-place mutation of the bucket under [key]. *)
Definition update (key : str) (f : Session -> Session) (sm : jsMap Session)
  : jsMap Session :=
  match mapGet key sm with
  | Some s => mapSet key (f s) sm
  | None => sm
  end.

Definition addZone (z : option str) (s : Session) : Session :=
  mkSession (date s) (dayName s) (attendanceMap s) (loot s) (setAdd z (zones s))
            (firstSeen s) (lastSeen s).

Definition addRoster (t : Date) (ps : list Player) (s : Session) : Session :=
  mkSession (date s) (dayName s) (flushRoster t ps (attendanceMap s)) (loot s)
            (zones s) (firstSeen s) (lastSeen s).

Definition addLoot (l : LootEvent) (s : Session) : Session :=
  mkSession (date s) (dayName s) (attendanceMap s) (loot s ++ [l]) (zones s)
            (firstSeen s) (lastSeen s).

Definition countLine (st : State) : State :=
  mkState (sessionMap st) (currentZone st) (inWhoBlock st) (whoBlockUTC st)
          (whoPlayers st) (lineCount st + 1).

Definition enterZone (z : str) (st : State) : State :=
  mkState (sessionMap st) (Some z) false (whoBlockUTC st) (whoPlayers st)
          (lineCount st).

Definition openBlock (ts : Date) (st : State) : State :=
  mkState (sessionMap st) (currentZone st) true ts [] (lineCount st).

Definition closeBlock (st : State) : State :=
  mkState (sessionMap st) (currentZone st) false (whoBlockUTC st) (whoPlayers st)
          (lineCount st).

Definition setSessions (sm : jsMap Session) (st : State) : State :=
  mkState sm (currentZone st) (inWhoBlock st) (whoBlockUTC st) (whoPlayers st)
          (lineCount st).

Definition pushPlayer (p : Player) (st : State) : State :=
  mkState (sessionMap st) (currentZone st) (inWhoBlock st) (whoBlockUTC st)
          (whoPlayers st ++ [p]) (lineCount st).

(** [selfLoot && characterName]: [null], [undefined] and the empty string
    are falsy. *)
Definition truthy (s : option str) : bool :=
  match s with
  | Some (_ :: _) => true
  | _ => false
  end.

(** The loop body (lines 350-423) once the line has its UTC instant.
    [Threw] is [toISOString] on an Invalid Date inside [getSession]. *)
Definition classify (opts : Opts) (utcTs : Date) (content : str) (st : State)
  : outcome State :=
  match ZONE_ENTRY_RE content with
  | Some z => Returned (enterZone z st)
  | None =>
      if str_eqb content whoStart then
        Returned (if isInRaidWindow utcTs then openBlock utcTs st else st)
      else if inWhoBlock st then
        if str_eqb content whoSeparator then Returned st
        else
          match WHO_FOOTER_RE content with
          | Some whoZone =>
              let st1 := closeBlock st in
              if isApprovedZone (Some whoZone) && isInRaidWindow (whoBlockUTC st1)
              then
                match whoBlockUTC st1 with
                | None => Threw
                | Some t =>
                    let '(key, sm) := getSession t (sessionMap st1) in
                    let sm1 := update key (addZone (Some whoZone)) sm in
                    let sm2 := update key (addRoster (whoBlockUTC st1) (whoPlayers st1)) sm1 in
                    Returned (setSessions sm2 st1)
                end
              else Returned st1
          | None =>
              match WHO_PLAYER_RE content with
              | Some m => Returned (pushPlayer (playerOfMatch m) st)
              | None => Returned st
              end
          end
      else if negb (isInRaidWindow utcTs) || negb (isApprovedZone (currentZone st))
      then Returned st
      else
        match utcTs with
        | None => Threw
        | Some t =>
            let '(key, sm) := getSession t (sessionMap st) in
            let sm1 := update key (addZone (currentZone st)) sm in
            let st1 := setSessions sm1 st in
            match SELF_LOOT_RE content, truthy (characterName opts) with
            | Some item, true =>
                Returned (setSessions
                  (update key (addLoot (mkLoot (characterName opts) item utcTs
                                               (currentZone st))) sm1) st)
            | _, _ =>
                match OTHER_LOOT_RE content with
                | Some (who, item) =>
                    Returned (setSessions
                      (update key (addLoot (mkLoot (Some who) item utcTs
                                                   (currentZone st))) sm1) st)
                | None => Returned st1
                end
            end
        end
  end.

(** One iteration of the loop; a throw of [parseEQDateUTC] leaves it. *)
Definition parseLine (host : Host) (opts : Opts) (st : State) (line : str)
  : outcome State :=
  let st := countLine st in
  match LINE_RE line with
  | None => Returned st
  | Some (tsStr, content) =>
      match parseEQDateUTC host tsStr (timezone opts) with
      | Threw => Threw
      | Returned None => Returned st
      | Returned (Some utcTs) => classify opts utcTs content st
      end
  end.

Fixpoint scan (host : Host) (opts : Opts) (st : State) (lines : list str)
  : outcome State :=
  match lines with
  | [] => Returned st
  | l :: ls =>
      match parseLine host opts st l with
      | Returned st' => scan host opts st' ls
      | Threw => Threw
      end
  end.

(** An element of the returned [sessions]. *)
Record RaidSession := mkRaidSession {
  rs_date : str;
  rs_dayName : str;
  rs_zones : list (option str);
  rs_attendance : list Attendee;
  rs_loot : list LootEvent;
  rs_firstSeen : Date;
  rs_lastSeen : Date
}.

Definition nonEmpty (s : Session) : bool :=
  negb (Nat.eqb (List.length (attendanceMap s)) 0) || negb (Nat.eqb (List.length (loot s)) 0).

Definition flatten (s : Session) : RaidSession :=
  mkRaidSession (date s) (dayName s) (zones s) (mapValues (attendanceMap s))
                (loot s) (firstSeen s) (lastSeen s).

Definition byDate (a b : RaidSession) : comparison :=
  localeCompare (rs_date a) (rs_date b).

(** Lines 427-438: flatten, filter empties, sort by date. *)
Definition collect (sm : jsMap Session) : list RaidSession :=
  sortBy byDate (map flatten (filter nonEmpty (mapValues sm))).

Record Result := mkResult {
  sessions : list RaidSession;
  lines_read : Z
}.

(** [autoParseLog] on the lines of the file; [Threw] is a rejected
    promise. *)
Definition autoParseLog (host : Host) (opts : Opts) (lines : list str)
  : outcome Result :=
  match scan host opts init lines with
  | Returned st => Returned (mkResult (collect (sessionMap st)) (lineCount st))
  | Threw => Threw
  end.

End Auto.

(** ** Live watcher: [LogWatcher] ([log-watcher.js]) *)

Module Live.

(** The constructor's arguments after its defaults: [approvedZoneFilters]
    is [(approvedZones || []).map(normalizeZone)], [raidDays] the set of
    day numbers, [raidStartUTC] and [raidEndUTC] the hours. *)
Record Config := mkConfig {
  timezone : option str;
  characterName : option str;
  approvedZoneFilters : list str;
  raidDays : list Z;
  raidStartUTC : Z;
  raidEndUTC : Z
}.

Definition defaultRaidDays : list Z := [0; 3; 5; 6].

(** What [emit] publishes; time stamps are valid time values, since
    [toISOString] throws on anything else. *)
Inductive Event :=
| EvZone (zone : option str) (timestamp : Z)
| EvAttendance (zone : str) (total : nat) (newPlayers : list Player)
               (allPlayers : list str) (timestamp : Z)
| EvLoot (item : LootEvent) (timestamp : Z).

Record Watcher := mkWatcher {
  offset : nat;
  pendingChunk : str;
  currentZone : option str;
  inWhoBlock : bool;
  whoBlockUTC : Date;
  whoPlayers : list Player;
  attendanceMap : jsMap Attendee;
  lootEvents : list LootEvent;
  zones : list (option str);
  emitted : list Event
}.

(** The fields as the constructor leaves them; [start] then sets
    [offset] to the size of the file. *)
Definition create (size : nat) : Watcher :=
  mkWatcher size [] None false None [] [] [] [] [].

Definition isInRaidWindow (cfg : Config) (utcDate : Date) : bool :=
  match getUTCHours utcDate, getUTCDay utcDate with
  | Some h, Some d =>
      existsb (Z.eqb d) (raidDays cfg) && (raidStartUTC cfg <=? h) && (h <? raidEndUTC cfg)
  | _, _ => false
  end.

Definition isApprovedZone (cfg : Config) (zoneName : option str) : bool :=
  match zoneName with
  | None => false
  | Some [] => false
  | Some _ => zoneMatchesFilters zoneName (approvedZoneFilters cfg)
  end.

(** The loop of lines 151-160: a new key is inserted and its player
    reported in [newPlayers]; on a present key only [lastSeen] can move. *)
Definition upsert (whoBlockUTC : Date) (acc : jsMap Attendee * list Player)
    (p : Player) : jsMap Attendee * list Player :=
  let '(m, newPlayers) := acc in
  let key := toLowerCase (name p) in
  match mapGet key m with
  | None => (mapSet key (mkAttendee p whoBlockUTC whoBlockUTC) m, newPlayers ++ [p])
  | Some existing =>
      if date_gt whoBlockUTC (lastSeen existing)
      then (mapSet key (mkAttendee (player existing) (firstSeen existing) whoBlockUTC) m,
            newPlayers)
      else (m, newPlayers)
  end.

Definition setSplit (off : nat) (pending : str) (w : Watcher) : Watcher :=
  mkWatcher off pending (currentZone w) (inWhoBlock w) (whoBlockUTC w) (whoPlayers w)
            (attendanceMap w) (lootEvents w) (zones w) (emitted w).

Definition enterZone (z : str) (ev : Event) (w : Watcher) : Watcher :=
  mkWatcher (offset w) (pendingChunk w) (Some z) false (whoBlockUTC w) (whoPlayers w)
            (attendanceMap w) (lootEvents w) (setAdd (Some z) (zones w))
            (emitted w ++ [ev]).

Definition openBlock (ts : Date) (w : Watcher) : Watcher :=
  mkWatcher (offset w) (pendingChunk w) (currentZone w) true ts []
            (attendanceMap w) (lootEvents w) (zones w) (emitted w).

Definition closeBlock (w : Watcher) : Watcher :=
  mkWatcher (offset w) (pendingChunk w) (currentZone w) false (whoBlockUTC w)
            (whoPlayers w) (attendanceMap w) (lootEvents w) (zones w) (emitted w).

Definition recordRoster (m : jsMap Attendee) (ev : Event) (w : Watcher) : Watcher :=
  mkWatcher (offset w) (pendingChunk w) (currentZone w) (inWhoBlock w) (whoBlockUTC w)
            (whoPlayers w) m (lootEvents w) (zones w) (emitted w ++ [ev]).

Definition pushPlayer (p : Player) (w : Watcher) : Watcher :=
  mkWatcher (offset w) (pendingChunk w) (currentZone w) (inWhoBlock w) (whoBlockUTC w)
            (whoPlayers w ++ [p]) (attendanceMap w) (lootEvents w) (zones w) (emitted w).

Definition pushLoot (l : LootEvent) (t : Z) (w : Watcher) : Watcher :=
  mkWatcher (offset w) (pendingChunk w) (currentZone w) (inWhoBlock w) (whoBlockUTC w)
            (whoPlayers w) (attendanceMap w) (lootEvents w ++ [l]) (zones w)
            (emitted w ++ [EvLoot l t]).

Definition truthy (s : option str) : bool :=
  match s with
  | Some (_ :: _) => true
  | _ => false
  end.

(** [_processLine] from line 118 on, the line having its UTC instant.
    [Threw] is [toISOString] on an Invalid Date while an event is built. *)
Definition classify (cfg : Config) (utcTs : Date) (content : str) (w : Watcher)
  : outcome Watcher :=
  match ZONE_ENTRY_RE content with
  | Some z =>
      match utcTs with
      | Some t => Returned (enterZone z (EvZone (Some z) t) w)
      | None => Threw
      end
  | None =>
      if str_eqb content whoStart then
        Returned (if isInRaidWindow cfg utcTs then openBlock utcTs w else w)
      else if inWhoBlock w then
        if str_eqb content whoSeparator then Returned w
        else
          match WHO_FOOTER_RE content with
          | Some whoZone =>
              let w1 := closeBlock w in
              if negb (isApprovedZone cfg (Some whoZone)) then Returned w1
              else
                let '(m, newPlayers) :=
                  fold_left (upsert (whoBlockUTC w1)) (whoPlayers w1)
                            (attendanceMap w1, []) in
                match whoBlockUTC w1 with
                | Some t =>
                    Returned (recordRoster m
                      (EvAttendance whoZone (List.length m) newPlayers (mapKeys m) t) w1)
                | None => Threw
                end
          | None =>
              match WHO_PLAYER_RE content with
              | Some m => Returned (pushPlayer (playerOfMatch m) w)
              | None => Returned w
              end
          end
      else if negb (isInRaidWindow cfg utcTs) || negb (isApprovedZone cfg (currentZone w))
      then Returned w
      else
        match SELF_LOOT_RE content, truthy (characterName cfg) with
        | Some item, true =>
            match utcTs with
            | Some t => Returned (pushLoot (mkLoot (characterName cfg) item utcTs
                                                   (currentZone w)) t w)
            | None => Threw
            end
        | _, _ =>
            match OTHER_LOOT_RE content with
            | Some (who, item) =>
                match utcTs with
                | Some t => Returned (pushLoot (mkLoot (Some who) item utcTs
                                                       (currentZone w)) t w)
                | None => Threw
                end
            | None => Returned w
            end
        end
  end.

(** [_processLine(line)] *)
Definition processLine (host : Host) (cfg : Config) (w : Watcher) (line : str)
  : outcome Watcher :=
  match LINE_RE line with
  | None => Returned w
  | Some (tsStr, content) =>
      match parseEQDateUTC host tsStr (timezone cfg) with
      | Threw => Threw
      | Returned None => Returned w
      | Returned (Some utcTs) => classify cfg utcTs content w
      end
  end.

(** The [for] loop of [_readNew]; an exception leaves the loop and the
    timer callback that runs it. *)
Fixpoint processLines (host : Host) (cfg : Config) (w : Watcher) (lines : list str)
  : outcome Watcher :=
  match lines with
  | [] => Returned w
  | l :: ls =>
      match processLine host cfg w l with
      | Returned w' => processLines host cfg w' ls
      | Threw => Threw
      end
  end.

Definition LF : ascii := "010"%char.
Definition CR : ascii := "013"%char.

Definition consHead (c : ascii) (ls : list str) : list str :=
  match ls with
  | l :: ls' => (c :: l) :: ls'
  | [] => [[c]]
  end.

(** [text.split(/\r?\n/)]: every LF separates, and takes a CR that
    stands right before it. *)
Fixpoint splitLines (text : str) : list str :=
  match text with
  | [] => [[]]
  | c :: r =>
      if ascii_eqb c LF then [] :: splitLines r
      else if ascii_eqb c CR then
        match r with
        | c2 :: r2 =>
            if ascii_eqb c2 LF then [] :: splitLines r2
            else consHead c (splitLines r)
        | [] => consHead c (splitLines r)
        end
      else consHead c (splitLines r)
  end.

(** *** Decoding a read ([buf.toString('utf8')], line 100)

    A file is a sequence of bytes; a JavaScript string is a sequence of
    UTF-16 code units.  The decoder is the one of the platform: a
    well-formed sequence gives its code point, and every longest prefix
    of an ill-formed one gives one U+FFFD, the end of the buffer cutting
    a sequence short included. *)

Definition REPLACEMENT : N := 65533%N.

(** The code units of a code point. *)
Definition unitsOf (cp : N) : list N :=
  if (cp <? 65536)%N then [cp]
  else [(55296 + (cp - 65536) / 1024)%N; (56320 + (cp - 65536) mod 1024)%N].

(** A sequence begun: the continuation bytes still to come, the bits
    read so far, and the range the next byte must lie in. *)
Record Begun := mkBegun {
  toCome : nat;
  bitsRead : N;
  lowest : N;
  highest : N
}.

(** A byte where a sequence may start. *)
Definition startByte (b : N) : list N * option Begun :=
  if (b <=? 127)%N then ([b], None)
  else if (194 <=? b)%N && (b <=? 223)%N then
    ([], Some (mkBegun 1 (b - 192) 128 191))
  else if (224 <=? b)%N && (b <=? 239)%N then
    ([], Some (mkBegun 2 (b - 224) (if (b =? 224)%N then 160%N else 128%N)
                       (if (b =? 237)%N then 159%N else 191%N)))
  else if (240 <=? b)%N && (b <=? 244)%N then
    ([], Some (mkBegun 3 (b - 240) (if (b =? 240)%N then 144%N else 128%N)
                       (if (b =? 244)%N then 143%N else 191%N)))
  else ([REPLACEMENT], None).

(** One byte: a continuation byte in range goes on with the sequence or
    ends it; any other byte ends it with U+FFFD and is read again as a
    start. *)
Definition decodeByte (st : option Begun) (b : N) : list N * option Begun :=
  match st with
  | None => startByte b
  | Some s =>
      if (lowest s <=? b)%N && (b <=? highest s)%N then
        let bits := (bitsRead s * 64 + (b - 128))%N in
        match toCome s with
        | S (S k) => ([], Some (mkBegun (S k) bits 128 191))
        | _ => (unitsOf bits, None)
        end
      else
        let '(out, st') := startByte b in (REPLACEMENT :: out, st')
  end.

Fixpoint decodeFrom (st : option Begun) (buf : list ascii) : list N :=
  match buf with
  | [] => match st with
          | Some _ => [REPLACEMENT]
          | None => []
          end
  | b :: r =>
      let '(out, st') := decodeByte st (N_of_ascii b) in
      out ++ decodeFrom st' r
  end.

(** [buf.toString('utf8')] as code units. *)
Definition toStringUtf8 (buf : list ascii) : list N := decodeFrom None buf.

(** A text of code units as a string of this development, which holds
    the code units below 256; [None] for a text with any other. *)
Fixpoint inAlphabet (text : list N) : option str :=
  match text with
  | [] => Some []
  | u :: r =>
      if (u <? 256)%N then option_map (cons (ascii_of_N u)) (inAlphabet r)
      else None
  end.

(** [_readNew()] against the current content of the file, a sequence of
    bytes (a failing [stat] or [read] returns without a change and is
    not modelled).  [None]: the read decodes to a text outside the
    strings of this development, which says nothing of it. *)
Definition readNew (host : Host) (cfg : Config) (w : Watcher) (file : list ascii)
  : option (outcome Watcher) :=
  let size := List.length file in
  if Nat.leb size (offset w) then Some (Returned w)
  else
    let buf := skipn (offset w) file in
    match inAlphabet (toStringUtf8 buf) with
    | None => None
    | Some decoded =>
        let text := pendingChunk w ++ decoded in
        let lines := splitLines text in
        let w1 := setSplit size (last lines []) w in
        Some (processLines host cfg w1 (removelast lines))
    end.

(** Bytes that each are a character of their own: those below 128. *)
Definition singleBytes (buf : list ascii) : bool :=
  forallb (fun b => (N_of_ascii b <? 128)%N) buf.

(** Sequencing of two calls that may throw. *)
Definition andThen (A B : Type) (x : outcome A) (f : A -> outcome B) : outcome B :=
  match x with
  | Returned a => f a
  | Threw => Threw
  end.

(** A read after a read: a throw ends the run, as does a text outside
    the strings of this development. *)
Definition thenRead (x : option (outcome Watcher))
    (f : Watcher -> option (outcome Watcher)) : option (outcome Watcher) :=
  match x with
  | Some (Returned w) => f w
  | Some Threw => Some Threw
  | None => None
  end.

(** [getSessionData()]'s attendance and loot. *)
Definition sessionAttendance (w : Watcher) : list Attendee := mapValues (attendanceMap w).

End Live.

(** * Notions used in the statements *)

(** [f] occurs in [s] as a contiguous block. *)
Definition Substring (f s : str) : Prop := exists pre post, s = pre ++ f ++ post.

(** The key a player is stored under, [p.name.toLowerCase()]. *)
Definition hasKey (p : Player) : str := toLowerCase (name p).

(** Every stored record has both bounds in [P]. *)
Definition boundsIn (P : Date -> Prop) (m : jsMap Attendee) : Prop :=
  forall k a, In (k, a) m -> P (firstSeen a) /\ P (lastSeen a).

(** [a] does not sort after [b]. *)
Definition notAfter (A : Type) (cmp : A -> A -> comparison) (a b : A) : Prop :=
  cmp a b <> Gt.

(** What a bucket holds under a key, nothing when there is no bucket. *)
Definition bucketContents (key : str) (sm : jsMap Auto.Session)
  : jsMap Attendee * list LootEvent :=
  match mapGet key sm with
  | Some s => (Auto.attendanceMap s, Auto.loot s)
  | None => ([], [])
  end.

(** Lines that are neither a zone entry nor a roster footer, whatever else
    they are (start markers, roster entries, separators, loot, chatter,
    lines without a timestamp). *)
Definition noZoneEntryNorFooter (blk : list str) : Prop :=
  forall l, In l blk ->
    forall tsStr content, LINE_RE l = Some (tsStr, content) ->
      ZONE_ENTRY_RE content = None /\ WHO_FOOTER_RE content = None.

(** The same, as a test. *)
Definition interiorLine (l : str) : bool :=
  match LINE_RE l with
  | Some (_, c) =>
      match ZONE_ENTRY_RE c, WHO_FOOTER_RE c with
      | None, None => true
      | _, _ => false
      end
  | None => true
  end.

(** Two batch states from which attendance evolves alike: same map, same
    zone, same block flag and, only while a block is open, the same block
    instant and buffer. *)
Definition batch_sim (a b : Batch.State) : Prop :=
  Batch.attendanceMap a = Batch.attendanceMap b /\
  Batch.currentZone a = Batch.currentZone b /\
  Batch.inWhoBlock a = Batch.inWhoBlock b /\
  (Batch.inWhoBlock a = true ->
   Batch.whoBlockTime a = Batch.whoBlockTime b /\ Batch.whoPlayers a = Batch.whoPlayers b).

(** The same for two watchers. *)
Definition live_sim (a b : Live.Watcher) : Prop :=
  Live.attendanceMap a = Live.attendanceMap b /\
  Live.currentZone a = Live.currentZone b /\
  Live.inWhoBlock a = Live.inWhoBlock b /\
  (Live.inWhoBlock a = true ->
   Live.whoBlockUTC a = Live.whoBlockUTC b /\ Live.whoPlayers a = Live.whoPlayers b).

(** Two outcomes that throw together or return related values. *)
Definition outcome_rel {A : Type} (R : A -> A -> Prop) (x y : outcome A) : Prop :=
  match x, y with
  | Returned a, Returned b => R a b
  | Threw, Threw => True
  | _, _ => False
  end.

Definition mapOutcome {A B : Type} (f : A -> B) (x : outcome A) : outcome B :=
  match x with
  | Returned a => Returned (f a)
  | Threw => Threw
  end.

(** The window test spelled out: a valid instant whose UTC day of week is
    one of [days] and whose UTC hour lies in [[startHour, endHour)]. *)
Definition inWindow (days : list Z) (startHour endHour : Z) (d : Date) : Prop :=
  exists t, d = Some t /\
            In ((t / msPerDay + 4) mod 7) days /\
            startHour <= (t / msPerHour) mod 24 < endHour.

Definition autoWindow : Date -> Prop :=
  inWindow Auto.RAID_UTC_DAYS Auto.RAID_UTC_START Auto.RAID_UTC_END.

Definition liveWindow (cfg : Live.Config) : Date -> Prop :=
  inWindow (Live.raidDays cfg) (Live.raidStartUTC cfg) (Live.raidEndUTC cfg).

(** What holds of every bucket: every loot event in it passed the window
    with its own instant and the approved check with its zone, every
    attendance bound is an instant inside the window, and every zone
    listed is approved. *)
Definition sessionGated (s : Auto.Session) : Prop :=
  (forall l, In l (Auto.loot s) ->
     Auto.isInRaidWindow (timestamp l) = true /\ Auto.isApprovedZone (zone l) = true) /\
  boundsIn (fun d => Auto.isInRaidWindow d = true) (Auto.attendanceMap s) /\
  (forall z, In z (Auto.zones s) -> Auto.isApprovedZone z = true).

(** The buckets of a scan: one per key, each under its own date, each
    gated. *)
Definition autoInv (sm : jsMap Auto.Session) : Prop :=
  NoDup (mapKeys sm) /\
  forall k s, In (k, s) sm -> Auto.date s = k /\ sessionGated s.

(** The live watcher's state after any lines: bounds and loot instants lie
    in the window, loot zones are approved, and an open block was opened
    inside the window. *)
Definition liveInv (cfg : Live.Config) (w : Live.Watcher) : Prop :=
  boundsIn (fun d => Live.isInRaidWindow cfg d = true) (Live.attendanceMap w) /\
  (forall l, In l (Live.lootEvents w) ->
     Live.isInRaidWindow cfg (timestamp l) = true /\
     Live.isApprovedZone cfg (zone l) = true) /\
  (Live.inWhoBlock w = true -> Live.isInRaidWindow cfg (Live.whoBlockUTC w) = true).

(** The bounds the calendar conversion relies on, as a test on a day of
    the 400-year era: year of era within 0..399, day of year within
    0..365. *)
Definition eraDayOk (doe : Z) : bool :=
  let yoe := (doe - doe / 1460 + doe / 36524 - doe / 146096) / 365 in
  let doy := doe - (365 * yoe + yoe / 4 - yoe / 100) in
  (0 <=? yoe) && (yoe <=? 399) && (0 <=? doy) && (doy <=? 365).

(** [p] holds of [fuel] consecutive integers from [z] on. *)
Fixpoint holdsFrom (p : Z -> bool) (fuel : nat) (z : Z) : bool :=
  match fuel with
  | O => true
  | S f => p z && holdsFrom p f (z + 1)
  end.

(** A host whose zone display is the wall clock at an offset that may
    depend on the instant (standard and daylight-saving time). *)
Definition offsetHost (off : Z -> Z) : Host :=
  mkHost (fun _ => 0) (fun _ => Some (fun t => fixedZoneDisplay (off t) t)).

(** The offsets of America/Los_Angeles in 2026: UTC-8, and UTC-7 from
    8 March 10:00 UTC to 1 November 09:00 UTC. *)
Definition laOffset (t : Z) : Z :=
  if (1772964000000 <=? t) && (t <? 1793523600000) then -7 * msPerHour
  else -8 * msPerHour.

(** Text without a line feed. *)
Definition noLF (x : str) : Prop := forall c, In c x -> ascii_eqb c Live.LF = false.

(** A line without its terminator: one CR at the end goes with the LF. *)
Fixpoint chomp (x : str) : str :=
  match x with
  | [] => []
  | c :: x' =>
      match x' with
      | [] => if ascii_eqb c Live.CR then [] else [c]
      | _ => c :: chomp x'
      end
  end.

(** * Sample logs and options

    The host is [sampleHost] (process in UTC).  The batch window is
    Thursday 22 January 2026, 00:00 to 24:00. *)

Definition scenarioOpts : Batch.Opts :=
  Batch.mkOpts (Some 1769040000000) (Some 1769126400000) [lit "fungus"] (Some (lit "Lyri")).

(** The same without a character name. *)
Definition nullNameOpts : Batch.Opts :=
  Batch.mkOpts (Some 1769040000000) (Some 1769126400000) [lit "fungus"] None.

Definition utcOpts : Auto.Opts := Auto.mkOpts (Some (lit "UTC")) (Some (lit "Lyri")).

Definition liveConfig : Live.Config :=
  Live.mkConfig (Some (lit "UTC")) (Some (lit "Lyri"))
                (map normalizeZone Auto.APPROVED_ZONES) Live.defaultRaidDays 13 17.

Definition scenarioA : list str :=
  [ lit "[Thu Jan 22 20:54:23 2026] You have entered The Fungus Grove.";
    lit "[Thu Jan 22 20:54:27 2026] Players on EverQuest:";
    lit "[Thu Jan 22 20:54:27 2026] ---------------------------";
    lit "[Thu Jan 22 20:54:27 2026] [60 Virtuoso] Lyri (Vah Shir) <Intervention>";
    lit "[Thu Jan 22 20:54:27 2026] [ANONYMOUS] Risingdarkness  <Intervention>";
    lit "[Thu Jan 22 20:54:27 2026] There are 2 players in Fungus Grove." ].

Definition scenarioC : list str :=
  [ lit "[Wed Jan 21 13:59:00 2026] You have entered The Deep.";
    lit "[Wed Jan 21 14:00:00 2026] --Risingdarkness has looted a Phase Spider Blood.--";
    lit "[Wed Jan 21 18:00:00 2026] --Risingdarkness has looted a Shiknar Ichor.--" ].

Definition scenarioCResult : Auto.Result :=
  match Auto.autoParseLog sampleHost utcOpts scenarioC with
  | Returned r => r
  | Threw => Auto.mkResult [] 0
  end.

Definition scenarioCSession : Auto.RaidSession :=
  Auto.mkRaidSession (lit "2026-01-21") (lit "Wednesday") [Some (lit "The Deep")] []
    [ mkLoot (Some (lit "Risingdarkness")) (lit "Phase Spider Blood")
             (Some 1769004000000) (Some (lit "The Deep")) ]
    (Some 1769004000000) (Some 1769004000000).

(** Lyri sighted twice, with different fields and spelling. *)
Definition twoSightings : list str :=
  [ lit "[Thu Jan 22 20:54:23 2026] You have entered The Fungus Grove.";
    lit "[Thu Jan 22 20:54:27 2026] Players on EverQuest:";
    lit "[Thu Jan 22 20:54:27 2026] [59 Virtuoso] Lyri (Vah Shir) <Intervention>";
    lit "[Thu Jan 22 20:54:27 2026] There are 1 players in Fungus Grove.";
    lit "[Thu Jan 22 21:30:00 2026] Players on EverQuest:";
    lit "[Thu Jan 22 21:30:00 2026] [60 Virtuoso] LYRI";
    lit "[Thu Jan 22 21:30:00 2026] There are 1 players in Fungus Grove." ].

(** Lyri sighted twice inside the raid window, the second block carrying
    the earlier instant. *)
Definition laterThenEarlier : list str :=
  [ lit "[Wed Jan 21 13:00:00 2026] You have entered The Deep.";
    lit "[Wed Jan 21 14:00:00 2026] Players on EverQuest:";
    lit "[Wed Jan 21 14:00:00 2026] [60 Virtuoso] Lyri (Vah Shir) <Intervention>";
    lit "[Wed Jan 21 14:00:00 2026] There are 1 players in The Deep.";
    lit "[Wed Jan 21 13:30:00 2026] Players on EverQuest:";
    lit "[Wed Jan 21 13:30:00 2026] [60 Virtuoso] Lyri (Vah Shir) <Intervention>";
    lit "[Wed Jan 21 13:30:00 2026] There are 1 players in The Deep." ].

Definition lyri60 : Player :=
  mkPlayer (lit "Lyri") (Some (Finite 60)) (Some (lit "Virtuoso")) (Some (lit "Vah Shir"))
           (Some (lit "Intervention")).

(** A zone entered outside the batch window, then loot inside it. *)
Definition staleZoneLines : list str :=
  [ lit "[Thu Jan 22 20:00:00 2026] You have entered The Fungus Grove.";
    lit "[Fri Jan 23 09:00:00 2026] You have entered The Bazaar.";
    lit "[Thu Jan 22 21:00:00 2026] --You have looted a Shiknar Ichor.--" ].

(** A roster block that never closes, then self-loot. *)
Definition unclosedBlockLoot : list str :=
  [ lit "[Thu Jan 22 20:54:23 2026] You have entered The Fungus Grove.";
    lit "[Thu Jan 22 20:54:27 2026] Players on EverQuest:";
    lit "[Thu Jan 22 20:55:00 2026] --You have looted a Shiknar Ichor.--" ].

(** Auto mode without a character name: loot in one approved zone, then
    self-loot in another. *)
Definition noNameOpts : Auto.Opts := Auto.mkOpts (Some (lit "UTC")) None.

Definition selfLootNoName : list str :=
  [ lit "[Wed Jan 21 13:59:00 2026] You have entered The Deep.";
    lit "[Wed Jan 21 14:00:00 2026] --Risingdarkness has looted a Phase Spider Blood.--";
    lit "[Wed Jan 21 14:30:00 2026] You have entered Sebilis.";
    lit "[Wed Jan 21 14:31:00 2026] --You have looted a Shiknar Ichor.--" ].

(** A roster block cut short by a zone entry, a stray footer, and a
    complete block. *)
Definition abortedBlockLines : list str :=
  [ lit "[Thu Jan 22 20:54:27 2026] Players on EverQuest:";
    lit "[Thu Jan 22 20:54:27 2026] ---------------------------";
    lit "[Thu Jan 22 20:54:27 2026] [60 Virtuoso] Lyri (Vah Shir) <Intervention>";
    lit "[Thu Jan 22 20:54:27 2026] [ANONYMOUS] Risingdarkness  <Intervention>" ].

Definition zoneEntryLine : str :=
  lit "[Thu Jan 22 20:54:30 2026] You have entered The Fungus Grove.".

Definition afterAbort : list str :=
  [ lit "[Thu Jan 22 20:55:00 2026] There are 2 players in Fungus Grove.";
    lit "[Thu Jan 22 20:56:00 2026] Players on EverQuest:";
    lit "[Thu Jan 22 20:56:00 2026] [55 Minstrel] Tunare";
    lit "[Thu Jan 22 20:56:00 2026] There are 1 players in Fungus Grove." ].

(** The same block with a zone entry stamped outside the batch window
    between its entries and its footer. *)
Definition zoneEntryOutsideWindow : list str :=
  [ lit "[Thu Jan 22 20:54:27 2026] Players on EverQuest:";
    lit "[Thu Jan 22 20:54:27 2026] [60 Virtuoso] Lyri (Vah Shir) <Intervention>";
    lit "[Fri Jan 23 09:00:00 2026] You have entered The Bazaar.";
    lit "[Thu Jan 22 20:55:00 2026] There are 1 players in Fungus Grove." ].

(** Sessions met out of date order, and a day with chatter only. *)
Definition unorderedDates : list str :=
  [ lit "[Fri Jan 23 14:00:00 2026] You have entered The Deep.";
    lit "[Fri Jan 23 14:01:00 2026] --Risingdarkness has looted a Phase Spider Blood.--";
    lit "[Wed Jan 21 14:00:00 2026] --Tunare has looted a Shiknar Ichor.--";
    lit "[Sat Jan 24 14:00:00 2026] You say, 'nothing dropped'" ].

Definition unorderedResult : Auto.Result :=
  match Auto.autoParseLog sampleHost utcOpts unorderedDates with
  | Returned r => r
  | Threw => Auto.mkResult [] 0
  end.

(** Two writes to a watched file: a complete line with the beginning of
    the next, then the rest of it. *)
Definition firstLine : str :=
  lit "[Wed Jan 21 14:00:00 2026] You have entered The Deep.".

Definition partialLine : str := lit "[Wed Jan 21 14:01:00 2026] --Tunare has loo".

Definition restOfLine : str := lit "ted a Shiknar Ichor.--".

(** A zone entry whose zone name ends in U+00E9, two bytes in the file,
    written in two parts that fall between the two. *)
Definition cafeText : str := lit "[Wed Jan 21 14:01:00 2026] You have entered Caf".

Definition eAcute : ascii := ascii_of_N 233.

Definition cafeStart : list ascii := cafeText ++ [ascii_of_N 195].

Definition cafeEnd : list ascii := ascii_of_N 169 :: lit ".".
(** * The callers and the rest of the watcher

    What surrounds the three scanners: the zone list and the time
    window the callers of [parseLog] build from user input, the reads
    and [getSessionData] of [LogWatcher], and the notions the whole-run
    properties are stated with. *)

(** ** Zone lists as the callers prepare them
    ([commands/raids.js] 343, [parse-local.js] 379) *)

Definition prependTo (c : ascii) (pieces : list str) : list str :=
  match pieces with
  | p :: ps => (c :: p) :: ps
  | [] => [[c]]
  end.

(** [s.split(sep)] for a separator of one character: the pieces between
    its occurrences, one (empty) piece for the empty text. *)
Fixpoint splitOn (sep : ascii) (s : str) : list str :=
  match s with
  | [] => [[]]
  | c :: r => if ascii_eqb c sep then [] :: splitOn sep r
              else prependTo c (splitOn sep r)
  end.

(** [Boolean(s)] on a string. *)
Definition nonEmptyText (s : str) : bool :=
  match s with
  | [] => false
  | _ :: _ => true
  end.

(** [zoneInput.split(',').map(z => z.trim()).filter(Boolean)] *)
Definition prepareZones (zoneInput : str) : list str :=
  filter nonEmptyText (map trim (splitOn "," zoneInput)).

(** Some character of the text is not white space. *)
Definition hasInk (s : str) : bool := existsb (fun c => negb (isSpace c)) s.

(** The text ends in a character that is not white space. *)
Definition endsInInk (s : str) : bool :=
  match rev s with
  | c :: _ => negb (isSpace c)
  | [] => false
  end.

(** ** Which tests of the loop body a content passes *)

Definition matched (A : Type) (r : option A) : bool :=
  match r with
  | Some _ => true
  | None => false
  end.

(** The seven tests the loop bodies apply to a content, in their order:
    zone entry, block start, separator, footer, roster entry, self-loot,
    other loot. *)
Definition contentTests (content : str) : list bool :=
  [ matched (ZONE_ENTRY_RE content);
    str_eqb content whoStart;
    str_eqb content whoSeparator;
    matched (WHO_FOOTER_RE content);
    matched (WHO_PLAYER_RE content);
    matched (SELF_LOOT_RE content);
    matched (OTHER_LOOT_RE content) ].

Definition countTrue (bs : list bool) : nat := List.length (filter (fun b => b) bs).

(** ** Anatomy of a timestamp and of a roster line

    The texts the line patterns are made for, built from their parts as
    the header of [parser.js] shows them. *)

Record Stamp := mkStamp {
  weekday : str;
  monthName : str;
  gap : str;
  dayDigits : str;
  hourDigits : str;
  minuteDigits : str;
  secondDigits : str;
  yearDigits : str
}.

(** [Thu Jan 22 20:54:23 2026] without its brackets. *)
Definition stampText (s : Stamp) : str :=
  weekday s ++ lit " " ++ monthName s ++ gap s ++ dayDigits s ++ lit " "
  ++ hourDigits s ++ lit ":" ++ minuteDigits s ++ lit ":" ++ secondDigits s
  ++ lit " " ++ yearDigits s.

Definition wordsOfLength (n : nat) (x : str) : bool :=
  Nat.eqb (List.length x) n && forallb isWord x.

Definition digitsOfLength (n : nat) (x : str) : bool :=
  Nat.eqb (List.length x) n && forallb isDigit x.

(** Three word characters twice, a run of at least one space, one or two
    digits, and digits in twos and a four. *)
Definition wellFormedStamp (s : Stamp) : bool :=
  wordsOfLength 3 (weekday s) && wordsOfLength 3 (monthName s)
  && nonEmptyText (gap s) && forallb isBlank (gap s)
  && (digitsOfLength 1 (dayDigits s) || digitsOfLength 2 (dayDigits s))
  && digitsOfLength 2 (hourDigits s) && digitsOfLength 2 (minuteDigits s)
  && digitsOfLength 2 (secondDigits s) && digitsOfLength 4 (yearDigits s).

(** A log line: the bracketed timestamp, one space, the content. *)
Definition lineText (ts content : str) : str := lit "[" ++ ts ++ lit "] " ++ content.

(** An optional part of a roster line with the white space before it. *)
Definition optionalPart (opening closing : str) (x : option str) : str :=
  match x with
  | Some g => lit " " ++ opening ++ g ++ closing
  | None => []
  end.

(** [[60 Virtuoso] Lyri (Vah Shir) <Intervention>] and its variants:
    [levelClass] is the level digits and the class, or absent for
    [ANONYMOUS]. *)
Definition rosterText (levelClass : option (str * str)) (nm : str)
    (rc gd : option str) : str :=
  lit "["
  ++ match levelClass with
     | Some (l, c) => l ++ lit " " ++ c
     | None => lit "ANONYMOUS"
     end
  ++ lit "] " ++ nm ++ optionalPart (lit "(") (lit ")") rc
  ++ optionalPart (lit "<") (lit ">") gd.

Definition without (closing : ascii) (x : str) : bool :=
  nonEmptyText x && forallb (fun c => negb (ascii_eqb closing c)) x.

Definition optionalOk (closing : ascii) (x : option str) : bool :=
  match x with
  | Some g => without closing g
  | None => true
  end.

Definition rosterOk (levelClass : option (str * str)) (nm : str)
    (rc gd : option str) : bool :=
  match levelClass with
  | Some (l, c) => nonEmptyText l && forallb isDigit l && without "]" c
  | None => true
  end
  && nonEmptyText nm && forallb isNameChar nm
  && optionalOk ")" rc && optionalOk ">" gd.

(** ** Notions for the whole-run properties *)

(** [firstSeen] is not after [lastSeen]. *)
Definition spanOrdered (a : Attendee) : Prop :=
  date_gt (firstSeen a) (lastSeen a) = false.

(** An attendance map whose every entry sits under the lowercased name
    of its record, has its bounds in order and in [P], and holds a player
    in [R]. *)
Definition soundRecords (P : Date -> Prop) (R : Player -> Prop)
    (m : jsMap Attendee) : Prop :=
  NoDup (mapKeys m) /\
  forall k a, In (k, a) m ->
    k = hasKey (player a) /\ spanOrdered a /\ R (player a) /\
    P (firstSeen a) /\ P (lastSeen a).

(** No two records of the list have the same name up to letter case. *)
Definition namesDistinct (l : list Attendee) : Prop :=
  NoDup (map (fun a => hasKey (player a)) l).

(** The instant passes the time window of the batch parser: it is
    neither before [startTime] nor after [endTime]. *)
Definition inBatchWindow (opts : Batch.Opts) (d : Date) : Prop :=
  date_lt d (Batch.startTime opts) = false /\ date_gt d (Batch.endTime opts) = false.

(** The player was read from a roster line among [lines]. *)
Definition rosterLineOf (lines : list str) (p : Player) : Prop :=
  exists line ts content m,
    In line lines /\ LINE_RE line = Some (ts, content) /\
    WHO_PLAYER_RE content = Some m /\ p = playerOfMatch m.

(** The loot event was read from a loot line among [lines]: the item is
    the line's, the looter is the line's or, for self-loot, the
    character name given by the caller. *)
Definition lootLineOf (lines : list str) (characterName : option str)
    (l : LootEvent) : Prop :=
  exists line ts content,
    In line lines /\ LINE_RE line = Some (ts, content) /\
    ((SELF_LOOT_RE content = Some (itemName l) /\ playerName l = characterName) \/
     (exists who, OTHER_LOOT_RE content = Some (who, itemName l) /\
                  playerName l = Some who)).

(** What the batch loop keeps true of its variables. *)
Definition batchInv (P : Date -> Prop) (R : Player -> Prop) (L : LootEvent -> Prop)
    (st : Batch.State) : Prop :=
  soundRecords P R (Batch.attendanceMap st) /\
  (forall l, In l (Batch.lootEvents st) -> L l) /\
  (forall p, In p (Batch.whoPlayers st) -> R p) /\
  (Batch.inWhoBlock st = true -> P (Batch.whoBlockTime st)).

(** The loot event a content gives at instant [ts] in zone [zone], as the
    batch loop builds it. *)
Definition lootOfContent (characterName : option str) (ts : Date)
    (zone : option str) (content : str) (l : LootEvent) : Prop :=
  (exists item, SELF_LOOT_RE content = Some item /\
                l = mkLoot characterName item ts zone) \/
  (exists who item, OTHER_LOOT_RE content = Some (who, item) /\
                    l = mkLoot (Some who) item ts zone).

(** The bucket [getSession] creates for the instant [t], and a bucket
    with its [lastSeen] moved to [t]. *)
Definition freshSession (t : Z) : Auto.Session :=
  Auto.mkSession (isoDate t) (nth (Z.to_nat ((t / msPerDay + 4) mod 7)) Auto.DAY_NAMES [])
                 [] [] [] (Some t) (Some t).

Definition withLastSeen (t : Z) (s : Auto.Session) : Auto.Session :=
  Auto.mkSession (Auto.date s) (Auto.dayName s) (Auto.attendanceMap s) (Auto.loot s)
                 (Auto.zones s) (Auto.firstSeen s) (Some t).

(** Every bucket of the session map is in [Q]. *)
Definition allSessions (Q : Auto.Session -> Prop) (sm : jsMap Auto.Session) : Prop :=
  forall k s, In (k, s) sm -> Q s.

(** What the auto loop keeps true: the buckets are keyed by their own
    date and gated, every bucket is in [Q], the buffered players are in
    [R], and an open block was opened inside the raid window. *)
Definition autoKeeps (Q : Auto.Session -> Prop) (R : Player -> Prop)
    (st : Auto.State) : Prop :=
  autoInv (Auto.sessionMap st) /\
  allSessions Q (Auto.sessionMap st) /\
  (forall p, In p (Auto.whoPlayers st) -> R p) /\
  (Auto.inWhoBlock st = true -> Auto.isInRaidWindow (Auto.whoBlockUTC st) = true).

(** The same for the watcher. *)
Definition liveKeeps (P : Date -> Prop) (R : Player -> Prop) (L : LootEvent -> Prop)
    (cfg : Live.Config) (w : Live.Watcher) : Prop :=
  soundRecords P R (Live.attendanceMap w) /\
  (forall l, In l (Live.lootEvents w) -> L l) /\
  (forall p, In p (Live.whoPlayers w) -> R p) /\
  (Live.inWhoBlock w = true -> Live.isInRaidWindow cfg (Live.whoBlockUTC w) = true).

(** ** Growth of results *)

(** [a] is not later than [b]; an Invalid Date only compares with
    itself. *)
Definition notLater (a b : Date) : Prop :=
  match a, b with
  | Some x, Some y => x <= y
  | None, None => True
  | _, _ => False
  end.

(** [e'] is [e] with the same player and bounds that moved outward, if
    at all. *)
Definition widened (e e' : Attendee) : Prop :=
  player e' = player e /\
  notLater (firstSeen e') (firstSeen e) /\ notLater (lastSeen e) (lastSeen e').

(** [l'] is [l] with elements added at its end. *)
Definition listGrows (A : Type) (l l' : list A) : Prop := exists added, l' = l ++ added.

(** An entry and what became of it: the same key, the record widened. *)
Definition keptEntry (x y : str * Attendee) : Prop :=
  fst y = fst x /\ widened (snd x) (snd y).

(** [m'] holds the entries of [m] at their places, each under its key
    and widened, followed by added entries. *)
Definition recordsGrow (m m' : jsMap Attendee) : Prop :=
  exists kept added, m' = kept ++ added /\ Forall2 keptEntry m kept.

(** ** What a session says about itself *)

(** The instant is valid and falls on the UTC calendar date [key]. *)
Definition onDate (key : str) (d : Date) : Prop :=
  exists t, d = Some t /\ isoDate t = key.

(** The bucket's own fields agree with each other and with its
    contents: [firstSeen] and [lastSeen] are instants of the raid window
    on the bucket's date, in this order, the day name is that of the
    date, and every loot instant and attendance bound falls on the
    date. *)
Definition sessionDated (s : Auto.Session) : Prop :=
  (exists t t',
     Auto.firstSeen s = Some t /\ Auto.lastSeen s = Some t' /\ t <= t' /\
     isoDate t = Auto.date s /\ isoDate t' = Auto.date s /\
     Auto.dayName s = nth (Z.to_nat ((t / msPerDay + 4) mod 7)) Auto.DAY_NAMES [] /\
     Auto.isInRaidWindow (Some t) = true /\ Auto.isInRaidWindow (Some t') = true) /\
  (forall l, In l (Auto.loot s) -> onDate (Auto.date s) (timestamp l)) /\
  boundsIn (onDate (Auto.date s)) (Auto.attendanceMap s).

(** The day names of the raid schedule. *)
Definition raidDayNames : list str :=
  [lit "Sunday"; lit "Wednesday"; lit "Friday"; lit "Saturday"].

(** ** What a listener of the watcher's events can rebuild *)

(** The loot events published, in order. *)
Definition lootOfEvents (es : list Live.Event) : list LootEvent :=
  flat_map (fun e => match e with
                     | Live.EvLoot l _ => [l]
                     | _ => []
                     end) es.

(** The zones of the zone events published, each once, in order of first
    appearance. *)
Definition zonesOfEvents (es : list Live.Event) : list (option str) :=
  fold_left (fun zs e => match e with
                         | Live.EvZone z _ => setAdd z zs
                         | _ => zs
                         end) es [].

(** [total] and [allPlayers] of the last attendance event published. *)
Definition lastRoster (es : list Live.Event) : option (nat * list str) :=
  fold_left (fun acc e => match e with
                          | Live.EvAttendance _ total _ allPlayers _ => Some (total, allPlayers)
                          | _ => acc
                          end) es None.

(** The state agrees with the events published so far. *)
Definition mirrorsEvents (w : Live.Watcher) : Prop :=
  Live.lootEvents w = lootOfEvents (Live.emitted w) /\
  Live.zones w = zonesOfEvents (Live.emitted w) /\
  match lastRoster (Live.emitted w) with
  | Some (total, allPlayers) =>
      total = List.length (Live.attendanceMap w) /\
      allPlayers = mapKeys (Live.attendanceMap w)
  | None => Live.attendanceMap w = []
  end /\
  (forall l t, In (Live.EvLoot l t) (Live.emitted w) -> timestamp l = Some t).

(** ** Sample runs *)

(** The value a call returned, [d] if it threw. *)
Definition returnedOr (A : Type) (d : A) (x : outcome A) : A :=
  match x with
  | Returned a => a
  | Threw => d
  end.

(** The watcher after the lines of [laterThenEarlier]. *)
Definition sampleWatcher : Live.Watcher :=
  returnedOr (Live.create 0)
    (Live.processLines sampleHost liveConfig (Live.create 0) laterThenEarlier).

(** ** Reads of the watched file *)

(** Complete lines as they stand in a file, each followed by a line
    feed. *)
Definition joinLines (ls : list str) : str :=
  List.concat (map (fun l => l ++ [Live.LF]) ls).

(** The text carried over from the last read goes before the first line. *)
Definition withCarry (carry : str) (ls : list str) : list str :=
  match ls with
  | [] => []
  | l :: r => (carry ++ l) :: r
  end.

(** What is carried over after a read of the complete lines [ls] and the
    unfinished text [partial]. *)
Definition carryAfter (carry : str) (ls : list str) (partial : str) : str :=
  match ls with
  | [] => carry ++ partial
  | _ :: _ => partial
  end.

(** ** The watcher's snapshot: [getSessionData] ([log-watcher.js] 217-237) *)

(** [d.toISOString()] of a valid date: [YYYY-MM-DDTHH:mm:ss.sssZ], the
    year in the expanded form of six digits and a sign outside
    0..9999. *)
Definition toISOString (t : Z) : str :=
  let '(y, m, d) := civilFromDays (t / msPerDay) in
  (if (0 <=? y) && (y <=? 9999) then padDigits 4 y
   else (if y <? 0 then lit "-" else lit "+") ++ padDigits 6 (Z.abs y))
  ++ lit "-" ++ padDigits 2 m ++ lit "-" ++ padDigits 2 d
  ++ lit "T" ++ padDigits 2 ((t / msPerHour) mod 24)
  ++ lit ":" ++ padDigits 2 ((t / msPerMinute) mod 60)
  ++ lit ":" ++ padDigits 2 ((t / msPerSecond) mod 60)
  ++ lit "." ++ padDigits 3 (t mod msPerSecond) ++ lit "Z".

(** [Math.min(v, ...vs)] and [Math.max(v, ...vs)] with [pick] the lesser
    or the greater of two numbers: NaN as soon as one argument is. *)
Definition pickNumber (pick : Z -> Z -> Z) (a b : timeValue) : timeValue :=
  match a, b with
  | Some x, Some y => Some (pick x y)
  | _, _ => None
  end.

Definition Math_min (v : timeValue) (vs : list timeValue) : timeValue :=
  fold_left (pickNumber Z.min) vs v.

Definition Math_max (v : timeValue) (vs : list timeValue) : timeValue :=
  fold_left (pickNumber Z.max) vs v.

(** [new Date(value)] of a number. *)
Definition dateOfNumber (v : timeValue) : Date :=
  match v with
  | Some t => TimeClip t
  | None => None
  end.

Module Snapshot.

Definition dayNames : list str :=
  [lit "Sunday"; lit "Monday"; lit "Tuesday"; lit "Wednesday"; lit "Thursday";
   lit "Friday"; lit "Saturday"].

(** [new Date(Math.min(...attendance.map(a => a.firstSeen.getTime())))],
    [new Date()] when there is no record; [now] is the clock's reading. *)
Definition earliest (now : Z) (attendance : list Attendee) : Date :=
  match map (fun a => firstSeen a) attendance with
  | [] => Some now
  | v :: vs => dateOfNumber (Math_min v vs)
  end.

Definition latest (now : Z) (attendance : list Attendee) : Date :=
  match map (fun a => lastSeen a) attendance with
  | [] => Some now
  | v :: vs => dateOfNumber (Math_max v vs)
  end.

Record SessionData := mkSessionData {
  date : str;
  dayName : str;
  zones : list (option str);
  attendance : list Attendee;
  loot : list LootEvent;
  firstSeen : str;
  lastSeen : str
}.

(** [getSessionData()]; [Threw] is [toISOString] on an Invalid Date. *)
Definition getSessionData (now : Z) (w : Live.Watcher) : outcome SessionData :=
  let attendance := mapValues (Live.attendanceMap w) in
  match earliest now attendance, latest now attendance with
  | Some f, Some l =>
      Returned (mkSessionData (firstn 10 (toISOString f))
                              (nth (Z.to_nat ((f / msPerDay + 4) mod 7)) dayNames [])
                              (Live.zones w) attendance (Live.lootEvents w)
                              (toISOString f) (toISOString l))
  | _, _ => Threw
  end.

End Snapshot.

(** The instant is a time value a Date can hold. *)
Definition clipped (d : Date) : Prop :=
  match d with
  | Some t => TimeClip t = Some t
  | None => True
  end.

(** Every instant the watcher holds is one a Date can hold. *)
Definition datesClipped (w : Live.Watcher) : Prop :=
  soundRecords clipped (fun _ => True) (Live.attendanceMap w) /\
  clipped (Live.whoBlockUTC w).

(** ** The watcher beside [autoParseLog] *)

(** The gates [web-app.js] gives the watcher by default (its
    [DEFAULT_CONFIG], lines 18-26): the approved zones, raid days and raid
    hours [autoParseLog] has built in. *)
Definition defaultGates (cfg : Live.Config) : Prop :=
  Live.approvedZoneFilters cfg = Auto.APPROVED_ZONE_FILTERS /\
  Live.raidDays cfg = Auto.RAID_UTC_DAYS /\
  Live.raidStartUTC cfg = Auto.RAID_UTC_START /\
  Live.raidEndUTC cfg = Auto.RAID_UTC_END.

(** The loot event's instant falls on the UTC calendar date [key]. *)
Definition lootOn (key : str) (l : LootEvent) : bool :=
  match timestamp l with
  | Some t => str_eqb (isoDate t) key
  | None => false
  end.

(** The scan of [autoParseLog] and the watcher stand at the same point:
    the same current zone, a roster block open in both or in neither,
    and under every date the bucket's loot is the watcher's loot of that
    date, in the same order. *)
Definition sameProgress (st : Auto.State) (w : Live.Watcher) : Prop :=
  Auto.currentZone st = Live.currentZone w /\
  Auto.inWhoBlock st = Live.inWhoBlock w /\
  forall key, snd (bucketContents key (Auto.sessionMap st))
              = filter (lootOn key) (Live.lootEvents w).

(** ** The time window of the callers of [parseLog]
    ([commands/raids.js] 249-267 and 324-340, [parse-local.js] 321-334
    and 371-377) *)

(** [^(\d{4})-(\d{1,2})-(\d{1,2})$]: the groups year, month, day. *)
Definition isoDateShape (s : str) : option (str * str * str) :=
  '(y, r1) <- times 4 (one isDigit) s ;;
  '(_, r2) <- chr "-" r1 ;;
  '(m, r3) <- digits12 r2 ;;
  '(_, r4) <- chr "-" r3 ;;
  '(d, r5) <- digits12 r4 ;;
  match r5 with
  | [] => Some (y, m, d)
  | _ :: _ => None
  end.

(** [^(\d{1,2})\/(\d{1,2})\/(\d{4})$]: the groups month, day, year. *)
Definition usDateShape (s : str) : option (str * str * str) :=
  '(m, r1) <- digits12 s ;;
  '(_, r2) <- chr "/" r1 ;;
  '(d, r3) <- digits12 r2 ;;
  '(_, r4) <- chr "/" r3 ;;
  '(y, r5) <- times 4 (one isDigit) r4 ;;
  match r5 with
  | [] => Some (m, d, y)
  | _ :: _ => None
  end.

(** [^(\d{1,2}):(\d{2})(?::(\d{2}))?$]: the groups hours, minutes and the
    seconds, which may be missing. *)
Definition timeShape (s : str) : option (str * str * option str) :=
  '(h, r1) <- digits12 s ;;
  '(_, r2) <- chr ":" r1 ;;
  '(mi, r3) <- times 2 (one isDigit) r2 ;;
  match r3 with
  | [] => Some (h, mi, None)
  | _ :: _ =>
      '(_, r4) <- chr ":" r3 ;;
      '(sec, r5) <- times 2 (one isDigit) r4 ;;
      match r5 with
      | [] => Some (h, mi, Some sec)
      | _ :: _ => None
      end
  end.

(** [LocalTime(t)]; [offsetAt] is [LocalTZA(t, true)], the offset of the
    process's zone at the UTC instant [t]. *)
Definition LocalTime (offsetAt : Z -> Z) (t : Z) : Z := t + offsetAt t.

(** [UTC(t)] of a local time value. *)
Definition UTC (host : Host) (t : Z) : Z := t - localTZA host t.

(** [date.setHours(hour, min, sec, 0)]: the Date's new value. *)
Definition setHours (host : Host) (offsetAt : Z -> Z) (date : Date)
    (hour min sec : Z) : Date :=
  match date with
  | Some t =>
      TimeClip (UTC host (MakeDate (LocalTime offsetAt t / msPerDay) (MakeTime hour min sec)))
  | None => None
  end.

(** [date.getDate()]; [None] is NaN. *)
Definition getDate (offsetAt : Z -> Z) (date : Date) : option Z :=
  match date with
  | Some t => let '(_, _, d) := civilFromDays (LocalTime offsetAt t / msPerDay) in Some d
  | None => None
  end.

(** [date.setDate(dt)]: the Date's new value. *)
Definition setDate (host : Host) (offsetAt : Z -> Z) (date : Date) (dt : option Z) : Date :=
  match date, dt with
  | Some t, Some n =>
      let lt := LocalTime offsetAt t in
      let '(y, m, _) := civilFromDays (lt / msPerDay) in
      TimeClip (UTC host (MakeDate (MakeDay y (m - 1) n) (lt mod msPerDay)))
  | _, _ => None
  end.

(** [a <= b] on two Dates. *)
Definition date_le (a b : Date) : bool :=
  match a, b with
  | Some x, Some y => x <=? y
  | _, _ => false
  end.

(** [parseDate(str)]; [None] is [null]. *)
Definition parseDate (host : Host) (s : str) : option Date :=
  match isoDateShape s with
  | Some (y, m, d) =>
      Some (newDateLocal host (toNumber y) (Some (toNumber m - 1)) (toNumber d) 0 0 0)
  | None =>
      match usDateShape s with
      | Some (m, d, y) =>
          Some (newDateLocal host (toNumber y) (Some (toNumber m - 1)) (toNumber d) 0 0 0)
      | None => None
      end
  end.

(** [+(m[3] || 0)] *)
Definition secondsOf (g : option str) : Z :=
  match g with
  | Some sec => toNumber sec
  | None => 0
  end.

(** [applyTime(date, timeStr)]: [None] when it returns [false] and
    leaves the Date alone, otherwise the Date's new value. *)
Definition applyTime (host : Host) (offsetAt : Z -> Z) (date : Date) (timeStr : str)
  : option Date :=
  match timeShape timeStr with
  | Some (h, mi, sec) =>
      Some (setHours host offsetAt date (toNumber h) (toNumber mi) (secondsOf sec))
  | None => None
  end.

(** The [startTime] and [endTime] both callers hand to [parseLog]; [None]
    when the date or a time is refused. *)
Definition timeWindow (host : Host) (offsetAt : Z -> Z) (dateStr startStr endStr : str)
  : option (Date * Date) :=
  match parseDate host dateStr with
  | None => None
  | Some date =>
      match applyTime host offsetAt date startStr with
      | None => None
      | Some startDate =>
          match applyTime host offsetAt date endStr with
          | None => None
          | Some endDate =>
              Some (startDate,
                    if date_le endDate startDate
                    then setDate host offsetAt endDate
                                 (option_map (Z.add 1) (getDate offsetAt endDate))
                    else endDate)
          end
      end
  end.

(** The milliseconds into the day of a time text's groups. *)
Definition timeOfDay (g : str * str * option str) : Z :=
  let '(h, mi, sec) := g in MakeTime (toNumber h) (toNumber mi) (secondsOf sec).

(** The groups spell a time of the clock: at most 23 hours, 59 minutes
    and 59 seconds. *)
Definition clockTime (g : str * str * option str) : Prop :=
  let '(h, mi, sec) := g in
  toNumber h <= 23 /\ toNumber mi <= 59 /\ secondsOf sec <= 59.

(** * Properties *)

Unset Implicit Arguments.

(** ** Strings *)

Lemma ascii_eqb_eq a b : ascii_eqb a b = true <-> a = b.
Proof. apply Ascii.eqb_eq. Qed.

Lemma stripPrefix_Some p : forall s r, stripPrefix p s = Some r <-> s = p ++ r.
Proof.
  induction p as [|a p IH]; intros s r; simpl.
  - split; [intros [= ->]; reflexivity | intros ->; reflexivity].
  - destruct s as [|b s]; [split; discriminate|].
    destruct (ascii_eqb a b) eqn:E.
    + apply ascii_eqb_eq in E; subst b. rewrite IH.
      split; [intros ->; reflexivity | intros [= ->]; reflexivity].
    + split; [discriminate|]. intros [= -> _].
      assert (ascii_eqb a a = true) by (apply ascii_eqb_eq; reflexivity).
      congruence.
Qed.

Lemma code_inj x y : code x = code y -> x = y.
Proof.
  unfold code. intros H.
  rewrite <- (ascii_nat_embedding x), <- (ascii_nat_embedding y). now f_equal.
Qed.

Lemma ascii_eqb_code a b : ascii_eqb a b = Nat.eqb (code a) (code b).
Proof.
  destruct (ascii_eqb a b) eqn:E.
  - apply ascii_eqb_eq in E. subst. now rewrite Nat.eqb_refl.
  - symmetry. apply Nat.eqb_neq. intros H. apply code_inj in H. subst.
    assert (ascii_eqb b b = true) by now apply ascii_eqb_eq. congruence.
Qed.

Lemma startsWith_spec s p : startsWith s p = true <-> exists r, s = p ++ r.
Proof.
  unfold startsWith. destruct (stripPrefix p s) as [r|] eqn:E.
  - apply stripPrefix_Some in E. split; eauto.
  - split; [discriminate|]. intros [r Hr].
    apply stripPrefix_Some in Hr. congruence.
Qed.

Lemma includes_spec s : forall f, includes s f = true <-> Substring f s.
Proof.
  induction s as [|c s IH]; intros f; simpl; rewrite orb_true_iff, startsWith_spec.
  - split.
    + intros [[r Hr]|H]; [|discriminate]. exists [], r. exact Hr.
    + intros (pre & post & H). left. exists post.
      destruct pre; [exact H|discriminate].
  - rewrite IH. split.
    + intros [[r Hr]|(pre & post & H)].
      * exists [], r. exact Hr.
      * exists (c :: pre), post. simpl. now rewrite H.
    + intros (pre & post & H). destruct pre as [|c' pre].
      * left. exists post. exact H.
      * right. injection H as _ H. exists pre, post. exact H.
Qed.

(** ** Zone matcher *)

Lemma zoneMatchesFilters_iff (zoneName : option str) (filters : list str) :
  zoneMatchesFilters zoneName filters = true <->
  exists z, zoneName = Some z /\ z <> [] /\
    exists f, In f filters /\
      (Substring f (normalizeZone z) \/ Substring (normalizeZone z) f).
Proof.
  unfold zoneMatchesFilters. destruct zoneName as [[|c z]|].
  - split; [discriminate|]. intros (z & [= <-] & Hz & _). now elim Hz.
  - destruct filters as [|f0 fs].
    + split; [discriminate|]. intros (_ & _ & _ & f & [] & _).
    + rewrite existsb_exists. split.
      * intros (f & Hin & H). exists (c :: z). repeat split; [discriminate|].
        exists f. split; [exact Hin|].
        apply orb_true_iff in H. rewrite !includes_spec in H. exact H.
      * intros (z' & [= <-] & _ & f & Hin & H). exists f. split; [exact Hin|].
        apply orb_true_iff. rewrite !includes_spec. exact H.
  - split; [discriminate|]. intros (z & [=] & _).
Qed.

(** C5 (as stated, refuted): with the specification's normalisation, which
    trims before it strips "the ", the zone " The Deep" normalises to "deep"
    and matches the filter "deepest"; the code strips before it trims, keeps
    "the deep" and does not match. *)
Lemma C5_spec_normalize_differs :
  normalizeZone (lit " The Deep") = lit "the deep" /\
  spec_normalize (lit " The Deep") = lit "deep" /\
  zoneMatchesFilters (Some (lit " The Deep")) (map normalizeZone [lit "deepest"]) = false /\
  spec_matches (lit " The Deep") [lit "deepest"] = true.
Proof. repeat split; reflexivity. Qed.

Lemma dropWhile_idem p s : dropWhile p (dropWhile p s) = dropWhile p s.
Proof.
  induction s as [|c s IH]; simpl; [reflexivity|].
  destruct (p c) eqn:E; [exact IH | simpl; now rewrite E].
Qed.

Lemma trim_dropWhile s : trim (dropWhile isSpace s) = trim s.
Proof. unfold trim. now rewrite dropWhile_idem. Qed.

(** What [normalizeZone] computes: when the lowercased name begins with
    "the" and a white-space character, the trimmed remainder; otherwise
    the trimmed lowercased name. *)
Lemma normalizeZone_cases name :
  (forall c r, toLowerCase name = lit "the" ++ c :: r -> isSpace c = true ->
               normalizeZone name = trim r) /\
  ((forall c r, toLowerCase name = lit "the" ++ c :: r -> isSpace c = false) ->
   normalizeZone name = trim (toLowerCase name)).
Proof.
  unfold normalizeZone, replaceLeadingThe. split.
  - intros c r E Hc. rewrite E.
    assert (Hp : stripPrefix (lit "the") (lit "the" ++ c :: r) = Some (c :: r))
      by now apply stripPrefix_Some.
    rewrite Hp, Hc. apply trim_dropWhile.
  - intros H. destruct (stripPrefix (lit "the") (toLowerCase name)) as [[|c r]|] eqn:E;
      try reflexivity.
    apply stripPrefix_Some in E. now rewrite (H c r E).
Qed.

(** C5 (amended): [zoneMatchesFilters] holds exactly when the zone name is
    present and non-empty and some filter is a substring of the normalised
    zone name or the normalised zone name is a substring of that filter.
    The normalisation lowercases, then strips a leading "the" together
    with the white space after it, and trims last: a lowercased name that
    begins with "the" and white space gives its trimmed remainder, any
    other name (one with white space in front of "the", for one) is only
    lowercased and trimmed.  An empty filter list or an empty zone name
    never matches; with the callers' normalised filters the three
    examples of the specification hold. *)
Theorem C5_zone_matcher :
  (forall zoneName filters,
     zoneMatchesFilters zoneName filters = true <->
     exists z, zoneName = Some z /\ z <> [] /\
       exists f, In f filters /\
         (Substring f (normalizeZone z) \/ Substring (normalizeZone z) f)) /\
  (forall name c r,
     toLowerCase name = lit "the" ++ c :: r -> isSpace c = true ->
     normalizeZone name = trim r) /\
  (forall name,
     (forall c r, toLowerCase name = lit "the" ++ c :: r -> isSpace c = false) ->
     normalizeZone name = trim (toLowerCase name)) /\
  (forall zoneName, zoneMatchesFilters zoneName [] = false) /\
  (forall filters, zoneMatchesFilters (Some []) filters = false) /\
  (forall filters, zoneMatchesFilters None filters = false) /\
  zoneMatchesFilters (Some (lit "Fungus Grove")) (map normalizeZone [lit "fungus"]) = true /\
  zoneMatchesFilters (Some (lit "fungus")) (map normalizeZone [lit "Fungus Grove"]) = true /\
  zoneMatchesFilters (Some (lit "The Deep")) (map normalizeZone [lit "deep"]) = true.
Proof.
  split; [exact zoneMatchesFilters_iff|].
  split; [intros name; exact (proj1 (normalizeZone_cases name))|].
  split; [intros name; exact (proj2 (normalizeZone_cases name))|].
  split; [intros [[|c z]|]; reflexivity|].
  repeat split; reflexivity.
Qed.

(** ** Timestamp normaliser *)

Example DateUTC_epoch : DateUTC 1970 (Some 0) 1 0 0 0 = Some 0.
Proof. reflexivity. Qed.

Example DateUTC_2026 : DateUTC 2026 (Some 0) 22 20 54 27 = Some 1769115267000.
Proof. reflexivity. Qed.

Example isoDate_2026 : isoDate 1769115267000 = lit "2026-01-22".
Proof. reflexivity. Qed.

Example getUTCDay_2026 : getUTCDay (Some 1769115267000) = Some 4.
Proof. reflexivity. Qed.

Example localToUTC_phoenix :
  localToUTC sampleHost 2026 (Some 0) 22 20 54 27 (Some (lit "America/Phoenix"))
  = Returned (Some (1769115267000 + 7 * msPerHour)).
Proof. reflexivity. Qed.

(** ** Line patterns on the lines of [parser.js]'s header *)

Example LINE_RE_zone :
  LINE_RE (lit "[Thu Jan 22 20:54:23 2026] You have entered The Fungus Grove.")
  = Some (lit "Thu Jan 22 20:54:23 2026", lit "You have entered The Fungus Grove.").
Proof. reflexivity. Qed.

Example ZONE_ENTRY_RE_ex :
  ZONE_ENTRY_RE (lit "You have entered The Fungus Grove.") = Some (lit "The Fungus Grove").
Proof. reflexivity. Qed.

Example WHO_PLAYER_RE_ex :
  WHO_PLAYER_RE (lit "[60 Virtuoso] Lyri (Vah Shir) <Intervention>")
  = Some (lit "60 Virtuoso", lit "Lyri", Some (lit "Vah Shir"), Some (lit "Intervention")).
Proof. reflexivity. Qed.

Example WHO_PLAYER_RE_anon :
  WHO_PLAYER_RE (lit "[ANONYMOUS] Lyri  <Intervention>")
  = Some (lit "ANONYMOUS", lit "Lyri", None, Some (lit "Intervention")).
Proof. reflexivity. Qed.

Example WHO_FOOTER_RE_ex :
  WHO_FOOTER_RE (lit "There are 12 players in Fungus Grove.") = Some (lit "Fungus Grove").
Proof. reflexivity. Qed.

Example SELF_LOOT_RE_ex :
  SELF_LOOT_RE (lit "--You have looted a Shiknar Ichor.--") = Some (lit "Shiknar Ichor").
Proof. reflexivity. Qed.

Example OTHER_LOOT_RE_ex :
  OTHER_LOOT_RE (lit "--Risingdarkness has looted a Phase Spider Blood.--")
  = Some (lit "Risingdarkness", lit "Phase Spider Blood").
Proof. reflexivity. Qed.

Example parseEQDate_ex :
  parseEQDate sampleHost (lit "Thu Jan 22 20:54:27 2026") = Some (Some 1769115267000).
Proof. reflexivity. Qed.

Example parseEQDate_unknown_month :
  parseEQDate sampleHost (lit "Thu Foo 22 20:54:27 2026") = Some None.
Proof. reflexivity. Qed.

Example parseEQDateUTC_ex :
  parseEQDateUTC sampleHost (lit "Thu Jan 22 20:54:27 2026") (Some (lit "America/Phoenix"))
  = Returned (Some (Some 1769140467000)).
Proof. reflexivity. Qed.

(** ** Batch parser on the scenarios of the specification *)

Example scenario_A :
  Batch.parseLog sampleHost scenarioOpts scenarioA
  = Batch.mkResult
      [ mkAttendee (mkPlayer (lit "Lyri") (Some (Finite 60)) (Some (lit "Virtuoso"))
                             (Some (lit "Vah Shir")) (Some (lit "Intervention")))
                   (Some 1769115267000) (Some 1769115267000);
        mkAttendee (mkPlayer (lit "Risingdarkness") None None None
                             (Some (lit "Intervention")))
                   (Some 1769115267000) (Some 1769115267000) ]
      [] 6.
Proof. reflexivity. Qed.

Example scenario_B :
  Batch.loot (Batch.parseLog sampleHost scenarioOpts
     [ lit "[Thu Jan 22 20:54:23 2026] You have entered The Fungus Grove.";
       lit "[Thu Jan 22 20:55:00 2026] --You have looted a Shiknar Ichor.--" ])
  = [ mkLoot (Some (lit "Lyri")) (lit "Shiknar Ichor") (Some 1769115300000)
             (Some (lit "The Fungus Grove")) ].
Proof. reflexivity. Qed.

(** ** Auto parser on scenario C: Wednesday 14:00 UTC is in the window,
    18:00 UTC the same day is not. *)

Example scenario_C :
  Auto.autoParseLog sampleHost utcOpts scenarioC
  = Returned (Auto.mkResult
      [ Auto.mkRaidSession (lit "2026-01-21") (lit "Wednesday") [Some (lit "The Deep")] []
          [ mkLoot (Some (lit "Risingdarkness")) (lit "Phase Spider Blood")
                   (Some 1769004000000) (Some (lit "The Deep")) ]
          (Some 1769004000000) (Some 1769004000000) ]
      3).
Proof. reflexivity. Qed.

(** ** Live watcher on scenario D *)

Example splitLines_ex :
  Live.splitLines (lit "ab" ++ [Live.CR; Live.LF] ++ lit "cd" ++ [Live.LF] ++ lit "ef")
  = [lit "ab"; lit "cd"; lit "ef"].
Proof. reflexivity. Qed.

(** ** The calendar conversions are inverse *)

Lemma holdsFrom_spec p fuel : forall z,
  holdsFrom p fuel z = true -> forall k, z <= k < z + Z.of_nat fuel -> p k = true.
Proof.
  induction fuel as [|f IH]; intros z H k Hk; [lia|].
  cbn [holdsFrom] in H. apply andb_true_iff in H. destruct H as [Hz Hrest].
  destruct (Z.eq_dec k z) as [->|Hne]; [exact Hz|].
  apply (IH (z + 1) Hrest). lia.
Qed.

Lemma eraDayOk_all doe : 0 <= doe < 146097 -> eraDayOk doe = true.
Proof.
  intros H.
  assert (Hall : holdsFrom eraDayOk (Z.to_nat 146097) 0 = true)
    by (vm_compute; reflexivity).
  apply (holdsFrom_spec eraDayOk (Z.to_nat 146097) 0 Hall).
  rewrite Z2Nat.id; lia.
Qed.

Lemma daysFromCivil_civilFromDays z :
  let '(y, m, d) := civilFromDays z in
  daysFromCivil y m d = z /\ 1 <= m <= 12 /\ (0 <= z -> 1600 <= y).
Proof.
  unfold civilFromDays, daysFromCivil.
  set (z' := z + 719468).
  set (era := z' / 146097).
  set (doe := z' - era * 146097).
  assert (Hdoe : 0 <= doe < 146097).
  { subst doe era. pose proof (Z.mod_pos_bound z' 146097 ltac:(lia)) as Hm.
    rewrite Z.mod_eq in Hm by lia. lia. }
  pose proof (eraDayOk_all doe Hdoe) as Hok. unfold eraDayOk in Hok.
  set (yoe := (doe - doe / 1460 + doe / 36524 - doe / 146096) / 365) in *.
  set (doy := doe - (365 * yoe + yoe / 4 - yoe / 100)) in *.
  apply andb_true_iff in Hok. destruct Hok as [Hok Hd2].
  apply andb_true_iff in Hok. destruct Hok as [Hok Hd1].
  apply andb_true_iff in Hok. destruct Hok as [Hy1 Hy2].
  apply Z.leb_le in Hy1, Hy2, Hd1, Hd2.
  set (mp := (5 * doy + 2) / 153).
  assert (Hmp : 0 <= mp <= 11).
  { subst mp. split.
    - apply Z.div_pos; lia.
    - apply Z.lt_succ_r. apply Z.div_lt_upper_bound; lia. }
  set (m := if mp <? 10 then mp + 3 else mp - 9).
  assert (Hm : 1 <= m <= 12 /\ m + (if 2 <? m then -3 else 9) = mp /\
               ((m <=? 2) = negb (mp <? 10))).
  { subst m. destruct (Z.ltb_spec mp 10).
    - destruct (Z.ltb_spec 2 (mp + 3)); [|lia].
      destruct (Z.leb_spec (mp + 3) 2); [lia|]. repeat split; lia.
    - destruct (Z.ltb_spec 2 (mp - 9)); [lia|].
      destruct (Z.leb_spec (mp - 9) 2); [|lia]. repeat split; lia. }
  destruct Hm as (Hm1 & Hm2 & Hm3).
  set (y := yoe + era * 400) in *.
  assert (Hy : (if m <=? 2 then (if m <=? 2 then y + 1 else y) - 1
                else (if m <=? 2 then y + 1 else y)) = y).
  { destruct (m <=? 2); lia. }
  rewrite Hy, Hm2.
  assert (Hera : y / 400 = era).
  { subst y. rewrite Z.div_add by lia. rewrite Z.div_small by lia. lia. }
  rewrite Hera.
  replace (y - era * 400) with yoe by (subst y; lia).
  assert (Hdoy : doy = doe - (365 * yoe + yoe / 4 - yoe / 100)) by reflexivity.
  assert (Hdoe' : doe = z' - era * 146097) by reflexivity.
  assert (Hz' : z' = z + 719468) by reflexivity.
  assert (Hera4 : 0 <= z -> 4 <= era).
  { intros Hz. subst era z'. apply Z.div_le_lower_bound; lia. }
  assert (Hyy : y = yoe + era * 400) by reflexivity.
  clearbody y mp doy yoe doe z' era.
  split; [|split].
  - lia.
  - exact Hm1.
  - intros Hz. specialize (Hera4 Hz). destruct (m <=? 2); lia.
Qed.

(** A valid candidate is a whole number of seconds. *)
Lemma DateUTC_whole_seconds year month day hour minute second c :
  DateUTC year (Some month) day hour minute second = Some c -> c mod 1000 = 0.
Proof.
  unfold DateUTC, TimeClip.
  set (v := MakeDate _ _).
  destruct (Z.abs v <=? 8640000000000000); [|discriminate].
  intros [= <-]. subst v. unfold MakeDate, MakeTime, msPerDay, msPerHour, msPerMinute,
    msPerSecond.
  set (dd := MakeDay _ _ _).
  replace (dd * 86400000 + (hour * 3600000 + minute * 60000 + second * 1000))
    with ((dd * 86400 + hour * 3600 + minute * 60 + second) * 1000) by lia.
  apply Z.mod_mul. lia.
Qed.

(** Reading back the wall clock shown at offset [o] gives the instant
    shifted by [o], for whole seconds from 1970 on. *)
Lemma observed_fixed_offset o t :
  (t + o) mod 1000 = 0 -> 0 <= t + o ->
  observedAsUTC (fixedZoneDisplay o t) = TimeClip (t + o).
Proof.
  intros Hs Hpos. unfold observedAsUTC, fixedZoneDisplay.
  set (t' := t + o) in *.
  pose proof (daysFromCivil_civilFromDays (t' / msPerDay)) as Hrt.
  destruct (civilFromDays (t' / msPerDay)) as [[y m] d].
  destruct Hrt as (Hrt & Hm & Hy).
  assert (Hday : 0 <= t' / msPerDay) by (apply Z.div_pos; unfold msPerDay; lia).
  specialize (Hy Hday).
  cbn [p_year p_month p_day p_hour p_minute p_second].
  set (r := t' mod msPerDay).
  assert (Hr : 0 <= r < msPerDay) by (apply Z.mod_pos_bound; unfold msPerDay; lia).
  assert (Hh : 0 <= r / msPerHour < 24).
  { unfold msPerHour, msPerDay in *. split; [apply Z.div_pos; lia|].
    apply Z.div_lt_upper_bound; lia. }
  destruct (Z.eqb_spec (r / msPerHour) 24) as [E|_]; [lia|].
  unfold DateUTC. f_equal.
  unfold MakeFullYear.
  destruct (Z.leb_spec 0 y); [|lia].
  destruct (Z.leb_spec y 99); [lia|]. cbn [andb].
  unfold MakeDay.
  replace ((m - 1) / 12) with 0 by (symmetry; apply Z.div_small; lia).
  replace ((m - 1) mod 12 + 1) with m by (rewrite Z.mod_small; lia).
  rewrite Z.add_0_r.
  assert (Hlin : daysFromCivil y m 1 + d - 1 = daysFromCivil y m d)
    by (unfold daysFromCivil; lia).
  rewrite Hlin, Hrt.
  unfold MakeDate, MakeTime.
  (* the time of day *)
  assert (Hr1000 : r mod 1000 = 0).
  { subst r. unfold msPerDay.
    rewrite (Z.mod_eq t' 86400000) by lia.
    replace (t' - 86400000 * (t' / 86400000))
      with (t' + (- (86400 * (t' / 86400000))) * 1000) by lia.
    rewrite Z.mod_add by lia. exact Hs. }
  assert (Htime : r / msPerHour * msPerHour + r mod msPerHour / msPerMinute * msPerMinute
                  + r mod msPerMinute / msPerSecond * msPerSecond = r).
  { unfold msPerHour, msPerMinute, msPerSecond in *.
    pose proof (Z.div_mod r 3600000 ltac:(lia)) as D1.
    pose proof (Z.div_mod (r mod 3600000) 60000 ltac:(lia)) as D2.
    pose proof (Z.div_mod (r mod 60000) 1000 ltac:(lia)) as D3.
    assert (E1 : (r mod 3600000) mod 60000 = r mod 60000).
    { apply Z.mod_mod_divide. exists 60. lia. }
    assert (E2 : (r mod 60000) mod 1000 = 0).
    { rewrite Z.mod_mod_divide by (exists 60; lia). exact Hr1000. }
    lia. }
  rewrite Htime. subst r.
  pose proof (Z.div_mod t' msPerDay ltac:(unfold msPerDay; lia)). lia.
Qed.

(** ** A line that has a timestamp has a date

    The pattern of [parseEQDate] and [parseEQDateUTC] always matches the
    timestamp text [LINE_RE] captured (from its month on), so neither
    function answers [null] on it: the date may be invalid, it is never
    missing. *)

Lemma one_inv p s x r :
  one p s = Some (x, r) -> exists c, s = c :: r /\ x = [c] /\ p c = true.
Proof.
  unfold one. destruct s as [|c s']; [discriminate|].
  destruct (p c) eqn:E; [|discriminate].
  intros [= <- <-]. now exists c.
Qed.

Lemma andThen_inv (a b : piece) s x r :
  (a >> b) s = Some (x, r) ->
  exists x1 r1 x2, a s = Some (x1, r1) /\ b r1 = Some (x2, r) /\ x = x1 ++ x2.
Proof.
  unfold andThen. destruct (a s) as [[x1 r1]|] eqn:Ea; [|discriminate].
  destruct (b r1) as [[x2 r2]|] eqn:Eb; [|discriminate].
  intros [= <- <-]. exists x1, r1, x2. now repeat split.
Qed.

Lemma times_inv p n : forall s x r,
  times n (one p) s = Some (x, r) ->
  s = x ++ r /\ List.length x = n /\ forallb p x = true.
Proof.
  induction n as [|n IH]; intros s x r H; simpl in H.
  - injection H as <- <-. now repeat split.
  - apply andThen_inv in H. destruct H as (x1 & r1 & x2 & H1 & H2 & ->).
    apply one_inv in H1. destruct H1 as (c & -> & -> & Hc).
    destruct (IH _ _ _ H2) as (-> & <- & Hall).
    repeat split. simpl. now rewrite Hc.
Qed.

Lemma times_fwd p n : forall x t,
  List.length x = n -> forallb p x = true -> times n (one p) (x ++ t) = Some (x, t).
Proof.
  induction n as [|n IH]; intros x t Hlen Hall.
  - destruct x; [reflexivity | discriminate].
  - destruct x as [|c x]; [discriminate|].
    simpl in Hall. apply andb_true_iff in Hall. destruct Hall as [Hc Hall].
    injection Hlen as Hlen.
    cbn [times]. unfold andThen. simpl. rewrite Hc.
    now rewrite (IH x t Hlen Hall).
Qed.

Lemma takeWhile_dropWhile p s : s = takeWhile p s ++ dropWhile p s.
Proof.
  induction s as [|c s IH]; simpl; [reflexivity|].
  destruct (p c); simpl; [now f_equal | reflexivity].
Qed.

Lemma takeWhile_all p s : forallb p (takeWhile p s) = true.
Proof.
  induction s as [|c s IH]; simpl; [reflexivity|].
  destruct (p c) eqn:E; simpl; [now rewrite E | reflexivity].
Qed.

Lemma many1_inv p s x r :
  many1 p s = Some (x, r) -> s = x ++ r /\ x <> [] /\ forallb p x = true.
Proof.
  unfold many1. pose proof (takeWhile_dropWhile p s) as Hs.
  pose proof (takeWhile_all p s) as Hall.
  destruct (takeWhile p s) as [|c t]; [discriminate|].
  intros [= <- <-]. repeat split; [exact Hs | discriminate | exact Hall].
Qed.

Lemma many1_fwd p x t :
  x <> [] -> forallb p x = true ->
  match t with c :: _ => p c = false | [] => True end ->
  many1 p (x ++ t) = Some (x, t).
Proof.
  intros Hne Hall Ht. unfold many1.
  assert (E : takeWhile p (x ++ t) = x /\ dropWhile p (x ++ t) = t).
  { clear Hne. induction x as [|c x IH]; simpl.
    - destruct t as [|c t]; [now split|]. simpl. now rewrite Ht.
    - simpl in Hall. apply andb_true_iff in Hall. destruct Hall as [Hc Hall].
      rewrite Hc. destruct (IH Hall) as [-> ->]. now split. }
  destruct E as [-> ->]. destruct x; [congruence | reflexivity].
Qed.

Lemma digits12_inv s x r :
  digits12 s = Some (x, r) ->
  s = x ++ r /\ x <> [] /\ forallb isDigit x = true /\
  (List.length x = 2%nat \/ one isDigit r = None).
Proof.
  unfold digits12.
  destruct (one isDigit s) as [[a r1]|] eqn:E1; [|discriminate].
  apply one_inv in E1. destruct E1 as (c & -> & -> & Hc).
  destruct (one isDigit r1) as [[b r2]|] eqn:E2.
  - apply one_inv in E2. destruct E2 as (c2 & -> & -> & Hc2).
    intros [= <- <-]. repeat split; [discriminate | simpl; now rewrite Hc, Hc2 | now left].
  - intros [= <- <-]. repeat split; [discriminate | simpl; now rewrite Hc | now right].
Qed.

Lemma one_fwd p c t : p c = true -> one p (c :: t) = Some ([c], t).
Proof. intros H. unfold one. now rewrite H. Qed.

Lemma digits12_fwd x t :
  x <> [] -> forallb isDigit x = true ->
  (List.length x = 2%nat \/ one isDigit t = None) ->
  (List.length x <= 2)%nat ->
  digits12 (x ++ t) = Some (x, t).
Proof.
  intros Hne Hall Hcase Hlen. unfold digits12.
  destruct x as [|a [|b [|c x]]]; [congruence | | | simpl in Hlen; lia].
  - cbn [forallb] in Hall. rewrite andb_true_r in Hall.
    change ([a] ++ t) with (a :: t). rewrite (one_fwd isDigit a t Hall).
    destruct Hcase as [Hc|Hc]; [discriminate|]. now rewrite Hc.
  - cbn [forallb] in Hall. apply andb_true_iff in Hall. destruct Hall as [Ha Hb].
    rewrite andb_true_r in Hb.
    change ([a; b] ++ t) with (a :: b :: t).
    now rewrite (one_fwd isDigit a _ Ha), (one_fwd isDigit b t Hb).
Qed.

Lemma digits12_length s x r : digits12 s = Some (x, r) -> (List.length x <= 2)%nat.
Proof.
  unfold digits12.
  destruct (one isDigit s) as [[a r1]|] eqn:E1; [|discriminate].
  apply one_inv in E1. destruct E1 as (c & -> & -> & Hc).
  destruct (one isDigit r1) as [[b r2]|] eqn:E2.
  - apply one_inv in E2. destruct E2 as (c2 & -> & -> & Hc2).
    intros [= <- <-]. simpl. lia.
  - intros [= <- <-]. simpl. lia.
Qed.

Lemma chr_inv a s x r : chr a s = Some (x, r) -> s = a :: r /\ x = [a].
Proof.
  unfold chr. intros H. apply one_inv in H. destruct H as (c & -> & -> & Hc).
  apply ascii_eqb_eq in Hc. now subst.
Qed.

Lemma digit_not_blank c : isDigit c = true -> isBlank c = false.
Proof.
  unfold isDigit, isBlank, between. rewrite ascii_eqb_code.
  change (code " ") with 32%nat.
  intros H. apply andb_true_iff in H. destruct H as [H _].
  apply Nat.leb_le in H. apply Nat.eqb_neq. lia.
Qed.

Lemma search_skip (A : Type) (p : str -> option A) pre : forall s a,
  p s = Some a -> exists a', search p (pre ++ s) = Some a'.
Proof.
  induction pre as [|c pre IH]; intros s a H.
  - exists a. simpl. destruct s; simpl; now rewrite H.
  - simpl. destruct (p (c :: pre ++ s)) as [a0|]; [now exists a0|].
    now apply (IH s a).
Qed.

Lemma tsShape_has_date r tsStr rest :
  tsShape r = Some (tsStr, rest) -> exists g, search dateShapeAt tsStr = Some g.
Proof.
  unfold tsShape. intros H.
  repeat match type of H with
         | (_ >> _) _ = Some _ =>
             let x1 := fresh "x" in let r1 := fresh "r" in let x2 := fresh "y" in
             let Ha := fresh "Ha" in let Hb := fresh "Hb" in
             apply andThen_inv in H; destruct H as (x1 & r1 & x2 & H & Hb & ->)
         end.
  (* in order: weekday, blank, month, blanks, day, blank, hh, colon, mm,
     colon, ss, blank, year *)
  rename x0 into wd, y9 into mon, y8 into sp, y7 into day, y5 into hh,
         y3 into mi, y1 into ss, y into year.
  apply times_inv in H. destruct H as (-> & _ & _).
  apply chr_inv in Hb10. destruct Hb10 as (-> & ->).
  apply times_inv in Hb9. destruct Hb9 as (-> & Lm & Hm).
  apply many1_inv in Hb8. destruct Hb8 as (-> & Nsp & Hsp).
  pose proof (digits12_length _ _ _ Hb7) as Ld.
  apply digits12_inv in Hb7. destruct Hb7 as (-> & Nd & Hd & Cd).
  apply chr_inv in Hb6. destruct Hb6 as (-> & ->).
  apply times_inv in Hb5. destruct Hb5 as (-> & Lh & Hh).
  apply chr_inv in Hb4. destruct Hb4 as (-> & ->).
  apply times_inv in Hb3. destruct Hb3 as (-> & Lmi & Hmi).
  apply chr_inv in Hb2. destruct Hb2 as (-> & ->).
  apply times_inv in Hb1. destruct Hb1 as (-> & Ls & Hs).
  apply chr_inv in Hb0. destruct Hb0 as (-> & ->).
  apply times_inv in Hb. destruct Hb as (-> & Ly & Hy).
  repeat rewrite <- app_assoc.
  rewrite (app_assoc wd [" "%char]).
  apply search_skip with (a := (mon, day, hh, mi, ss, year)).
  unfold dateShapeAt.
  rewrite (times_fwd isWord 3 mon _ Lm Hm).
  rewrite (many1_fwd isBlank sp _ Nsp Hsp).
  2:{ destruct day as [|d0 day]; [congruence|]. cbn [forallb] in Hd.
      apply andb_true_iff in Hd. destruct Hd as [Hd0 _].
      cbn [app]. now apply digit_not_blank. }
  rewrite (digits12_fwd day _ Nd Hd).
  2:{ destruct Cd as [Cd|Cd]; [now left | right; reflexivity]. }
  2:{ exact Ld. }
  unfold chr. cbn [app]. rewrite (one_fwd (ascii_eqb " ") " " _ eq_refl).
  rewrite (times_fwd isDigit 2 hh _ Lh Hh).
  rewrite (one_fwd (ascii_eqb ":") ":" _ eq_refl).
  rewrite (times_fwd isDigit 2 mi _ Lmi Hmi).
  rewrite (one_fwd (ascii_eqb ":") ":" _ eq_refl).
  rewrite (times_fwd isDigit 2 ss _ Ls Hs).
  rewrite (one_fwd (ascii_eqb " ") " " _ eq_refl).
  rewrite <- (app_nil_r year) at 1.
  rewrite (times_fwd isDigit 4 year [] Ly Hy).
  reflexivity.
Qed.

Lemma LINE_RE_has_date line tsStr content :
  LINE_RE line = Some (tsStr, content) -> exists g, search dateShapeAt tsStr = Some g.
Proof.
  unfold LINE_RE. destruct line as [|c r]; [discriminate|].
  destruct (ascii_dec c "["%char) as [->|Hne].
  - destruct (tsShape r) as [[ts rest]|] eqn:E; [|discriminate].
    destruct rest as [|c1 [|c2 rest]]; try discriminate;
      try (destruct c1 as [[] [] [] [] [] [] [] []]; discriminate).
    intros H.
    assert (ts = tsStr).
    { destruct c1 as [[] [] [] [] [] [] [] []]; try discriminate;
      destruct c2 as [[] [] [] [] [] [] [] []]; try discriminate.
      destruct (noLineTerm rest); [|discriminate]. now injection H. }
    subst. now apply (tsShape_has_date r tsStr _ E).
  - destruct c as [[] [] [] [] [] [] [] []]; try discriminate. now elim Hne.
Qed.

(** [parseEQDate] never answers [null] on a line's timestamp. *)
Lemma parseEQDate_not_null host line tsStr content :
  LINE_RE line = Some (tsStr, content) -> exists ts, parseEQDate host tsStr = Some ts.
Proof.
  intros H. destruct (LINE_RE_has_date line tsStr content H) as [[[[[[mon day] h] mi] sec] year] Hg].
  unfold parseEQDate. rewrite Hg. eauto.
Qed.

(** [parseEQDateUTC] throws or answers a date, never [null]. *)
Lemma parseEQDateUTC_not_null host line tsStr content timezone :
  LINE_RE line = Some (tsStr, content) ->
  parseEQDateUTC host tsStr timezone <> Returned None.
Proof.
  intros H. destruct (LINE_RE_has_date line tsStr content H) as [[[[[[mon day] h] mi] sec] year] Hg].
  unfold parseEQDateUTC. rewrite Hg.
  destruct (localToUTC host (toNumber year) (MONTHS mon) (toNumber day) (toNumber h)
                       (toNumber mi) (toNumber sec) timezone); discriminate.
Qed.

(** ** C4: the timestamp normaliser *)

(** For every sextuple and every time zone the database knows,
    [localToUTC] returns candidate + offset, where candidate is the
    sextuple read as UTC, observed is the wall clock the zone displays for
    the candidate instant (read back as UTC) and offset is candidate minus
    observed.  The offset is taken at that same candidate instant: two
    databases that display the same wall clock there give the same answer,
    whatever they do at other instants, and when the zone stands [o]
    milliseconds from UTC at the candidate instant, the offset is [- o]
    and the result candidate - [o]. *)
Lemma localToUTC_candidate_plus_offset :
  forall host year month day hour minute second timezone display candidate observed,
    zoneDisplay host timezone = Some display ->
    DateUTC year (Some month) day hour minute second = Some candidate ->
    observedAsUTC (display candidate) = Some observed ->
    let offset := candidate - observed in
    localToUTC host year (Some month) day hour minute second timezone
      = Returned (TimeClip (candidate + offset))
    /\ (Z.abs (candidate + offset) <= 8640000000000000 ->
        localToUTC host year (Some month) day hour minute second timezone
          = Returned (Some (candidate + offset)))
    /\ (forall host' display',
          zoneDisplay host' timezone = Some display' ->
          display' candidate = display candidate ->
          localToUTC host' year (Some month) day hour minute second timezone
          = localToUTC host year (Some month) day hour minute second timezone)
    /\ (forall o,
          display candidate = fixedZoneDisplay o candidate ->
          o mod 1000 = 0 -> 0 <= candidate + o ->
          offset = - o /\
          localToUTC host year (Some month) day hour minute second timezone
          = Returned (TimeClip (candidate - o))).
Proof.
  intros host year month day hour minute second timezone display candidate observed
         Hz Hc Ho offset.
  assert (E : localToUTC host year (Some month) day hour minute second timezone
              = Returned (TimeClip (candidate + offset))).
  { unfold localToUTC. rewrite Hz, Hc.
    unfold observedAsUTC in Ho. rewrite Ho. reflexivity. }
  split; [exact E|]. split; [|split].
  - intros Hb. rewrite E. unfold TimeClip.
    apply Z.leb_le in Hb. now rewrite Hb.
  - intros host' display' Hz' Hd. rewrite E.
    unfold localToUTC. rewrite Hz', Hc, Hd.
    unfold observedAsUTC in Ho. rewrite Ho. reflexivity.
  - intros o Hd Hmod Hpos.
    assert (Hobs : observed = candidate + o).
    { rewrite Hd in Ho. rewrite observed_fixed_offset in Ho.
      - unfold TimeClip in Ho.
        destruct (Z.abs (candidate + o) <=? 8640000000000000); congruence.
      - pose proof (DateUTC_whole_seconds _ _ _ _ _ _ _ Hc) as Hcm.
        rewrite Z.add_mod by lia. rewrite Hcm, Hmod. reflexivity.
      - exact Hpos. }
    assert (Hoff : offset = - o) by (subst offset; lia).
    split; [exact Hoff|]. rewrite E. f_equal. f_equal. lia.
Qed.

(** C4: the offset is not the one of the instant converted.  In Los
    Angeles the clocks go from 02:00 to 03:00 on 8 March 2026, at 10:00
    UTC.  A line stamped 03:30:00 that day was written at 10:30 UTC, the
    instant that displays 03:30.  [localToUTC] asks for the display of
    the candidate, 03:30 UTC, which lies before the transition and shows
    19:30 of the day before, eight hours back; it adds the eight hours
    and returns 11:30 UTC, an instant that displays 04:30. *)
Theorem C4_localToUTC_spring_forward_an_hour_late :
  DateUTC 2026 (Some 2) 8 3 30 0 = Some 1772940600000 /\
  fixedZoneDisplay (laOffset 1772940600000) 1772940600000 = mkParts 2026 3 7 19 30 0 /\
  localToUTC (offsetHost laOffset) 2026 (Some 2) 8 3 30 0 (Some (lit "America/Los_Angeles"))
  = Returned (Some 1772969400000) /\
  toISOString 1772969400000 = lit "2026-03-08T11:30:00.000Z" /\
  fixedZoneDisplay (laOffset 1772969400000) 1772969400000 = mkParts 2026 3 8 4 30 0 /\
  toISOString 1772965800000 = lit "2026-03-08T10:30:00.000Z" /\
  fixedZoneDisplay (laOffset 1772965800000) 1772965800000 = mkParts 2026 3 8 3 30 0.
Proof. repeat split; vm_compute; reflexivity. Qed.

(** The offset read at the candidate instant is the one in force at the
    true instant unless a transition lies between the two.  In Los
    Angeles on 8 March 2026 the clocks go from 02:00 to 03:00 at 10:00
    UTC: noon converts to 19:00 UTC, as it should; 02:30, which the day
    does not have, converts to 10:30 UTC; and 03:30, which 10:30 UTC
    displays, converts to 11:30 UTC, the candidate 03:30 UTC still lying
    before the transition. *)
Example localToUTC_spring_forward :
  localToUTC (offsetHost laOffset) 2026 (Some 2) 8 12 0 0 (Some (lit "America/Los_Angeles"))
  = Returned (DateUTC 2026 (Some 2) 8 19 0 0) /\
  localToUTC (offsetHost laOffset) 2026 (Some 2) 8 2 30 0 (Some (lit "America/Los_Angeles"))
  = Returned (DateUTC 2026 (Some 2) 8 10 30 0) /\
  localToUTC (offsetHost laOffset) 2026 (Some 2) 8 3 30 0 (Some (lit "America/Los_Angeles"))
  = Returned (DateUTC 2026 (Some 2) 8 11 30 0) /\
  option_map (fun t => fixedZoneDisplay (laOffset t) t) (DateUTC 2026 (Some 2) 8 10 30 0)
  = Some (mkParts 2026 3 8 3 30 0).
Proof. repeat split; reflexivity. Qed.

(** Without a usable zone or candidate the call throws instead. *)
Lemma localToUTC_throws host year month day hour minute second timezone :
  zoneDisplay host timezone = None \/
  DateUTC year month day hour minute second = None ->
  localToUTC host year month day hour minute second timezone = Threw.
Proof.
  unfold localToUTC. intros [H|H]; rewrite H; [reflexivity|].
  now destruct (zoneDisplay host timezone).
Qed.

(** ** The string-keyed map *)

Lemma str_eqb_eq a : forall b, str_eqb a b = true <-> a = b.
Proof.
  induction a as [|x a IH]; intros [|y b]; simpl; try (split; [discriminate|discriminate]).
  - split; reflexivity.
  - rewrite andb_true_iff, ascii_eqb_eq, IH.
    split; [intros [-> ->]; reflexivity | intros [= -> ->]; split; reflexivity].
Qed.

Lemma str_eqb_refl a : str_eqb a a = true.
Proof. now apply str_eqb_eq. Qed.

Lemma str_eqb_neq a b : a <> b -> str_eqb a b = false.
Proof.
  intros H. destruct (str_eqb a b) eqn:E; [|reflexivity].
  apply str_eqb_eq in E. contradiction.
Qed.

Section MapFacts.
Variable V : Type.
Implicit Types (m : jsMap V) (k : str) (v : V).

Lemma mapGet_mapSet_same k v m : mapGet k (mapSet k v m) = Some v.
Proof.
  induction m as [|[k' v'] m IH]; simpl.
  - now rewrite str_eqb_refl.
  - destruct (str_eqb k' k) eqn:E; simpl.
    + now rewrite str_eqb_refl.
    + now rewrite E.
Qed.

Lemma mapGet_mapSet_other k k' v m :
  k <> k' -> mapGet k' (mapSet k v m) = mapGet k' m.
Proof.
  intros Hne. induction m as [|[k0 v0] m IH]; simpl.
  - now rewrite str_eqb_neq.
  - destruct (str_eqb k0 k) eqn:E; simpl.
    + apply str_eqb_eq in E; subst k0. now rewrite str_eqb_neq.
    + now rewrite IH.
Qed.

Lemma mapGet_In k v m : mapGet k m = Some v -> In (k, v) m.
Proof.
  induction m as [|[k' v'] m IH]; simpl; [discriminate|].
  destruct (str_eqb k' k) eqn:E.
  - apply str_eqb_eq in E; subst. intros [= ->]. now left.
  - intros H. right. now apply IH.
Qed.

Lemma mapGet_None_keys k m : mapGet k m = None <-> ~ In k (mapKeys m).
Proof.
  induction m as [|[k' v'] m IH]; simpl.
  - split; [intros _ []|reflexivity].
  - destruct (str_eqb k' k) eqn:E.
    + apply str_eqb_eq in E. split; [discriminate|]. intros H. elim H. now left.
    + rewrite IH. split.
      * intros H [H1|H1]; [|contradiction].
        subst. rewrite str_eqb_refl in E. discriminate.
      * intros H H1. apply H. now right.
Qed.

Lemma mapKeys_mapSet_present k v v0 m :
  mapGet k m = Some v0 -> mapKeys (mapSet k v m) = mapKeys m.
Proof.
  induction m as [|[k' v'] m IH]; simpl; [discriminate|].
  destruct (str_eqb k' k) eqn:E; simpl.
  - apply str_eqb_eq in E. now subst.
  - intros H. now rewrite IH.
Qed.

Lemma mapKeys_mapSet_absent k v m :
  mapGet k m = None -> mapKeys (mapSet k v m) = mapKeys m ++ [k].
Proof.
  induction m as [|[k' v'] m IH]; simpl; [reflexivity|].
  destruct (str_eqb k' k) eqn:E; simpl; [discriminate|].
  intros H. now rewrite IH.
Qed.

Lemma NoDup_mapSet k v m : NoDup (mapKeys m) -> NoDup (mapKeys (mapSet k v m)).
Proof.
  intros H. destruct (mapGet k m) as [v0|] eqn:E.
  - now rewrite (mapKeys_mapSet_present k v v0 m E).
  - rewrite (mapKeys_mapSet_absent k v m E).
    apply NoDup_app; [exact H | constructor; [intros []|constructor] |].
    intros x Hx [<-|[]]. apply mapGet_None_keys in E. contradiction.
Qed.

Lemma In_mapGet k v m : NoDup (mapKeys m) -> In (k, v) m -> mapGet k m = Some v.
Proof.
  induction m as [|[k' v'] m IH]; simpl; [intros _ []|].
  intros Hnd [H|H].
  - injection H as -> ->. now rewrite str_eqb_refl.
  - inversion Hnd as [|? ? Hni Hnd']; subst.
    destruct (str_eqb k' k) eqn:E.
    + apply str_eqb_eq in E; subst k'. elim Hni.
      change (In (fst (k, v)) (map fst m)). now apply in_map.
    + now apply IH.
Qed.

(** [set] changes the map only at its key. *)
Lemma In_mapSet k v k' v' m :
  In (k', v') (mapSet k v m) -> (k' = k /\ v' = v) \/ In (k', v') m.
Proof.
  induction m as [|[k0 v0] m IH]; simpl.
  - intros [[= <- <-]|[]]. now left.
  - destruct (str_eqb k0 k) eqn:E; simpl.
    + intros [[= <- <-]|H]; [now left | right; now right].
    + intros [H|H]; [right; now left|].
      destruct (IH H) as [?|?]; [now left | right; now right].
Qed.
End MapFacts.

(** ** Attendance upsert *)

(** In the batch and auto parsers a present key keeps its stored fields and
    both bounds only move outward. *)
Lemma upsert_present t m p existing :
  mapGet (hasKey p) m = Some existing ->
  exists e, mapGet (hasKey p) (upsert t m p) = Some e /\
            player e = player existing /\
            firstSeen e = (if date_lt t (firstSeen existing) then t else firstSeen existing) /\
            lastSeen e = (if date_gt t (lastSeen existing) then t else lastSeen existing).
Proof.
  intros H. unfold upsert, hasKey in *. rewrite H.
  eexists. split; [apply mapGet_mapSet_same|].
  destruct (date_lt t (firstSeen existing)), existing as [pl f l]; simpl;
    destruct (date_gt t l); simpl; repeat split; reflexivity.
Qed.

Lemma upsert_absent t m p :
  mapGet (hasKey p) m = None ->
  mapGet (hasKey p) (upsert t m p) = Some (mkAttendee p t t).
Proof.
  intros H. unfold upsert, hasKey in *. rewrite H. apply mapGet_mapSet_same.
Qed.

Lemma upsert_other t m p k :
  k <> hasKey p -> mapGet k (upsert t m p) = mapGet k m.
Proof.
  intros H. unfold upsert, hasKey in *.
  destruct (mapGet (toLowerCase (name p)) m); apply mapGet_mapSet_other; congruence.
Qed.

Lemma upsert_NoDup t m p : NoDup (mapKeys m) -> NoDup (mapKeys (upsert t m p)).
Proof.
  intros H. unfold upsert.
  destruct (mapGet (toLowerCase (name p)) m); now apply NoDup_mapSet.
Qed.

(** With valid instants the two comparisons are min and max. *)
Lemma upsert_present_min_max tv m p existing f l :
  mapGet (hasKey p) m = Some existing ->
  firstSeen existing = Some f -> lastSeen existing = Some l ->
  exists e, mapGet (hasKey p) (upsert (Some tv) m p) = Some e /\
            player e = player existing /\
            firstSeen e = Some (Z.min f tv) /\ lastSeen e = Some (Z.max l tv).
Proof.
  intros H Hf Hl. destruct (upsert_present (Some tv) m p existing H) as (e & He & Hp & H1 & H2).
  exists e. repeat split; [exact He | exact Hp | |].
  - rewrite H1, Hf. simpl. destruct (Z.ltb_spec tv f); f_equal; lia.
  - rewrite H2, Hl. unfold date_gt. simpl. destruct (Z.ltb_spec l tv); f_equal; lia.
Qed.

(** Every stored record survives an upsert with its fields. *)
Lemma upsert_keeps_player t m p k e :
  mapGet k m = Some e ->
  exists e', mapGet k (upsert t m p) = Some e' /\ player e' = player e.
Proof.
  intros H. destruct (list_eq_dec ascii_dec k (hasKey p)) as [->|Hne].
  - destruct (upsert_present t m p e H) as (e' & He & Hp & _). eauto.
  - exists e. split; [|reflexivity]. now rewrite upsert_other.
Qed.

Lemma flushRoster_keeps_player t ps : forall m k e,
  mapGet k m = Some e ->
  exists e', mapGet k (flushRoster t ps m) = Some e' /\ player e' = player e.
Proof.
  unfold flushRoster. induction ps as [|p ps IH]; intros m k e H; simpl.
  - eauto.
  - destruct (upsert_keeps_player t m p k e H) as (e1 & H1 & Hp1).
    destruct (IH _ _ _ H1) as (e2 & H2 & Hp2).
    exists e2. split; [exact H2 | congruence].
Qed.

Lemma flushRoster_NoDup t ps : forall m,
  NoDup (mapKeys m) -> NoDup (mapKeys (flushRoster t ps m)).
Proof.
  unfold flushRoster. induction ps as [|p ps IH]; intros m H; simpl; [exact H|].
  apply IH. now apply upsert_NoDup.
Qed.

(** The live watcher's upsert: a present key keeps its fields and its
    [firstSeen]; only [lastSeen] can move. *)
Lemma live_upsert_present t m np p existing :
  mapGet (hasKey p) m = Some existing ->
  exists e, mapGet (hasKey p) (fst (Live.upsert t (m, np) p)) = Some e /\
            player e = player existing /\
            firstSeen e = firstSeen existing /\
            lastSeen e = (if date_gt t (lastSeen existing) then t else lastSeen existing).
Proof.
  intros H. unfold Live.upsert, hasKey in *. rewrite H.
  destruct (date_gt t (lastSeen existing)); simpl.
  - eexists. split; [apply mapGet_mapSet_same|]. repeat split.
  - exists existing. repeat split. exact H.
Qed.

Lemma live_upsert_other t m np p k :
  k <> hasKey p -> mapGet k (fst (Live.upsert t (m, np) p)) = mapGet k m.
Proof.
  intros H. unfold Live.upsert, hasKey in *.
  destruct (mapGet (toLowerCase (name p)) m) as [e|]; simpl.
  - destruct (date_gt t (lastSeen e)); simpl; [|reflexivity].
    apply mapGet_mapSet_other; congruence.
  - apply mapGet_mapSet_other; congruence.
Qed.

Lemma live_upsert_keeps_player t m np p k e :
  mapGet k m = Some e ->
  exists e', mapGet k (fst (Live.upsert t (m, np) p)) = Some e' /\ player e' = player e.
Proof.
  intros H. destruct (list_eq_dec ascii_dec k (hasKey p)) as [->|Hne].
  - destruct (live_upsert_present t m np p e H) as (e' & He & Hp & _). eauto.
  - exists e. split; [|reflexivity]. now rewrite live_upsert_other.
Qed.

Lemma live_flush_keeps_player t ps : forall m np k e,
  mapGet k m = Some e ->
  exists e', mapGet k (fst (fold_left (Live.upsert t) ps (m, np))) = Some e' /\
             player e' = player e.
Proof.
  induction ps as [|p ps IH]; intros m np k e H; cbn [fold_left].
  - eauto.
  - destruct (live_upsert_keeps_player t m np p k e H) as (e1 & H1 & Hp1).
    destruct (Live.upsert t (m, np) p) as [m1 np1] eqn:E. simpl in H1.
    destruct (IH m1 np1 _ _ H1) as (e2 & H2 & Hp2).
    exists e2. split; [exact H2 | congruence].
Qed.

(** ** C1 *)

(** C1 (as stated, refuted): Lyri is sighted at level 59 with race and
    guild, then again (as LYRI) at level 60 with neither; the one stored
    record still has level 59, the race and the guild of the first
    sighting, not the level 60 and the nulls of the second. *)
Lemma C1_fields_not_overwritten :
  Batch.attendance (Batch.parseLog sampleHost scenarioOpts twoSightings)
  = [ mkAttendee (mkPlayer (lit "Lyri") (Some (Finite 59)) (Some (lit "Virtuoso"))
                           (Some (lit "Vah Shir")) (Some (lit "Intervention")))
                 (Some 1769115267000) (Some 1769117400000) ]
  /\ option_map playerOfMatch (WHO_PLAYER_RE (lit "[60 Virtuoso] LYRI"))
     = Some (mkPlayer (lit "LYRI") (Some (Finite 60)) (Some (lit "Virtuoso")) None None)
  /\ level (mkPlayer (lit "Lyri") (Some (Finite 59)) (Some (lit "Virtuoso"))
                     (Some (lit "Vah Shir")) (Some (lit "Intervention")))
     <> level (mkPlayer (lit "LYRI") (Some (Finite 60)) (Some (lit "Virtuoso")) None None).
Proof. repeat split; try reflexivity. discriminate. Qed.

(** C1 (amended): on a repeat sighting of a participant already present
    under the same lowercased name, the descriptive fields (and the
    spelling of the name) of the stored record stay those of the first
    sighting, whatever the new sighting carries, in the batch and auto
    upsert and in the live watcher's; a whole roster flush likewise leaves
    the fields of every stored record as they were. *)
Theorem C1_repeat_sighting_keeps_fields :
  forall (t : Date) (m : jsMap Attendee) (np : list Player) (p : Player) (existing : Attendee),
    mapGet (toLowerCase (name p)) m = Some existing ->
    (exists e, mapGet (toLowerCase (name p)) (upsert t m p) = Some e /\
               player e = player existing) /\
    (exists e, mapGet (toLowerCase (name p)) (fst (Live.upsert t (m, np) p)) = Some e /\
               player e = player existing) /\
    (forall ps, exists e,
        mapGet (toLowerCase (name p)) (flushRoster t ps m) = Some e /\
        player e = player existing) /\
    (forall ps, exists e,
        mapGet (toLowerCase (name p)) (fst (fold_left (Live.upsert t) ps (m, np))) = Some e /\
        player e = player existing).
Proof.
  intros t m np p existing H. repeat split.
  - exact (upsert_keeps_player t m p _ _ H).
  - exact (live_upsert_keeps_player t m np p _ _ H).
  - intros ps. exact (flushRoster_keeps_player t ps _ _ _ H).
  - intros ps. exact (live_flush_keeps_player t ps _ np _ _ H).
Qed.

Lemma C1_repeat_sighting_witness :
  exists e,
    mapGet (lit "lyri")
      (upsert (Some 2000)
         [(lit "lyri", mkAttendee (mkPlayer (lit "Lyri") (Some (Finite 59)) None None None)
                                  (Some 1000) (Some 1000))]
         (mkPlayer (lit "LYRI") (Some (Finite 60)) None None None)) = Some e /\
    player e = mkPlayer (lit "Lyri") (Some (Finite 59)) None None None.
Proof.
  exact (proj1 (@C1_repeat_sighting_keeps_fields (Some 2000)
           [(lit "lyri", mkAttendee (mkPlayer (lit "Lyri") (Some (Finite 59)) None None None)
                                    (Some 1000) (Some 1000))]
           [] (mkPlayer (lit "LYRI") (Some (Finite 60)) None None None)
           (mkAttendee (mkPlayer (lit "Lyri") (Some (Finite 59)) None None None)
                       (Some 1000) (Some 1000))
           eq_refl)).
Defined.

(** ** C2 *)

(** In the batch and auto parsers one record per lowercased name results
    and the bounds of a repeat sighting are min and max: the map never
    holds a key twice, a first sighting stores the block's instant in both
    bounds, and a repeat sighting with valid instants replaces them by the
    minimum and the maximum. *)
Lemma batch_upsert_one_record_min_max (tv : Z) (m : jsMap Attendee) (p : Player) :
  NoDup (mapKeys m) ->
  NoDup (mapKeys (upsert (Some tv) m p)) /\
  (mapGet (hasKey p) m = None ->
   mapGet (hasKey p) (upsert (Some tv) m p) = Some (mkAttendee p (Some tv) (Some tv))) /\
  (forall existing f l,
     mapGet (hasKey p) m = Some existing ->
     firstSeen existing = Some f -> lastSeen existing = Some l ->
     exists e, mapGet (hasKey p) (upsert (Some tv) m p) = Some e /\
               firstSeen e = Some (Z.min f tv) /\ lastSeen e = Some (Z.max l tv)).
Proof.
  intros Hnd. split; [now apply upsert_NoDup|]. split; [apply upsert_absent|].
  intros existing f l H Hf Hl.
  destruct (upsert_present_min_max tv m p existing f l H Hf Hl) as (e & He & _ & H1 & H2).
  eauto.
Qed.

(** C2 (the code at the failing input): two flushed roster blocks sight
    Lyri, the second with the earlier instant (13:30 after 14:00).  The
    live watcher leaves [firstSeen] at 14:00, so the record does not span
    the 13:30 sighting; the auto parser on the same lines lowers it to
    13:30, as the claim says. *)
Theorem C2_live_firstSeen_not_lowered :
  (match Live.processLines sampleHost liveConfig (Live.create 0) laterThenEarlier with
   | Returned w =>
       Live.sessionAttendance w
       = [ mkAttendee lyri60 (Some 1769004000000) (Some 1769004000000) ]
   | Threw => False
   end) /\
  (match Auto.autoParseLog sampleHost utcOpts laterThenEarlier with
   | Returned r =>
       map Auto.rs_attendance (Auto.sessions r)
       = [[ mkAttendee lyri60 (Some 1769002200000) (Some 1769004000000) ]]
   | Threw => False
   end).
Proof. split; vm_compute; reflexivity. Qed.

(** ** C9: the time window of the batch parser *)

Lemma batch_classify_outside opts zf ts content st :
  date_lt ts (Batch.startTime opts) = true \/ date_gt ts (Batch.endTime opts) = true ->
  Batch.classify opts zf ts content st = st.
Proof.
  intros H. unfold Batch.classify.
  destruct H as [H|H]; rewrite H; [reflexivity|].
  now rewrite orb_true_r.
Qed.

Lemma date_lt_true a b :
  date_lt a b = true <-> exists x y, a = Some x /\ b = Some y /\ x < y.
Proof.
  unfold date_lt. destruct a as [x|], b as [y|]; try (split; [discriminate|]).
  - rewrite Z.ltb_lt. split.
    + intros H. now exists x, y.
    + intros (x' & y' & [= <-] & [= <-] & H). exact H.
  - intros (? & ? & _ & [=] & _).
  - intros (? & ? & [=] & _).
  - intros (? & ? & [=] & _).
Qed.

(** C9: in batch [parseLog] a line whose parsed timestamp is strictly
    before [startTime] or strictly after [endTime] is counted and nothing
    else: current zone, block flag, block instant, buffered entries,
    attendance and loot are all unchanged, whatever the content, so the
    rest of the scan runs as if the line were not there; an out-of-window
    zone-entry does not change the current zone and an out-of-window
    start marker opens no block. *)
Theorem C9_outside_window_line_is_inert :
  forall host opts st line tsStr content t,
    LINE_RE line = Some (tsStr, content) ->
    parseEQDate host tsStr = Some (Some t) ->
    (exists s, Batch.startTime opts = Some s /\ t < s) \/
    (exists e, Batch.endTime opts = Some e /\ e < t) ->
    let zf := map normalizeZone (Batch.zones opts) in
    let st' := Batch.parseLine host opts zf st line in
    st' = Batch.countLine st /\
    Batch.currentZone st' = Batch.currentZone st /\
    Batch.inWhoBlock st' = Batch.inWhoBlock st /\
    Batch.whoBlockTime st' = Batch.whoBlockTime st /\
    Batch.whoPlayers st' = Batch.whoPlayers st /\
    Batch.attendanceMap st' = Batch.attendanceMap st /\
    Batch.lootEvents st' = Batch.lootEvents st /\
    (forall rest,
       Batch.scan host opts st (line :: rest) = Batch.scan host opts (Batch.countLine st) rest).
Proof.
  intros host opts st line tsStr content t HL HD HW zf st'.
  assert (E : st' = Batch.countLine st).
  { subst st'. unfold Batch.parseLine. rewrite HL, HD.
    apply batch_classify_outside.
    destruct HW as [(s & Hs & Hlt)|(e & He & Hlt)]; [left|right];
      [|unfold date_gt]; apply date_lt_true; eauto. }
  split; [exact E|]. rewrite E. repeat split.
  intros rest. unfold Batch.scan. simpl. fold zf. fold st'. now rewrite E.
Qed.

Lemma C9_outside_window_witness :
  Batch.parseLine sampleHost scenarioOpts (map normalizeZone (Batch.zones scenarioOpts))
    (Batch.scan sampleHost scenarioOpts Batch.init (firstn 1 staleZoneLines))
    (lit "[Fri Jan 23 09:00:00 2026] You have entered The Bazaar.")
  = Batch.countLine (Batch.scan sampleHost scenarioOpts Batch.init (firstn 1 staleZoneLines)).
Proof.
  refine (proj1 (C9_outside_window_line_is_inert sampleHost scenarioOpts
            (Batch.scan sampleHost scenarioOpts Batch.init (firstn 1 staleZoneLines))
            (lit "[Fri Jan 23 09:00:00 2026] You have entered The Bazaar.")
            (lit "Fri Jan 23 09:00:00 2026") (lit "You have entered The Bazaar.")
            1769158800000 _ _ _)).
  - reflexivity.
  - reflexivity.
  - right. exists 1769126400000. split; [reflexivity | lia].
Defined.

(** The zone entered outside the window is not seen, and the later loot
    inside the window is attributed to the zone entered before. *)
Example stale_zone_attribution :
  Batch.loot (Batch.parseLog sampleHost scenarioOpts staleZoneLines)
  = [ mkLoot (Some (lit "Lyri")) (lit "Shiknar Ichor") (Some 1769115600000)
             (Some (lit "The Fungus Grove")) ].
Proof. reflexivity. Qed.

(** ** C10: self-loot *)

(** A self-loot content is none of the other line shapes. *)
Lemma self_loot_exclusive content item :
  SELF_LOOT_RE content = Some item ->
  ZONE_ENTRY_RE content = None /\
  str_eqb content whoStart = false /\
  str_eqb content whoSeparator = false /\
  WHO_FOOTER_RE content = None /\
  WHO_PLAYER_RE content = None /\
  OTHER_LOOT_RE content = None.
Proof.
  unfold SELF_LOOT_RE. intros H.
  destruct (stripPrefix (lit "--You have looted a ") content) as [r|] eqn:E; [|discriminate].
  apply stripPrefix_Some in E. subst content. clear H.
  repeat split; vm_compute; reflexivity.
Qed.

Lemma bucketContents_mapSet_other k k' s sm :
  k <> k' -> bucketContents k' (mapSet k s sm) = bucketContents k' sm.
Proof. intros H. unfold bucketContents. now rewrite mapGet_mapSet_other. Qed.

Lemma bucketContents_mapSet_same k s sm :
  bucketContents k (mapSet k s sm) = (Auto.attendanceMap s, Auto.loot s).
Proof. unfold bucketContents. now rewrite mapGet_mapSet_same. Qed.

Lemma getSession_key t sm : fst (Auto.getSession t sm) = isoDate t.
Proof.
  unfold Auto.getSession.
  destruct (mapGet (isoDate t) sm) as [s|] eqn:E.
  - rewrite E. now destruct (date_gt (Some t) (Auto.lastSeen s)).
  - rewrite mapGet_mapSet_same. simpl. unfold date_gt. simpl.
    now rewrite Z.ltb_irrefl.
Qed.

Lemma getSession_present t sm :
  exists s, mapGet (isoDate t) (snd (Auto.getSession t sm)) = Some s.
Proof.
  unfold Auto.getSession.
  destruct (mapGet (isoDate t) sm) as [s|] eqn:E.
  - rewrite E. destruct (date_gt (Some t) (Auto.lastSeen s)); simpl.
    + rewrite mapGet_mapSet_same. eauto.
    + eauto.
  - rewrite mapGet_mapSet_same. simpl. unfold date_gt. simpl.
    rewrite Z.ltb_irrefl. simpl. rewrite mapGet_mapSet_same. eauto.
Qed.

(** [getSession] creates at most an empty bucket and otherwise leaves
    attendance and loot alone. *)
Lemma getSession_contents t sm k :
  bucketContents k (snd (Auto.getSession t sm)) = bucketContents k sm.
Proof.
  unfold Auto.getSession.
  destruct (mapGet (isoDate t) sm) as [s|] eqn:E.
  - rewrite E. destruct (date_gt (Some t) (Auto.lastSeen s)); simpl; [|reflexivity].
    destruct (list_eq_dec ascii_dec (isoDate t) k) as [<-|Hne].
    + rewrite bucketContents_mapSet_same. unfold bucketContents. now rewrite E.
    + now apply bucketContents_mapSet_other.
  - rewrite mapGet_mapSet_same. simpl. unfold date_gt. simpl.
    rewrite Z.ltb_irrefl. simpl.
    destruct (list_eq_dec ascii_dec (isoDate t) k) as [<-|Hne].
    + rewrite bucketContents_mapSet_same. unfold bucketContents. now rewrite E.
    + now apply bucketContents_mapSet_other.
Qed.

Lemma update_contents key f sm k :
  (forall s, Auto.attendanceMap (f s) = Auto.attendanceMap s /\ Auto.loot (f s) = Auto.loot s) ->
  bucketContents k (Auto.update key f sm) = bucketContents k sm.
Proof.
  intros Hf. unfold Auto.update.
  destruct (mapGet key sm) as [s|] eqn:E; [|reflexivity].
  destruct (list_eq_dec ascii_dec key k) as [<-|Hne].
  - rewrite bucketContents_mapSet_same. unfold bucketContents. rewrite E.
    destruct (Hf s) as [-> ->]. reflexivity.
  - now apply bucketContents_mapSet_other.
Qed.

Lemma addZone_contents z s :
  Auto.attendanceMap (Auto.addZone z s) = Auto.attendanceMap s /\
  Auto.loot (Auto.addZone z s) = Auto.loot s.
Proof. split; reflexivity. Qed.

(** C10 (as stated, refuted): the current zone matches the filter and the
    line is a self-loot line inside the time window, yet batch [parseLog]
    appends no loot event, because a roster block is open and the line is
    consumed as a (non-matching) roster line.  And [autoParseLog] without a
    character name does not ignore a self-loot line entirely: it records no
    loot, but the line still reaches the session of its day, whose zone
    list and [lastSeen] it changes (compare the run without the line). *)
Lemma C10_self_loot_inside_block_dropped :
  (let st := Batch.scan sampleHost scenarioOpts Batch.init (firstn 2 unclosedBlockLoot) in
   zoneMatchesFilters (Batch.currentZone st) (map normalizeZone (Batch.zones scenarioOpts))
   = true /\
   option_map snd (LINE_RE (lit "[Thu Jan 22 20:55:00 2026] --You have looted a Shiknar Ichor.--"))
   = Some (lit "--You have looted a Shiknar Ichor.--") /\
   SELF_LOOT_RE (lit "--You have looted a Shiknar Ichor.--") = Some (lit "Shiknar Ichor") /\
   Batch.loot (Batch.parseLog sampleHost scenarioOpts unclosedBlockLoot) = []) /\
  (match Auto.autoParseLog sampleHost noNameOpts selfLootNoName,
         Auto.autoParseLog sampleHost noNameOpts (firstn 3 selfLootNoName) with
   | Returned r, Returned r' =>
       map (fun s => (Auto.rs_zones s, Auto.rs_lastSeen s)) (Auto.sessions r)
       = [([Some (lit "The Deep"); Some (lit "Sebilis")], Some 1769005860000)] /\
       map (fun s => (Auto.rs_zones s, Auto.rs_lastSeen s)) (Auto.sessions r')
       = [([Some (lit "The Deep")], Some 1769004000000)]
   | _, _ => False
   end).
Proof. split; [repeat split; reflexivity | vm_compute; split; reflexivity]. Qed.

(** C10 (amended): in batch [parseLog] a self-loot line whose timestamp
    passes the time window, met outside a roster block while the current
    zone matches the filters, always appends a loot event whose playerName
    is the supplied [characterName], [null] included; [autoParseLog]
    records no loot (and no attendance) for a self-loot line when no
    [characterName] is set, and the live watcher leaves its whole state
    unchanged. *)
Theorem C10_self_loot_player_name :
  forall host line tsStr content item,
    LINE_RE line = Some (tsStr, content) ->
    SELF_LOOT_RE content = Some item ->
    (forall opts st ts,
       parseEQDate host tsStr = Some ts ->
       date_lt ts (Batch.startTime opts) = false ->
       date_gt ts (Batch.endTime opts) = false ->
       Batch.inWhoBlock st = false ->
       zoneMatchesFilters (Batch.currentZone st)
                          (map normalizeZone (Batch.zones opts)) = true ->
       Batch.parseLine host opts (map normalizeZone (Batch.zones opts)) st line
       = Batch.pushLoot (mkLoot (Batch.characterName opts) item ts (Batch.currentZone st))
                        (Batch.countLine st)) /\
    (forall opts st st',
       Auto.truthy (Auto.characterName opts) = false ->
       Auto.parseLine host opts st line = Returned st' ->
       forall key, bucketContents key (Auto.sessionMap st')
                   = bucketContents key (Auto.sessionMap st)) /\
    (forall cfg w w',
       Live.truthy (Live.characterName cfg) = false ->
       Live.processLine host cfg w line = Returned w' ->
       w' = w).
Proof.
  intros host line tsStr content item HL HS.
  destruct (self_loot_exclusive content item HS) as (HZ & HW & HSep & HF & HP & HO).
  split; [|split].
  - intros opts st ts HD H1 H2 Hin Hzone.
    unfold Batch.parseLine. rewrite HL, HD.
    unfold Batch.classify. rewrite H1, H2, HZ, HW. simpl.
    rewrite Hin, Hzone, HS. reflexivity.
  - intros opts st st' Ht Hrun key.
    unfold Auto.parseLine in Hrun. rewrite HL in Hrun.
    destruct (parseEQDateUTC host tsStr (Auto.timezone opts)) as [[utcTs|]|];
      [| injection Hrun as <-; reflexivity | discriminate].
    unfold Auto.classify in Hrun. rewrite HZ, HW in Hrun.
    change (Auto.inWhoBlock (Auto.countLine st)) with (Auto.inWhoBlock st) in Hrun.
    destruct (Auto.inWhoBlock st).
    + rewrite HSep, HF, HP in Hrun. injection Hrun as <-. reflexivity.
    + destruct (negb (Auto.isInRaidWindow utcTs)
                || negb (Auto.isApprovedZone (Auto.currentZone (Auto.countLine st)))).
      * injection Hrun as <-. reflexivity.
      * destruct utcTs as [t|]; [|discriminate].
        destruct (Auto.getSession t (Auto.sessionMap (Auto.countLine st))) as [k sm] eqn:G.
        rewrite HS, Ht, HO in Hrun. injection Hrun as <-. simpl.
        rewrite update_contents by (intros s; apply addZone_contents).
        change sm with (snd (k, sm)). rewrite <- G. apply getSession_contents.
  - intros cfg w w' Ht Hrun.
    unfold Live.processLine in Hrun. rewrite HL in Hrun.
    destruct (parseEQDateUTC host tsStr (Live.timezone cfg)) as [[utcTs|]|];
      [| now injection Hrun | discriminate].
    unfold Live.classify in Hrun. rewrite HZ, HW in Hrun.
    destruct (Live.inWhoBlock w).
    + rewrite HSep, HF, HP in Hrun. now injection Hrun.
    + destruct (negb (Live.isInRaidWindow cfg utcTs)
                || negb (Live.isApprovedZone cfg (Live.currentZone w))).
      * now injection Hrun.
      * rewrite HS, Ht, HO in Hrun. now injection Hrun.
Qed.

Lemma C10_self_loot_witness :
  Batch.parseLine sampleHost nullNameOpts (map normalizeZone (Batch.zones nullNameOpts))
    (Batch.scan sampleHost nullNameOpts Batch.init (firstn 1 unclosedBlockLoot))
    (lit "[Thu Jan 22 20:55:00 2026] --You have looted a Shiknar Ichor.--")
  = Batch.pushLoot
      (mkLoot None (lit "Shiknar Ichor") (Some 1769115300000) (Some (lit "The Fungus Grove")))
      (Batch.countLine (Batch.scan sampleHost nullNameOpts Batch.init
                          (firstn 1 unclosedBlockLoot))).
Proof.
  exact (proj1 (C10_self_loot_player_name sampleHost
                  (lit "[Thu Jan 22 20:55:00 2026] --You have looted a Shiknar Ichor.--")
                  (lit "Thu Jan 22 20:55:00 2026")
                  (lit "--You have looted a Shiknar Ichor.--")
                  (lit "Shiknar Ichor") eq_refl eq_refl)
               nullNameOpts
               (Batch.scan sampleHost nullNameOpts Batch.init (firstn 1 unclosedBlockLoot))
               (Some 1769115300000) eq_refl eq_refl eq_refl eq_refl eq_refl).
Defined.

(** ** C3: a roster block cut short by a zone entry *)

Arguments zoneMatchesFilters : simpl never.
Arguments Live.isApprovedZone : simpl never.
Arguments Live.isInRaidWindow : simpl never.
Arguments Auto.isApprovedZone : simpl never.
Arguments Auto.isInRaidWindow : simpl never.

Ltac sim_close :=
  simpl;
  repeat match goal with |- _ /\ _ => split end;
  try reflexivity; try assumption; try (intros ?; discriminate);
  try (intros _; split; reflexivity).

Lemma batch_classify_sim opts zf ts content a b :
  batch_sim a b ->
  batch_sim (Batch.classify opts zf ts content a) (Batch.classify opts zf ts content b).
Proof.
  intros (Ha & Hz & Hb & Hbuf).
  destruct a as [am al az ab at_ ap an], b as [bm bl bz bb bt bp bn].
  simpl in *. subst bm bz bb.
  unfold Batch.classify, batch_sim; simpl.
  destruct (date_lt ts (Batch.startTime opts) || date_gt ts (Batch.endTime opts)).
  { sim_close. }
  destruct (ZONE_ENTRY_RE content).
  { sim_close. }
  destruct (str_eqb content whoStart).
  { sim_close. }
  destruct ab.
  - destruct (Hbuf eq_refl) as [<- <-].
    destruct (str_eqb content whoSeparator).
    { sim_close. }
    destruct (WHO_FOOTER_RE content).
    + destruct (zoneMatchesFilters (Some s) zf); sim_close.
    + destruct (WHO_PLAYER_RE content); sim_close.
  - destruct (negb (zoneMatchesFilters az zf)).
    { sim_close. }
    destruct (SELF_LOOT_RE content).
    { sim_close. }
    destruct (OTHER_LOOT_RE content) as [[who item]|]; sim_close.
Qed.

Lemma batch_countLine_sim a b : batch_sim a b -> batch_sim (Batch.countLine a) (Batch.countLine b).
Proof. intros H. exact H. Qed.

Lemma batch_parseLine_sim host opts zf a b line :
  batch_sim a b ->
  batch_sim (Batch.parseLine host opts zf a line) (Batch.parseLine host opts zf b line).
Proof.
  intros H. unfold Batch.parseLine.
  destruct (LINE_RE line) as [[tsStr content]|]; [|exact H].
  destruct (parseEQDate host tsStr) as [ts|]; [|exact H].
  apply batch_classify_sim. exact H.
Qed.

Lemma batch_scan_sim host opts lines : forall a b,
  batch_sim a b ->
  batch_sim (Batch.scan host opts a lines) (Batch.scan host opts b lines).
Proof.
  unfold Batch.scan. induction lines as [|l ls IH]; intros a b H; simpl; [exact H|].
  apply IH. now apply batch_parseLine_sim.
Qed.

Lemma batch_scan_app host opts a l1 l2 :
  Batch.scan host opts a (l1 ++ l2) = Batch.scan host opts (Batch.scan host opts a l1) l2.
Proof. unfold Batch.scan. apply fold_left_app. Qed.

(** The attendance map changes only on a footer met inside a block. *)
Lemma batch_parseLine_attendance host opts zf st line :
  Batch.attendanceMap (Batch.parseLine host opts zf st line) = Batch.attendanceMap st \/
  (Batch.inWhoBlock st = true /\
   exists tsStr content whoZone,
     LINE_RE line = Some (tsStr, content) /\ WHO_FOOTER_RE content = Some whoZone).
Proof.
  unfold Batch.parseLine.
  destruct (LINE_RE line) as [[tsStr content]|]; [|now left].
  destruct (parseEQDate host tsStr) as [ts|]; [|now left].
  unfold Batch.classify.
  destruct (date_lt ts (Batch.startTime opts) || date_gt ts (Batch.endTime opts)); [now left|].
  destruct (ZONE_ENTRY_RE content); [now left|].
  destruct (str_eqb content whoStart); [now left|].
  change (Batch.inWhoBlock (Batch.countLine st)) with (Batch.inWhoBlock st).
  destruct (Batch.inWhoBlock st).
  - destruct (str_eqb content whoSeparator); [now left|].
    destruct (WHO_FOOTER_RE content) as [whoZone|] eqn:HF.
    + right. split; [reflexivity|]. exists tsStr, content, whoZone. now split.
    + destruct (WHO_PLAYER_RE content); now left.
  - destruct (negb (zoneMatchesFilters (Batch.currentZone (Batch.countLine st)) zf)); [now left|].
    destruct (SELF_LOOT_RE content); [now left|].
    destruct (OTHER_LOOT_RE content) as [[who item]|]; now left.
Qed.

(** Lines that are no zone entry and no footer leave the attendance map
    and the current zone alone. *)
Lemma batch_parseLine_interior host opts zf st line :
  (forall tsStr content, LINE_RE line = Some (tsStr, content) ->
     ZONE_ENTRY_RE content = None /\ WHO_FOOTER_RE content = None) ->
  Batch.attendanceMap (Batch.parseLine host opts zf st line) = Batch.attendanceMap st /\
  Batch.currentZone (Batch.parseLine host opts zf st line) = Batch.currentZone st.
Proof.
  intros H. unfold Batch.parseLine.
  destruct (LINE_RE line) as [[tsStr content]|]; [|now split].
  destruct (H tsStr content eq_refl) as [HZ HF].
  destruct (parseEQDate host tsStr) as [ts|]; [|now split].
  unfold Batch.classify. rewrite HZ, HF.
  destruct (date_lt ts (Batch.startTime opts) || date_gt ts (Batch.endTime opts)); [now split|].
  destruct (str_eqb content whoStart); [now split|].
  destruct (Batch.inWhoBlock (Batch.countLine st)).
  - destruct (str_eqb content whoSeparator); [now split|].
    destruct (WHO_PLAYER_RE content); now split.
  - destruct (negb (zoneMatchesFilters (Batch.currentZone (Batch.countLine st)) zf)); [now split|].
    destruct (SELF_LOOT_RE content); [now split|].
    destruct (OTHER_LOOT_RE content) as [[who item]|]; now split.
Qed.

Lemma batch_scan_interior host opts blk : forall st,
  noZoneEntryNorFooter blk ->
  Batch.attendanceMap (Batch.scan host opts st blk) = Batch.attendanceMap st /\
  Batch.currentZone (Batch.scan host opts st blk) = Batch.currentZone st.
Proof.
  unfold Batch.scan. induction blk as [|l blk IH]; intros st H; simpl; [now split|].
  destruct (IH (Batch.parseLine host opts (map normalizeZone (Batch.zones opts)) st l)) as [H1 H2].
  { intros l' Hl'. apply H. now right. }
  destruct (batch_parseLine_interior host opts (map normalizeZone (Batch.zones opts)) st l)
    as [H3 H4].
  { apply H. now left. }
  split; congruence.
Qed.

(** In the batch parser, lines up to an effective zone entry that hold no
    zone entry and no footer leave no trace in attendance. *)
Lemma batch_aborted_block host opts pre blk z post tsStr content ts zn :
  LINE_RE z = Some (tsStr, content) ->
  ZONE_ENTRY_RE content = Some zn ->
  noZoneEntryNorFooter blk ->
  parseEQDate host tsStr = Some ts ->
  date_lt ts (Batch.startTime opts) = false ->
  date_gt ts (Batch.endTime opts) = false ->
  Batch.attendance (Batch.parseLog host opts (pre ++ blk ++ z :: post))
  = Batch.attendance (Batch.parseLog host opts (pre ++ z :: post)).
Proof.
  intros HL HZ Hblk HD H1 H2.
  unfold Batch.parseLog, Batch.finish. simpl. f_equal.
  rewrite !batch_scan_app.
  set (s0 := Batch.scan host opts Batch.init pre).
  change (z :: post) with ([z] ++ post). rewrite !batch_scan_app.
  apply batch_scan_sim.
  destruct (batch_scan_interior host opts blk s0 Hblk) as [Ha Hc].
  set (s1 := Batch.scan host opts s0 blk) in *.
  unfold Batch.scan. simpl. unfold Batch.parseLine. rewrite HL, HD.
  unfold Batch.classify. rewrite H1, H2, HZ.
  unfold batch_sim. sim_close.
Qed.

(** The same for the live watcher, where a line may also throw. *)

Lemma live_classify_sim cfg utcTs content a b :
  live_sim a b ->
  outcome_rel live_sim (Live.classify cfg utcTs content a) (Live.classify cfg utcTs content b).
Proof.
  intros (Ha & Hz & Hb & Hbuf).
  destruct a as [ao ap az ab at_ apl am al azs ae], b as [bo bp bz bb bt bpl bm bl bzs be].
  simpl in *. subst bm bz bb.
  unfold Live.classify, outcome_rel, live_sim; simpl.
  destruct (ZONE_ENTRY_RE content).
  { destruct utcTs; [sim_close | exact I]. }
  destruct (str_eqb content whoStart).
  { destruct (Live.isInRaidWindow cfg utcTs); sim_close. }
  destruct ab.
  - destruct (Hbuf eq_refl) as [<- <-].
    destruct (str_eqb content whoSeparator).
    { sim_close. }
    destruct (WHO_FOOTER_RE content).
    + destruct (negb (Live.isApprovedZone cfg (Some s))); [sim_close|].
      destruct (fold_left (Live.upsert at_) apl (am, [])) as [m np].
      destruct at_; [sim_close | exact I].
    + destruct (WHO_PLAYER_RE content); sim_close.
  - destruct (negb (Live.isInRaidWindow cfg utcTs) || negb (Live.isApprovedZone cfg az)).
    { sim_close. }
    destruct (SELF_LOOT_RE content), (Live.truthy (Live.characterName cfg));
      try (destruct utcTs; [sim_close | exact I]);
      destruct (OTHER_LOOT_RE content) as [[who item]|];
      try (destruct utcTs; [sim_close | exact I]); sim_close.
Qed.

Lemma live_processLine_sim host cfg a b line :
  live_sim a b ->
  outcome_rel live_sim (Live.processLine host cfg a line) (Live.processLine host cfg b line).
Proof.
  intros H. unfold Live.processLine.
  destruct (LINE_RE line) as [[tsStr content]|]; [|exact H].
  destruct (parseEQDateUTC host tsStr (Live.timezone cfg)) as [[utcTs|]|];
    [| exact H | exact I].
  now apply live_classify_sim.
Qed.

Lemma live_processLines_sim host cfg lines : forall a b,
  live_sim a b ->
  outcome_rel live_sim (Live.processLines host cfg a lines)
                       (Live.processLines host cfg b lines).
Proof.
  induction lines as [|l ls IH]; intros a b H; simpl; [exact H|].
  pose proof (live_processLine_sim host cfg a b l H) as Hl.
  destruct (Live.processLine host cfg a l) as [a'|], (Live.processLine host cfg b l) as [b'|];
    simpl in Hl; try contradiction; [now apply IH | exact I].
Qed.

Lemma live_processLines_app host cfg l1 : forall w l2,
  Live.processLines host cfg w (l1 ++ l2)
  = Live.andThen (Live.processLines host cfg w l1)
                 (fun w' => Live.processLines host cfg w' l2).
Proof.
  induction l1 as [|l l1 IH]; intros w l2; simpl; [reflexivity|].
  destruct (Live.processLine host cfg w l); [apply IH | reflexivity].
Qed.

Lemma live_processLine_attendance host cfg w w' line :
  Live.processLine host cfg w line = Returned w' ->
  Live.attendanceMap w' = Live.attendanceMap w \/
  (Live.inWhoBlock w = true /\
   exists tsStr content whoZone,
     LINE_RE line = Some (tsStr, content) /\ WHO_FOOTER_RE content = Some whoZone).
Proof.
  unfold Live.processLine.
  destruct (LINE_RE line) as [[tsStr content]|]; [|intros [= <-]; now left].
  destruct (parseEQDateUTC host tsStr (Live.timezone cfg)) as [[utcTs|]|];
    [| intros [= <-]; now left | discriminate].
  unfold Live.classify.
  destruct (ZONE_ENTRY_RE content).
  { destruct utcTs; [intros [= <-]; now left | discriminate]. }
  destruct (str_eqb content whoStart).
  { destruct (Live.isInRaidWindow cfg utcTs); intros [= <-]; now left. }
  destruct (Live.inWhoBlock w).
  - destruct (str_eqb content whoSeparator); [intros [= <-]; now left|].
    destruct (WHO_FOOTER_RE content) as [whoZone|] eqn:HF.
    + intros _. right. split; [reflexivity|]. exists tsStr, content, whoZone. now split.
    + destruct (WHO_PLAYER_RE content); intros [= <-]; now left.
  - destruct (negb (Live.isInRaidWindow cfg utcTs)
              || negb (Live.isApprovedZone cfg (Live.currentZone w)));
      [intros [= <-]; now left|].
    destruct (SELF_LOOT_RE content), (Live.truthy (Live.characterName cfg));
      try (destruct utcTs; [intros [= <-]; now left | discriminate]);
      destruct (OTHER_LOOT_RE content) as [[who item]|];
      try (destruct utcTs; [intros [= <-]; now left | discriminate]);
      intros [= <-]; now left.
Qed.

Lemma live_processLine_interior host cfg w w' line :
  (forall tsStr content, LINE_RE line = Some (tsStr, content) ->
     ZONE_ENTRY_RE content = None /\ WHO_FOOTER_RE content = None) ->
  Live.processLine host cfg w line = Returned w' ->
  Live.attendanceMap w' = Live.attendanceMap w /\
  Live.currentZone w' = Live.currentZone w.
Proof.
  intros H. unfold Live.processLine.
  destruct (LINE_RE line) as [[tsStr content]|]; [|intros [= <-]; now split].
  destruct (H tsStr content eq_refl) as [HZ HF].
  destruct (parseEQDateUTC host tsStr (Live.timezone cfg)) as [[utcTs|]|];
    [| intros [= <-]; now split | discriminate].
  unfold Live.classify. rewrite HZ, HF.
  destruct (str_eqb content whoStart).
  { destruct (Live.isInRaidWindow cfg utcTs); intros [= <-]; now split. }
  destruct (Live.inWhoBlock w).
  - destruct (str_eqb content whoSeparator); [intros [= <-]; now split|].
    destruct (WHO_PLAYER_RE content); intros [= <-]; now split.
  - destruct (negb (Live.isInRaidWindow cfg utcTs)
              || negb (Live.isApprovedZone cfg (Live.currentZone w)));
      [intros [= <-]; now split|].
    destruct (SELF_LOOT_RE content), (Live.truthy (Live.characterName cfg));
      try (destruct utcTs; [intros [= <-]; now split | discriminate]);
      destruct (OTHER_LOOT_RE content) as [[who item]|];
      try (destruct utcTs; [intros [= <-]; now split | discriminate]);
      intros [= <-]; now split.
Qed.

Lemma live_processLines_interior host cfg blk : forall w w',
  noZoneEntryNorFooter blk ->
  Live.processLines host cfg w blk = Returned w' ->
  Live.attendanceMap w' = Live.attendanceMap w /\
  Live.currentZone w' = Live.currentZone w.
Proof.
  induction blk as [|l blk IH]; intros w w' H; simpl.
  - intros [= <-]. now split.
  - destruct (Live.processLine host cfg w l) as [w1|] eqn:E; [|discriminate].
    intros Hrun.
    destruct (live_processLine_interior host cfg w w1 l) as [H1 H2];
      [apply H; now left | exact E |].
    destruct (IH w1 w') as [H3 H4]; [intros l' Hl'; apply H; now right | exact Hrun |].
    split; congruence.
Qed.

(** In the live watcher, when the run with the cut-short block returns,
    so does the run without it, with the same attendance. *)
Lemma live_aborted_block host cfg w pre blk z post tsStr content zn w1 :
  LINE_RE z = Some (tsStr, content) ->
  ZONE_ENTRY_RE content = Some zn ->
  noZoneEntryNorFooter blk ->
  Live.processLines host cfg w (pre ++ blk ++ z :: post) = Returned w1 ->
  exists w2, Live.processLines host cfg w (pre ++ z :: post) = Returned w2 /\
             Live.attendanceMap w2 = Live.attendanceMap w1.
Proof.
  intros HL HZ Hblk Hrun.
  rewrite live_processLines_app in Hrun. rewrite live_processLines_app.
  destruct (Live.processLines host cfg w pre) as [s0|]; [|discriminate].
  simpl in *.
  rewrite live_processLines_app in Hrun.
  destruct (Live.processLines host cfg s0 blk) as [s1|] eqn:Eblk; [|discriminate].
  simpl in Hrun.
  destruct (live_processLines_interior host cfg blk s0 s1 Hblk Eblk) as [Ha Hc].
  unfold Live.processLine in *. rewrite HL in *.
  pose proof (parseEQDateUTC_not_null host z tsStr content (Live.timezone cfg) HL) as Hnn.
  destruct (parseEQDateUTC host tsStr (Live.timezone cfg)) as [[utcTs|]|];
    [| congruence | discriminate].
  unfold Live.classify in *. rewrite HZ in *.
  destruct utcTs as [t|]; [|discriminate].
  pose proof (live_processLines_sim host cfg post
                (Live.enterZone zn (Live.EvZone (Some zn) t) s1)
                (Live.enterZone zn (Live.EvZone (Some zn) t) s0)) as Hsim.
  rewrite Hrun in Hsim.
  destruct (Live.processLines host cfg
              (Live.enterZone zn (Live.EvZone (Some zn) t) s0) post) as [w2|].
  - exists w2. split; [reflexivity|].
    destruct Hsim as (H & _); [|now symmetry].
    unfold live_sim. sim_close.
  - exfalso. apply Hsim. unfold live_sim. sim_close.
Qed.

(** C3 (as stated, refuted): in batch mode a zone-entry line stamped
    outside the time window is not read, so it does not interrupt the
    block: the start marker, Lyri's entry, the zone-entry line and then the
    footer leave Lyri in the attendance result. *)
Lemma C3_zone_entry_outside_window_no_abort :
  map (fun a => name (player a))
      (Batch.attendance (Batch.parseLog sampleHost scenarioOpts zoneEntryOutsideWindow))
  = [lit "Lyri"] /\
  option_map (fun m => ZONE_ENTRY_RE (snd m)) (LINE_RE (nth 2 zoneEntryOutsideWindow []))
  = Some (Some (lit "The Bazaar")) /\
  forallb interiorLine (firstn 2 zoneEntryOutsideWindow) = true.
Proof. repeat split; reflexivity. Qed.

(** C3 (amended): take any line sequence in which some lines (a roster
    block's start marker and whatever it buffered, say) that contain no
    footer and no zone entry are followed by a zone-entry line that the
    scanner reads: any zone-entry line for the live watcher, one whose
    timestamp lies inside the time window for batch [parseLog].  The
    attendance result is that of the sequence with those lines removed:
    nothing they buffered is ever flushed, not even by a footer that comes
    later.  (The live watcher is compared whenever it gets through the
    lines without throwing.)  In both, the attendance map changes only at
    a footer met while a block is open. *)
Theorem C3_aborted_block_leaves_no_trace :
  forall host pre blk z post tsStr content zn,
    LINE_RE z = Some (tsStr, content) ->
    ZONE_ENTRY_RE content = Some zn ->
    noZoneEntryNorFooter blk ->
    (forall opts ts,
       parseEQDate host tsStr = Some ts ->
       date_lt ts (Batch.startTime opts) = false ->
       date_gt ts (Batch.endTime opts) = false ->
       Batch.attendance (Batch.parseLog host opts (pre ++ blk ++ z :: post))
       = Batch.attendance (Batch.parseLog host opts (pre ++ z :: post))) /\
    (forall cfg w w1,
       Live.processLines host cfg w (pre ++ blk ++ z :: post) = Returned w1 ->
       exists w2, Live.processLines host cfg w (pre ++ z :: post) = Returned w2 /\
                  Live.sessionAttendance w2 = Live.sessionAttendance w1) /\
    (forall opts zf st line,
       Batch.attendanceMap (Batch.parseLine host opts zf st line) = Batch.attendanceMap st \/
       (Batch.inWhoBlock st = true /\
        exists tsStr content whoZone,
          LINE_RE line = Some (tsStr, content) /\ WHO_FOOTER_RE content = Some whoZone)) /\
    (forall cfg w w' line,
       Live.processLine host cfg w line = Returned w' ->
       Live.attendanceMap w' = Live.attendanceMap w \/
       (Live.inWhoBlock w = true /\
        exists tsStr content whoZone,
          LINE_RE line = Some (tsStr, content) /\ WHO_FOOTER_RE content = Some whoZone)).
Proof.
  intros host pre blk z post tsStr content zn HL HZ Hblk.
  split; [|split; [|split]].
  - intros opts ts HD H1 H2.
    exact (batch_aborted_block host opts pre blk z post tsStr content ts zn HL HZ Hblk HD H1 H2).
  - intros cfg w w1 Hrun.
    destruct (live_aborted_block host cfg w pre blk z post tsStr content zn w1
                HL HZ Hblk Hrun) as (w2 & Hw2 & Ha).
    exists w2. split; [exact Hw2|]. unfold Live.sessionAttendance. now rewrite Ha.
  - intros opts zf st line. apply batch_parseLine_attendance.
  - intros cfg w w' line. apply live_processLine_attendance.
Qed.
Lemma interiorLines_sound blk :
  forallb interiorLine blk = true -> noZoneEntryNorFooter blk.
Proof.
  intros H l Hl tsStr content HL.
  rewrite forallb_forall in H. specialize (H l Hl).
  unfold interiorLine in H. rewrite HL in H.
  destruct (ZONE_ENTRY_RE content), (WHO_FOOTER_RE content); try discriminate.
  now split.
Defined.

Lemma C3_aborted_block_witness :
  Batch.attendance (Batch.parseLog sampleHost scenarioOpts
                      ([] ++ abortedBlockLines ++ zoneEntryLine :: afterAbort))
  = Batch.attendance (Batch.parseLog sampleHost scenarioOpts
                      ([] ++ zoneEntryLine :: afterAbort)).
Proof.
  exact (proj1 (C3_aborted_block_leaves_no_trace sampleHost [] abortedBlockLines
                  zoneEntryLine afterAbort
                  (lit "Thu Jan 22 20:54:30 2026")
                  (lit "You have entered The Fungus Grove.")
                  (lit "The Fungus Grove")
                  eq_refl eq_refl (interiorLines_sound abortedBlockLines eq_refl))
               scenarioOpts (Some 1769115270000) eq_refl eq_refl eq_refl).
Defined.

(** The footer that follows the zone entry flushes nothing, and the
    complete block after it flushes its one entry. *)
Example aborted_block_run :
  map (fun a => name (player a))
      (Batch.attendance (Batch.parseLog sampleHost scenarioOpts
                           (abortedBlockLines ++ zoneEntryLine :: afterAbort)))
  = [lit "Tunare"].
Proof. reflexivity. Qed.

(** ** Sorting *)

Section SortFacts.
Variable A : Type.
Variable cmp : A -> A -> comparison.

Lemma In_insertSorted x y l : In y (insertSorted cmp x l) <-> x = y \/ In y l.
Proof.
  induction l as [|z l IH]; simpl; [tauto|].
  destruct (cmp x z); simpl; rewrite ?IH; tauto.
Qed.

Lemma In_sortBy y l : In y (sortBy cmp l) <-> In y l.
Proof.
  induction l as [|x l IH]; simpl; [tauto|].
  rewrite In_insertSorted, IH. tauto.
Qed.

Lemma insertSorted_perm x l : Permutation (x :: l) (insertSorted cmp x l).
Proof.
  induction l as [|z l IH]; simpl; [apply Permutation_refl|].
  destruct (cmp x z); try apply Permutation_refl.
  eapply Permutation_trans; [apply perm_swap|]. now apply perm_skip.
Qed.

Lemma sortBy_perm l : Permutation l (sortBy cmp l).
Proof.
  induction l as [|x l IH]; simpl; [apply perm_nil|].
  eapply Permutation_trans; [apply perm_skip, IH | apply insertSorted_perm].
Qed.

(** With a comparator that never says [Gt] both ways, the result is
    sorted: no element is [Gt] than its successor. *)
Hypothesis cmp_total : forall a b, cmp a b = Gt -> cmp b a <> Gt.

Lemma insertSorted_sorted x l :
  Sorted (notAfter cmp) l -> Sorted (notAfter cmp) (insertSorted cmp x l).
Proof.
  induction l as [|z l IH]; intros H; simpl.
  - constructor; constructor.
  - destruct (cmp x z) eqn:E.
    + constructor; [exact H | constructor; unfold notAfter; congruence].
    + constructor; [exact H | constructor; unfold notAfter; congruence].
    + inversion H as [|? ? Hs Hh]; subst.
      constructor; [now apply IH|].
      destruct l as [|w l]; simpl.
      * constructor. now apply cmp_total.
      * destruct (cmp x w) eqn:E2.
        -- constructor. now apply cmp_total.
        -- constructor. now apply cmp_total.
        -- constructor. now inversion Hh.
Qed.

Lemma sortBy_sorted l : Sorted (notAfter cmp) (sortBy cmp l).
Proof.
  induction l as [|x l IH]; simpl; [constructor|].
  now apply insertSorted_sorted.
Qed.
End SortFacts.

Lemma localeCompare_antisym a : forall b,
  localeCompare a b = Gt -> localeCompare b a = Lt.
Proof.
  induction a as [|x a IH]; intros [|y b]; simpl; try discriminate; try reflexivity.
  rewrite (Nat.compare_antisym (collationRank x) (collationRank y)).
  destruct (Nat.compare (collationRank x) (collationRank y)); simpl;
    try discriminate; try reflexivity.
  apply IH.
Qed.

Lemma localeCompare_refl a : localeCompare a a = Eq.
Proof.
  induction a as [|x a IH]; simpl; [reflexivity|].
  now rewrite Nat.compare_refl.
Qed.

Lemma collationRank_inj x y : collationRank x = collationRank y -> x = y.
Proof.
  unfold collationRank. rewrite !ascii_eqb_code.
  change (code "-") with 45%nat. change (code "+") with 43%nat.
  intros H. apply code_inj.
  destruct (Nat.eqb_spec 45 (code x)), (Nat.eqb_spec 45 (code y)),
           (Nat.eqb_spec 43 (code x)), (Nat.eqb_spec 43 (code y)); lia.
Qed.

Lemma localeCompare_eq a : forall b, localeCompare a b = Eq -> a = b.
Proof.
  induction a as [|x a IH]; intros [|y b]; simpl; try discriminate; try reflexivity.
  destruct (Nat.compare (collationRank x) (collationRank y)) eqn:E; try discriminate.
  apply Nat.compare_eq in E. apply collationRank_inj in E. subst.
  intros H. f_equal. now apply IH.
Qed.

(** ** Bounds of stored records *)

Section Bounds.
Variable P : Date -> Prop.

Lemma upsert_bounds t m p : P t -> boundsIn P m -> boundsIn P (upsert t m p).
Proof.
  intros Ht Hm k a Hin. unfold upsert in Hin.
  destruct (mapGet (toLowerCase (name p)) m) as [e|] eqn:E.
  - apply In_mapSet in Hin. destruct Hin as [[_ ->]|Hin]; [|now apply (Hm k)].
    apply mapGet_In in E. destruct (Hm _ _ E) as [H1 H2].
    destruct (date_lt t (firstSeen e)); simpl;
      [destruct (date_gt t (lastSeen e)) | destruct (date_gt t (lastSeen e))];
      simpl; now split.
  - apply In_mapSet in Hin. destruct Hin as [[_ ->]|Hin]; [now split | now apply (Hm k)].
Qed.

Lemma flushRoster_bounds t ps : forall m, P t -> boundsIn P m -> boundsIn P (flushRoster t ps m).
Proof.
  unfold flushRoster. induction ps as [|p ps IH]; intros m Ht Hm; simpl; [exact Hm|].
  apply IH; [exact Ht|]. now apply upsert_bounds.
Qed.

Lemma live_upsert_bounds t m np p :
  P t -> boundsIn P m -> boundsIn P (fst (Live.upsert t (m, np) p)).
Proof.
  intros Ht Hm k a Hin. unfold Live.upsert in Hin.
  destruct (mapGet (toLowerCase (name p)) m) as [e|] eqn:E.
  - apply mapGet_In in E. destruct (Hm _ _ E) as [H1 H2].
    destruct (date_gt t (lastSeen e)); simpl in Hin; [|now apply (Hm k)].
    apply In_mapSet in Hin. destruct Hin as [[_ ->]|Hin]; [now split | now apply (Hm k)].
  - simpl in Hin. apply In_mapSet in Hin.
    destruct Hin as [[_ ->]|Hin]; [now split | now apply (Hm k)].
Qed.

Lemma live_flush_bounds t ps : forall m np,
  P t -> boundsIn P m -> boundsIn P (fst (fold_left (Live.upsert t) ps (m, np))).
Proof.
  induction ps as [|p ps IH]; intros m np Ht Hm; cbn [fold_left]; [exact Hm|].
  pose proof (live_upsert_bounds t m np p Ht Hm) as H.
  destruct (Live.upsert t (m, np) p) as [m1 np1]. now apply IH.
Qed.
End Bounds.

Lemma live_upsert_NoDup t m np p :
  NoDup (mapKeys m) -> NoDup (mapKeys (fst (Live.upsert t (m, np) p))).
Proof.
  intros H. unfold Live.upsert.
  destruct (mapGet (toLowerCase (name p)) m) as [e|]; simpl.
  - destruct (date_gt t (lastSeen e)); simpl; [now apply NoDup_mapSet | exact H].
  - now apply NoDup_mapSet.
Qed.

Lemma In_setAdd z z' zs : In z' (setAdd z zs) -> z' = z \/ In z' zs.
Proof.
  unfold setAdd. destruct (existsb (optStr_eqb z) zs); [now right|].
  rewrite in_app_iff. simpl. intros [H|[H|[]]]; auto.
Qed.

(** ** The auto parser's buckets *)

Lemma autoInv_mapSet key s sm :
  autoInv sm -> Auto.date s = key -> sessionGated s -> autoInv (mapSet key s sm).
Proof.
  intros [Hnd Hall] Hd Hg. split; [now apply NoDup_mapSet|].
  intros k s' Hin. apply In_mapSet in Hin.
  destruct Hin as [[-> ->]|Hin]; [now split | now apply Hall].
Qed.

Lemma getSession_inv t sm : autoInv sm -> autoInv (snd (Auto.getSession t sm)).
Proof.
  intros H. unfold Auto.getSession.
  destruct (mapGet (isoDate t) sm) as [s|] eqn:E.
  - rewrite E. destruct (date_gt (Some t) (Auto.lastSeen s)); simpl; [|exact H].
    apply mapGet_In in E. destruct (proj2 H _ _ E) as [Hd Hg].
    apply autoInv_mapSet; [exact H | exact Hd | exact Hg].
  - rewrite mapGet_mapSet_same. unfold date_gt. simpl. rewrite Z.ltb_irrefl. simpl.
    apply autoInv_mapSet; [exact H | reflexivity |].
    repeat split; simpl; intros; contradiction.
Qed.

Lemma update_inv key f sm :
  autoInv sm ->
  (forall s, Auto.date s = key -> sessionGated s ->
             Auto.date (f s) = key /\ sessionGated (f s)) ->
  autoInv (Auto.update key f sm).
Proof.
  intros H Hf. unfold Auto.update.
  destruct (mapGet key sm) as [s|] eqn:E; [|exact H].
  apply mapGet_In in E. destruct (proj2 H _ _ E) as [Hd Hg].
  destruct (Hf s Hd Hg). now apply autoInv_mapSet.
Qed.

Lemma addZone_gated key z s :
  Auto.isApprovedZone z = true ->
  Auto.date s = key -> sessionGated s ->
  Auto.date (Auto.addZone z s) = key /\ sessionGated (Auto.addZone z s).
Proof.
  intros Hz Hd (H1 & H2 & H3). split; [exact Hd|].
  split; [exact H1|]. split; [exact H2|].
  simpl. intros z' Hin. apply In_setAdd in Hin. destruct Hin as [->|Hin]; auto.
Qed.

Lemma addRoster_gated key t ps s :
  Auto.isInRaidWindow t = true ->
  Auto.date s = key -> sessionGated s ->
  Auto.date (Auto.addRoster t ps s) = key /\ sessionGated (Auto.addRoster t ps s).
Proof.
  intros Ht Hd (H1 & H2 & H3). split; [exact Hd|].
  split; [exact H1|]. split; [|exact H3].
  simpl. now apply flushRoster_bounds.
Qed.

Lemma addLoot_gated key l s :
  Auto.isInRaidWindow (timestamp l) = true ->
  Auto.isApprovedZone (zone l) = true ->
  Auto.date s = key -> sessionGated s ->
  Auto.date (Auto.addLoot l s) = key /\ sessionGated (Auto.addLoot l s).
Proof.
  intros Ht Hz Hd (H1 & H2 & H3). split; [exact Hd|].
  split; [|split; [exact H2 | exact H3]].
  simpl. intros l' Hin. apply in_app_iff in Hin.
  destruct Hin as [Hin|[<-|[]]]; [now apply H1 | now split].
Qed.

Lemma auto_classify_inv opts utcTs content st st' :
  autoInv (Auto.sessionMap st) ->
  Auto.classify opts utcTs content st = Returned st' ->
  autoInv (Auto.sessionMap st').
Proof.
  intros H. unfold Auto.classify.
  destruct (ZONE_ENTRY_RE content); [intros [= <-]; exact H|].
  destruct (str_eqb content whoStart).
  { destruct (Auto.isInRaidWindow utcTs); intros [= <-]; exact H. }
  destruct (Auto.inWhoBlock st).
  - destruct (str_eqb content whoSeparator); [intros [= <-]; exact H|].
    destruct (WHO_FOOTER_RE content) as [whoZone|].
    + destruct (Auto.isApprovedZone (Some whoZone)
                && Auto.isInRaidWindow (Auto.whoBlockUTC (Auto.closeBlock st))) eqn:G;
        [|intros [= <-]; exact H].
      apply andb_true_iff in G. destruct G as [G1 G2].
      destruct (Auto.whoBlockUTC (Auto.closeBlock st)) as [t|] eqn:Et; [|discriminate].
      pose proof (getSession_inv t (Auto.sessionMap (Auto.closeBlock st)) H) as Hg.
      destruct (Auto.getSession t (Auto.sessionMap (Auto.closeBlock st))) as [key sm].
      intros [= <-]. simpl in *.
      apply update_inv; [apply update_inv; [exact Hg|] |].
      * intros s. now apply addZone_gated.
      * intros s. now apply addRoster_gated.
    + destruct (WHO_PLAYER_RE content); intros [= <-]; exact H.
  - destruct (negb (Auto.isInRaidWindow utcTs)
              || negb (Auto.isApprovedZone (Auto.currentZone st))) eqn:G;
      [intros [= <-]; exact H|].
    apply orb_false_iff in G. destruct G as [G1 G2].
    apply negb_false_iff in G1, G2.
    destruct utcTs as [t|]; [|discriminate].
    pose proof (getSession_inv t (Auto.sessionMap st) H) as Hg.
    destruct (Auto.getSession t (Auto.sessionMap st)) as [key sm].
    simpl in Hg.
    assert (Hz : autoInv (Auto.update key (Auto.addZone (Auto.currentZone st)) sm)).
    { apply update_inv; [exact Hg|]. intros s. now apply addZone_gated. }
    destruct (SELF_LOOT_RE content) as [it|], (Auto.truthy (Auto.characterName opts));
      try (intros [= <-]; simpl; apply update_inv; [exact Hz|];
           intros ss; now apply addLoot_gated);
      destruct (OTHER_LOOT_RE content) as [[who item]|];
      intros [= <-]; simpl; try exact Hz;
      (apply update_inv; [exact Hz|]; intros ss; now apply addLoot_gated).
Qed.

Lemma auto_parseLine_inv host opts st st' line :
  autoInv (Auto.sessionMap st) ->
  Auto.parseLine host opts st line = Returned st' ->
  autoInv (Auto.sessionMap st').
Proof.
  intros H. unfold Auto.parseLine.
  destruct (LINE_RE line) as [[tsStr content]|]; [|intros [= <-]; exact H].
  destruct (parseEQDateUTC host tsStr (Auto.timezone opts)) as [[utcTs|]|];
    [| intros [= <-]; exact H | discriminate].
  now apply auto_classify_inv.
Qed.

Lemma auto_scan_inv host opts lines : forall st st',
  autoInv (Auto.sessionMap st) ->
  Auto.scan host opts st lines = Returned st' ->
  autoInv (Auto.sessionMap st').
Proof.
  induction lines as [|l ls IH]; intros st st' H; simpl.
  - intros [= <-]. exact H.
  - destruct (Auto.parseLine host opts st l) as [st1|] eqn:E; [|discriminate].
    apply IH. now apply (auto_parseLine_inv host opts st st1 l).
Qed.

Lemma autoInv_init : autoInv (Auto.sessionMap Auto.init).
Proof. split; [constructor | intros k s []]. Qed.

(** ** C7: the returned sessions *)

Lemma keys_are_dates sm :
  (forall k s, In (k, s) sm -> Auto.date s = k) ->
  map Auto.date (mapValues sm) = mapKeys sm.
Proof.
  induction sm as [|[k s] sm IH]; intros H; simpl; [reflexivity|].
  rewrite (H k s) by now left.
  f_equal. apply IH. intros k' s' Hin. apply H. now right.
Qed.

(** Dropping elements keeps their images distinct. *)
Lemma filter_distinct_images (X Y : Type) (keep : X -> bool) (g : X -> Y) :
  forall xs : list X, NoDup (map g xs) -> NoDup (map g (filter keep xs)).
Proof.
  intros xs. induction xs as [|x0 xs IHxs]; simpl; intros Hd; [constructor|].
  apply NoDup_cons_iff in Hd. destruct Hd as [Hfresh Hd].
  destruct (keep x0); simpl; [|now apply IHxs].
  apply NoDup_cons; [|now apply IHxs].
  intros Hin. apply Hfresh. apply in_map_iff in Hin. destruct Hin as (y & Hy & Hin).
  apply filter_In in Hin. apply in_map_iff. exists y. now split.
Qed.

(** Two members with the same image are the same member. *)
Lemma distinct_images_inj (X Y : Type) (g : X -> Y) :
  forall (xs : list X) (u v : X),
    NoDup (map g xs) -> In u xs -> In v xs -> g u = g v -> u = v.
Proof.
  intros xs u v. induction xs as [|x0 xs IHxs]; simpl; intros Hd Hu Hv Hg; [contradiction|].
  apply NoDup_cons_iff in Hd. destruct Hd as [Hfresh Hd].
  destruct Hu as [->|Hu], Hv as [->|Hv].
  - reflexivity.
  - elim Hfresh. rewrite Hg. now apply in_map.
  - elim Hfresh. rewrite <- Hg. now apply in_map.
  - now apply IHxs.
Qed.

Lemma sorted_strict l :
  Sorted (notAfter Auto.byDate) l ->
  NoDup (map Auto.rs_date l) ->
  Sorted (fun a b => localeCompare (Auto.rs_date a) (Auto.rs_date b) = Lt) l.
Proof.
  induction 1 as [|x l Hs IH Hh]; intros Hnd; [constructor|].
  simpl in Hnd. inversion Hnd as [|? ? Hni Hnd']; subst.
  constructor; [now apply IH|].
  destruct Hh as [|y l Hxy]; constructor.
  unfold notAfter, Auto.byDate in Hxy.
  destruct (localeCompare (Auto.rs_date x) (Auto.rs_date y)) eqn:E;
    [|reflexivity|congruence].
  apply localeCompare_eq in E. elim Hni. rewrite E. now left.
Qed.

Lemma byDate_total a b : Auto.byDate a b = Gt -> Auto.byDate b a <> Gt.
Proof.
  unfold Auto.byDate. intros H. apply localeCompare_antisym in H. congruence.
Qed.

Lemma nonEmpty_true b :
  Auto.nonEmpty b = true ->
  Auto.rs_attendance (Auto.flatten b) <> [] \/ Auto.rs_loot (Auto.flatten b) <> [].
Proof.
  unfold Auto.nonEmpty, Auto.flatten, mapValues. simpl.
  destruct (Auto.attendanceMap b), (Auto.loot b); simpl; try discriminate;
    intros _; [right | left | left]; discriminate.
Qed.

Lemma nonEmpty_false b :
  Auto.attendanceMap b = [] -> Auto.loot b = [] -> Auto.nonEmpty b = false.
Proof. unfold Auto.nonEmpty. now intros -> ->. Qed.

(** C7: when [autoParseLog] returns, every returned session has some
    attendance or some loot, the returned sessions are in strictly
    ascending order of their date strings, they are exactly the non-empty
    buckets of the scan, and a bucket that ended with no attendance and no
    loot has no session of its date in the result. *)
Theorem C7_sessions_nonempty_and_sorted :
  forall host opts lines r,
    Auto.autoParseLog host opts lines = Returned r ->
    (forall s, In s (Auto.sessions r) ->
       Auto.rs_attendance s <> [] \/ Auto.rs_loot s <> []) /\
    Sorted (fun a b => localeCompare (Auto.rs_date a) (Auto.rs_date b) = Lt)
           (Auto.sessions r) /\
    exists st,
      Auto.scan host opts Auto.init lines = Returned st /\
      Permutation (Auto.sessions r)
        (map Auto.flatten (filter Auto.nonEmpty (mapValues (Auto.sessionMap st)))) /\
      (forall b, In b (mapValues (Auto.sessionMap st)) ->
         Auto.attendanceMap b = [] -> Auto.loot b = [] ->
         forall s, In s (Auto.sessions r) -> Auto.rs_date s <> Auto.date b).
Proof.
  intros host opts lines r Hrun. unfold Auto.autoParseLog in Hrun.
  destruct (Auto.scan host opts Auto.init lines) as [st|] eqn:Escan; [|discriminate].
  injection Hrun as <-. simpl.
  pose proof (auto_scan_inv host opts lines Auto.init st autoInv_init Escan) as [Hnd Hall].
  assert (Hdates : NoDup (map Auto.date (mapValues (Auto.sessionMap st)))).
  { rewrite keys_are_dates; [exact Hnd|]. intros k s Hin. now apply Hall. }
  set (buckets := mapValues (Auto.sessionMap st)) in *.
  assert (Hperm : Permutation (Auto.collect (Auto.sessionMap st))
                    (map Auto.flatten (filter Auto.nonEmpty buckets))).
  { apply Permutation_sym. apply sortBy_perm. }
  assert (Hin : forall s, In s (Auto.collect (Auto.sessionMap st)) ->
                exists b, In b buckets /\ Auto.nonEmpty b = true /\ s = Auto.flatten b).
  { intros s Hs. apply (Permutation_in _ Hperm) in Hs.
    apply in_map_iff in Hs. destruct Hs as (b & <- & Hb).
    apply filter_In in Hb. exists b. tauto. }
  split; [|split].
  - intros s Hs. destruct (Hin s Hs) as (b & _ & Hb & ->). now apply nonEmpty_true.
  - apply sorted_strict.
    + apply (sortBy_sorted _ Auto.byDate byDate_total).
    + apply (Permutation_NoDup (l := map Auto.rs_date
                                  (map Auto.flatten (filter Auto.nonEmpty buckets)))).
      * apply Permutation_map, Permutation_sym, Hperm.
      * rewrite map_map. simpl.
        apply (filter_distinct_images _ _ Auto.nonEmpty Auto.date buckets Hdates).
  - exists st. split; [reflexivity|]. split; [exact Hperm|].
    intros b Hb Ha Hl s Hs Heq.
    destruct (Hin s Hs) as (b' & Hb' & Hne & ->). simpl in Heq.
    assert (b' = b) by (apply (distinct_images_inj _ _ Auto.date buckets); assumption).
    subst b'. rewrite (nonEmpty_false b Ha Hl) in Hne. discriminate.
Qed.

Example unorderedDates_run :
  match Auto.autoParseLog sampleHost utcOpts unorderedDates with
  | Returned r => map Auto.rs_date (Auto.sessions r) = [lit "2026-01-21"; lit "2026-01-23"]
  | Threw => False
  end
  /\ match Auto.scan sampleHost utcOpts Auto.init unorderedDates with
     | Returned st => mapKeys (Auto.sessionMap st)
                      = [lit "2026-01-23"; lit "2026-01-21"; lit "2026-01-24"]
     | Threw => False
     end.
Proof. split; vm_compute; reflexivity. Qed.

Lemma C7_sessions_witness :
  Sorted (fun a b => localeCompare (Auto.rs_date a) (Auto.rs_date b) = Lt)
         (Auto.sessions unorderedResult).
Proof.
  exact (proj1 (proj2 (C7_sessions_nonempty_and_sorted sampleHost utcOpts unorderedDates
                         unorderedResult eq_refl))).
Defined.

(** ** C6: gating in the auto parser and the live watcher *)

Lemma existsb_Zeqb d days : existsb (Z.eqb d) days = true <-> In d days.
Proof.
  rewrite existsb_exists. split.
  - intros (x & Hin & H). apply Z.eqb_eq in H. now subst.
  - intros H. exists d. split; [exact H | apply Z.eqb_refl].
Qed.

Lemma auto_isInRaidWindow_spec d :
  Auto.isInRaidWindow d = true <->
  inWindow Auto.RAID_UTC_DAYS Auto.RAID_UTC_START Auto.RAID_UTC_END d.
Proof.
  unfold Auto.isInRaidWindow, inWindow, getUTCHours, getUTCDay.
  destruct d as [t|].
  - rewrite !andb_true_iff, existsb_Zeqb, Z.leb_le, Z.ltb_lt. split.
    + intros [[H1 H2] H3]. exists t. repeat split; assumption.
    + intros (t' & [= <-] & H1 & H2 & H3). repeat split; assumption.
  - split; [discriminate | intros (t & [=] & _)].
Qed.

Lemma live_isInRaidWindow_spec cfg d :
  Live.isInRaidWindow cfg d = true <->
  inWindow (Live.raidDays cfg) (Live.raidStartUTC cfg) (Live.raidEndUTC cfg) d.
Proof.
  unfold Live.isInRaidWindow, inWindow, getUTCHours, getUTCDay.
  destruct d as [t|].
  - rewrite !andb_true_iff, existsb_Zeqb, Z.leb_le, Z.ltb_lt. split.
    + intros [[H1 H2] H3]. exists t. repeat split; assumption.
    + intros (t' & [= <-] & H1 & H2 & H3). repeat split; assumption.
  - split; [discriminate | intros (t & [=] & _)].
Qed.

Lemma mapGet_update_same key f (sm : jsMap Auto.Session) :
  mapGet key (Auto.update key f sm) = option_map f (mapGet key sm).
Proof.
  unfold Auto.update. destruct (mapGet key sm) as [s|] eqn:E; simpl.
  - apply mapGet_mapSet_same.
  - exact E.
Qed.

Lemma mapGet_update_other key k f (sm : jsMap Auto.Session) :
  key <> k -> mapGet k (Auto.update key f sm) = mapGet k sm.
Proof.
  intros H. unfold Auto.update. destruct (mapGet key sm) as [s|] eqn:E; [|reflexivity].
  now apply mapGet_mapSet_other.
Qed.

Lemma update_addLoot_contents key l0 sm k l :
  In l (snd (bucketContents k (Auto.update key (Auto.addLoot l0) sm))) ->
  l = l0 \/ In l (snd (bucketContents k sm)).
Proof.
  unfold bucketContents.
  destruct (list_eq_dec ascii_dec key k) as [<-|Hne].
  - rewrite mapGet_update_same. destruct (mapGet key sm) as [s|]; simpl; [|tauto].
    rewrite in_app_iff. simpl. intros [H|[H|[]]]; auto.
  - rewrite mapGet_update_other by exact Hne. tauto.
Qed.

Lemma update_addLoot_fst key l0 sm k :
  fst (bucketContents k (Auto.update key (Auto.addLoot l0) sm)) = fst (bucketContents k sm).
Proof.
  unfold bucketContents.
  destruct (list_eq_dec ascii_dec key k) as [<-|Hne].
  - rewrite mapGet_update_same. now destruct (mapGet key sm).
  - now rewrite mapGet_update_other.
Qed.

Lemma update_addRoster_snd key t ps sm k :
  snd (bucketContents k (Auto.update key (Auto.addRoster t ps) sm)) = snd (bucketContents k sm).
Proof.
  unfold bucketContents.
  destruct (list_eq_dec ascii_dec key k) as [<-|Hne].
  - rewrite mapGet_update_same. now destruct (mapGet key sm).
  - now rewrite mapGet_update_other.
Qed.

(** A loot event that is new after a line was gated by that line's own
    instant and by the current zone, with no roster block open. *)
Lemma auto_classify_loot opts utcTs content st st' key l :
  Auto.classify opts utcTs content st = Returned st' ->
  In l (snd (bucketContents key (Auto.sessionMap st'))) ->
  In l (snd (bucketContents key (Auto.sessionMap st))) \/
  (Auto.inWhoBlock st = false /\
   Auto.isInRaidWindow (timestamp l) = true /\
   Auto.isApprovedZone (Auto.currentZone st) = true /\
   zone l = Auto.currentZone st).
Proof.
  unfold Auto.classify.
  destruct (ZONE_ENTRY_RE content); [intros [= <-]; now left|].
  destruct (str_eqb content whoStart).
  { destruct (Auto.isInRaidWindow utcTs); intros [= <-]; now left. }
  destruct (Auto.inWhoBlock st).
  - destruct (str_eqb content whoSeparator); [intros [= <-]; now left|].
    destruct (WHO_FOOTER_RE content) as [whoZone|].
    + destruct (Auto.isApprovedZone (Some whoZone)
                && Auto.isInRaidWindow (Auto.whoBlockUTC (Auto.closeBlock st)));
        [|intros [= <-]; now left].
      destruct (Auto.whoBlockUTC (Auto.closeBlock st)) as [t|]; [|discriminate].
      destruct (Auto.getSession t (Auto.sessionMap (Auto.closeBlock st))) as [k sm] eqn:G.
      intros [= <-]. simpl. rewrite update_addRoster_snd.
      rewrite update_contents by (intros s; apply addZone_contents).
      change sm with (snd (k, sm)). rewrite <- G. rewrite getSession_contents. now left.
    + destruct (WHO_PLAYER_RE content); intros [= <-]; now left.
  - destruct (negb (Auto.isInRaidWindow utcTs)
              || negb (Auto.isApprovedZone (Auto.currentZone st))) eqn:Gate;
      [intros [= <-]; now left|].
    apply orb_false_iff in Gate. destruct Gate as [G1 G2].
    apply negb_false_iff in G1, G2.
    destruct utcTs as [t|]; [|discriminate].
    destruct (Auto.getSession t (Auto.sessionMap st)) as [k sm] eqn:G.
    assert (Hbase : forall k',
              bucketContents k' (Auto.update k (Auto.addZone (Auto.currentZone st)) sm)
              = bucketContents k' (Auto.sessionMap st)).
    { intros k'. rewrite update_contents by (intros s; apply addZone_contents).
      change sm with (snd (k, sm)). rewrite <- G. apply getSession_contents. }
    destruct (SELF_LOOT_RE content) as [it|], (Auto.truthy (Auto.characterName opts));
      try (intros [= <-]; simpl; intros Hin; apply update_addLoot_contents in Hin;
           destruct Hin as [->|Hin]; [right; now repeat split | left; now rewrite <- Hbase]);
      destruct (OTHER_LOOT_RE content) as [[who item]|];
      intros [= <-]; simpl; intros Hin;
      try (left; now rewrite <- Hbase);
      (apply update_addLoot_contents in Hin;
       destruct Hin as [->|Hin]; [right; now repeat split | left; now rewrite <- Hbase]).
Qed.

(** Attendance changes only at a footer, inside a block, whose zone is
    approved and whose block instant is in the window. *)
Lemma auto_classify_attendance opts utcTs content st st' :
  Auto.classify opts utcTs content st = Returned st' ->
  (forall key, fst (bucketContents key (Auto.sessionMap st'))
               = fst (bucketContents key (Auto.sessionMap st))) \/
  (Auto.inWhoBlock st = true /\
   exists whoZone, WHO_FOOTER_RE content = Some whoZone /\
                   Auto.isApprovedZone (Some whoZone) = true /\
                   Auto.isInRaidWindow (Auto.whoBlockUTC st) = true).
Proof.
  unfold Auto.classify.
  destruct (ZONE_ENTRY_RE content); [intros [= <-]; now left|].
  destruct (str_eqb content whoStart).
  { destruct (Auto.isInRaidWindow utcTs); intros [= <-]; now left. }
  destruct (Auto.inWhoBlock st).
  - destruct (str_eqb content whoSeparator); [intros [= <-]; now left|].
    destruct (WHO_FOOTER_RE content) as [whoZone|].
    + destruct (Auto.isApprovedZone (Some whoZone)
                && Auto.isInRaidWindow (Auto.whoBlockUTC (Auto.closeBlock st))) eqn:Gate;
        [|intros [= <-]; now left].
      apply andb_true_iff in Gate. intros _. right. split; [reflexivity|].
      exists whoZone. tauto.
    + destruct (WHO_PLAYER_RE content); intros [= <-]; now left.
  - destruct (negb (Auto.isInRaidWindow utcTs)
              || negb (Auto.isApprovedZone (Auto.currentZone st)));
      [intros [= <-]; now left|].
    destruct utcTs as [t|]; [|discriminate].
    destruct (Auto.getSession t (Auto.sessionMap st)) as [k sm] eqn:G.
    assert (Hbase : forall k',
              bucketContents k' (Auto.update k (Auto.addZone (Auto.currentZone st)) sm)
              = bucketContents k' (Auto.sessionMap st)).
    { intros k'. rewrite update_contents by (intros s; apply addZone_contents).
      change sm with (snd (k, sm)). rewrite <- G. apply getSession_contents. }
    destruct (SELF_LOOT_RE content) as [it|], (Auto.truthy (Auto.characterName opts));
      try (intros [= <-]; left; intros key; simpl;
           rewrite update_addLoot_fst; now rewrite Hbase);
      destruct (OTHER_LOOT_RE content) as [[who item]|];
      intros [= <-]; left; intros key; simpl;
      try (rewrite update_addLoot_fst); now rewrite Hbase.
Qed.

(** The current zone is set by zone-entry lines and by nothing else. *)
Lemma auto_classify_zone opts utcTs content st st' :
  Auto.classify opts utcTs content st = Returned st' ->
  Auto.currentZone st' = Auto.currentZone st \/
  exists z, ZONE_ENTRY_RE content = Some z /\ Auto.currentZone st' = Some z.
Proof.
  unfold Auto.classify.
  destruct (ZONE_ENTRY_RE content) as [z|]; [intros [= <-]; right; now exists z|].
  destruct (str_eqb content whoStart).
  { destruct (Auto.isInRaidWindow utcTs); intros [= <-]; now left. }
  destruct (Auto.inWhoBlock st).
  - destruct (str_eqb content whoSeparator); [intros [= <-]; now left|].
    destruct (WHO_FOOTER_RE content) as [whoZone|].
    + destruct (Auto.isApprovedZone (Some whoZone)
                && Auto.isInRaidWindow (Auto.whoBlockUTC (Auto.closeBlock st)));
        [|intros [= <-]; now left].
      destruct (Auto.whoBlockUTC (Auto.closeBlock st)) as [t|]; [|discriminate].
      destruct (Auto.getSession t (Auto.sessionMap (Auto.closeBlock st))) as [k sm].
      intros [= <-]. now left.
    + destruct (WHO_PLAYER_RE content); intros [= <-]; now left.
  - destruct (negb (Auto.isInRaidWindow utcTs)
              || negb (Auto.isApprovedZone (Auto.currentZone st)));
      [intros [= <-]; now left|].
    destruct utcTs as [t|]; [|discriminate].
    destruct (Auto.getSession t (Auto.sessionMap st)) as [k sm].
    destruct (SELF_LOOT_RE content) as [it|], (Auto.truthy (Auto.characterName opts));
      try (intros [= <-]; now left);
      destruct (OTHER_LOOT_RE content) as [[who item]|]; intros [= <-]; now left.
Qed.

Lemma other_loot_exclusive content who item :
  OTHER_LOOT_RE content = Some (who, item) ->
  ZONE_ENTRY_RE content = None /\
  str_eqb content whoStart = false /\
  SELF_LOOT_RE content = None.
Proof.
  intros H.
  assert (HS : SELF_LOOT_RE content = None).
  { destruct (SELF_LOOT_RE content) as [it|] eqn:E; [|reflexivity].
    destruct (self_loot_exclusive content it E) as (_ & _ & _ & _ & _ & HO). congruence. }
  unfold OTHER_LOOT_RE in H.
  destruct (stripPrefix (lit "--") content) as [r|] eqn:E; [|discriminate].
  apply stripPrefix_Some in E. subst content.
  split; [vm_compute; reflexivity|]. split; [vm_compute; reflexivity | exact HS].
Qed.

(** Outside a block, inside the window and in an approved current zone a
    loot line is recorded, whether or not any roster was ever flushed. *)
Lemma auto_classify_loot_accepted opts t content st who item :
  Auto.inWhoBlock st = false ->
  Auto.isInRaidWindow (Some t) = true ->
  Auto.isApprovedZone (Auto.currentZone st) = true ->
  OTHER_LOOT_RE content = Some (who, item) ->
  exists st', Auto.classify opts (Some t) content st = Returned st' /\
    In (mkLoot (Some who) item (Some t) (Auto.currentZone st))
       (snd (bucketContents (isoDate t) (Auto.sessionMap st'))).
Proof.
  intros Hb Hw Hz HO.
  destruct (other_loot_exclusive content who item HO) as (HZ & HS & HSelf).
  unfold Auto.classify. rewrite HZ, HS, Hb, Hw, Hz, HSelf, HO. simpl.
  pose proof (getSession_key t (Auto.sessionMap st)) as Hk.
  destruct (getSession_present t (Auto.sessionMap st)) as [s Hs].
  destruct (Auto.getSession t (Auto.sessionMap st)) as [k sm]. simpl in Hk, Hs. subst k.
  eexists. split; [reflexivity|]. simpl.
  unfold bucketContents. rewrite !mapGet_update_same, Hs. simpl.
  apply in_app_iff. right. now left.
Qed.

Lemma live_classify_loot_accepted cfg t content w who item :
  Live.inWhoBlock w = false ->
  Live.isInRaidWindow cfg (Some t) = true ->
  Live.isApprovedZone cfg (Live.currentZone w) = true ->
  OTHER_LOOT_RE content = Some (who, item) ->
  Live.classify cfg (Some t) content w
  = Returned (Live.pushLoot (mkLoot (Some who) item (Some t) (Live.currentZone w)) t w).
Proof.
  intros Hb Hw Hz HO.
  destruct (other_loot_exclusive content who item HO) as (HZ & HS & HSelf).
  unfold Live.classify. now rewrite HZ, HS, Hb, Hw, Hz, HSelf, HO.
Qed.

Lemma liveInv_pushLoot cfg l t w :
  liveInv cfg w ->
  Live.isInRaidWindow cfg (timestamp l) = true ->
  Live.isApprovedZone cfg (zone l) = true ->
  liveInv cfg (Live.pushLoot l t w).
Proof.
  intros (H1 & H2 & H3) Ht Hz. split; [exact H1|]. split; [|exact H3].
  simpl. intros l' Hin. apply in_app_iff in Hin.
  destruct Hin as [Hin|[<-|[]]]; [now apply H2 | now split].
Qed.

Lemma live_classify_inv cfg utcTs content w w' :
  liveInv cfg w ->
  Live.classify cfg utcTs content w = Returned w' ->
  liveInv cfg w'.
Proof.
  intros H. pose proof H as (H1 & H2 & H3). unfold Live.classify.
  destruct (ZONE_ENTRY_RE content).
  { destruct utcTs; [|discriminate]. intros [= <-].
    split; [exact H1|]. split; [exact H2|]. simpl. discriminate. }
  destruct (str_eqb content whoStart).
  { destruct (Live.isInRaidWindow cfg utcTs) eqn:G; intros [= <-]; [|exact H].
    split; [exact H1|]. split; [exact H2|]. simpl. intros _. exact G. }
  destruct (Live.inWhoBlock w) eqn:Hb.
  - destruct (str_eqb content whoSeparator); [intros [= <-]; exact H|].
    destruct (WHO_FOOTER_RE content) as [whoZone|].
    + destruct (negb (Live.isApprovedZone cfg (Some whoZone))).
      { intros [= <-]. split; [exact H1|]. split; [exact H2|]. simpl. discriminate. }
      pose proof (live_flush_bounds (fun d => Live.isInRaidWindow cfg d = true)
                    (Live.whoBlockUTC (Live.closeBlock w))
                    (Live.whoPlayers (Live.closeBlock w))
                    (Live.attendanceMap (Live.closeBlock w)) [] (H3 eq_refl) H1) as Hfl.
      destruct (fold_left (Live.upsert (Live.whoBlockUTC (Live.closeBlock w)))
                  (Live.whoPlayers (Live.closeBlock w))
                  (Live.attendanceMap (Live.closeBlock w), [])) as [m np].
      destruct (Live.whoBlockUTC (Live.closeBlock w)); [|discriminate].
      intros [= <-]. split; [exact Hfl|]. split; [exact H2|]. simpl. discriminate.
    + destruct (WHO_PLAYER_RE content); intros [= <-]; [|exact H].
      split; [exact H1|]. split; [exact H2|]. simpl. intros _. now apply H3.
  - destruct (negb (Live.isInRaidWindow cfg utcTs)
              || negb (Live.isApprovedZone cfg (Live.currentZone w))) eqn:Gate;
      [intros [= <-]; exact H|].
    apply orb_false_iff in Gate. destruct Gate as [G1 G2].
    apply negb_false_iff in G1, G2.
    destruct (SELF_LOOT_RE content) as [it|], (Live.truthy (Live.characterName cfg));
      try (destruct utcTs; [|discriminate]; intros [= <-]; now apply liveInv_pushLoot);
      destruct (OTHER_LOOT_RE content) as [[who item]|];
      try (destruct utcTs; [|discriminate]; intros [= <-]; now apply liveInv_pushLoot);
      intros [= <-]; exact H.
Qed.

Lemma live_processLine_inv host cfg w w' line :
  liveInv cfg w -> Live.processLine host cfg w line = Returned w' -> liveInv cfg w'.
Proof.
  intros H. unfold Live.processLine.
  destruct (LINE_RE line) as [[tsStr content]|]; [|intros [= <-]; exact H].
  destruct (parseEQDateUTC host tsStr (Live.timezone cfg)) as [[utcTs|]|];
    [| intros [= <-]; exact H | discriminate].
  now apply live_classify_inv.
Qed.

Lemma live_processLines_inv host cfg lines : forall w w',
  liveInv cfg w -> Live.processLines host cfg w lines = Returned w' -> liveInv cfg w'.
Proof.
  induction lines as [|l ls IH]; intros w w' H; simpl.
  - intros [= <-]. exact H.
  - destruct (Live.processLine host cfg w l) as [w1|] eqn:E; [|discriminate].
    apply IH. now apply (live_processLine_inv host cfg w w1 l).
Qed.

Lemma liveInv_create cfg n : liveInv cfg (Live.create n).
Proof.
  split; [intros k a []|]. split; [intros l []|]. simpl. discriminate.
Qed.

Lemma live_classify_loot cfg utcTs content w w' :
  Live.classify cfg utcTs content w = Returned w' ->
  Live.lootEvents w' = Live.lootEvents w \/
  exists l, Live.lootEvents w' = Live.lootEvents w ++ [l] /\
            Live.inWhoBlock w = false /\
            Live.isInRaidWindow cfg (timestamp l) = true /\
            Live.isApprovedZone cfg (Live.currentZone w) = true /\
            zone l = Live.currentZone w.
Proof.
  unfold Live.classify.
  destruct (ZONE_ENTRY_RE content).
  { destruct utcTs; [intros [= <-]; now left | discriminate]. }
  destruct (str_eqb content whoStart).
  { destruct (Live.isInRaidWindow cfg utcTs); intros [= <-]; now left. }
  destruct (Live.inWhoBlock w).
  - destruct (str_eqb content whoSeparator); [intros [= <-]; now left|].
    destruct (WHO_FOOTER_RE content) as [whoZone|].
    + destruct (negb (Live.isApprovedZone cfg (Some whoZone))); [intros [= <-]; now left|].
      destruct (fold_left (Live.upsert (Live.whoBlockUTC (Live.closeBlock w)))
                  (Live.whoPlayers (Live.closeBlock w))
                  (Live.attendanceMap (Live.closeBlock w), [])) as [m np].
      destruct (Live.whoBlockUTC (Live.closeBlock w)); [|discriminate].
      intros [= <-]. now left.
    + destruct (WHO_PLAYER_RE content); intros [= <-]; now left.
  - destruct (negb (Live.isInRaidWindow cfg utcTs)
              || negb (Live.isApprovedZone cfg (Live.currentZone w))) eqn:Gate;
      [intros [= <-]; now left|].
    apply orb_false_iff in Gate. destruct Gate as [G1 G2].
    apply negb_false_iff in G1, G2.
    destruct (SELF_LOOT_RE content) as [it|], (Live.truthy (Live.characterName cfg));
      try (destruct utcTs; [|discriminate]; intros [= <-]; right;
           eexists; split; [reflexivity | now repeat split]);
      destruct (OTHER_LOOT_RE content) as [[who item]|];
      try (destruct utcTs; [|discriminate]; intros [= <-]; right;
           eexists; split; [reflexivity | now repeat split]);
      intros [= <-]; now left.
Qed.

Lemma live_classify_attendance cfg utcTs content w w' :
  Live.classify cfg utcTs content w = Returned w' ->
  Live.attendanceMap w' = Live.attendanceMap w \/
  (Live.inWhoBlock w = true /\
   exists whoZone, WHO_FOOTER_RE content = Some whoZone /\
                   Live.isApprovedZone cfg (Some whoZone) = true).
Proof.
  unfold Live.classify.
  destruct (ZONE_ENTRY_RE content).
  { destruct utcTs; [intros [= <-]; now left | discriminate]. }
  destruct (str_eqb content whoStart).
  { destruct (Live.isInRaidWindow cfg utcTs); intros [= <-]; now left. }
  destruct (Live.inWhoBlock w).
  - destruct (str_eqb content whoSeparator); [intros [= <-]; now left|].
    destruct (WHO_FOOTER_RE content) as [whoZone|].
    + destruct (Live.isApprovedZone cfg (Some whoZone)) eqn:G; simpl;
        [|intros [= <-]; now left].
      intros _. right. split; [reflexivity|]. now exists whoZone.
    + destruct (WHO_PLAYER_RE content); intros [= <-]; now left.
  - destruct (negb (Live.isInRaidWindow cfg utcTs)
              || negb (Live.isApprovedZone cfg (Live.currentZone w)));
      [intros [= <-]; now left|].
    destruct (SELF_LOOT_RE content) as [it|], (Live.truthy (Live.characterName cfg));
      try (destruct utcTs; [|discriminate]; intros [= <-]; now left);
      destruct (OTHER_LOOT_RE content) as [[who item]|];
      try (destruct utcTs; [|discriminate]; intros [= <-]; now left);
      intros [= <-]; now left.
Qed.

Lemma live_classify_zone cfg utcTs content w w' :
  Live.classify cfg utcTs content w = Returned w' ->
  Live.currentZone w' = Live.currentZone w \/
  exists z, ZONE_ENTRY_RE content = Some z /\ Live.currentZone w' = Some z.
Proof.
  unfold Live.classify.
  destruct (ZONE_ENTRY_RE content) as [z|].
  { destruct utcTs; [intros [= <-]; right; now exists z | discriminate]. }
  destruct (str_eqb content whoStart).
  { destruct (Live.isInRaidWindow cfg utcTs); intros [= <-]; now left. }
  destruct (Live.inWhoBlock w).
  - destruct (str_eqb content whoSeparator); [intros [= <-]; now left|].
    destruct (WHO_FOOTER_RE content) as [whoZone|].
    + destruct (negb (Live.isApprovedZone cfg (Some whoZone))); [intros [= <-]; now left|].
      destruct (fold_left (Live.upsert (Live.whoBlockUTC (Live.closeBlock w)))
                  (Live.whoPlayers (Live.closeBlock w))
                  (Live.attendanceMap (Live.closeBlock w), [])) as [m np].
      destruct (Live.whoBlockUTC (Live.closeBlock w)); [|discriminate].
      intros [= <-]. now left.
    + destruct (WHO_PLAYER_RE content); intros [= <-]; now left.
  - destruct (negb (Live.isInRaidWindow cfg utcTs)
              || negb (Live.isApprovedZone cfg (Live.currentZone w)));
      [intros [= <-]; now left|].
    destruct (SELF_LOOT_RE content) as [it|], (Live.truthy (Live.characterName cfg));
      try (destruct utcTs; [|discriminate]; intros [= <-]; now left);
      destruct (OTHER_LOOT_RE content) as [[who item]|];
      try (destruct utcTs; [|discriminate]; intros [= <-]; now left);
      intros [= <-]; now left.
Qed.
Lemma In_mapValues (V : Type) (v : V) (m : jsMap V) :
  In v (mapValues m) -> exists k, In (k, v) m.
Proof.
  unfold mapValues. intros H. apply in_map_iff in H.
  destruct H as ([k v'] & <- & Hin). now exists k.
Qed.

Lemma auto_results_gated host opts lines r s :
  Auto.autoParseLog host opts lines = Returned r ->
  In s (Auto.sessions r) ->
  (forall a, In a (Auto.rs_attendance s) ->
     autoWindow (firstSeen a) /\ autoWindow (lastSeen a)) /\
  (forall l, In l (Auto.rs_loot s) ->
     autoWindow (timestamp l) /\ Auto.isApprovedZone (zone l) = true) /\
  (forall z, In z (Auto.rs_zones s) -> Auto.isApprovedZone z = true).
Proof.
  intros Hrun Hs. unfold Auto.autoParseLog in Hrun.
  destruct (Auto.scan host opts Auto.init lines) as [st|] eqn:Escan; [|discriminate].
  injection Hrun as <-. simpl in Hs.
  pose proof (auto_scan_inv host opts lines Auto.init st autoInv_init Escan) as [_ Hall].
  unfold Auto.collect in Hs. apply In_sortBy in Hs.
  apply in_map_iff in Hs. destruct Hs as (b & <- & Hb).
  apply filter_In in Hb. destruct Hb as [Hb _].
  apply In_mapValues in Hb. destruct Hb as [k Hb].
  destruct (Hall k b Hb) as (_ & H1 & H2 & H3).
  split; [|split].
  - simpl. intros a Ha. apply In_mapValues in Ha. destruct Ha as [ka Ha].
    destruct (H2 ka a Ha). split; now apply auto_isInRaidWindow_spec.
  - simpl. intros l Hl. destruct (H1 l Hl). split; [now apply auto_isInRaidWindow_spec | assumption].
  - exact H3.
Qed.

Lemma live_results_gated host cfg n lines w :
  Live.processLines host cfg (Live.create n) lines = Returned w ->
  (forall a, In a (Live.sessionAttendance w) ->
     liveWindow cfg (firstSeen a) /\ liveWindow cfg (lastSeen a)) /\
  (forall l, In l (Live.lootEvents w) ->
     liveWindow cfg (timestamp l) /\ Live.isApprovedZone cfg (zone l) = true).
Proof.
  intros Hrun.
  destruct (live_processLines_inv host cfg lines (Live.create n) w
              (liveInv_create cfg n) Hrun) as (H1 & H2 & _).
  split.
  - intros a Ha. apply In_mapValues in Ha. destruct Ha as [k Ha].
    destruct (H1 k a Ha). split; now apply live_isInRaidWindow_spec.
  - intros l Hl. destruct (H2 l Hl). split; [now apply live_isInRaidWindow_spec | assumption].
Qed.

(** C6: in auto-detect and live mode, whatever is accepted passed the
    gate.
    - Results: every attendance bound and every loot instant is a valid
      instant whose UTC day of week is in the configured set and whose UTC
      hour is in [[startHour, endHour)]; every loot event's zone, and in
      auto mode every zone listed for a session, passes the approved-zone
      check.
    - Steps: a loot event is added only outside a roster block, when the
      line's own instant is in the window and the current zone is
      approved, and it is stamped with that current zone; attendance
      changes only at a footer whose zone is approved, inside a block
      (whose instant the auto parser tests against the window at the
      footer and the live watcher tested at the start marker); the current
      zone changes only at a zone-entry line, never at a footer.
    - With the window and the approved current zone, a loot line outside
      a block is accepted whether or not any roster was ever seen. *)
Theorem C6_gating :
  (forall host opts lines r s,
     Auto.autoParseLog host opts lines = Returned r ->
     In s (Auto.sessions r) ->
     (forall a, In a (Auto.rs_attendance s) ->
        autoWindow (firstSeen a) /\ autoWindow (lastSeen a)) /\
     (forall l, In l (Auto.rs_loot s) ->
        autoWindow (timestamp l) /\ Auto.isApprovedZone (zone l) = true) /\
     (forall z, In z (Auto.rs_zones s) -> Auto.isApprovedZone z = true)) /\
  (forall host cfg n lines w,
     Live.processLines host cfg (Live.create n) lines = Returned w ->
     (forall a, In a (Live.sessionAttendance w) ->
        liveWindow cfg (firstSeen a) /\ liveWindow cfg (lastSeen a)) /\
     (forall l, In l (Live.lootEvents w) ->
        liveWindow cfg (timestamp l) /\ Live.isApprovedZone cfg (zone l) = true)) /\
  (forall opts utcTs content st st',
     Auto.classify opts utcTs content st = Returned st' ->
     (forall key l,
        In l (snd (bucketContents key (Auto.sessionMap st'))) ->
        In l (snd (bucketContents key (Auto.sessionMap st))) \/
        (Auto.inWhoBlock st = false /\ autoWindow (timestamp l) /\
         Auto.isApprovedZone (Auto.currentZone st) = true /\
         zone l = Auto.currentZone st)) /\
     ((forall key, fst (bucketContents key (Auto.sessionMap st'))
                   = fst (bucketContents key (Auto.sessionMap st))) \/
      (Auto.inWhoBlock st = true /\
       exists whoZone, WHO_FOOTER_RE content = Some whoZone /\
                       Auto.isApprovedZone (Some whoZone) = true /\
                       autoWindow (Auto.whoBlockUTC st))) /\
     (Auto.currentZone st' = Auto.currentZone st \/
      exists z, ZONE_ENTRY_RE content = Some z /\ Auto.currentZone st' = Some z)) /\
  (forall cfg utcTs content w w',
     Live.classify cfg utcTs content w = Returned w' ->
     (Live.lootEvents w' = Live.lootEvents w \/
      exists l, Live.lootEvents w' = Live.lootEvents w ++ [l] /\
                Live.inWhoBlock w = false /\ liveWindow cfg (timestamp l) /\
                Live.isApprovedZone cfg (Live.currentZone w) = true /\
                zone l = Live.currentZone w) /\
     (Live.attendanceMap w' = Live.attendanceMap w \/
      (Live.inWhoBlock w = true /\
       exists whoZone, WHO_FOOTER_RE content = Some whoZone /\
                       Live.isApprovedZone cfg (Some whoZone) = true)) /\
     (Live.currentZone w' = Live.currentZone w \/
      exists z, ZONE_ENTRY_RE content = Some z /\ Live.currentZone w' = Some z)) /\
  (forall opts t content st who item,
     Auto.inWhoBlock st = false ->
     autoWindow (Some t) ->
     Auto.isApprovedZone (Auto.currentZone st) = true ->
     OTHER_LOOT_RE content = Some (who, item) ->
     exists st', Auto.classify opts (Some t) content st = Returned st' /\
       In (mkLoot (Some who) item (Some t) (Auto.currentZone st))
          (snd (bucketContents (isoDate t) (Auto.sessionMap st')))) /\
  (forall cfg t content w who item,
     Live.inWhoBlock w = false ->
     liveWindow cfg (Some t) ->
     Live.isApprovedZone cfg (Live.currentZone w) = true ->
     OTHER_LOOT_RE content = Some (who, item) ->
     Live.classify cfg (Some t) content w
     = Returned (Live.pushLoot (mkLoot (Some who) item (Some t) (Live.currentZone w)) t w)).
Proof.
  split; [exact auto_results_gated|].
  split; [exact live_results_gated|].
  split.
  { intros opts utcTs content st st' H. split; [|split].
    - intros key l Hin.
      destruct (auto_classify_loot opts utcTs content st st' key l H Hin)
        as [Hold|(H1 & H2 & H3 & H4)]; [now left|].
      right. repeat split; try assumption. now apply auto_isInRaidWindow_spec.
    - destruct (auto_classify_attendance opts utcTs content st st' H)
        as [Hsame|(H1 & z & H2 & H3 & H4)]; [now left|].
      right. split; [exact H1|]. exists z. repeat split; try assumption.
      now apply auto_isInRaidWindow_spec.
    - exact (auto_classify_zone opts utcTs content st st' H). }
  split.
  { intros cfg utcTs content w w' H. split; [|split].
    - destruct (live_classify_loot cfg utcTs content w w' H)
        as [Hold|(l & H1 & H2 & H3 & H4 & H5)]; [now left|].
      right. exists l. repeat split; try assumption. now apply live_isInRaidWindow_spec.
    - exact (live_classify_attendance cfg utcTs content w w' H).
    - exact (live_classify_zone cfg utcTs content w w' H). }
  split.
  - intros opts t content st who item Hb Hw Hz HO.
    apply auto_classify_loot_accepted; try assumption.
    now apply auto_isInRaidWindow_spec.
  - intros cfg t content w who item Hb Hw Hz HO.
    apply live_classify_loot_accepted; try assumption.
    now apply live_isInRaidWindow_spec.
Qed.

Lemma C6_gating_witness :
  autoWindow (Some 1769004000000) /\
  Auto.isApprovedZone (Some (lit "The Deep")) = true.
Proof.
  refine (proj1 (proj2 (proj1 C6_gating sampleHost utcOpts scenarioC scenarioCResult
                          scenarioCSession _ _))
                (mkLoot (Some (lit "Risingdarkness")) (lit "Phase Spider Blood")
                        (Some 1769004000000) (Some (lit "The Deep")))
                _).
  - vm_compute. reflexivity.
  - vm_compute. left. reflexivity.
  - vm_compute. left. reflexivity.
Defined.

(** ** C8: reassembly of lines across reads *)

(** [_processLine] neither reads nor writes the read offset and the
    carried-over text. *)
Lemma live_classify_setSplit cfg utcTs content o p w :
  Live.classify cfg utcTs content (Live.setSplit o p w)
  = mapOutcome (Live.setSplit o p) (Live.classify cfg utcTs content w).
Proof.
  destruct w as [wo wp wz wb wt wpl wm wl wzs we].
  unfold Live.classify. simpl.
  destruct (ZONE_ENTRY_RE content).
  { destruct utcTs; reflexivity. }
  destruct (str_eqb content whoStart).
  { destruct (Live.isInRaidWindow cfg utcTs); reflexivity. }
  destruct wb.
  - destruct (str_eqb content whoSeparator); [reflexivity|].
    destruct (WHO_FOOTER_RE content) as [whoZone|].
    + destruct (negb (Live.isApprovedZone cfg (Some whoZone))); [reflexivity|].
      destruct (fold_left (Live.upsert wt) wpl (wm, [])) as [m np].
      destruct wt; reflexivity.
    + destruct (WHO_PLAYER_RE content); reflexivity.
  - destruct (negb (Live.isInRaidWindow cfg utcTs) || negb (Live.isApprovedZone cfg wz));
      [reflexivity|].
    destruct (SELF_LOOT_RE content) as [it|], (Live.truthy (Live.characterName cfg));
      try (destruct utcTs; reflexivity);
      destruct (OTHER_LOOT_RE content) as [[who item]|];
      try (destruct utcTs; reflexivity); reflexivity.
Qed.

Lemma live_processLine_setSplit host cfg o p w line :
  Live.processLine host cfg (Live.setSplit o p w) line
  = mapOutcome (Live.setSplit o p) (Live.processLine host cfg w line).
Proof.
  unfold Live.processLine.
  destruct (LINE_RE line) as [[tsStr content]|]; [|reflexivity].
  destruct (parseEQDateUTC host tsStr (Live.timezone cfg)) as [[utcTs|]|]; try reflexivity.
  apply live_classify_setSplit.
Qed.

Lemma live_processLines_setSplit host cfg o p lines : forall w,
  Live.processLines host cfg (Live.setSplit o p w) lines
  = mapOutcome (Live.setSplit o p) (Live.processLines host cfg w lines).
Proof.
  induction lines as [|l ls IH]; intros w; simpl; [reflexivity|].
  rewrite live_processLine_setSplit.
  destruct (Live.processLine host cfg w l); simpl; [apply IH | reflexivity].
Qed.

Lemma setSplit_setSplit o p o' p' w :
  Live.setSplit o p (Live.setSplit o' p' w) = Live.setSplit o p w.
Proof. reflexivity. Qed.

(** *** [split] *)

Lemma splitLines_nonempty s : Live.splitLines s <> [].
Proof.
  destruct s as [|c r]; simpl; [discriminate|].
  destruct (ascii_eqb c Live.LF); [discriminate|].
  assert (H : forall ls, Live.consHead c ls <> []) by (intros [|? ?]; discriminate).
  destruct (ascii_eqb c Live.CR); [|apply H].
  destruct r as [|c2 r2]; [apply H|].
  destruct (ascii_eqb c2 Live.LF); [discriminate | apply H].
Qed.

(** Text without a separator is one piece. *)
Lemma splitLines_single : forall n a x,
  (List.length a <= n)%nat -> Live.splitLines a = [x] -> x = a.
Proof.
  induction n as [|n IH]; intros a x Hn H.
  - destruct a; [|simpl in Hn; lia]. simpl in H. congruence.
  - destruct a as [|c a']; [simpl in H; congruence|].
    simpl in Hn.
    assert (Hkeep : Live.consHead c (Live.splitLines a') = [x] -> x = c :: a').
    { destruct (Live.splitLines a') as [|y ys] eqn:E; [now apply splitLines_nonempty in E|].
      simpl. intros [= <- ->]. f_equal. apply IH; [lia | exact E]. }
    simpl in H.
    destruct (ascii_eqb c Live.LF).
    { injection H as _ H. now apply splitLines_nonempty in H. }
    destruct (ascii_eqb c Live.CR); [|now apply Hkeep].
    destruct a' as [|c2 a'']; [now apply Hkeep|].
    destruct (ascii_eqb c2 Live.LF); [|now apply Hkeep].
    injection H as _ H. now apply splitLines_nonempty in H.
Qed.

Lemma removelast_cons (A : Type) (x : A) l : l <> [] -> removelast (x :: l) = x :: removelast l.
Proof. destruct l; [congruence | reflexivity]. Qed.

Lemma last_cons (A : Type) (x : A) l d : l <> [] -> last (x :: l) d = last l d.
Proof. destruct l; [congruence | reflexivity]. Qed.

Lemma consHead_app c ls ls' :
  ls <> [] -> Live.consHead c (ls ++ ls') = Live.consHead c ls ++ ls'.
Proof. destruct ls; [congruence | reflexivity]. Qed.

Lemma removelast_consHead c ls :
  removelast (Live.consHead c ls) =
  match removelast ls with
  | [] => []
  | _ => Live.consHead c (removelast ls)
  end.
Proof.
  destruct ls as [|x [|y ys]]; try reflexivity.
Qed.

(** Splitting a text that continues: the complete pieces of the first
    part stay, and its last piece is split again together with what
    follows. *)
Lemma splitLines_app : forall n a b,
  (List.length a <= n)%nat ->
  Live.splitLines (a ++ b)
  = removelast (Live.splitLines a) ++ Live.splitLines (last (Live.splitLines a) [] ++ b).
Proof.
  induction n as [|n IH]; intros a b Hn.
  - destruct a; [reflexivity | simpl in Hn; lia].
  - destruct a as [|c a']; [reflexivity|].
    simpl in Hn.
    assert (Hkeep :
      Live.splitLines ((c :: a') ++ b) = Live.consHead c (Live.splitLines (a' ++ b)) ->
      Live.splitLines (c :: a') = Live.consHead c (Live.splitLines a') ->
      (forall y, Live.splitLines (c :: y ++ b) = Live.consHead c (Live.splitLines (y ++ b)) \/
                 y <> a') ->
      Live.splitLines ((c :: a') ++ b)
      = removelast (Live.splitLines (c :: a'))
        ++ Live.splitLines (last (Live.splitLines (c :: a')) [] ++ b)).
    { intros E1 E2 E3. rewrite E1, E2, (IH a' b) by lia.
      destruct (Live.splitLines a') as [|x [|y ys]] eqn:E.
      - now apply splitLines_nonempty in E.
      - apply splitLines_single with (n := n) in E; [|lia]. subst x.
        cbn [removelast last Live.consHead app].
        destruct (E3 a') as [H|H]; [now rewrite H | congruence].
      - cbn [Live.consHead].
        rewrite !removelast_cons by discriminate.
        rewrite !last_cons by discriminate.
        reflexivity. }
    destruct (ascii_eqb c Live.LF) eqn:ELF.
    { simpl. rewrite ELF. rewrite (IH a' b) by lia.
      rewrite removelast_cons by apply splitLines_nonempty.
      rewrite last_cons by apply splitLines_nonempty. reflexivity. }
    destruct (ascii_eqb c Live.CR) eqn:ECR.
    + destruct a' as [|c2 a''].
      * assert (E : Live.splitLines [c] = [[c]]) by (simpl; now rewrite ELF, ECR).
        rewrite E. reflexivity.
      * destruct (ascii_eqb c2 Live.LF) eqn:ELF2.
        -- simpl. rewrite ELF, ECR, ELF2. simpl in Hn. rewrite (IH a'' b) by lia.
           rewrite removelast_cons by apply splitLines_nonempty.
           rewrite last_cons by apply splitLines_nonempty. reflexivity.
        -- apply Hkeep.
           ++ simpl. now rewrite ELF, ECR, ELF2.
           ++ simpl. now rewrite ELF, ECR, ELF2.
           ++ intros y. destruct (list_eq_dec ascii_dec y (c2 :: a'')) as [->|Hne];
                [left | now right].
              simpl. now rewrite ELF, ECR, ELF2.
    + apply Hkeep.
      * simpl. now rewrite ELF, ECR.
      * simpl. now rewrite ELF, ECR.
      * intros y. left. simpl. now rewrite ELF, ECR.
Qed.

Lemma splitLines_append a b :
  Live.splitLines (a ++ b)
  = removelast (Live.splitLines a) ++ Live.splitLines (last (Live.splitLines a) [] ++ b).
Proof. apply (splitLines_app (List.length a)). lia. Qed.
Lemma splitLines_noLF x : noLF x -> Live.splitLines x = [x].
Proof.
  induction x as [|c x IH]; intros H; [reflexivity|].
  assert (Hc : ascii_eqb c Live.LF = false) by (apply H; now left).
  assert (Hx : noLF x) by (intros c' Hc'; apply H; now right).
  simpl. rewrite Hc, (IH Hx). simpl.
  destruct (ascii_eqb c Live.CR); [|reflexivity].
  destruct x as [|c2 x2]; [reflexivity|].
  rewrite (Hx c2) by now left. reflexivity.
Qed.

Lemma splitLines_line x rest :
  noLF x -> Live.splitLines (x ++ Live.LF :: rest) = chomp x :: Live.splitLines rest.
Proof.
  induction x as [|c x IH]; intros H.
  - simpl. reflexivity.
  - assert (Hc : ascii_eqb c Live.LF = false) by (apply H; now left).
    assert (Hx : noLF x) by (intros c' Hc'; apply H; now right).
    specialize (IH Hx).
    destruct x as [|c2 x2].
    + simpl. rewrite Hc. destruct (ascii_eqb c Live.CR); reflexivity.
    + assert (Hc2 : ascii_eqb c2 Live.LF = false) by (apply Hx; now left).
      change ((c :: c2 :: x2) ++ Live.LF :: rest)
        with (c :: c2 :: (x2 ++ Live.LF :: rest)).
      change ((c2 :: x2) ++ Live.LF :: rest) with (c2 :: (x2 ++ Live.LF :: rest)) in IH.
      assert (E : Live.splitLines (c :: c2 :: x2 ++ Live.LF :: rest)
                  = Live.consHead c (Live.splitLines (c2 :: x2 ++ Live.LF :: rest))).
      { cbn [Live.splitLines]. rewrite Hc, Hc2.
        destruct (ascii_eqb c Live.CR); reflexivity. }
      rewrite E, IH. reflexivity.
Qed.

(** Bytes below 128 decode to themselves. *)
Lemma toStringUtf8_singleBytes : forall buf,
  Live.singleBytes buf = true -> Live.inAlphabet (Live.toStringUtf8 buf) = Some buf.
Proof.
  unfold Live.toStringUtf8.
  induction buf as [|b buf IH]; intros H; [reflexivity|].
  cbn [Live.singleBytes forallb] in H. apply andb_true_iff in H. destruct H as [Hb H].
  apply N.ltb_lt in Hb.
  cbn [Live.decodeFrom Live.decodeByte]. unfold Live.startByte.
  destruct (N.leb_spec (N_of_ascii b) 127) as [_|L]; [|lia].
  cbn [app Live.inAlphabet].
  destruct (N.ltb_spec (N_of_ascii b) 256) as [_|L]; [|lia].
  rewrite (IH H). cbn [option_map]. now rewrite ascii_N_embedding.
Qed.

Lemma singleBytes_app a b :
  Live.singleBytes (a ++ b) = Live.singleBytes a && Live.singleBytes b.
Proof. unfold Live.singleBytes. apply forallb_app. Qed.

Lemma readNew_nothing host cfg w f0 :
  Live.offset w = List.length f0 ->
  Live.readNew host cfg w (f0 ++ []) = Some (Returned w).
Proof.
  intros H. unfold Live.readNew. rewrite app_nil_r, H, Nat.leb_refl. reflexivity.
Qed.

Lemma readNew_chunk host cfg w f0 c :
  Live.offset w = List.length f0 ->
  c <> [] -> Live.singleBytes c = true ->
  Live.readNew host cfg w (f0 ++ c)
  = Some (Live.processLines host cfg
            (Live.setSplit (List.length (f0 ++ c))
                           (last (Live.splitLines (Live.pendingChunk w ++ c)) []) w)
            (removelast (Live.splitLines (Live.pendingChunk w ++ c)))).
Proof.
  intros H Hc Hs. unfold Live.readNew. rewrite H.
  assert (E : Nat.leb (List.length (f0 ++ c)) (List.length f0) = false).
  { apply Nat.leb_gt. rewrite length_app. destruct c; [congruence | simpl; lia]. }
  rewrite E.
  rewrite skipn_app, skipn_all, Nat.sub_diag. cbn [skipn app].
  now rewrite (toStringUtf8_singleBytes c Hs).
Qed.

Lemma last_append (A : Type) (l l' : list A) d : l' <> [] -> last (l ++ l') d = last l' d.
Proof.
  intros H. induction l as [|x l IH]; [reflexivity|].
  change ((x :: l) ++ l') with (x :: (l ++ l')).
  rewrite last_cons; [exact IH|]. destruct l; [exact H | discriminate].
Qed.

(** X27: reads and writes need not keep step.  When what was appended
    to the file are single-byte characters, reading it in two reads, cut
    anywhere (within a line, at its end, or before anything new), leaves
    the watcher as one read of the whole does: a line cut by the first
    read is completed by the second and classified once. *)
Theorem two_reads_are_one_read host cfg w f0 c1 c2 :
  Live.offset w = List.length f0 ->
  Live.singleBytes c1 = true -> Live.singleBytes c2 = true ->
  Live.thenRead (Live.readNew host cfg w (f0 ++ c1))
                (fun w1 => Live.readNew host cfg w1 (f0 ++ c1 ++ c2))
  = Live.readNew host cfg w (f0 ++ c1 ++ c2).
Proof.
  intros H S1 S2.
  destruct c1 as [|x c1'].
  { rewrite (readNew_nothing host cfg w f0 H). reflexivity. }
  set (c1 := x :: c1') in *.
  assert (Hc1 : c1 <> []) by discriminate.
  rewrite (readNew_chunk host cfg w f0 c1 H Hc1 S1).
  rewrite live_processLines_setSplit.
  set (L1 := Live.splitLines (Live.pendingChunk w ++ c1)).
  destruct c2 as [|y c2'].
  - (* nothing new: the second read returns at once *)
    rewrite app_nil_r.
    rewrite (readNew_chunk host cfg w f0 c1 H Hc1 S1).
    rewrite live_processLines_setSplit. fold L1.
    destruct (Live.processLines host cfg w (removelast L1)) as [w1|]; [|reflexivity].
    cbn [Live.thenRead mapOutcome]. rewrite <- (app_nil_r (f0 ++ c1)) at 2.
    now apply readNew_nothing.
  - set (c2 := y :: c2') in *.
    assert (Hc2 : c2 <> []) by discriminate.
    assert (Hc12 : c1 ++ c2 <> []) by discriminate.
    assert (S12 : Live.singleBytes (c1 ++ c2) = true)
      by (rewrite singleBytes_app, S1, S2; reflexivity).
    rewrite (readNew_chunk host cfg w f0 (c1 ++ c2) H Hc12 S12).
    rewrite (app_assoc (Live.pendingChunk w) c1 c2).
    rewrite (splitLines_append (Live.pendingChunk w ++ c1) c2). fold L1.
    set (L2 := Live.splitLines (last L1 [] ++ c2)).
    assert (HL2 : L2 <> []) by apply splitLines_nonempty.
    rewrite removelast_app by exact HL2.
    rewrite last_append by exact HL2.
    rewrite live_processLines_app, live_processLines_setSplit.
    destruct (Live.processLines host cfg w (removelast L1)) as [w1|]; [|reflexivity].
    cbn [Live.thenRead Live.andThen mapOutcome].
    rewrite (app_assoc f0 c1 c2).
    rewrite (readNew_chunk host cfg _ (f0 ++ c1) c2) by (reflexivity || exact Hc2 || exact S2).
    simpl Live.pendingChunk. fold L2.
    rewrite setSplit_setSplit. reflexivity.
Qed.


Lemma two_reads_witness :
  Live.thenRead
    (Live.readNew sampleHost liveConfig (Live.create 0)
       ([] ++ (firstLine ++ Live.LF :: partialLine)))
    (fun w1 => Live.readNew sampleHost liveConfig w1
       ([] ++ (firstLine ++ Live.LF :: partialLine) ++ (restOfLine ++ [Live.LF])))
  = Live.readNew sampleHost liveConfig (Live.create 0)
      ([] ++ (firstLine ++ Live.LF :: partialLine) ++ (restOfLine ++ [Live.LF])).
Proof.
  apply (two_reads_are_one_read sampleHost liveConfig (Live.create 0) []
           (firstLine ++ Live.LF :: partialLine) (restOfLine ++ [Live.LF])).
  - reflexivity.
  - vm_compute. reflexivity.
  - vm_compute. reflexivity.
Defined.

Lemma noLF_app x y : noLF x -> noLF y -> noLF (x ++ y).
Proof.
  intros Hx Hy c Hc. apply in_app_iff in Hc. destruct Hc; [now apply Hx | now apply Hy].
Qed.

Lemma noLF_check x :
  forallb (fun c => negb (ascii_eqb c Live.LF)) x = true -> noLF x.
Proof.
  intros H c Hc. rewrite forallb_forall in H. specialize (H c Hc).
  now apply negb_true_iff in H.
Qed.

Lemma processLines_one host cfg w l :
  Live.processLines host cfg w [l] = Live.processLine host cfg w l.
Proof. simpl. now destruct (Live.processLine host cfg w l). Qed.

(** C8: chunks that split a character.  The file gets one complete line
    and the start of a zone entry whose zone name ends in U+00E9, of
    which the first write carries the first byte only; the second write
    brings the second byte, the period and the line feed.
    - Decoded on its own, the first write ends in U+FFFD, and the second
      begins with another: the text [_readNew] puts together from the two
      reads names the zone with two U+FFFD.
    - Decoded in one piece, the same bytes give U+00E9, and one read of
      both writes enters the zone under its name.
    - The text of the first read is thus none this development holds
      ([None]). *)
Theorem C8_split_character_is_not_reassembled :
  Live.toStringUtf8 (firstLine ++ Live.LF :: cafeStart)
  = map N_of_ascii (firstLine ++ Live.LF :: cafeText) ++ [Live.REPLACEMENT] /\
  Live.toStringUtf8 (cafeEnd ++ [Live.LF])
  = Live.REPLACEMENT :: map N_of_ascii (lit "." ++ [Live.LF]) /\
  Live.toStringUtf8 ((firstLine ++ Live.LF :: cafeStart) ++ cafeEnd ++ [Live.LF])
  = map N_of_ascii (firstLine ++ Live.LF :: cafeText ++ eAcute :: lit "." ++ [Live.LF]) /\
  option_map (mapOutcome Live.currentZone)
    (Live.readNew sampleHost liveConfig (Live.create 0)
       ((firstLine ++ Live.LF :: cafeStart) ++ cafeEnd ++ [Live.LF]))
  = Some (Returned (Some (lit "Caf" ++ [eAcute]))) /\
  Live.readNew sampleHost liveConfig (Live.create 0) (firstLine ++ Live.LF :: cafeStart)
  = None.
Proof. repeat split; vm_compute; reflexivity. Qed.

(** The two writes of scenario D, run: after the first read the zone is
    known, nothing is looted yet and the partial line waits; after the
    second the completed line has been classified, once. *)
Example scenario_D :
  match Live.readNew sampleHost liveConfig (Live.create 0)
                     (firstLine ++ Live.LF :: partialLine) with
  | Some (Returned w1) =>
      Live.currentZone w1 = Some (lit "The Deep") /\
      Live.lootEvents w1 = [] /\
      Live.pendingChunk w1 = partialLine /\
      match Live.readNew sampleHost liveConfig w1
              (firstLine ++ Live.LF :: partialLine ++ restOfLine ++ [Live.LF]) with
      | Some (Returned w2) =>
          Live.lootEvents w2
          = [ mkLoot (Some (lit "Tunare")) (lit "Shiknar Ichor") (Some 1769004060000)
                     (Some (lit "The Deep")) ] /\
          Live.pendingChunk w2 = []
      | _ => False
      end
  | _ => False
  end.
Proof. vm_compute. repeat split. Qed.
(** * Further properties of the code *)

(** ** The zone matcher and the zone lists of its callers *)

Ltac each_char c :=
  let b0 := fresh in let b1 := fresh in let b2 := fresh in let b3 := fresh in
  let b4 := fresh in let b5 := fresh in let b6 := fresh in let b7 := fresh in
  destruct c as [b0 b1 b2 b3 b4 b5 b6 b7];
  destruct b0, b1, b2, b3, b4, b5, b6, b7.

Lemma isSpace_lowerChar c : isSpace (lowerChar c) = isSpace c.
Proof. each_char c; reflexivity. Qed.

Lemma lowerChar_idem c : lowerChar (lowerChar c) = lowerChar c.
Proof. each_char c; reflexivity. Qed.

Lemma toLowerCase_idem s : toLowerCase (toLowerCase s) = toLowerCase s.
Proof.
  unfold toLowerCase. rewrite map_map. apply map_ext. intros c. apply lowerChar_idem.
Qed.

Lemma hasInk_app a b : hasInk (a ++ b) = hasInk a || hasInk b.
Proof. unfold hasInk. apply existsb_app. Qed.

Lemma hasInk_rev s : hasInk (rev s) = hasInk s.
Proof.
  induction s as [|c s IH]; [reflexivity|]. simpl rev.
  rewrite hasInk_app, IH. simpl. rewrite orb_false_r. apply orb_comm.
Qed.

Lemma hasInk_dropWhile s : hasInk (dropWhile isSpace s) = hasInk s.
Proof.
  induction s as [|c s IH]; [reflexivity|]. simpl.
  destruct (isSpace c) eqn:E; simpl; [exact IH | now rewrite E].
Qed.

Lemma hasInk_trim s : hasInk (trim s) = hasInk s.
Proof. unfold trim. now rewrite hasInk_rev, hasInk_dropWhile, hasInk_rev, hasInk_dropWhile. Qed.

Lemma hasInk_toLowerCase s : hasInk (toLowerCase s) = hasInk s.
Proof.
  induction s as [|c s IH]; [reflexivity|]. simpl.
  now rewrite isSpace_lowerChar, <- IH.
Qed.

Lemma hasInk_nonempty s : hasInk s = true -> s <> [].
Proof. now destruct s. Qed.

Lemma no_ink_dropWhile s : hasInk s = false -> dropWhile isSpace s = [].
Proof.
  induction s as [|c s IH]; [reflexivity|]. simpl.
  destruct (isSpace c); simpl; [exact IH | discriminate].
Qed.

Lemma no_ink_trim s : hasInk s = false -> trim s = [].
Proof. intros H. unfold trim. now rewrite (no_ink_dropWhile s H). Qed.

Lemma endsInInk_hasInk s : endsInInk s = true -> hasInk s = true.
Proof.
  unfold endsInInk. intros H. rewrite <- hasInk_rev.
  destruct (rev s) as [|c r]; [discriminate|]. simpl. now rewrite H.
Qed.

Lemma endsInInk_toLowerCase s : endsInInk (toLowerCase s) = endsInInk s.
Proof.
  unfold endsInInk, toLowerCase. rewrite <- map_rev.
  destruct (rev s) as [|c r]; [reflexivity|]. simpl. now rewrite isSpace_lowerChar.
Qed.

Lemma dropWhile_head s c r : dropWhile isSpace s = c :: r -> isSpace c = false.
Proof.
  induction s as [|d s IH]; [discriminate|]. simpl.
  destruct (isSpace d) eqn:E; [exact IH|]. now intros [= <- _].
Qed.

(** A text that [trim] returned and that is not empty ends in a character
    that is not white space. *)
Lemma trim_endsInInk s : trim s <> [] -> endsInInk (trim s) = true.
Proof.
  unfold trim, endsInInk. rewrite rev_involutive.
  destruct (dropWhile isSpace (rev (dropWhile isSpace s))) as [|c r] eqn:E.
  - intros H. now elim H.
  - intros _. now rewrite (dropWhile_head _ _ _ E).
Qed.

Lemma endsInInk_cons c s : s <> [] -> endsInInk (c :: s) = endsInInk s.
Proof.
  intros Hs. unfold endsInInk. simpl rev.
  destruct (rev s) as [|d r] eqn:E; [|reflexivity].
  apply (f_equal (@rev ascii)) in E. rewrite rev_involutive in E. now elim Hs.
Qed.

(** After a leading [the] and white space, a text that ends in ink still
    has some. *)
Lemma replaceLeadingThe_ink s : endsInInk s = true -> hasInk (replaceLeadingThe s) = true.
Proof.
  intros H. unfold replaceLeadingThe.
  destruct (stripPrefix (lit "the") s) as [[|c r]|] eqn:E;
    try (now apply endsInInk_hasInk).
  destruct (isSpace c) eqn:Ec; [|now apply endsInInk_hasInk].
  apply stripPrefix_Some in E. subst s. rewrite hasInk_dropWhile.
  change (lit "the" ++ c :: r) with ("t"%char :: "h"%char :: "e"%char :: c :: r) in H.
  destruct r as [|d r].
  - unfold endsInInk in H. simpl in H. now rewrite Ec in H.
  - rewrite !endsInInk_cons in H by discriminate. now apply endsInInk_hasInk.
Qed.

Lemma normalizeZone_ink z : endsInInk z = true -> normalizeZone z <> [].
Proof.
  intros H. apply hasInk_nonempty. unfold normalizeZone.
  rewrite hasInk_trim. apply replaceLeadingThe_ink. now rewrite endsInInk_toLowerCase.
Qed.

Lemma replaceLeadingThe_blank s : hasInk s = false -> hasInk (replaceLeadingThe s) = false.
Proof.
  intros H. unfold replaceLeadingThe.
  destruct (stripPrefix (lit "the") s) as [[|c r]|] eqn:E; try exact H.
  apply stripPrefix_Some in E. subst s. discriminate H.
Qed.

Lemma replaceLeadingThe_the c r :
  isSpace c = true -> replaceLeadingThe (lit "the" ++ c :: r) = dropWhile isSpace r.
Proof.
  intros H. unfold replaceLeadingThe.
  change (stripPrefix (lit "the") (lit "the" ++ c :: r)) with (Some (c :: r)).
  cbv iota beta. now rewrite H.
Qed.

(** A blank name (white space only, the empty text included) normalises
    to the empty text, and so does [the] followed by white space only. *)
Lemma normalizeZone_blank ws :
  hasInk ws = false ->
  normalizeZone ws = [] /\ (ws <> [] -> normalizeZone (lit "The" ++ ws) = []).
Proof.
  intros H. split.
  - unfold normalizeZone. apply no_ink_trim. apply replaceLeadingThe_blank.
    now rewrite hasInk_toLowerCase.
  - intros Hne. unfold normalizeZone. apply no_ink_trim.
    destruct ws as [|c r]; [now elim Hne|].
    change (toLowerCase (lit "The" ++ c :: r))
      with (lit "the" ++ lowerChar c :: toLowerCase r).
    simpl in H. apply orb_false_iff in H. destruct H as [Hc Hr].
    apply negb_false_iff in Hc.
    rewrite replaceLeadingThe_the by now rewrite isSpace_lowerChar.
    now rewrite hasInk_dropWhile, hasInk_toLowerCase.
Qed.

Lemma Substring_refl s : Substring s s.
Proof. exists [], []. now rewrite app_nil_r. Qed.

Lemma Substring_nil s : Substring [] s.
Proof. now exists [], s. Qed.

(** X1: a zone name that is not empty matches the filters built from a
    list of zone names ([zones.map(normalizeZone)]) whenever it has the
    normal form of one of the listed names: the listed names themselves,
    and their variants in letter case, leading [The] and surrounding white
    space. *)
Theorem zone_with_listed_normal_form_matches :
  forall (zones : list str) (z z' : str),
    In z' zones -> z <> [] -> normalizeZone z = normalizeZone z' ->
    zoneMatchesFilters (Some z) (map normalizeZone zones) = true.
Proof.
  intros zones z z' Hin Hz Hn. apply zoneMatchesFilters_iff.
  exists z. repeat split; [exact Hz|].
  exists (normalizeZone z'). split; [now apply in_map|].
  left. rewrite Hn. apply Substring_refl.
Qed.

Lemma zone_with_listed_normal_form_witness :
  zoneMatchesFilters (Some (lit "THE  deep ")) (map normalizeZone Auto.APPROVED_ZONES) = true.
Proof.
  apply (zone_with_listed_normal_form_matches Auto.APPROVED_ZONES (lit "THE  deep ")
           (lit "The Deep")).
  - vm_compute. tauto.
  - discriminate.
  - vm_compute. reflexivity.
Defined.

(** X2: a filter whose normal form is empty (a blank entry, or [The]
    followed by white space only) matches every zone name that is not
    empty, in the batch parser and in the watcher's approved-zone test
    alike. *)
Theorem blank_filter_matches_every_zone :
  forall (raw : str) (zones : list str) (z : str),
    In raw zones -> hasInk raw = false \/ (exists ws, ws <> [] /\ hasInk ws = false /\ raw = lit "The" ++ ws) ->
    z <> [] ->
    zoneMatchesFilters (Some z) (map normalizeZone zones) = true /\
    (forall cfg, Live.approvedZoneFilters cfg = map normalizeZone zones ->
                 Live.isApprovedZone cfg (Some z) = true).
Proof.
  intros raw zones z Hin Hraw Hz.
  assert (Hn : normalizeZone raw = []).
  { destruct Hraw as [H|(ws & Hne & Hws & ->)].
    - now apply normalizeZone_blank.
    - now apply normalizeZone_blank. }
  assert (Hm : zoneMatchesFilters (Some z) (map normalizeZone zones) = true).
  { apply zoneMatchesFilters_iff. exists z. repeat split; [exact Hz|].
    exists []. split; [rewrite <- Hn; now apply in_map|].
    left. apply Substring_nil. }
  split; [exact Hm|].
  intros cfg Hcfg. unfold Live.isApprovedZone. rewrite Hcfg.
  destruct z; [now elim Hz | exact Hm].
Qed.

Lemma blank_filter_witness :
  zoneMatchesFilters (Some (lit "The Bazaar")) (map normalizeZone [lit "Sebilis"; lit " "]) = true.
Proof.
  apply (blank_filter_matches_every_zone (lit " ") [lit "Sebilis"; lit " "] (lit "The Bazaar")).
  - simpl. tauto.
  - left. reflexivity.
  - discriminate.
Defined.

Lemma prepareZones_In input z :
  In z (prepareZones input) -> z <> [] /\ exists piece, z = trim piece.
Proof.
  unfold prepareZones. rewrite filter_In, in_map_iff.
  intros [(piece & <- & _) Hne]. split.
  - destruct (trim piece); [discriminate | discriminate].
  - now exists piece.
Qed.

(** X3: the zone lists the callers of [parseLog] build from the user's
    text hold no name whose normal form is empty: every filter
    [parseLog] derives from them has at least one character. *)
Theorem prepared_zone_filters_not_empty :
  forall (zoneInput f : str),
    In f (map normalizeZone (prepareZones zoneInput)) -> f <> [].
Proof.
  intros zoneInput f Hin. apply in_map_iff in Hin. destruct Hin as (z & <- & Hz).
  apply prepareZones_In in Hz. destruct Hz as (Hne & piece & ->).
  apply normalizeZone_ink. now apply trim_endsInInk.
Qed.

Lemma prepared_zone_filters_witness :
  map normalizeZone (prepareZones (lit " The Deep , ,the ,")) = [lit "deep"; lit "the"] /\
  lit "the" <> [].
Proof.
  split; [vm_compute; reflexivity|].
  apply (prepared_zone_filters_not_empty (lit " The Deep , ,the ,") (lit "the")).
  vm_compute. tauto.
Defined.
(** ** The line patterns *)

Lemma stripSuffix_Some suf s g : stripSuffix suf s = Some g <-> s = g ++ suf.
Proof.
  unfold stripSuffix. split.
  - destruct (stripPrefix (rev suf) (rev s)) as [r|] eqn:E; [|discriminate].
    intros [= <-]. apply stripPrefix_Some in E.
    apply (f_equal (@rev ascii)) in E.
    now rewrite rev_involutive, rev_app_distr, rev_involutive in E.
  - intros ->. rewrite rev_app_distr.
    assert (H : stripPrefix (rev suf) (rev suf ++ rev g) = Some (rev g))
      by now apply stripPrefix_Some.
    rewrite H. simpl. now rewrite rev_involutive.
Qed.

Lemma dotPlusThenEnd_iff suf s g :
  dotPlusThenEnd suf s = Some g <-> s = g ++ suf /\ g <> [] /\ noLineTerm g = true.
Proof.
  unfold dotPlusThenEnd. split.
  - destruct (stripSuffix suf s) as [[|c r]|] eqn:E; try discriminate.
    destruct (noLineTerm (c :: r)) eqn:N; [|discriminate].
    intros [= <-]. apply stripSuffix_Some in E.
    split; [exact E | split; [discriminate | exact N]].
  - intros (-> & Hne & N).
    assert (E : stripSuffix suf (g ++ suf) = Some g) by now apply stripSuffix_Some.
    rewrite E. destruct g as [|c r]; [now elim Hne|]. now rewrite N.
Qed.

Lemma space_not_nameChar : isNameChar " " = false.
Proof. reflexivity. Qed.

Lemma ZONE_ENTRY_RE_iff content z :
  ZONE_ENTRY_RE content = Some z <->
  content = lit "You have entered " ++ z ++ lit "." /\ z <> [] /\ noLineTerm z = true.
Proof.
  unfold ZONE_ENTRY_RE. split.
  - destruct (stripPrefix (lit "You have entered ") content) as [r|] eqn:E; [|discriminate].
    intros H. apply stripPrefix_Some in E. apply dotPlusThenEnd_iff in H.
    destruct H as (-> & Hz & N). now subst.
  - intros (-> & Hz & N).
    assert (E : stripPrefix (lit "You have entered ")
                  (lit "You have entered " ++ z ++ lit ".") = Some (z ++ lit "."))
      by now apply stripPrefix_Some.
    rewrite E. now apply dotPlusThenEnd_iff.
Qed.

Lemma WHO_FOOTER_RE_iff content z :
  WHO_FOOTER_RE content = Some z <->
  exists n, content = lit "There are " ++ n ++ lit " players in " ++ z ++ lit "." /\
            n <> [] /\ forallb isDigit n = true /\ z <> [] /\ noLineTerm z = true.
Proof.
  unfold WHO_FOOTER_RE. split.
  - destruct (stripPrefix (lit "There are ") content) as [r|] eqn:E; [|discriminate].
    destruct (many1 isDigit r) as [[n r1]|] eqn:E1; [|discriminate].
    destruct (stripPrefix (lit " players in ") r1) as [r2|] eqn:E2; [|discriminate].
    intros H. apply stripPrefix_Some in E. apply many1_inv in E1.
    apply stripPrefix_Some in E2. apply dotPlusThenEnd_iff in H.
    destruct E1 as (-> & Hn & Dn). destruct H as (-> & Hz & N). subst.
    exists n. repeat split; assumption.
  - intros (n & -> & Hn & Dn & Hz & N).
    assert (E : stripPrefix (lit "There are ")
                  (lit "There are " ++ n ++ lit " players in " ++ z ++ lit ".")
                = Some (n ++ lit " players in " ++ z ++ lit "."))
      by now apply stripPrefix_Some.
    rewrite E. rewrite (many1_fwd isDigit n _ Hn Dn) by reflexivity.
    assert (E2 : stripPrefix (lit " players in ") (lit " players in " ++ z ++ lit ".")
                 = Some (z ++ lit "."))
      by now apply stripPrefix_Some.
    rewrite E2. now apply dotPlusThenEnd_iff.
Qed.

Lemma SELF_LOOT_RE_iff content item :
  SELF_LOOT_RE content = Some item <->
  content = lit "--You have looted a " ++ item ++ lit ".--" /\
  item <> [] /\ noLineTerm item = true.
Proof.
  unfold SELF_LOOT_RE. split.
  - destruct (stripPrefix (lit "--You have looted a ") content) as [r|] eqn:E; [|discriminate].
    intros H. apply stripPrefix_Some in E. apply dotPlusThenEnd_iff in H.
    destruct H as (-> & Hi & N). now subst.
  - intros (-> & Hi & N).
    assert (E : stripPrefix (lit "--You have looted a ")
                  (lit "--You have looted a " ++ item ++ lit ".--") = Some (item ++ lit ".--"))
      by now apply stripPrefix_Some.
    rewrite E. now apply dotPlusThenEnd_iff.
Qed.

Lemma OTHER_LOOT_RE_iff content who item :
  OTHER_LOOT_RE content = Some (who, item) <->
  content = lit "--" ++ who ++ lit " has looted a " ++ item ++ lit ".--" /\
  who <> [] /\ forallb isNameChar who = true /\
  item <> [] /\ noLineTerm item = true.
Proof.
  unfold OTHER_LOOT_RE. split.
  - destruct (stripPrefix (lit "--") content) as [r|] eqn:E; [|discriminate].
    destruct (many1 isNameChar r) as [[w r1]|] eqn:E1; [|discriminate].
    destruct (stripPrefix (lit " has looted a ") r1) as [r2|] eqn:E2; [|discriminate].
    destruct (dotPlusThenEnd (lit ".--") r2) as [it|] eqn:E3; [|discriminate].
    intros [= <- <-]. apply stripPrefix_Some in E. apply many1_inv in E1.
    apply stripPrefix_Some in E2. apply dotPlusThenEnd_iff in E3.
    destruct E1 as (-> & Hw & Nw). destruct E3 as (-> & Hi & N). subst.
    repeat split; assumption.
  - intros (-> & Hw & Nw & Hi & N).
    assert (E : stripPrefix (lit "--")
                  (lit "--" ++ who ++ lit " has looted a " ++ item ++ lit ".--")
                = Some (who ++ lit " has looted a " ++ item ++ lit ".--"))
      by now apply stripPrefix_Some.
    rewrite E. rewrite (many1_fwd isNameChar who _ Hw Nw) by reflexivity.
    assert (E2 : stripPrefix (lit " has looted a ") (lit " has looted a " ++ item ++ lit ".--")
                 = Some (item ++ lit ".--"))
      by now apply stripPrefix_Some.
    rewrite E2.
    assert (E3 : dotPlusThenEnd (lit ".--") (item ++ lit ".--") = Some item)
      by now apply dotPlusThenEnd_iff.
    now rewrite E3.
Qed.

(** X4: each content pattern accepts exactly the texts of its shape and
    returns their variable parts: a zone entry is [You have entered],
    the zone and a period; a footer is [There are], digits,
    [players in], the zone and a period; self-loot and other loot are the
    two [--...--] sentences with the item, and the looter's name made of
    name characters. *)
Theorem content_patterns_shapes :
  (forall content z,
     ZONE_ENTRY_RE content = Some z <->
     content = lit "You have entered " ++ z ++ lit "." /\ z <> [] /\ noLineTerm z = true) /\
  (forall content z,
     WHO_FOOTER_RE content = Some z <->
     exists n, content = lit "There are " ++ n ++ lit " players in " ++ z ++ lit "." /\
               n <> [] /\ forallb isDigit n = true /\ z <> [] /\ noLineTerm z = true) /\
  (forall content item,
     SELF_LOOT_RE content = Some item <->
     content = lit "--You have looted a " ++ item ++ lit ".--" /\
     item <> [] /\ noLineTerm item = true) /\
  (forall content who item,
     OTHER_LOOT_RE content = Some (who, item) <->
     content = lit "--" ++ who ++ lit " has looted a " ++ item ++ lit ".--" /\
     who <> [] /\ forallb isNameChar who = true /\
     item <> [] /\ noLineTerm item = true).
Proof.
  split; [|split; [|split]].
  - exact ZONE_ENTRY_RE_iff.
  - exact WHO_FOOTER_RE_iff.
  - exact SELF_LOOT_RE_iff.
  - exact OTHER_LOOT_RE_iff.
Qed.

(** What the first character of a content decides. *)
Lemma content_heads content :
  (matched (ZONE_ENTRY_RE content) = true -> hd_error content = Some "Y"%char) /\
  (str_eqb content whoStart = true -> hd_error content = Some "P"%char) /\
  (matched (WHO_FOOTER_RE content) = true -> hd_error content = Some "T"%char) /\
  (matched (WHO_PLAYER_RE content) = true -> hd_error content = Some "["%char) /\
  (str_eqb content whoSeparator = true \/ matched (SELF_LOOT_RE content) = true \/
   matched (OTHER_LOOT_RE content) = true -> hd_error content = Some "-"%char).
Proof.
  split; [|split; [|split; [|split]]].
  - unfold ZONE_ENTRY_RE.
    destruct (stripPrefix (lit "You have entered ") content) as [r|] eqn:E; [|discriminate].
    apply stripPrefix_Some in E. now subst.
  - intros H. apply str_eqb_eq in H. now subst.
  - unfold WHO_FOOTER_RE.
    destruct (stripPrefix (lit "There are ") content) as [r|] eqn:E; [|discriminate].
    apply stripPrefix_Some in E. now subst.
  - unfold WHO_PLAYER_RE.
    destruct (chr "[" content) as [[x r]|] eqn:E; [|discriminate].
    apply chr_inv in E. destruct E as [-> _]. reflexivity.
  - intros [H|[H|H]].
    + apply str_eqb_eq in H. now subst.
    + unfold SELF_LOOT_RE in H.
      destruct (stripPrefix (lit "--You have looted a ") content) as [r|] eqn:E; [|discriminate].
      apply stripPrefix_Some in E. now subst.
    + unfold OTHER_LOOT_RE in H.
      destruct (stripPrefix (lit "--") content) as [r|] eqn:E; [|discriminate].
      apply stripPrefix_Some in E. now subst.
Qed.

Lemma separator_is_no_loot :
  SELF_LOOT_RE whoSeparator = None /\ OTHER_LOOT_RE whoSeparator = None.
Proof. split; reflexivity. Qed.

(** X5: no content passes two of the seven tests the loop bodies apply
    (zone entry, block start, separator, footer, roster entry, self-loot,
    other loot), so the order in which a loop tries them never decides
    what a line is. *)
Theorem content_passes_at_most_one_test :
  forall content : str, (countTrue (contentTests content) <= 1)%nat.
Proof.
  intros content.
  destruct (content_heads content) as (Hz & Hs & Hf & Hp & Hd).
  unfold contentTests, countTrue.
  destruct (matched (ZONE_ENTRY_RE content)) eqn:Z;
  destruct (str_eqb content whoStart) eqn:S;
  destruct (matched (WHO_FOOTER_RE content)) eqn:F;
  destruct (matched (WHO_PLAYER_RE content)) eqn:P;
  try (specialize (Hz eq_refl)); try (specialize (Hs eq_refl));
  try (specialize (Hf eq_refl)); try (specialize (Hp eq_refl));
  try congruence;
  destruct (str_eqb content whoSeparator) eqn:D;
  destruct (matched (SELF_LOOT_RE content)) eqn:L;
  destruct (matched (OTHER_LOOT_RE content)) eqn:O;
  try (simpl; lia);
  try (assert (Hh : hd_error content = Some "-"%char) by (apply Hd; tauto); congruence).
  all: try (apply str_eqb_eq in D; subst content; vm_compute in L, O; congruence).
  all: destruct (SELF_LOOT_RE content) as [item|] eqn:E; [|discriminate];
    destruct (self_loot_exclusive content item E) as (_ & _ & _ & _ & _ & H);
    rewrite H in O; discriminate.
Qed.

(** *** Timestamps *)

Lemma word_not_space c : isWord c = true -> ascii_eqb " " c = false.
Proof. each_char c; intros H; try reflexivity; discriminate H. Qed.

Lemma wordsOfLength3 x :
  wordsOfLength 3 x = true ->
  exists a b c, x = [a; b; c] /\ isWord a = true /\ isWord b = true /\ isWord c = true.
Proof.
  unfold wordsOfLength. intros H. apply andb_true_iff in H. destruct H as [L W].
  apply Nat.eqb_eq in L.
  destruct x as [|a [|b [|c [|d x]]]]; try discriminate L.
  cbn [forallb] in W. repeat (apply andb_true_iff in W; destruct W as [? W]).
  exists a, b, c. repeat split; assumption.
Qed.

Lemma digitsOfLength_spec n x :
  digitsOfLength n x = true <-> List.length x = n /\ forallb isDigit x = true.
Proof.
  unfold digitsOfLength. rewrite andb_true_iff, Nat.eqb_eq. tauto.
Qed.

Lemma wordsOfLength_spec n x :
  wordsOfLength n x = true <-> List.length x = n /\ forallb isWord x = true.
Proof.
  unfold wordsOfLength. rewrite andb_true_iff, Nat.eqb_eq. tauto.
Qed.

Lemma wellFormedStamp_spec s :
  wellFormedStamp s = true <->
  (List.length (weekday s) = 3%nat /\ forallb isWord (weekday s) = true) /\
  (List.length (monthName s) = 3%nat /\ forallb isWord (monthName s) = true) /\
  gap s <> [] /\ forallb isBlank (gap s) = true /\
  ((List.length (dayDigits s) = 1%nat \/ List.length (dayDigits s) = 2%nat) /\
   forallb isDigit (dayDigits s) = true) /\
  (List.length (hourDigits s) = 2%nat /\ forallb isDigit (hourDigits s) = true) /\
  (List.length (minuteDigits s) = 2%nat /\ forallb isDigit (minuteDigits s) = true) /\
  (List.length (secondDigits s) = 2%nat /\ forallb isDigit (secondDigits s) = true) /\
  (List.length (yearDigits s) = 4%nat /\ forallb isDigit (yearDigits s) = true).
Proof.
  unfold wellFormedStamp.
  rewrite !andb_true_iff, orb_true_iff, !wordsOfLength_spec, !digitsOfLength_spec.
  assert (G : nonEmptyText (gap s) = true <-> gap s <> []).
  { destruct (gap s); simpl; split; congruence. }
  rewrite G. tauto.
Qed.

Lemma tsShape_fwd s rest :
  wellFormedStamp s = true -> tsShape (stampText s ++ rest) = Some (stampText s, rest).
Proof.
  intros H. apply wellFormedStamp_spec in H.
  destruct H as ((Lw & Hw) & (Lm & Hm) & Ng & Hg & (Ld & Hd) & (Lh & Hh) & (Li & Hi)
                 & (Ls & Hs) & (Ly & Hy)).
  destruct s as [wd mon sp day hh mi ss yr]. cbn [weekday monthName gap dayDigits hourDigits
    minuteDigits secondDigits yearDigits] in *.
  unfold stampText. cbn [weekday monthName gap dayDigits hourDigits
    minuteDigits secondDigits yearDigits].
  change (lit " ") with [" "%char]. change (lit ":") with [":"%char].
  repeat rewrite <- app_assoc. cbn [app].
  unfold tsShape, andThen.
  rewrite (times_fwd isWord 3 wd _ Lw Hw).
  unfold chr at 1. rewrite (one_fwd (ascii_eqb " ") " " _ eq_refl).
  rewrite (times_fwd isWord 3 mon _ Lm Hm).
  rewrite (many1_fwd isBlank sp _ Ng Hg).
  2:{ destruct day as [|d0 day]; [destruct Ld; discriminate|]. cbn [forallb] in Hd.
      apply andb_true_iff in Hd. destruct Hd as [Hd0 _].
      cbn [app]. now apply digit_not_blank. }
  rewrite (digits12_fwd day _).
  2:{ destruct day; [destruct Ld; discriminate | discriminate]. }
  2:{ exact Hd. }
  2:{ right. reflexivity. }
  2:{ destruct Ld as [Ld|Ld]; rewrite Ld; lia. }
  unfold chr. rewrite (one_fwd (ascii_eqb " ") " " _ eq_refl).
  rewrite (times_fwd isDigit 2 hh _ Lh Hh).
  rewrite (one_fwd (ascii_eqb ":") ":" _ eq_refl).
  rewrite (times_fwd isDigit 2 mi _ Li Hi).
  rewrite (one_fwd (ascii_eqb ":") ":" _ eq_refl).
  rewrite (times_fwd isDigit 2 ss _ Ls Hs).
  rewrite (one_fwd (ascii_eqb " ") " " _ eq_refl).
  rewrite (times_fwd isDigit 4 yr _ Ly Hy).
  repeat rewrite <- app_assoc. reflexivity.
Qed.

Lemma tsShape_inv r ts rest :
  tsShape r = Some (ts, rest) ->
  exists s, wellFormedStamp s = true /\ ts = stampText s /\ r = ts ++ rest.
Proof.
  unfold tsShape. intros H.
  repeat match type of H with
         | (_ >> _) _ = Some _ =>
             let x1 := fresh "x" in let r1 := fresh "r" in let x2 := fresh "y" in
             let Ha := fresh "Ha" in let Hb := fresh "Hb" in
             apply andThen_inv in H; destruct H as (x1 & r1 & x2 & H & Hb & ->)
         end.
  rename x0 into wd, y9 into mon, y8 into sp, y7 into day, y5 into hh,
         y3 into mi, y1 into ss, y into year.
  apply times_inv in H. destruct H as (-> & Lw & Hw).
  apply chr_inv in Hb10. destruct Hb10 as (-> & ->).
  apply times_inv in Hb9. destruct Hb9 as (-> & Lm & Hm).
  apply many1_inv in Hb8. destruct Hb8 as (-> & Nsp & Hsp).
  pose proof (digits12_length _ _ _ Hb7) as Ld.
  apply digits12_inv in Hb7. destruct Hb7 as (-> & Nd & Hd & Cd).
  apply chr_inv in Hb6. destruct Hb6 as (-> & ->).
  apply times_inv in Hb5. destruct Hb5 as (-> & Lh & Hh).
  apply chr_inv in Hb4. destruct Hb4 as (-> & ->).
  apply times_inv in Hb3. destruct Hb3 as (-> & Lmi & Hmi).
  apply chr_inv in Hb2. destruct Hb2 as (-> & ->).
  apply times_inv in Hb1. destruct Hb1 as (-> & Ls & Hs).
  apply chr_inv in Hb0. destruct Hb0 as (-> & ->).
  apply times_inv in Hb. destruct Hb as (-> & Ly & Hy).
  exists (mkStamp wd mon sp day hh mi ss year). split; [|split].
  - apply wellFormedStamp_spec. cbn [weekday monthName gap dayDigits hourDigits
      minuteDigits secondDigits yearDigits].
    repeat split; try assumption.
    destruct day as [|d0 [|d1 [|d2 day]]]; [congruence | now left | now right | simpl in Ld; lia].
  - unfold stampText. cbn [weekday monthName gap dayDigits hourDigits
      minuteDigits secondDigits yearDigits].
    change (lit " ") with [" "%char]. change (lit ":") with [":"%char].
    repeat rewrite <- app_assoc. reflexivity.
  - repeat rewrite <- app_assoc. reflexivity.
Qed.

Lemma LINE_RE_fwd s content :
  wellFormedStamp s = true -> noLineTerm content = true ->
  LINE_RE (lineText (stampText s) content) = Some (stampText s, content).
Proof.
  intros H N. unfold LINE_RE, lineText.
  change (lit "[" ++ stampText s ++ lit "] " ++ content)
    with ("["%char :: stampText s ++ "]"%char :: " "%char :: content).
  cbv iota beta. rewrite (tsShape_fwd s _ H). cbv iota beta. now rewrite N.
Qed.

Lemma LINE_RE_inv line ts content :
  LINE_RE line = Some (ts, content) ->
  exists s, wellFormedStamp s = true /\ ts = stampText s /\
            line = lineText ts content /\ noLineTerm content = true.
Proof.
  unfold LINE_RE. destruct line as [|c r]; [discriminate|].
  destruct (ascii_dec c "["%char) as [->|Hne].
  - destruct (tsShape r) as [[ts' rest]|] eqn:E; [|discriminate].
    destruct rest as [|c1 [|c2 rest]]; try discriminate;
      try (destruct c1 as [[] [] [] [] [] [] [] []]; discriminate).
    intros H.
    assert (c1 = "]"%char /\ c2 = " "%char /\ noLineTerm rest = true /\ ts' = ts /\ rest = content)
      as (-> & -> & N & -> & ->).
    { destruct c1 as [[] [] [] [] [] [] [] []]; try discriminate;
      destruct c2 as [[] [] [] [] [] [] [] []]; try discriminate.
      destruct (noLineTerm rest); [|discriminate]. injection H as <- <-. tauto. }
    destruct (tsShape_inv r ts _ E) as (s & Hs & Hts & Hr).
    exists s. repeat split; try assumption.
    unfold lineText. rewrite Hr. reflexivity.
  - destruct c as [[] [] [] [] [] [] [] []]; try discriminate. now elim Hne.
Qed.

Lemma times_stops p n : forall x c t,
  (List.length x < n)%nat -> forallb p x = true -> p c = false ->
  times n (one p) (x ++ c :: t) = None.
Proof.
  induction n as [|n IH]; intros x c t L A C; [inversion L|].
  cbn [times]. unfold andThen. destruct x as [|a x].
  - cbn [app]. unfold one at 1. now rewrite C.
  - cbn [forallb] in A. apply andb_true_iff in A. destruct A as [Aa A].
    cbn [app]. rewrite (one_fwd p a _ Aa).
    rewrite (IH x c t); [reflexivity | simpl in L; lia | exact A | exact C].
Qed.

Lemma stamp_date_groups s :
  wellFormedStamp s = true ->
  search dateShapeAt (stampText s)
  = Some (monthName s, dayDigits s, hourDigits s, minuteDigits s, secondDigits s, yearDigits s).
Proof.
  intros H. apply wellFormedStamp_spec in H.
  destruct H as ((Lw & Hw) & (Lm & Hm) & Ng & Hg & (Ld & Hd) & (Lh & Hh) & (Li & Hi)
                 & (Ls & Hs) & (Ly & Hy)).
  destruct s as [wd mon sp day hh mi ss yr]. cbn [weekday monthName gap dayDigits hourDigits
    minuteDigits secondDigits yearDigits] in *.
  unfold stampText. cbn [weekday monthName gap dayDigits hourDigits
    minuteDigits secondDigits yearDigits].
  change (lit " ") with [" "%char]. change (lit ":") with [":"%char].
  assert (Hd0 : match day ++ " "%char :: hh ++ ":"%char :: mi ++ ":"%char :: ss ++ " "%char :: yr
                with c :: _ => isBlank c = false | [] => True end).
  { destruct day as [|d0 day]; [destruct Ld; discriminate|]. cbn [forallb] in Hd.
    apply andb_true_iff in Hd. destruct Hd as [Hd0 _].
    cbn [app]. now apply digit_not_blank. }
  assert (Tail : dateShapeAt (mon ++ sp ++ day ++ " "%char :: hh ++ ":"%char :: mi ++ ":"%char
                              :: ss ++ " "%char :: yr)
                 = Some (mon, day, hh, mi, ss, yr)).
  { unfold dateShapeAt.
    rewrite (times_fwd isWord 3 mon _ Lm Hm).
    rewrite (many1_fwd isBlank sp _ Ng Hg Hd0).
    rewrite (digits12_fwd day _).
    2:{ destruct day; [destruct Ld; discriminate | discriminate]. }
    2:{ exact Hd. }
    2:{ right. reflexivity. }
    2:{ destruct Ld as [Ld|Ld]; rewrite Ld; lia. }
    unfold chr. rewrite (one_fwd (ascii_eqb " ") " " _ eq_refl).
    rewrite (times_fwd isDigit 2 hh _ Lh Hh).
    rewrite (one_fwd (ascii_eqb ":") ":" _ eq_refl).
    rewrite (times_fwd isDigit 2 mi _ Li Hi).
    rewrite (one_fwd (ascii_eqb ":") ":" _ eq_refl).
    rewrite (times_fwd isDigit 2 ss _ Ls Hs).
    rewrite (one_fwd (ascii_eqb " ") " " _ eq_refl).
    rewrite <- (app_nil_r yr) at 1.
    rewrite (times_fwd isDigit 4 yr [] Ly Hy). reflexivity. }
  destruct wd as [|w0 [|w1 [|w2 [|w3 wd]]]]; try discriminate Lw.
  destruct mon as [|m0 [|m1 [|m2 [|m3 mon]]]]; try discriminate Lm.
  cbn [forallb] in Hw, Hm.
  repeat (apply andb_true_iff in Hw; destruct Hw as [? Hw]).
  repeat (apply andb_true_iff in Hm; destruct Hm as [? Hm]).
  cbn [app] in *.
  set (T := sp ++ day ++ " "%char :: hh ++ ":"%char :: mi ++ ":"%char :: ss ++ " "%char :: yr) in *.
  assert (P0 : dateShapeAt (w0 :: w1 :: w2 :: " "%char :: m0 :: m1 :: m2 :: T) = None).
  { unfold dateShapeAt.
    change (w0 :: w1 :: w2 :: " "%char :: m0 :: m1 :: m2 :: T)
      with ([w0; w1; w2] ++ " "%char :: m0 :: m1 :: m2 :: T).
    rewrite (times_fwd isWord 3 [w0; w1; w2] (" "%char :: m0 :: m1 :: m2 :: T) eq_refl).
    2:{ cbn [forallb]. now rewrite H, H0, H1. }
    change (" "%char :: m0 :: m1 :: m2 :: T) with ([" "%char] ++ m0 :: m1 :: m2 :: T).
    rewrite (many1_fwd isBlank [" "%char] (m0 :: m1 :: m2 :: T)).
    2:{ discriminate. }
    2:{ reflexivity. }
    2:{ now apply word_not_space. }
    unfold digits12, one, chr, one.
    destruct (isDigit m0); [|reflexivity].
    destruct (isDigit m1).
    - now rewrite (word_not_space m2 H4).
    - now rewrite (word_not_space m1 H3). }
  assert (P1 : dateShapeAt (w1 :: w2 :: " "%char :: m0 :: m1 :: m2 :: T) = None).
  { unfold dateShapeAt.
    change (w1 :: w2 :: " "%char :: m0 :: m1 :: m2 :: T)
      with ([w1; w2] ++ " "%char :: m0 :: m1 :: m2 :: T).
    rewrite (times_stops isWord 3 [w1; w2] " "%char _); [reflexivity | simpl; lia | | reflexivity].
    cbn [forallb]. now rewrite H0, H1. }
  assert (P2 : dateShapeAt (w2 :: " "%char :: m0 :: m1 :: m2 :: T) = None).
  { unfold dateShapeAt.
    change (w2 :: " "%char :: m0 :: m1 :: m2 :: T)
      with ([w2] ++ " "%char :: m0 :: m1 :: m2 :: T).
    rewrite (times_stops isWord 3 [w2] " "%char _); [reflexivity | simpl; lia | | reflexivity].
    cbn [forallb]. now rewrite H1. }
  assert (P3 : dateShapeAt (" "%char :: m0 :: m1 :: m2 :: T) = None).
  { unfold dateShapeAt.
    change (" "%char :: m0 :: m1 :: m2 :: T)
      with ([] ++ " "%char :: m0 :: m1 :: m2 :: T).
    rewrite (times_stops isWord 3 [] " "%char _); [reflexivity | simpl; lia | reflexivity | reflexivity]. }
  cbn [search]. rewrite P0, P1, P2, P3. now rewrite Tail.
Qed.

(** X6: [LINE_RE] accepts exactly the lines made of a bracketed timestamp
    of the shape weekday, month, day, time, year, one space, and a content
    free of line terminators; it returns the timestamp text and the
    content unchanged. *)
Theorem LINE_RE_accepts_exactly_stamped_lines :
  forall line ts content : str,
    LINE_RE line = Some (ts, content) <->
    exists s, wellFormedStamp s = true /\ ts = stampText s /\
              line = lineText ts content /\ noLineTerm content = true.
Proof.
  intros line ts content. split.
  - apply LINE_RE_inv.
  - intros (s & Hs & -> & -> & N). now apply LINE_RE_fwd.
Qed.

(** X7: from a timestamp of the accepted shape both date parsers read the
    month name, day, hour, minute, second and year at their places and
    nothing else (the weekday is not read), and they answer a date, never
    [null]. *)
Theorem timestamp_read_by_position :
  forall (host : Host) (s : Stamp) (timezone : option str),
    wellFormedStamp s = true ->
    parseEQDate host (stampText s)
    = Some (newDateLocal host (toNumber (yearDigits s)) (MONTHS (monthName s))
                         (toNumber (dayDigits s)) (toNumber (hourDigits s))
                         (toNumber (minuteDigits s)) (toNumber (secondDigits s))) /\
    parseEQDateUTC host (stampText s) timezone
    = mapOutcome Some
        (localToUTC host (toNumber (yearDigits s)) (MONTHS (monthName s))
                    (toNumber (dayDigits s)) (toNumber (hourDigits s))
                    (toNumber (minuteDigits s)) (toNumber (secondDigits s)) timezone).
Proof.
  intros host s timezone H. unfold parseEQDate, parseEQDateUTC.
  rewrite (stamp_date_groups s H). split; reflexivity.
Qed.

Lemma timestamp_read_by_position_witness :
  parseEQDate sampleHost (lit "Xyz Jan 22 20:54:27 2026") = Some (Some 1769115267000) /\
  parseEQDateUTC sampleHost (lit "Xyz Jan 22 20:54:27 2026") (Some (lit "America/Phoenix"))
  = Returned (Some (Some 1769140467000)).
Proof.
  exact (timestamp_read_by_position sampleHost
           (mkStamp (lit "Xyz") (lit "Jan") (lit " ") (lit "22") (lit "20") (lit "54")
                    (lit "27") (lit "2026"))
           (Some (lit "America/Phoenix")) eq_refl).
Defined.

(** *** Roster lines *)

Lemma takeWhile_stop p x t :
  forallb p x = true ->
  match t with c :: _ => p c = false | [] => True end ->
  takeWhile p (x ++ t) = x /\ dropWhile p (x ++ t) = t.
Proof.
  induction x as [|a x IH]; intros A S.
  - cbn [app]. destruct t as [|c t]; [now split|]. simpl. now rewrite S.
  - cbn [forallb] in A. apply andb_true_iff in A. destruct A as [Aa A].
    cbn [app takeWhile dropWhile]. rewrite Aa.
    destruct (IH A S) as [-> ->]. now split.
Qed.

Lemma without_spec closing x :
  without closing x = true <->
  x <> [] /\ forallb (fun c => negb (ascii_eqb closing c)) x = true.
Proof.
  unfold without. rewrite andb_true_iff.
  assert (G : nonEmptyText x = true <-> x <> []) by (destruct x; simpl; split; congruence).
  rewrite G. tauto.
Qed.

Lemma bracketed_fwd opening closing g t :
  isSpace opening = false ->
  without closing g = true ->
  bracketed opening closing (" "%char :: opening :: g ++ closing :: t) = Some (g, t).
Proof.
  intros Ho Hg. apply without_spec in Hg. destruct Hg as [Ng Hg].
  unfold bracketed.
  change (" "%char :: opening :: g ++ closing :: t)
    with ([" "%char] ++ opening :: g ++ closing :: t).
  rewrite (many1_fwd isSpace [" "%char] _); [|discriminate|reflexivity|exact Ho].
  unfold chr at 1. rewrite (one_fwd (ascii_eqb opening) opening _).
  2:{ now apply ascii_eqb_eq. }
  rewrite (many1_fwd (fun c => negb (ascii_eqb closing c)) g (closing :: t) Ng Hg).
  2:{ assert (E : ascii_eqb closing closing = true) by now apply ascii_eqb_eq.
      now rewrite E. }
  unfold chr. rewrite (one_fwd (ascii_eqb closing) closing _); [reflexivity|].
  now apply ascii_eqb_eq.
Qed.

Lemma bracketed_wrong_opening opening closing other t :
  isSpace other = false -> ascii_eqb opening other = false ->
  bracketed opening closing (" "%char :: other :: t) = None.
Proof.
  intros Ho Hne. unfold bracketed.
  change (" "%char :: other :: t) with ([" "%char] ++ other :: t).
  rewrite (many1_fwd isSpace [" "%char] _); [|discriminate|reflexivity|exact Ho].
  unfold chr, one. now rewrite Hne.
Qed.

Lemma digit_facts c : isDigit c = true -> notBlank c = true /\ isNameChar c = true /\ ascii_eqb "A" c = false.
Proof. each_char c; intros H; try discriminate H; repeat split; reflexivity. Qed.

Lemma digits_notBlank l : forallb isDigit l = true -> forallb notBlank l = true.
Proof.
  induction l as [|c l IH]; [reflexivity|]. cbn [forallb]. intros H.
  apply andb_true_iff in H. destruct H as [Hc H].
  destruct (digit_facts c Hc) as (-> & _). now rewrite IH.
Qed.

(** X8: a roster line written as the game writes it, with the level and
    class or [ANONYMOUS], the name, and the race and guild that may be
    missing, is read back as the player it shows, its level as the
    Number [parseInt] gives for the digits: a level that spells 0 is
    read as no level, and one of more than 53 bits as the nearest
    double. *)
Theorem roster_line_round_trip :
  forall (lc : option (str * str)) (nm : str) (rc gd : option str),
    rosterOk lc nm rc gd = true ->
    option_map playerOfMatch (WHO_PLAYER_RE (rosterText lc nm rc gd))
    = Some (mkPlayer nm
              (match lc with
               | Some (l, _) => numOrNull (Some (toDouble (toNumber l)))
               | None => None
               end)
              (match lc with Some (_, c) => Some c | None => None end)
              rc gd).
Proof.
  intros lc nm rc gd. unfold rosterOk. intros H.
  repeat (apply andb_true_iff in H; destruct H as [H ?]).
  rename H0 into Hgd, H1 into Hrc, H2 into Hnm, H3 into Nnm.
  assert (Nnm' : nm <> []) by (destruct nm; [discriminate | discriminate]).
  (* what follows the name *)
  set (tailText := optionalPart (lit "(") (lit ")") rc ++ optionalPart (lit "<") (lit ">") gd).
  assert (Stop : match tailText with c :: _ => isNameChar c = false | [] => True end).
  { unfold tailText. destruct rc as [g|]; [reflexivity|]. destruct gd as [g|]; [reflexivity|exact I]. }
  assert (Race : bracketed "(" ")" tailText
                 = match rc with
                   | Some g => Some (g, optionalPart (lit "<") (lit ">") gd)
                   | None => None
                   end).
  { unfold tailText. destruct rc as [g|].
    - unfold optionalPart at 1.
      change ((lit " " ++ lit "(" ++ g ++ lit ")") ++ optionalPart (lit "<") (lit ">") gd)
        with (" "%char :: "("%char :: (g ++ [")"%char]) ++ optionalPart (lit "<") (lit ">") gd).
      rewrite <- app_assoc. cbn [app].
      now rewrite (bracketed_fwd "(" ")" g _ eq_refl Hrc).
    - cbn [optionalPart app]. destruct gd as [g|].
      + unfold optionalPart.
        change (lit " " ++ lit "<" ++ g ++ lit ">") with (" "%char :: "<"%char :: g ++ lit ">").
        now rewrite (bracketed_wrong_opening "(" ")" "<" _ eq_refl eq_refl).
      + reflexivity. }
  assert (Guild : bracketed "<" ">" (optionalPart (lit "<") (lit ">") gd)
                  = match gd with
                    | Some g => Some (g, [])
                    | None => None
                    end).
  { destruct gd as [g|]; [|reflexivity].
    unfold optionalPart.
    change (lit " " ++ lit "<" ++ g ++ lit ">") with (" "%char :: "<"%char :: g ++ [">"%char]).
    now rewrite (bracketed_fwd "<" ">" g [] eq_refl Hgd). }
  assert (Tail0 : rc = None -> tailText = optionalPart (lit "<") (lit ">") gd).
  { intros ->. reflexivity. }
  assert (Name : many1 isNameChar (nm ++ tailText) = Some (nm, tailText))
    by now apply many1_fwd.
  assert (Src : strOrNull rc = rc /\ strOrNull gd = gd).
  { split.
    - destruct rc as [[|c g]|]; [discriminate Hrc | reflexivity | reflexivity].
    - destruct gd as [[|c g]|]; [discriminate Hgd | reflexivity | reflexivity]. }
  destruct Src as [Src Sgd].
  unfold rosterText, WHO_PLAYER_RE. fold tailText.
  destruct lc as [[l c]|].
  - repeat (apply andb_true_iff in H; destruct H as [H ?]).
    rename H into Nl, H1 into Dl, H0 into Hc.
    assert (Nl' : l <> []) by (destruct l; [discriminate | discriminate]).
    pose proof Hc as Hc'. apply without_spec in Hc'. destruct Hc' as [Nc Ac].
    change (lit "[" ++ (l ++ lit " " ++ c) ++ lit "] " ++ nm ++ tailText)
      with ("["%char :: (l ++ " "%char :: c) ++ "]"%char :: " "%char :: nm ++ tailText).
    rewrite <- app_assoc. cbn [app].
    unfold chr at 1. rewrite (one_fwd (ascii_eqb "[") "[" _ eq_refl).
    unfold levelClassShape, andThen.
    rewrite (many1_fwd isDigit l _ Nl' Dl) by reflexivity.
    unfold chr at 1. rewrite (one_fwd (ascii_eqb " ") " " _ eq_refl).
    rewrite (many1_fwd (fun c => negb (ascii_eqb "]" c)) c _ Nc Ac) by reflexivity.
    unfold afterLevelClass.
    change (stripPrefix (lit "] ") ("]"%char :: " "%char :: nm ++ tailText))
      with (Some (nm ++ tailText)).
    cbv iota beta. rewrite Name. rewrite Race.
    assert (Groups : forall lcText : str,
              option_map playerOfMatch
                (let '(race, r4) :=
                   match
                     match rc with
                     | Some g => Some (g, optionalPart (lit "<") (lit ">") gd)
                     | None => None
                     end
                   with
                   | Some (g, r') => (Some g, r')
                   | None => (None, tailText)
                   end in
                 Some (lcText, nm, race,
                       match bracketed "<" ">" r4 with
                       | Some (g, _) => Some g
                       | None => None
                       end))
              = Some (playerOfMatch (lcText, nm, rc, gd))).
    { intros lcText. destruct rc as [g|].
      - cbv iota beta. rewrite Guild. now destruct gd.
      - cbv iota beta. rewrite (Tail0 eq_refl), Guild. now destruct gd. }
    rewrite Groups.
    f_equal. unfold playerOfMatch.
    assert (E : str_eqb ((l ++ [" "%char]) ++ c) (lit "ANONYMOUS") = false).
    { destruct l as [|d l]; [now elim Nl'|]. cbn [forallb] in Dl.
      apply andb_true_iff in Dl. destruct Dl as [Dd _].
      destruct (digit_facts d Dd) as (_ & _ & Hd).
      cbn [app str_eqb lit list_ascii_of_string]. unfold ascii_eqb in *.
      rewrite Ascii.eqb_sym. now rewrite Hd. }
    rewrite E, Src, Sgd. rewrite <- app_assoc. cbn [app].
    unfold levelOf, classOf.
    destruct (takeWhile_stop notBlank l (" "%char :: c) (digits_notBlank l Dl) eq_refl)
      as [-> ->].
    cbn [tl]. unfold parseInt10.
    destruct (takeWhile_stop isDigit l [] Dl I) as [Tk _]. rewrite app_nil_r in Tk.
    rewrite Tk. destruct l as [|d l]; [now elim Nl'|].
    destruct c as [|c0 c]; [now elim Nc|]. reflexivity.
  - change (lit "[" ++ lit "ANONYMOUS" ++ lit "] " ++ nm ++ tailText)
      with ("["%char :: lit "ANONYMOUS" ++ "]"%char :: " "%char :: nm ++ tailText).
    unfold chr at 1. rewrite (one_fwd (ascii_eqb "[") "[" _ eq_refl).
    change (levelClassShape (lit "ANONYMOUS" ++ "]"%char :: " "%char :: nm ++ tailText))
      with (@None (str * str)).
    change (stripPrefix (lit "ANONYMOUS") (lit "ANONYMOUS" ++ "]"%char :: " "%char :: nm ++ tailText))
      with (Some ("]"%char :: " "%char :: nm ++ tailText)).
    unfold afterLevelClass.
    change (stripPrefix (lit "] ") ("]"%char :: " "%char :: nm ++ tailText))
      with (Some (nm ++ tailText)).
    cbv iota beta. rewrite Name. rewrite Race.
    assert (Groups : forall lcText : str,
              option_map playerOfMatch
                (let '(race, r4) :=
                   match
                     match rc with
                     | Some g => Some (g, optionalPart (lit "<") (lit ">") gd)
                     | None => None
                     end
                   with
                   | Some (g, r') => (Some g, r')
                   | None => (None, tailText)
                   end in
                 Some (lcText, nm, race,
                       match bracketed "<" ">" r4 with
                       | Some (g, _) => Some g
                       | None => None
                       end))
              = Some (playerOfMatch (lcText, nm, rc, gd))).
    { intros lcText. destruct rc as [g|].
      - cbv iota beta. rewrite Guild. now destruct gd.
      - cbv iota beta. rewrite (Tail0 eq_refl), Guild. now destruct gd. }
    rewrite Groups.
    f_equal. unfold playerOfMatch.
    change (str_eqb (lit "ANONYMOUS") (lit "ANONYMOUS")) with true.
    cbv iota. now rewrite Src, Sgd.
Qed.

Lemma roster_line_round_trip_witness :
  option_map playerOfMatch
    (WHO_PLAYER_RE (lit "[60 Shadow Knight] Lyri (Vah Shir) <Intervention>"))
  = Some (mkPlayer (lit "Lyri") (Some (Finite 60)) (Some (lit "Shadow Knight"))
                   (Some (lit "Vah Shir")) (Some (lit "Intervention"))) /\
  option_map playerOfMatch (WHO_PLAYER_RE (lit "[9007199254740993 Bard] Lyri"))
  = Some (mkPlayer (lit "Lyri") (Some (Finite 9007199254740992)) (Some (lit "Bard"))
                   None None).
Proof.
  split.
  - exact (roster_line_round_trip (Some (lit "60", lit "Shadow Knight")) (lit "Lyri")
             (Some (lit "Vah Shir")) (Some (lit "Intervention")) eq_refl).
  - exact (roster_line_round_trip (Some (lit "9007199254740993", lit "Bard")) (lit "Lyri")
             None None eq_refl).
Defined.

Lemma toNumber_from acc ds :
  0 <= acc -> 0 <= fold_left (fun a c => a * 10 + Z.of_nat (code c - 48)) ds acc.
Proof.
  revert acc. induction ds as [|c ds IH]; intros acc H; [exact H|].
  cbn [fold_left]. apply IH. lia.
Qed.

Lemma toNumber_nonneg ds : 0 <= toNumber ds.
Proof. unfold toNumber. apply toNumber_from. lia. Qed.

(** The Number for an integer that is not negative is not negative. *)
Lemma toDouble_nonneg n v : 0 <= n -> toDouble n = Finite v -> 0 <= v.
Proof.
  intros Hn. unfold toDouble.
  destruct (n <? 2 ^ 53); [now intros [= <-]|]. cbv zeta.
  set (e := Z.log2 n - 52).
  assert (Hp : 0 <= 2 ^ e) by (apply Z.pow_nonneg; lia).
  assert (Hq : 0 <= n / 2 ^ e) by (apply Z_div_nonneg_nonneg; lia).
  set (q := n / 2 ^ e) in *.
  set (up := (2 ^ (e - 1) <? n mod 2 ^ e) || ((n mod 2 ^ e =? 2 ^ (e - 1)) && Z.odd q)).
  set (q' := if up then q + 1 else q).
  assert (Hq' : 0 <= q') by (subst q'; destruct up; lia).
  destruct (q' * 2 ^ e <? 2 ^ 1024); [|discriminate].
  intros [= <-]. apply Z.mul_nonneg_nonneg; assumption.
Qed.

Lemma strOrNull_not_empty x : strOrNull x <> Some [].
Proof. destruct x as [[|c r]|]; discriminate. Qed.

Lemma WHO_PLAYER_RE_name content lc nm rc gd :
  WHO_PLAYER_RE content = Some (lc, nm, rc, gd) ->
  nm <> [] /\ forallb isNameChar nm = true.
Proof.
  unfold WHO_PLAYER_RE.
  destruct (chr "[" content) as [[x r]|]; [|discriminate].
  destruct (match
               match levelClassShape r with
               | Some (lc0, r1) =>
                   match afterLevelClass r1 with
                   | Some r2 => Some (lc0, r2)
                   | None => None
                   end
               | None => None
               end
             with
             | Some x0 => Some x0
             | None =>
                 match stripPrefix (lit "ANONYMOUS") r with
                 | Some r1 =>
                     match afterLevelClass r1 with
                     | Some r2 => Some (lit "ANONYMOUS", r2)
                     | None => None
                     end
                 | None => None
                 end
             end) as [[lc0 r2]|]; [|discriminate].
  destruct (many1 isNameChar r2) as [[n r3]|] eqn:E; [|discriminate].
  apply many1_inv in E. destruct E as (_ & Hn & An).
  destruct (bracketed "(" ")" r3) as [[g r']|]; intros [= _ <- _ _]; now split.
Qed.

(** X9: whatever roster line [WHO_PLAYER_RE] accepts, the player built
    from it has a name of at least one name character, a level that is
    absent or positive, and class, race and guild that are absent or not
    empty; an [ANONYMOUS] entry has neither level nor class. *)
Theorem roster_entry_fields :
  forall (content lc nm : str) (rc gd : option str),
    WHO_PLAYER_RE content = Some (lc, nm, rc, gd) ->
    let p := playerOfMatch (lc, nm, rc, gd) in
    name p = nm /\ nm <> [] /\ forallb isNameChar nm = true /\
    (forall n, level p = Some (Finite n) -> 0 < n) /\
    cls p <> Some [] /\ race p <> Some [] /\ guild p <> Some [] /\
    (lc = lit "ANONYMOUS" -> level p = None /\ cls p = None).
Proof.
  intros content lc nm rc gd H.
  destruct (WHO_PLAYER_RE_name content lc nm rc gd H) as [Hn An].
  assert (Hl : forall n, levelOf lc = Some (Finite n) -> 0 < n).
  { unfold levelOf, parseInt10. intros n.
    destruct (takeWhile isDigit (takeWhile notBlank lc)) as [|d ds]; [discriminate|].
    pose proof (toNumber_nonneg (d :: ds)) as Hp.
    destruct (toDouble (toNumber (d :: ds))) as [v|] eqn:T; [|discriminate].
    pose proof (toDouble_nonneg _ v Hp T) as Hv.
    unfold numOrNull. destruct v; try discriminate; intros [= <-]; lia. }
  unfold playerOfMatch. destruct (str_eqb lc (lit "ANONYMOUS")) eqn:E; cbn zeta;
    cbn [name level cls race guild];
    refine (conj eq_refl (conj Hn (conj An (conj _ (conj _ (conj _ (conj _ _)))))));
    try apply strOrNull_not_empty; try discriminate; try exact Hl.
  - intros _. now split.
  - intros ->. discriminate E.
Qed.

Lemma roster_entry_fields_witness :
  level (playerOfMatch (lit "0 Bard", lit "Lyri", None, None)) = None /\
  forall n, level (playerOfMatch (lit "60 Bard", lit "Lyri", None, Some (lit "Intervention")))
            = Some (Finite n) -> 0 < n.
Proof.
  split; [reflexivity|].
  exact (proj1 (proj2 (proj2 (proj2
           (roster_entry_fields (lit "[60 Bard] Lyri <Intervention>") (lit "60 Bard") (lit "Lyri")
              None (Some (lit "Intervention")) eq_refl))))).
Defined.
(** ** Timestamps the parsers cannot use *)

Lemma date_lt_invalid_l d : date_lt None d = false.
Proof. reflexivity. Qed.

Lemma date_gt_invalid_l d : date_gt None d = false.
Proof. unfold date_gt, date_lt. now destruct d. Qed.

Lemma newDateLocal_unknown_month host y d h mi s :
  newDateLocal host y None d h mi s = None.
Proof. reflexivity. Qed.

Lemma batch_classify_invalid_date opts opts' zf content st :
  Batch.characterName opts' = Batch.characterName opts ->
  Batch.classify opts' zf None content st = Batch.classify opts zf None content st.
Proof.
  intros Hc. unfold Batch.classify. rewrite !date_lt_invalid_l, !date_gt_invalid_l.
  cbn [orb]. now rewrite Hc.
Qed.

(** X10: in batch [parseLog], a line whose month name is none of the
    twelve gets an Invalid Date, which no comparison places outside the
    time window: the line is classified whatever [startTime] and
    [endTime] are, and a zone entry on it sets the current zone. *)
Theorem batch_unknown_month_bypasses_window :
  forall (host : Host) (opts : Batch.Opts) (zf : list str) (st : Batch.State)
         (s : Stamp) (content : str),
    wellFormedStamp s = true -> MONTHS (monthName s) = None ->
    noLineTerm content = true ->
    let line := lineText (stampText s) content in
    (forall startTime' endTime',
       Batch.parseLine host
         (Batch.mkOpts startTime' endTime' (Batch.zones opts) (Batch.characterName opts))
         zf st line
       = Batch.parseLine host opts zf st line) /\
    (forall z, ZONE_ENTRY_RE content = Some z ->
       Batch.currentZone (Batch.parseLine host opts zf st line) = Some z).
Proof.
  intros host opts zf st s content Hs Hm N line.
  assert (L : LINE_RE line = Some (stampText s, content)) by now apply LINE_RE_fwd.
  assert (D : forall h, parseEQDate h (stampText s) = Some None).
  { intros h. unfold parseEQDate. rewrite (stamp_date_groups s Hs), Hm. reflexivity. }
  split.
  - intros startTime' endTime'. unfold Batch.parseLine. rewrite L, D.
    now apply batch_classify_invalid_date.
  - intros z Hz. unfold Batch.parseLine. rewrite L, D.
    unfold Batch.classify. rewrite date_lt_invalid_l, date_gt_invalid_l.
    cbn [orb]. now rewrite Hz.
Qed.

Lemma batch_unknown_month_witness :
  Batch.currentZone
    (Batch.parseLine sampleHost scenarioOpts [lit "fungus"] Batch.init
       (lineText (lit "Thu Foo 22 20:54:23 1999") (lit "You have entered The Bazaar.")))
  = Some (lit "The Bazaar").
Proof.
  exact (proj2 (batch_unknown_month_bypasses_window sampleHost scenarioOpts [lit "fungus"]
                  Batch.init
                  (mkStamp (lit "Thu") (lit "Foo") (lit " ") (lit "22") (lit "20") (lit "54")
                           (lit "23") (lit "1999"))
                  (lit "You have entered The Bazaar.") eq_refl eq_refl eq_refl)
               (lit "The Bazaar") eq_refl).
Defined.

Lemma auto_scan_throws host opts line :
  (forall st, Auto.parseLine host opts st line = Threw) ->
  forall lines st, In line lines -> Auto.scan host opts st lines = Threw.
Proof.
  intros Hl. induction lines as [|l ls IH]; intros st Hin; [destruct Hin|].
  cbn [Auto.scan]. destruct Hin as [->|Hin].
  - now rewrite Hl.
  - destruct (Auto.parseLine host opts st l); [now apply IH | reflexivity].
Qed.

Lemma live_processLines_throws host cfg line :
  (forall w, Live.processLine host cfg w line = Threw) ->
  forall lines w, In line lines -> Live.processLines host cfg w lines = Threw.
Proof.
  intros Hl. induction lines as [|l ls IH]; intros w Hin; [destruct Hin|].
  cbn [Live.processLines]. destruct Hin as [->|Hin].
  - now rewrite Hl.
  - destruct (Live.processLine host cfg w l); [now apply IH | reflexivity].
Qed.

Lemma parseEQDateUTC_unusable host ts content line tz :
  LINE_RE line = Some (ts, content) ->
  zoneDisplay host tz = None \/
  (exists s, wellFormedStamp s = true /\ ts = stampText s /\ MONTHS (monthName s) = None) ->
  parseEQDateUTC host ts tz = Threw.
Proof.
  intros L [Hz|(s & Hs & -> & Hm)].
  - destruct (LINE_RE_has_date line ts content L) as [[[[[[mon day] h] mi] sec] year] Hg].
    unfold parseEQDateUTC. rewrite Hg.
    rewrite localToUTC_throws; [reflexivity | now left].
  - unfold parseEQDateUTC. rewrite (stamp_date_groups s Hs), Hm.
    rewrite localToUTC_throws; [reflexivity | now right].
Qed.

(** X11: in auto-detect and live mode one timestamped line is enough to
    end the scan with an exception when the time zone is unknown to the
    platform or the line's month name is none of the twelve:
    [autoParseLog] rejects and the watcher's line loop throws, whatever
    the other lines are. *)
Theorem unusable_timestamp_throws :
  forall (host : Host) (tz : option str) (lines : list str) (line ts content : str),
    In line lines ->
    LINE_RE line = Some (ts, content) ->
    zoneDisplay host tz = None \/
    (exists s, wellFormedStamp s = true /\ ts = stampText s /\ MONTHS (monthName s) = None) ->
    (forall opts, Auto.timezone opts = tz ->
       Auto.autoParseLog host opts lines = Threw) /\
    (forall cfg w, Live.timezone cfg = tz ->
       Live.processLines host cfg w lines = Threw).
Proof.
  intros host tz lines line ts content Hin L Hbad.
  pose proof (parseEQDateUTC_unusable host ts content line tz L Hbad) as T.
  split.
  - intros opts <-. unfold Auto.autoParseLog.
    rewrite (auto_scan_throws host opts line); [reflexivity | | exact Hin].
    intros st. unfold Auto.parseLine. now rewrite L, T.
  - intros cfg w <-.
    apply (live_processLines_throws host cfg line); [|exact Hin].
    intros w'. unfold Live.processLine. now rewrite L, T.
Qed.

Lemma unusable_timestamp_witness :
  Auto.autoParseLog sampleHost (Auto.mkOpts (Some (lit "Mars/Olympus")) None)
    (scenarioC ++ [lit "no timestamp here"]) = Threw.
Proof.
  refine (proj1 (unusable_timestamp_throws sampleHost (Some (lit "Mars/Olympus"))
                   (scenarioC ++ [lit "no timestamp here"])
                   (lit "[Wed Jan 21 14:00:00 2026] --Risingdarkness has looted a Phase Spider Blood.--")
                   (lit "Wed Jan 21 14:00:00 2026")
                   (lit "--Risingdarkness has looted a Phase Spider Blood.--")
                   _ _ _)
                (Auto.mkOpts (Some (lit "Mars/Olympus")) None) eq_refl).
  - vm_compute. tauto.
  - vm_compute. reflexivity.
  - left. vm_compute. reflexivity.
Defined.

(** ** The normaliser in a zone without daylight saving *)

Lemma fixedZoneDisplay_hour o t : (p_hour (fixedZoneDisplay o t) =? 24) = false.
Proof.
  unfold fixedZoneDisplay.
  destruct (civilFromDays ((t + o) / msPerDay)) as [[y m] d].
  cbn [p_hour]. apply Z.eqb_neq.
  assert (Hr : 0 <= (t + o) mod msPerDay < msPerDay)
    by (apply Z.mod_pos_bound; unfold msPerDay; lia).
  assert (Hh : (t + o) mod msPerDay / msPerHour < 24).
  { unfold msPerHour, msPerDay in *. apply Z.div_lt_upper_bound; lia. }
  lia.
Qed.

Lemma observedAsUTC_fixed o t :
  observedAsUTC (fixedZoneDisplay o t)
  = DateUTC (p_year (fixedZoneDisplay o t)) (Some (p_month (fixedZoneDisplay o t) - 1))
            (p_day (fixedZoneDisplay o t)) (p_hour (fixedZoneDisplay o t))
            (p_minute (fixedZoneDisplay o t)) (p_second (fixedZoneDisplay o t)).
Proof. unfold observedAsUTC. now rewrite fixedZoneDisplay_hour. Qed.

Lemma localToUTC_by_observation host year month day hour minute second timezone
      (display : Z -> DateParts) candidate observed :
  zoneDisplay host timezone = Some display ->
  DateUTC year (Some month) day hour minute second = Some candidate ->
  observedAsUTC (display candidate) = Some observed ->
  localToUTC host year (Some month) day hour minute second timezone
  = Returned (TimeClip (candidate + (candidate - observed))).
Proof.
  intros Hz Hc Ho. unfold localToUTC. rewrite Hz, Hc. cbv zeta.
  unfold observedAsUTC in Ho. now rewrite Ho.
Qed.

Lemma TimeClip_in_range t :
  - 8640000000000000 <= t <= 8640000000000000 -> TimeClip t = Some t.
Proof.
  intros H. unfold TimeClip.
  destruct (Z.leb_spec (Z.abs t) 8640000000000000); [reflexivity|lia].
Qed.

(** X12: in a time zone at a fixed offset from UTC (no daylight saving,
    such as America/Phoenix) [localToUTC] inverts the zone's wall clock:
    given the date and time the zone displays at an instant, it returns
    that instant (whole seconds, from 1970 on). *)
Theorem localToUTC_inverts_fixed_offset_clock :
  forall (host : Host) (timezone : option str) (o t : Z),
    zoneDisplay host timezone = Some (fixedZoneDisplay o) ->
    o mod 1000 = 0 -> t mod 1000 = 0 ->
    0 <= t + o -> 0 <= t + o + o ->
    t + o <= 8640000000000000 -> t + o + o <= 8640000000000000 ->
    t <= 8640000000000000 -> - 8640000000000000 <= t ->
    let clock := fixedZoneDisplay o t in
    localToUTC host (p_year clock) (Some (p_month clock - 1)) (p_day clock)
               (p_hour clock) (p_minute clock) (p_second clock) timezone
    = Returned (Some t).
Proof.
  intros host timezone o t Hz Ho Ht P1 P2 B1 B2 B3 B4 clock.
  assert (M1 : (t + o) mod 1000 = 0).
  { rewrite Z.add_mod by lia. rewrite Ho, Ht. reflexivity. }
  assert (M2 : (t + o + o) mod 1000 = 0).
  { rewrite Z.add_mod by lia. rewrite M1, Ho. reflexivity. }
  assert (F : DateUTC (p_year clock) (Some (p_month clock - 1)) (p_day clock)
                      (p_hour clock) (p_minute clock) (p_second clock) = Some (t + o)).
  { subst clock. rewrite <- observedAsUTC_fixed, (observed_fixed_offset o t M1 P1).
    apply TimeClip_in_range. lia. }
  assert (V : observedAsUTC (fixedZoneDisplay o (t + o)) = Some (t + o + o)).
  { rewrite (observed_fixed_offset o (t + o) M2 P2). apply TimeClip_in_range. lia. }
  rewrite (localToUTC_by_observation host _ _ _ _ _ _ timezone (fixedZoneDisplay o)
             (t + o) (t + o + o) Hz F V).
  replace (t + o + (t + o - (t + o + o))) with t by lia.
  now rewrite TimeClip_in_range by lia.
Qed.

Lemma localToUTC_inverts_witness :
  fixedZoneDisplay (-7 * msPerHour) 1769140467000 = mkParts 2026 1 22 20 54 27 /\
  let clock := fixedZoneDisplay (-7 * msPerHour) 1769140467000 in
  localToUTC sampleHost (p_year clock) (Some (p_month clock - 1)) (p_day clock)
             (p_hour clock) (p_minute clock) (p_second clock) (Some (lit "America/Phoenix"))
  = Returned (Some 1769140467000).
Proof.
  split; [vm_compute; reflexivity|].
  apply (localToUTC_inverts_fixed_offset_clock sampleHost (Some (lit "America/Phoenix"))
           (-7 * msPerHour) 1769140467000).
  - reflexivity.
  - reflexivity.
  - reflexivity.
  - vm_compute. discriminate.
  - vm_compute. discriminate.
  - vm_compute. discriminate.
  - vm_compute. discriminate.
  - vm_compute. discriminate.
  - vm_compute. discriminate.
Defined.
(** ** What every run keeps true *)

Lemma date_gt_irrefl t : date_gt t t = false.
Proof. unfold date_gt, date_lt. destruct t; [apply Z.ltb_irrefl | reflexivity]. Qed.

Lemma date_lt_false_ge a b x y :
  a = Some x -> b = Some y -> date_lt a b = false -> y <= x.
Proof. intros -> ->. unfold date_lt. intros H. apply Z.ltb_ge in H. exact H. Qed.

Section Records.
Variable P : Date -> Prop.
Variable R : Player -> Prop.

Lemma soundRecords_nil : soundRecords P R [].
Proof. split; [constructor | intros k a []]. Qed.

Lemma spanOrdered_merge t existing :
  spanOrdered existing ->
  let e1 := if date_lt t (firstSeen existing)
            then mkAttendee (player existing) t (lastSeen existing)
            else existing in
  let e2 := if date_gt t (lastSeen e1)
            then mkAttendee (player e1) (firstSeen e1) t
            else e1 in
  spanOrdered e2.
Proof.
  unfold spanOrdered, date_gt. destruct existing as [pl f l]. cbn [firstSeen lastSeen player].
  intros H. destruct (date_lt t f) eqn:E1; cbn [firstSeen lastSeen player].
  - destruct (date_lt l t) eqn:E2; cbn [firstSeen lastSeen player].
    + apply date_gt_irrefl.
    + apply date_lt_true in E1. destruct E1 as (x & y & -> & -> & Hxy).
      destruct l as [z|]; [|reflexivity]. simpl in *. apply Z.ltb_ge in H. apply Z.ltb_ge. lia.
  - destruct (date_lt l t) eqn:E2; cbn [firstSeen lastSeen player]; assumption.
Qed.

Lemma upsert_sound t m p :
  P t -> R p -> soundRecords P R m -> soundRecords P R (upsert t m p).
Proof.
  intros Pt Rp [Hnd Hall]. split; [now apply upsert_NoDup|].
  intros k a Hin. unfold upsert in Hin. fold (hasKey p) in Hin.
  destruct (mapGet (hasKey p) m) as [existing|] eqn:E.
  - apply In_mapSet in Hin. destruct Hin as [[-> ->]|Hin]; [|now apply Hall].
    destruct (Hall _ _ (mapGet_In _ _ _ _ E)) as (Hk & Ho & Hr & Pf & Pl).
    pose proof (spanOrdered_merge t existing Ho) as Hs. cbv zeta in Hs.
    split; [|split; [exact Hs|]].
    + destruct (date_lt t (firstSeen existing)); cbn [lastSeen player];
        destruct (date_gt t _); cbn [player]; exact Hk.
    + destruct (date_lt t (firstSeen existing)); cbn [lastSeen firstSeen player];
        destruct (date_gt t _); cbn [lastSeen firstSeen player]; repeat split; assumption.
  - apply In_mapSet in Hin. destruct Hin as [[-> ->]|Hin]; [|now apply Hall].
    cbn [player firstSeen lastSeen]. repeat split; try assumption.
    apply date_gt_irrefl.
Qed.

Lemma flushRoster_sound t ps : forall m,
  P t -> (forall p, In p ps -> R p) -> soundRecords P R m ->
  soundRecords P R (flushRoster t ps m).
Proof.
  unfold flushRoster. induction ps as [|p ps IH]; intros m Pt Hps Hm; [exact Hm|].
  cbn [fold_left]. apply IH; [exact Pt | intros q Hq; apply Hps; now right |].
  apply upsert_sound; [exact Pt | apply Hps; now left | exact Hm].
Qed.

Lemma live_upsert_sound t m np p :
  P t -> R p -> soundRecords P R m -> soundRecords P R (fst (Live.upsert t (m, np) p)).
Proof.
  intros Pt Rp [Hnd Hall]. split; [now apply live_upsert_NoDup|].
  intros k a Hin. unfold Live.upsert in Hin. fold (hasKey p) in Hin.
  destruct (mapGet (hasKey p) m) as [existing|] eqn:E.
  - destruct (Hall _ _ (mapGet_In _ _ _ _ E)) as (Hk & Ho & Hr & Pf & Pl).
    destruct (date_gt t (lastSeen existing)) eqn:G; cbn [fst] in Hin; [|now apply Hall].
    apply In_mapSet in Hin. destruct Hin as [[-> ->]|Hin]; [|now apply Hall].
    cbn [player firstSeen lastSeen]. repeat split; try assumption.
    unfold spanOrdered, date_gt in *. cbn [firstSeen lastSeen].
    apply date_lt_true in G. destruct G as (x & y & Hx & -> & Hxy).
    destruct (firstSeen existing) as [f|]; [|reflexivity].
    rewrite Hx in Ho. simpl in *. apply Z.ltb_ge in Ho. apply Z.ltb_ge. lia.
  - cbn [fst] in Hin. apply In_mapSet in Hin.
    destruct Hin as [[-> ->]|Hin]; [|now apply Hall].
    cbn [player firstSeen lastSeen]. repeat split; try assumption.
    apply date_gt_irrefl.
Qed.

Lemma live_flush_sound t ps : forall m np,
  P t -> (forall p, In p ps -> R p) -> soundRecords P R m ->
  soundRecords P R (fst (fold_left (Live.upsert t) ps (m, np))).
Proof.
  induction ps as [|p ps IH]; intros m np Pt Hps Hm; [exact Hm|].
  cbn [fold_left].
  destruct (Live.upsert t (m, np) p) as [m' np'] eqn:E.
  apply IH; [exact Pt | intros q Hq; apply Hps; now right |].
  change m' with (fst (m', np')). rewrite <- E.
  apply live_upsert_sound; [exact Pt | apply Hps; now left | exact Hm].
Qed.

End Records.

Lemma soundRecords_names P R m :
  soundRecords P R m -> namesDistinct (mapValues m).
Proof.
  intros [Hnd Hall]. unfold namesDistinct, mapValues.
  assert (E : map (fun a => hasKey (player a)) (map snd m) = mapKeys m).
  { unfold mapKeys. rewrite map_map. apply map_ext_in.
    intros [k a] Hin. cbn [fst snd]. symmetry. now apply (Hall k a). }
  now rewrite E.
Qed.

Lemma soundRecords_values P R m a :
  soundRecords P R m -> In a (mapValues m) ->
  spanOrdered a /\ R (player a) /\ P (firstSeen a) /\ P (lastSeen a).
Proof.
  intros [_ Hall] Hin. apply In_mapValues in Hin. destruct Hin as [k Hin].
  destruct (Hall k a Hin) as (_ & H). exact H.
Qed.
(** *** The batch parser *)

Ltac split_step :=
  repeat match goal with
         | |- context [if ?b then _ else _] => destruct b eqn:?
         | |- context [match ?x with Some _ => _ | None => _ end] => destruct x eqn:?
         | |- context [let (_, _) := ?p in _] => destruct p
         end.

Lemma batchInv_init P R L : batchInv P R L Batch.init.
Proof.
  split; [apply soundRecords_nil|]. split; [intros l []|]. split; [intros p []|discriminate].
Qed.

Lemma batch_classify_keeps P R L opts zf ts content st :
  (date_lt ts (Batch.startTime opts) || date_gt ts (Batch.endTime opts) = false -> P ts) ->
  (forall m, WHO_PLAYER_RE content = Some m -> R (playerOfMatch m)) ->
  (forall l,
     date_lt ts (Batch.startTime opts) || date_gt ts (Batch.endTime opts) = false ->
     zoneMatchesFilters (Batch.currentZone st) zf = true ->
     lootOfContent (Batch.characterName opts) ts (Batch.currentZone st) content l -> L l) ->
  batchInv P R L st -> batchInv P R L (Batch.classify opts zf ts content st).
Proof.
  intros HP HR HL (Hm & Hl & Hp & Hb). unfold Batch.classify.
  destruct (date_lt ts (Batch.startTime opts) || date_gt ts (Batch.endTime opts)) eqn:W;
    [now (split; [|split; [|split]])|].
  specialize (HP eq_refl).
  destruct (ZONE_ENTRY_RE content) as [z|] eqn:Z.
  { split; [exact Hm|]. split; [exact Hl|]. split; [exact Hp|]. discriminate. }
  destruct (str_eqb content whoStart) eqn:S.
  { split; [exact Hm|]. split; [exact Hl|]. split; [intros p []|]. intros _. exact HP. }
  destruct (Batch.inWhoBlock st) eqn:B.
  - specialize (Hb eq_refl).
    destruct (str_eqb content whoSeparator);
      [split; [exact Hm|split; [exact Hl|split; [exact Hp|now intros _]]]|].
    destruct (WHO_FOOTER_RE content) as [whoZone|].
    + destruct (zoneMatchesFilters (Some whoZone) zf).
      * split; [|split; [exact Hl|split; [exact Hp|discriminate]]].
        cbn [Batch.attendanceMap Batch.setAttendance Batch.closeBlock Batch.whoBlockTime
             Batch.whoPlayers].
        now apply flushRoster_sound.
      * split; [exact Hm|]. split; [exact Hl|]. split; [exact Hp|]. discriminate.
    + destruct (WHO_PLAYER_RE content) as [m|] eqn:Pm.
      * split; [exact Hm|]. split; [exact Hl|]. split; [|now intros _].
        cbn [Batch.whoPlayers Batch.pushPlayer]. intros p Hin.
        apply in_app_iff in Hin. destruct Hin as [Hin|[<-|[]]]; [now apply Hp | now apply HR].
      * split; [exact Hm|]. split; [exact Hl|]. split; [exact Hp|]. now intros _.
  - destruct (zoneMatchesFilters (Batch.currentZone st) zf) eqn:M; cbn [negb];
      [|split; [exact Hm|]; split; [exact Hl|]; split; [exact Hp|]; rewrite B; discriminate].
    specialize (HL).
    destruct (SELF_LOOT_RE content) as [item|] eqn:SL.
    + split; [exact Hm|]. split; [|split; [exact Hp|cbn; rewrite B; discriminate]].
      cbn [Batch.lootEvents Batch.pushLoot]. intros l Hin.
      apply in_app_iff in Hin. destruct Hin as [Hin|[<-|[]]]; [now apply Hl|].
      apply HL; [reflexivity | reflexivity |]. left. now exists item.
    + destruct (OTHER_LOOT_RE content) as [[who item]|] eqn:OL.
      * split; [exact Hm|]. split; [|split; [exact Hp|cbn; rewrite B; discriminate]].
        cbn [Batch.lootEvents Batch.pushLoot]. intros l Hin.
        apply in_app_iff in Hin. destruct Hin as [Hin|[<-|[]]]; [now apply Hl|].
        apply HL; [reflexivity | reflexivity |]. right. now exists who, item.
      * split; [exact Hm|]. split; [exact Hl|]. split; [exact Hp|]. rewrite B. discriminate.
Qed.

Lemma batchInv_countLine P R L st : batchInv P R L st -> batchInv P R L (Batch.countLine st).
Proof. intros H. exact H. Qed.

Section BatchRun.
Variable P : Date -> Prop.
Variable R : Player -> Prop.
Variable L : LootEvent -> Prop.
Variable host : Host.
Variable opts : Batch.Opts.
Variable lines : list str.

Hypothesis window_gives_P :
  forall ts, date_lt ts (Batch.startTime opts) || date_gt ts (Batch.endTime opts) = false -> P ts.
Hypothesis roster_gives_R :
  forall line ts content m,
    In line lines -> LINE_RE line = Some (ts, content) ->
    WHO_PLAYER_RE content = Some m -> R (playerOfMatch m).
Hypothesis loot_gives_L :
  forall line tsStr content ts zn l,
    In line lines -> LINE_RE line = Some (tsStr, content) ->
    date_lt ts (Batch.startTime opts) || date_gt ts (Batch.endTime opts) = false ->
    zoneMatchesFilters zn (map normalizeZone (Batch.zones opts)) = true ->
    lootOfContent (Batch.characterName opts) ts zn content l -> L l.

Lemma batch_parseLine_keeps st line :
  In line lines -> batchInv P R L st ->
  batchInv P R L (Batch.parseLine host opts (map normalizeZone (Batch.zones opts)) st line).
Proof.
  intros Hin Hst. unfold Batch.parseLine.
  destruct (LINE_RE line) as [[tsStr content]|] eqn:E; [|exact Hst].
  destruct (parseEQDate host tsStr) as [ts|]; [|exact Hst].
  apply batch_classify_keeps.
  - apply window_gives_P.
  - intros m. now apply (roster_gives_R line tsStr content m).
  - intros l W M. now apply (loot_gives_L line tsStr content ts _ l).
  - exact Hst.
Qed.

Lemma batch_scan_keeps : forall ls st,
  incl ls lines -> batchInv P R L st -> batchInv P R L (Batch.scan host opts st ls).
Proof.
  unfold Batch.scan. induction ls as [|l ls IH]; intros st Hsub Hst; [exact Hst|].
  cbn [fold_left]. apply IH.
  - intros x Hx. apply Hsub. now right.
  - apply batch_parseLine_keeps; [apply Hsub; now left | exact Hst].
Qed.

Lemma batch_run_keeps : batchInv P R L (Batch.scan host opts Batch.init lines).
Proof. apply batch_scan_keeps; [apply incl_refl | apply batchInv_init]. Qed.

End BatchRun.
(** *** The auto parser *)

Section AutoRun.
Variable Q : Auto.Session -> Prop.
Variable R : Player -> Prop.
Variable host : Host.
Variable opts : Auto.Opts.
Variable lines : list str.

Hypothesis Q_fresh :
  forall t, Auto.isInRaidWindow (Some t) = true -> Q (freshSession t).
Hypothesis Q_last :
  forall t s, Auto.isInRaidWindow (Some t) = true -> Auto.date s = isoDate t ->
              date_gt (Some t) (Auto.lastSeen s) = true -> Q s -> Q (withLastSeen t s).
Hypothesis Q_zone : forall z s, Q s -> Q (Auto.addZone z s).
Hypothesis Q_roster :
  forall t ps s, Auto.isInRaidWindow (Some t) = true -> Auto.date s = isoDate t ->
                 (forall p, In p ps -> R p) -> Q s -> Q (Auto.addRoster (Some t) ps s).
Hypothesis Q_loot :
  forall line tsStr content t zn l s,
    In line lines -> LINE_RE line = Some (tsStr, content) ->
    Auto.isInRaidWindow (Some t) = true -> Auto.isApprovedZone zn = true ->
    lootOfContent (Auto.characterName opts) (Some t) zn content l ->
    Auto.date s = isoDate t -> Q s -> Q (Auto.addLoot l s).
Hypothesis R_roster :
  forall line ts content m,
    In line lines -> LINE_RE line = Some (ts, content) ->
    WHO_PLAYER_RE content = Some m -> R (playerOfMatch m).

Lemma allSessions_mapSet key s sm : allSessions Q sm -> Q s -> allSessions Q (mapSet key s sm).
Proof.
  intros H Hs k s' Hin. apply In_mapSet in Hin.
  destruct Hin as [[-> ->]|Hin]; [exact Hs | now apply (H k)].
Qed.

Lemma getSession_all t sm :
  Auto.isInRaidWindow (Some t) = true ->
  autoInv sm -> allSessions Q sm -> allSessions Q (snd (Auto.getSession t sm)).
Proof.
  intros W Hinv H. unfold Auto.getSession.
  destruct (mapGet (isoDate t) sm) as [s|] eqn:E.
  - rewrite E. destruct (date_gt (Some t) (Auto.lastSeen s)) eqn:G; cbn [snd]; [|exact H].
    apply mapGet_In in E. destruct (proj2 Hinv _ _ E) as [Hd _].
    apply allSessions_mapSet; [exact H|].
    apply (Q_last t s W Hd G). now apply (H _ _ E).
  - rewrite mapGet_mapSet_same. unfold date_gt. cbn [Auto.lastSeen date_lt].
    rewrite Z.ltb_irrefl. cbn [snd]. apply allSessions_mapSet; [exact H|]. now apply Q_fresh.
Qed.

Lemma update_all key f sm :
  autoInv sm -> allSessions Q sm ->
  (forall s, Auto.date s = key -> Q s -> Q (f s)) ->
  allSessions Q (Auto.update key f sm).
Proof.
  intros Hinv H Hf. unfold Auto.update.
  destruct (mapGet key sm) as [s|] eqn:E; [|exact H].
  apply mapGet_In in E. destruct (proj2 Hinv _ _ E) as [Hd _].
  apply allSessions_mapSet; [exact H|]. apply Hf; [exact Hd | now apply (H _ _ E)].
Qed.

Lemma autoKeeps_init : autoKeeps Q R Auto.init.
Proof.
  split; [apply autoInv_init|]. split; [intros k s []|]. split; [intros p []|discriminate].
Qed.

Lemma auto_classify_keeps line tsStr utcTs content st st' :
  In line lines -> LINE_RE line = Some (tsStr, content) ->
  autoKeeps Q R st ->
  Auto.classify opts utcTs content st = Returned st' ->
  autoKeeps Q R st'.
Proof.
  intros Hin Hline Hst Hc.
  pose proof (auto_classify_inv opts utcTs content st st' (proj1 Hst) Hc) as Hinv'.
  destruct Hst as (Hinv & Hq & Hp & Hb).
  split; [exact Hinv'|]. clear Hinv'. revert Hc. unfold Auto.classify.
  destruct (ZONE_ENTRY_RE content) as [z|].
  { intros [= <-]. split; [exact Hq|]. split; [exact Hp|]. discriminate. }
  destruct (str_eqb content whoStart).
  { destruct (Auto.isInRaidWindow utcTs) eqn:W; intros [= <-].
    - split; [exact Hq|]. split; [intros p []|]. now intros _.
    - split; [exact Hq|]. split; [exact Hp|]. exact Hb. }
  destruct (Auto.inWhoBlock st) eqn:B.
  - specialize (Hb eq_refl).
    destruct (str_eqb content whoSeparator).
    { intros [= <-]. split; [exact Hq|]. split; [exact Hp|]. now intros _. }
    destruct (WHO_FOOTER_RE content) as [whoZone|].
    + destruct (Auto.isApprovedZone (Some whoZone)
                && Auto.isInRaidWindow (Auto.whoBlockUTC (Auto.closeBlock st))) eqn:G.
      2:{ intros [= <-]. split; [exact Hq|]. split; [exact Hp|]. discriminate. }
      cbn [Auto.whoBlockUTC Auto.closeBlock Auto.whoPlayers Auto.sessionMap] in *.
      destruct (Auto.whoBlockUTC st) as [t|] eqn:Et; [|discriminate].
      pose proof (getSession_inv t (Auto.sessionMap st) Hinv) as Hg.
      pose proof (getSession_all t (Auto.sessionMap st) Hb Hinv Hq) as Hga.
      pose proof (getSession_key t (Auto.sessionMap st)) as Hk.
      destruct (Auto.getSession t (Auto.sessionMap st)) as [key sm].
      cbn [fst snd] in *. subst key.
      intros [= <-].
      cbn [Auto.sessionMap Auto.setSessions Auto.whoPlayers Auto.inWhoBlock Auto.closeBlock].
      apply andb_true_iff in G. destruct G as [G1 _].
      split; [|split; [exact Hp|discriminate]].
      assert (Hz : autoInv (Auto.update (isoDate t) (Auto.addZone (Some whoZone)) sm)).
      { apply update_inv; [exact Hg|]. intros s. now apply addZone_gated. }
      apply update_all; [exact Hz | |].
      * apply update_all; [exact Hg | exact Hga |]. intros s _. apply Q_zone.
      * intros s Hd Hs. now apply Q_roster.
    + destruct (WHO_PLAYER_RE content) as [m|] eqn:Pm; intros [= <-].
      * split; [exact Hq|]. split; [|now intros _].
        cbn [Auto.whoPlayers Auto.pushPlayer]. intros p Hi.
        apply in_app_iff in Hi. destruct Hi as [Hi|[<-|[]]]; [now apply Hp|].
        now apply (R_roster line tsStr content m).
      * split; [exact Hq|]. split; [exact Hp|]. now intros _.
  - destruct (negb (Auto.isInRaidWindow utcTs)
              || negb (Auto.isApprovedZone (Auto.currentZone st))) eqn:G.
    { intros [= <-]. split; [exact Hq|]. split; [exact Hp|]. rewrite B. discriminate. }
    apply orb_false_iff in G. destruct G as [G1 G2].
    apply negb_false_iff in G1, G2.
    destruct utcTs as [t|]; [|discriminate].
    pose proof (getSession_inv t (Auto.sessionMap st) Hinv) as Hg.
    pose proof (getSession_all t (Auto.sessionMap st) G1 Hinv Hq) as Hga.
    pose proof (getSession_key t (Auto.sessionMap st)) as Hk.
    destruct (Auto.getSession t (Auto.sessionMap st)) as [key sm].
    cbn [fst snd] in *. subst key.
    assert (Hz : autoInv (Auto.update (isoDate t) (Auto.addZone (Auto.currentZone st)) sm)).
    { apply update_inv; [exact Hg|]. intros s. now apply addZone_gated. }
    assert (Hza : allSessions Q (Auto.update (isoDate t) (Auto.addZone (Auto.currentZone st)) sm)).
    { apply update_all; [exact Hg | exact Hga |]. intros s _. apply Q_zone. }
    assert (Hloot : forall l,
              lootOfContent (Auto.characterName opts) (Some t) (Auto.currentZone st) content l ->
              allSessions Q (Auto.update (isoDate t) (Auto.addLoot l)
                      (Auto.update (isoDate t) (Auto.addZone (Auto.currentZone st)) sm))).
    { intros l Hl. apply update_all; [exact Hz | exact Hza |].
      intros s Hd Hs. now apply (Q_loot line tsStr content t (Auto.currentZone st) l s). }
    destruct (SELF_LOOT_RE content) as [it|] eqn:SL;
      destruct (Auto.truthy (Auto.characterName opts)).
    + intros [= <-]. split; [|split; [exact Hp|cbn; rewrite B; discriminate]].
      apply Hloot. left. now exists it.
    + destruct (OTHER_LOOT_RE content) as [[who item]|] eqn:OL; intros [= <-].
      * split; [|split; [exact Hp|cbn; rewrite B; discriminate]].
        apply Hloot. right. now exists who, item.
      * split; [exact Hza|]. split; [exact Hp|]. cbn. rewrite B. discriminate.
    + destruct (OTHER_LOOT_RE content) as [[who item]|] eqn:OL; intros [= <-].
      * split; [|split; [exact Hp|cbn; rewrite B; discriminate]].
        apply Hloot. right. now exists who, item.
      * split; [exact Hza|]. split; [exact Hp|]. cbn. rewrite B. discriminate.
    + destruct (OTHER_LOOT_RE content) as [[who item]|] eqn:OL; intros [= <-].
      * split; [|split; [exact Hp|cbn; rewrite B; discriminate]].
        apply Hloot. right. now exists who, item.
      * split; [exact Hza|]. split; [exact Hp|]. cbn. rewrite B. discriminate.
Qed.

Lemma auto_parseLine_keeps st st' line :
  In line lines -> autoKeeps Q R st ->
  Auto.parseLine host opts st line = Returned st' -> autoKeeps Q R st'.
Proof.
  intros Hin Hst. unfold Auto.parseLine.
  destruct (LINE_RE line) as [[tsStr content]|] eqn:E; [|intros [= <-]; exact Hst].
  destruct (parseEQDateUTC host tsStr (Auto.timezone opts)) as [[utcTs|]|];
    [| intros [= <-]; exact Hst | discriminate].
  now apply (auto_classify_keeps line tsStr utcTs content).
Qed.

Lemma auto_scan_keeps : forall ls st st',
  incl ls lines -> autoKeeps Q R st ->
  Auto.scan host opts st ls = Returned st' -> autoKeeps Q R st'.
Proof.
  induction ls as [|l ls IH]; intros st st' Hsub Hst; cbn [Auto.scan].
  - intros [= <-]. exact Hst.
  - destruct (Auto.parseLine host opts st l) as [st1|] eqn:E; [|discriminate].
    apply IH; [intros x Hx; apply Hsub; now right|].
    apply (auto_parseLine_keeps st st1 l); [apply Hsub; now left | exact Hst | exact E].
Qed.

Lemma auto_run_keeps r s :
  Auto.autoParseLog host opts lines = Returned r ->
  In s (Auto.sessions r) ->
  exists b, Q b /\ sessionGated b /\ s = Auto.flatten b.
Proof.
  unfold Auto.autoParseLog.
  destruct (Auto.scan host opts Auto.init lines) as [st|] eqn:E; [|discriminate].
  intros [= <-]. cbn [Auto.sessions]. unfold Auto.collect. intros Hin.
  apply In_sortBy in Hin. apply in_map_iff in Hin. destruct Hin as (b & <- & Hb).
  apply filter_In in Hb. destruct Hb as [Hb _].
  apply In_mapValues in Hb. destruct Hb as [k Hb].
  pose proof (auto_scan_keeps lines Auto.init st (incl_refl _) autoKeeps_init E)
    as (Hinv & Hq & _).
  exists b. split; [now apply (Hq k)|]. split; [|reflexivity].
  now destruct (proj2 Hinv _ _ Hb).
Qed.

End AutoRun.
(** *** The watcher *)

Lemma liveKeeps_create P R L cfg n : liveKeeps P R L cfg (Live.create n).
Proof.
  split; [apply soundRecords_nil|]. split; [intros l []|]. split; [intros p []|discriminate].
Qed.

Lemma liveKeeps_setSplit P R L cfg o p w :
  liveKeeps P R L cfg w -> liveKeeps P R L cfg (Live.setSplit o p w).
Proof. intros H. exact H. Qed.

Lemma live_classify_keeps P R L cfg utcTs content w w' :
  (forall d, Live.isInRaidWindow cfg d = true -> P d) ->
  (forall m, WHO_PLAYER_RE content = Some m -> R (playerOfMatch m)) ->
  (forall l,
     Live.isInRaidWindow cfg utcTs = true ->
     Live.isApprovedZone cfg (Live.currentZone w) = true ->
     lootOfContent (Live.characterName cfg) utcTs (Live.currentZone w) content l -> L l) ->
  liveKeeps P R L cfg w ->
  Live.classify cfg utcTs content w = Returned w' ->
  liveKeeps P R L cfg w'.
Proof.
  intros HP HR HL (Hm & Hl & Hp & Hb). unfold Live.classify.
  destruct (ZONE_ENTRY_RE content) as [z|].
  { destruct utcTs as [t|]; [|discriminate]. intros [= <-].
    split; [exact Hm|]. split; [exact Hl|]. split; [exact Hp|]. discriminate. }
  destruct (str_eqb content whoStart).
  { destruct (Live.isInRaidWindow cfg utcTs) eqn:W; intros [= <-].
    - split; [exact Hm|]. split; [exact Hl|]. split; [intros p []|]. now intros _.
    - split; [exact Hm|]. split; [exact Hl|]. split; [exact Hp|]. exact Hb. }
  destruct (Live.inWhoBlock w) eqn:B.
  - specialize (Hb eq_refl).
    destruct (str_eqb content whoSeparator).
    { intros [= <-]. split; [exact Hm|]. split; [exact Hl|]. split; [exact Hp|]. now intros _. }
    destruct (WHO_FOOTER_RE content) as [whoZone|].
    + destruct (negb (Live.isApprovedZone cfg (Some whoZone))).
      { intros [= <-]. split; [exact Hm|]. split; [exact Hl|]. split; [exact Hp|]. discriminate. }
      cbn [Live.whoBlockUTC Live.closeBlock Live.whoPlayers Live.attendanceMap].
      pose proof (live_flush_sound P R (Live.whoBlockUTC w) (Live.whoPlayers w)
                    (Live.attendanceMap w) [] (HP _ Hb) Hp Hm) as Hf.
      destruct (fold_left (Live.upsert (Live.whoBlockUTC w)) (Live.whoPlayers w)
                          (Live.attendanceMap w, [])) as [m newPlayers].
      cbn [fst] in Hf.
      destruct (Live.whoBlockUTC w) as [t|]; [|discriminate]. intros [= <-].
      split; [exact Hf|]. split; [exact Hl|]. split; [exact Hp|]. discriminate.
    + destruct (WHO_PLAYER_RE content) as [m|] eqn:Pm; intros [= <-].
      * split; [exact Hm|]. split; [exact Hl|]. split; [|now intros _].
        cbn [Live.whoPlayers Live.pushPlayer]. intros p Hi.
        apply in_app_iff in Hi. destruct Hi as [Hi|[<-|[]]]; [now apply Hp | now apply HR].
      * split; [exact Hm|]. split; [exact Hl|]. split; [exact Hp|]. now intros _.
  - destruct (negb (Live.isInRaidWindow cfg utcTs)
              || negb (Live.isApprovedZone cfg (Live.currentZone w))) eqn:G.
    { intros [= <-]. split; [exact Hm|]. split; [exact Hl|]. split; [exact Hp|].
      rewrite B. discriminate. }
    apply orb_false_iff in G. destruct G as [G1 G2].
    apply negb_false_iff in G1, G2.
    assert (Hpush : forall l t,
              lootOfContent (Live.characterName cfg) utcTs (Live.currentZone w) content l ->
              liveKeeps P R L cfg (Live.pushLoot l t w)).
    { intros l t Hc. split; [exact Hm|]. split; [|split; [exact Hp|cbn; rewrite B; discriminate]].
      cbn [Live.lootEvents Live.pushLoot]. intros l' Hi.
      apply in_app_iff in Hi. destruct Hi as [Hi|[<-|[]]]; [now apply Hl | now apply HL]. }
    destruct (SELF_LOOT_RE content) as [it|] eqn:SL;
      destruct (Live.truthy (Live.characterName cfg)).
    + destruct utcTs as [t|]; [|discriminate]. intros [= <-].
      apply Hpush. left. now exists it.
    + destruct (OTHER_LOOT_RE content) as [[who item]|] eqn:OL.
      * destruct utcTs as [t|]; [|discriminate]. intros [= <-].
        apply Hpush. right. now exists who, item.
      * intros [= <-]. split; [exact Hm|]. split; [exact Hl|]. split; [exact Hp|].
        rewrite B. discriminate.
    + destruct (OTHER_LOOT_RE content) as [[who item]|] eqn:OL.
      * destruct utcTs as [t|]; [|discriminate]. intros [= <-].
        apply Hpush. right. now exists who, item.
      * intros [= <-]. split; [exact Hm|]. split; [exact Hl|]. split; [exact Hp|].
        rewrite B. discriminate.
    + destruct (OTHER_LOOT_RE content) as [[who item]|] eqn:OL.
      * destruct utcTs as [t|]; [|discriminate]. intros [= <-].
        apply Hpush. right. now exists who, item.
      * intros [= <-]. split; [exact Hm|]. split; [exact Hl|]. split; [exact Hp|].
        rewrite B. discriminate.
Qed.

Section LiveRun.
Variable P : Date -> Prop.
Variable R : Player -> Prop.
Variable L : LootEvent -> Prop.
Variable host : Host.
Variable cfg : Live.Config.
Variable lines : list str.

Hypothesis window_gives_P : forall d, Live.isInRaidWindow cfg d = true -> P d.
Hypothesis roster_gives_R :
  forall line ts content m,
    In line lines -> LINE_RE line = Some (ts, content) ->
    WHO_PLAYER_RE content = Some m -> R (playerOfMatch m).
Hypothesis loot_gives_L :
  forall line tsStr content ts zn l,
    In line lines -> LINE_RE line = Some (tsStr, content) ->
    Live.isInRaidWindow cfg ts = true -> Live.isApprovedZone cfg zn = true ->
    lootOfContent (Live.characterName cfg) ts zn content l -> L l.

Lemma live_processLine_keeps w w' line :
  In line lines -> liveKeeps P R L cfg w ->
  Live.processLine host cfg w line = Returned w' -> liveKeeps P R L cfg w'.
Proof.
  intros Hin Hw. unfold Live.processLine.
  destruct (LINE_RE line) as [[tsStr content]|] eqn:E; [|intros [= <-]; exact Hw].
  destruct (parseEQDateUTC host tsStr (Live.timezone cfg)) as [[utcTs|]|];
    [| intros [= <-]; exact Hw | discriminate].
  apply live_classify_keeps.
  - exact window_gives_P.
  - intros m. now apply (roster_gives_R line tsStr content m).
  - intros l W Z. now apply (loot_gives_L line tsStr content utcTs _ l).
  - exact Hw.
Qed.

Lemma live_processLines_keeps : forall ls w w',
  incl ls lines -> liveKeeps P R L cfg w ->
  Live.processLines host cfg w ls = Returned w' -> liveKeeps P R L cfg w'.
Proof.
  induction ls as [|l ls IH]; intros w w' Hsub Hw; cbn [Live.processLines].
  - intros [= <-]. exact Hw.
  - destruct (Live.processLine host cfg w l) as [w1|] eqn:E; [|discriminate].
    apply IH; [intros x Hx; apply Hsub; now right|].
    apply (live_processLine_keeps w w1 l); [apply Hsub; now left | exact Hw | exact E].
Qed.

Lemma live_run_keeps n w :
  Live.processLines host cfg (Live.create n) lines = Returned w -> liveKeeps P R L cfg w.
Proof.
  apply live_processLines_keeps; [apply incl_refl | apply liveKeeps_create].
Qed.

End LiveRun.
(** *** What the runs guarantee *)

Lemma lootOfContent_line lines cn line tsStr content ts zn l :
  In line lines -> LINE_RE line = Some (tsStr, content) ->
  lootOfContent cn ts zn content l ->
  lootLineOf lines cn l /\ timestamp l = ts /\ zone l = zn.
Proof.
  intros Hin Hline [(item & Hs & ->)|(who & item & Ho & ->)]; cbn [timestamp zone].
  - split; [|now split]. exists line, tsStr, content. repeat split; try assumption.
    left. now split.
  - split; [|now split]. exists line, tsStr, content. repeat split; try assumption.
    right. exists who. now split.
Qed.

Lemma batch_run_sound host opts lines :
  batchInv (inBatchWindow opts) (rosterLineOf lines)
    (fun l => inBatchWindow opts (timestamp l) /\
              zoneMatchesFilters (zone l) (map normalizeZone (Batch.zones opts)) = true /\
              lootLineOf lines (Batch.characterName opts) l)
    (Batch.scan host opts Batch.init lines).
Proof.
  apply batch_run_keeps.
  - intros ts H. apply orb_false_iff in H. exact H.
  - intros line ts content m Hin Hl Hm. now exists line, ts, content, m.
  - intros line tsStr content ts z l Hin Hl W M Hc.
    destruct (lootOfContent_line lines _ line tsStr content ts z l Hin Hl Hc) as (H1 & -> & ->).
    apply orb_false_iff in W. repeat split; try assumption; apply W.
Qed.

Lemma auto_run_sound host opts lines r s :
  Auto.autoParseLog host opts lines = Returned r ->
  In s (Auto.sessions r) ->
  exists b,
    (soundRecords (fun _ => True) (rosterLineOf lines) (Auto.attendanceMap b) /\
     forall l, In l (Auto.loot b) -> lootLineOf lines (Auto.characterName opts) l) /\
    sessionGated b /\ s = Auto.flatten b.
Proof.
  apply (auto_run_keeps
           (fun b => soundRecords (fun _ => True) (rosterLineOf lines) (Auto.attendanceMap b) /\
                     forall l, In l (Auto.loot b) ->
                               lootLineOf lines (Auto.characterName opts) l)
           (rosterLineOf lines)).
  - intros t _. split; [apply soundRecords_nil | intros l []].
  - intros t b _ _ _ H. exact H.
  - intros z b H. exact H.
  - intros t ps b _ _ Hps [Hm Hl]. split; [|exact Hl].
    cbn [Auto.attendanceMap Auto.addRoster]. now apply flushRoster_sound.
  - intros line tsStr content t z l b Hin Hline _ _ Hc _ [Hm Hl]. split; [exact Hm|].
    cbn [Auto.loot Auto.addLoot]. intros l' Hi.
    apply in_app_iff in Hi. destruct Hi as [Hi|[<-|[]]]; [now apply Hl|].
    now destruct (lootOfContent_line lines _ line tsStr content _ z l Hin Hline Hc).
  - intros line ts content m Hin Hl Hm. now exists line, ts, content, m.
Qed.

Lemma live_run_sound host cfg n lines w :
  Live.processLines host cfg (Live.create n) lines = Returned w ->
  liveKeeps (fun _ => True) (rosterLineOf lines)
            (lootLineOf lines (Live.characterName cfg)) cfg w.
Proof.
  apply live_run_keeps.
  - intros d _. exact I.
  - intros line ts content m Hin Hl Hm. now exists line, ts, content, m.
  - intros line tsStr content ts z l Hin Hl _ _ Hc.
    now destruct (lootOfContent_line lines _ line tsStr content ts z l Hin Hl Hc).
Qed.

Lemma spanOrdered_le a f l :
  spanOrdered a -> firstSeen a = Some f -> lastSeen a = Some l -> f <= l.
Proof.
  unfold spanOrdered, date_gt. intros H Hf Hl. rewrite Hf, Hl in H.
  simpl in H. now apply Z.ltb_ge in H.
Qed.

(** X14: in batch [parseLog] every loot event of the result carries an
    instant that passed the time window and a zone that matches the
    filters, and both bounds of every attendance record passed the
    window. *)
Theorem batch_results_pass_window_and_filters :
  forall (host : Host) (opts : Batch.Opts) (lines : list str),
    (forall l, In l (Batch.loot (Batch.parseLog host opts lines)) ->
       inBatchWindow opts (timestamp l) /\
       zoneMatchesFilters (zone l) (map normalizeZone (Batch.zones opts)) = true) /\
    (forall a, In a (Batch.attendance (Batch.parseLog host opts lines)) ->
       inBatchWindow opts (firstSeen a) /\ inBatchWindow opts (lastSeen a)).
Proof.
  intros host opts lines. destruct (batch_run_sound host opts lines) as (Hm & Hl & _).
  split.
  - intros l Hin. destruct (Hl l Hin) as (H1 & H2 & _). now split.
  - intros a Hin. now destruct (soundRecords_values _ _ _ a Hm Hin) as (_ & _ & H).
Qed.

(** X15: the attendance of a result never holds two records for the same
    name up to letter case: in batch [parseLog], in every session of
    [autoParseLog], and in the watcher after any lines. *)
Theorem one_record_per_name :
  (forall host opts lines,
     namesDistinct (Batch.attendance (Batch.parseLog host opts lines))) /\
  (forall host opts lines r s,
     Auto.autoParseLog host opts lines = Returned r -> In s (Auto.sessions r) ->
     namesDistinct (Auto.rs_attendance s)) /\
  (forall host cfg n lines w,
     Live.processLines host cfg (Live.create n) lines = Returned w ->
     namesDistinct (Live.sessionAttendance w)).
Proof.
  split; [|split].
  - intros host opts lines. destruct (batch_run_sound host opts lines) as (Hm & _).
    now apply (soundRecords_names _ _ _ Hm).
  - intros host opts lines r s Hr Hs.
    destruct (auto_run_sound host opts lines r s Hr Hs) as (b & (Hm & _) & _ & ->).
    now apply (soundRecords_names _ _ _ Hm).
  - intros host cfg n lines w Hw.
    destruct (live_run_sound host cfg n lines w Hw) as (Hm & _).
    now apply (soundRecords_names _ _ _ Hm).
Qed.

(** X16: no attendance record has its [firstSeen] after its [lastSeen],
    in any of the three scanners; when both are valid instants the first
    is at most the last. *)
Theorem first_seen_never_after_last_seen :
  (forall host opts lines a,
     In a (Batch.attendance (Batch.parseLog host opts lines)) ->
     spanOrdered a /\
     (forall f l, firstSeen a = Some f -> lastSeen a = Some l -> f <= l)) /\
  (forall host opts lines r s a,
     Auto.autoParseLog host opts lines = Returned r -> In s (Auto.sessions r) ->
     In a (Auto.rs_attendance s) ->
     spanOrdered a /\
     (forall f l, firstSeen a = Some f -> lastSeen a = Some l -> f <= l)) /\
  (forall host cfg n lines w a,
     Live.processLines host cfg (Live.create n) lines = Returned w ->
     In a (Live.sessionAttendance w) ->
     spanOrdered a /\
     (forall f l, firstSeen a = Some f -> lastSeen a = Some l -> f <= l)).
Proof.
  split; [|split].
  - intros host opts lines a Hin. destruct (batch_run_sound host opts lines) as (Hm & _).
    destruct (soundRecords_values _ _ _ a Hm Hin) as (Ho & _).
    split; [exact Ho | intros f l; now apply spanOrdered_le].
  - intros host opts lines r s a Hr Hs Hin.
    destruct (auto_run_sound host opts lines r s Hr Hs) as (b & (Hm & _) & _ & ->).
    destruct (soundRecords_values _ _ _ a Hm Hin) as (Ho & _).
    split; [exact Ho | intros f l; now apply spanOrdered_le].
  - intros host cfg n lines w a Hw Hin.
    destruct (live_run_sound host cfg n lines w Hw) as (Hm & _).
    destruct (soundRecords_values _ _ _ a Hm Hin) as (Ho & _).
    split; [exact Ho | intros f l; now apply spanOrdered_le].
Qed.

(** X17: nothing in a result is made up: the player of every attendance
    record was read by [WHO_PLAYER_RE] from a timestamped line of the
    input, and every loot event has the item of a loot line of the input
    and as looter the name on that line or, for self-loot, the caller's
    character name.  This holds for batch [parseLog], for every session
    of [autoParseLog] and for the watcher. *)
Theorem results_come_from_lines :
  (forall host opts lines,
     (forall a, In a (Batch.attendance (Batch.parseLog host opts lines)) ->
        rosterLineOf lines (player a)) /\
     (forall l, In l (Batch.loot (Batch.parseLog host opts lines)) ->
        lootLineOf lines (Batch.characterName opts) l)) /\
  (forall host opts lines r s,
     Auto.autoParseLog host opts lines = Returned r -> In s (Auto.sessions r) ->
     (forall a, In a (Auto.rs_attendance s) -> rosterLineOf lines (player a)) /\
     (forall l, In l (Auto.rs_loot s) -> lootLineOf lines (Auto.characterName opts) l)) /\
  (forall host cfg n lines w,
     Live.processLines host cfg (Live.create n) lines = Returned w ->
     (forall a, In a (Live.sessionAttendance w) -> rosterLineOf lines (player a)) /\
     (forall l, In l (Live.lootEvents w) -> lootLineOf lines (Live.characterName cfg) l)).
Proof.
  split; [|split].
  - intros host opts lines. destruct (batch_run_sound host opts lines) as (Hm & Hl & _).
    split.
    + intros a Hin. now destruct (soundRecords_values _ _ _ a Hm Hin) as (_ & H & _).
    + intros l Hin. now destruct (Hl l Hin) as (_ & _ & H).
  - intros host opts lines r s Hr Hs.
    destruct (auto_run_sound host opts lines r s Hr Hs) as (b & (Hm & Hl) & _ & ->).
    split.
    + intros a Hin. now destruct (soundRecords_values _ _ _ a Hm Hin) as (_ & H & _).
    + exact Hl.
  - intros host cfg n lines w Hw.
    destruct (live_run_sound host cfg n lines w Hw) as (Hm & Hl & _).
    split.
    + intros a Hin. now destruct (soundRecords_values _ _ _ a Hm Hin) as (_ & H & _).
    + exact Hl.
Qed.
(** ** Results only grow *)

Lemma notLater_refl a : notLater a a.
Proof. destruct a; simpl; [lia | exact I]. Qed.

Lemma notLater_trans a b c : notLater a b -> notLater b c -> notLater a c.
Proof. destruct a, b, c; simpl; try tauto; lia. Qed.

Lemma widened_refl e : widened e e.
Proof. repeat split; apply notLater_refl. Qed.

Lemma widened_trans a b c : widened a b -> widened b c -> widened a c.
Proof.
  intros (P1 & F1 & L1) (P2 & F2 & L2). split; [congruence|]. split.
  - now apply (notLater_trans _ (firstSeen b)).
  - now apply (notLater_trans _ (lastSeen b)).
Qed.

Lemma listGrows_refl (A : Type) (l : list A) : listGrows l l.
Proof. exists (@nil A). now rewrite app_nil_r. Qed.

Lemma listGrows_trans (A : Type) (a b c : list A) :
  listGrows a b -> listGrows b c -> listGrows a c.
Proof. intros [x ->] [y ->]. exists (x ++ y). now rewrite app_assoc. Qed.

Lemma listGrows_snoc (A : Type) (l : list A) x : listGrows l (l ++ [x]).
Proof. now exists [x]. Qed.

Lemma keptRefl m : Forall2 keptEntry m m.
Proof.
  induction m as [|x m IH]; constructor; [|exact IH]. split; [reflexivity | apply widened_refl].
Qed.

Lemma recordsGrow_refl m : recordsGrow m m.
Proof. exists m, []. split; [now rewrite app_nil_r | apply keptRefl]. Qed.

Lemma kept_trans : forall a b c,
  Forall2 keptEntry a b -> Forall2 keptEntry b c -> Forall2 keptEntry a c.
Proof.
  induction a as [|x a IH]; intros b c Hab Hbc;
    inversion Hab; subst; inversion Hbc; subst; constructor.
  - match goal with
    | H1 : keptEntry x ?y, H2 : keptEntry ?y ?z |- _ =>
        destruct H1 as [K1 W1]; destruct H2 as [K2 W2];
        split; [congruence | now apply (widened_trans _ (snd y))]
    end.
  - eapply IH; eassumption.
Qed.

Lemma recordsGrow_trans a b c : recordsGrow a b -> recordsGrow b c -> recordsGrow a c.
Proof.
  intros (k1 & a1 & -> & H1) (k2 & a2 & -> & H2).
  apply Forall2_app_inv_l in H2. destruct H2 as (k2a & k2b & H2a & H2b & ->).
  exists k2a, (k2b ++ a2). split; [now rewrite app_assoc|].
  now apply (kept_trans a k1 k2a).
Qed.

Lemma mapSet_absent (V : Type) k (v : V) m : mapGet k m = None -> mapSet k v m = m ++ [(k, v)].
Proof.
  induction m as [|[k' v'] m IH]; [reflexivity|]. simpl.
  destruct (str_eqb k' k); [discriminate|]. intros H. now rewrite IH.
Qed.

Lemma mapSet_present_kept k e e' m :
  mapGet k m = Some e -> widened e e' ->
  Forall2 keptEntry m (mapSet k e' m).
Proof.
  induction m as [|[k' v'] m IH]; [discriminate|]. simpl.
  destruct (str_eqb k' k) eqn:E.
  - intros [= ->] W. apply str_eqb_eq in E. subst k'.
    constructor; [now split | apply keptRefl].
  - intros H W. constructor; [split; [reflexivity | apply widened_refl]|]. now apply IH.
Qed.

Lemma upsert_grows t m p : recordsGrow m (upsert t m p).
Proof.
  unfold upsert. destruct (mapGet (toLowerCase (name p)) m) as [existing|] eqn:E.
  - exists (mapSet (toLowerCase (name p))
              (if date_gt t (lastSeen (if date_lt t (firstSeen existing)
                                       then mkAttendee (player existing) t (lastSeen existing)
                                       else existing))
               then mkAttendee (player (if date_lt t (firstSeen existing)
                                        then mkAttendee (player existing) t (lastSeen existing)
                                        else existing))
                               (firstSeen (if date_lt t (firstSeen existing)
                                           then mkAttendee (player existing) t (lastSeen existing)
                                           else existing)) t
               else (if date_lt t (firstSeen existing)
                     then mkAttendee (player existing) t (lastSeen existing)
                     else existing)) m), [].
    split; [now rewrite app_nil_r|].
    apply (mapSet_present_kept _ existing _ m E).
    destruct existing as [pl f l]. cbn [player firstSeen lastSeen].
    destruct (date_lt t f) eqn:E1; cbn [player firstSeen lastSeen];
      unfold date_gt; destruct (date_lt l t) eqn:E2; cbn [player firstSeen lastSeen];
      (split; [reflexivity|]); cbn [player firstSeen lastSeen]; split;
      try apply notLater_refl.
    + apply date_lt_true in E1. destruct E1 as (x & y & -> & -> & H). simpl. lia.
    + apply date_lt_true in E2. destruct E2 as (x & y & -> & -> & H). simpl. lia.
    + apply date_lt_true in E1. destruct E1 as (x & y & -> & -> & H). simpl. lia.
    + apply date_lt_true in E2. destruct E2 as (x & y & -> & -> & H). simpl. lia.
  - exists m, [(toLowerCase (name p), mkAttendee p t t)].
    split; [now apply mapSet_absent | apply keptRefl].
Qed.

Lemma flushRoster_grows t ps : forall m, recordsGrow m (flushRoster t ps m).
Proof.
  unfold flushRoster. induction ps as [|p ps IH]; intros m; [apply recordsGrow_refl|].
  cbn [fold_left]. apply (recordsGrow_trans _ (upsert t m p)); [apply upsert_grows | apply IH].
Qed.

Lemma live_upsert_grows t m np p : recordsGrow m (fst (Live.upsert t (m, np) p)).
Proof.
  unfold Live.upsert. destruct (mapGet (toLowerCase (name p)) m) as [existing|] eqn:E.
  - destruct (date_gt t (lastSeen existing)) eqn:G; cbn [fst]; [|apply recordsGrow_refl].
    exists (mapSet (toLowerCase (name p))
              (mkAttendee (player existing) (firstSeen existing) t) m), [].
    split; [now rewrite app_nil_r|].
    apply (mapSet_present_kept _ existing _ m E).
    split; [reflexivity|]. cbn [firstSeen lastSeen]. split; [apply notLater_refl|].
    apply date_lt_true in G. destruct G as (x & y & -> & -> & H). simpl. lia.
  - cbn [fst]. exists m, [(toLowerCase (name p), mkAttendee p t t)].
    split; [now apply mapSet_absent | apply keptRefl].
Qed.

Lemma live_flush_grows t ps : forall m np,
  recordsGrow m (fst (fold_left (Live.upsert t) ps (m, np))).
Proof.
  induction ps as [|p ps IH]; intros m np; [apply recordsGrow_refl|].
  cbn [fold_left]. destruct (Live.upsert t (m, np) p) as [m' np'] eqn:E.
  apply (recordsGrow_trans _ m'); [|apply IH].
  change m' with (fst (m', np')). rewrite <- E. apply live_upsert_grows.
Qed.

Lemma batch_classify_grows opts zf ts content st :
  listGrows (Batch.lootEvents st) (Batch.lootEvents (Batch.classify opts zf ts content st)) /\
  recordsGrow (Batch.attendanceMap st)
              (Batch.attendanceMap (Batch.classify opts zf ts content st)).
Proof.
  unfold Batch.classify.
  split_step; cbn [Batch.lootEvents Batch.attendanceMap Batch.enterZone Batch.openBlock
                   Batch.closeBlock Batch.setAttendance Batch.pushPlayer Batch.pushLoot];
    (split; [try apply listGrows_refl; apply listGrows_snoc
            | try apply recordsGrow_refl; apply flushRoster_grows]).
Qed.

Lemma batch_scan_grows host opts lines : forall st,
  listGrows (Batch.lootEvents st) (Batch.lootEvents (Batch.scan host opts st lines)) /\
  recordsGrow (Batch.attendanceMap st) (Batch.attendanceMap (Batch.scan host opts st lines)).
Proof.
  unfold Batch.scan. induction lines as [|l ls IH]; intros st.
  - split; [apply listGrows_refl | apply recordsGrow_refl].
  - cbn [fold_left].
    assert (Step : listGrows (Batch.lootEvents st)
                     (Batch.lootEvents
                        (Batch.parseLine host opts (map normalizeZone (Batch.zones opts)) st l)) /\
                   recordsGrow (Batch.attendanceMap st)
                     (Batch.attendanceMap
                        (Batch.parseLine host opts (map normalizeZone (Batch.zones opts)) st l))).
    { unfold Batch.parseLine.
      destruct (LINE_RE l) as [[tsStr content]|];
        [|split; [apply listGrows_refl | apply recordsGrow_refl]].
      destruct (parseEQDate host tsStr) as [ts|];
        [|split; [apply listGrows_refl | apply recordsGrow_refl]].
      apply (batch_classify_grows opts _ ts content (Batch.countLine st)). }
    destruct Step as [S1 S2]. destruct (IH (Batch.parseLine host opts
      (map normalizeZone (Batch.zones opts)) st l)) as [I1 I2].
    split; [exact (listGrows_trans _ _ _ _ S1 I1) | exact (recordsGrow_trans _ _ _ S2 I2)].
Qed.
Lemma setAdd_grows z zs : listGrows zs (setAdd z zs).
Proof.
  unfold setAdd. destruct (existsb (optStr_eqb z) zs);
    [apply listGrows_refl | apply listGrows_snoc].
Qed.

Lemma live_classify_grows cfg utcTs content w w' :
  Live.classify cfg utcTs content w = Returned w' ->
  listGrows (Live.lootEvents w) (Live.lootEvents w') /\
  listGrows (Live.emitted w) (Live.emitted w') /\
  listGrows (Live.zones w) (Live.zones w') /\
  recordsGrow (Live.attendanceMap w) (Live.attendanceMap w').
Proof.
  unfold Live.classify.
  destruct (ZONE_ENTRY_RE content) as [z|].
  { destruct utcTs as [t|]; [|discriminate]. intros [= <-].
    cbn [Live.lootEvents Live.emitted Live.zones Live.attendanceMap Live.enterZone].
    split; [apply listGrows_refl|]. split; [apply listGrows_snoc|].
    split; [apply setAdd_grows | apply recordsGrow_refl]. }
  destruct (str_eqb content whoStart).
  { destruct (Live.isInRaidWindow cfg utcTs); intros [= <-];
      (split; [apply listGrows_refl|]; split; [apply listGrows_refl|];
       split; [apply listGrows_refl | apply recordsGrow_refl]). }
  destruct (Live.inWhoBlock w).
  - destruct (str_eqb content whoSeparator).
    { intros [= <-]. split; [apply listGrows_refl|]. split; [apply listGrows_refl|].
      split; [apply listGrows_refl | apply recordsGrow_refl]. }
    destruct (WHO_FOOTER_RE content) as [whoZone|].
    + destruct (negb (Live.isApprovedZone cfg (Some whoZone))).
      { intros [= <-]. split; [apply listGrows_refl|]. split; [apply listGrows_refl|].
        split; [apply listGrows_refl | apply recordsGrow_refl]. }
      cbn [Live.whoBlockUTC Live.closeBlock Live.whoPlayers Live.attendanceMap].
      pose proof (live_flush_grows (Live.whoBlockUTC w) (Live.whoPlayers w)
                    (Live.attendanceMap w) []) as Hg.
      destruct (fold_left (Live.upsert (Live.whoBlockUTC w)) (Live.whoPlayers w)
                          (Live.attendanceMap w, [])) as [m newPlayers].
      cbn [fst] in Hg.
      destruct (Live.whoBlockUTC w) as [t|]; [|discriminate]. intros [= <-].
      cbn [Live.lootEvents Live.emitted Live.zones Live.attendanceMap Live.recordRoster
           Live.closeBlock].
      split; [apply listGrows_refl|]. split; [apply listGrows_snoc|].
      split; [apply listGrows_refl | exact Hg].
    + destruct (WHO_PLAYER_RE content); intros [= <-];
        (split; [apply listGrows_refl|]; split; [apply listGrows_refl|];
         split; [apply listGrows_refl | apply recordsGrow_refl]).
  - destruct (negb (Live.isInRaidWindow cfg utcTs)
              || negb (Live.isApprovedZone cfg (Live.currentZone w))).
    { intros [= <-]. split; [apply listGrows_refl|]. split; [apply listGrows_refl|].
      split; [apply listGrows_refl | apply recordsGrow_refl]. }
    destruct (SELF_LOOT_RE content) as [it|];
      destruct (Live.truthy (Live.characterName cfg));
      try (destruct (OTHER_LOOT_RE content) as [[who item]|]);
      try (destruct utcTs as [t|]; [|discriminate]);
      intros [= <-];
      cbn [Live.lootEvents Live.emitted Live.zones Live.attendanceMap Live.pushLoot];
      (split; [try apply listGrows_refl; apply listGrows_snoc|];
       split; [try apply listGrows_refl; apply listGrows_snoc|];
       split; [apply listGrows_refl | apply recordsGrow_refl]).
Qed.

Lemma live_processLines_grows host cfg lines : forall w w',
  Live.processLines host cfg w lines = Returned w' ->
  listGrows (Live.lootEvents w) (Live.lootEvents w') /\
  listGrows (Live.emitted w) (Live.emitted w') /\
  listGrows (Live.zones w) (Live.zones w') /\
  recordsGrow (Live.attendanceMap w) (Live.attendanceMap w').
Proof.
  induction lines as [|l ls IH]; intros w w'; cbn [Live.processLines].
  - intros [= <-]. split; [apply listGrows_refl|]. split; [apply listGrows_refl|].
    split; [apply listGrows_refl | apply recordsGrow_refl].
  - destruct (Live.processLine host cfg w l) as [w1|] eqn:E; [|discriminate].
    intros H. destruct (IH w1 w' H) as (I1 & I2 & I3 & I4).
    assert (Step : listGrows (Live.lootEvents w) (Live.lootEvents w1) /\
                   listGrows (Live.emitted w) (Live.emitted w1) /\
                   listGrows (Live.zones w) (Live.zones w1) /\
                   recordsGrow (Live.attendanceMap w) (Live.attendanceMap w1)).
    { revert E. unfold Live.processLine.
      destruct (LINE_RE l) as [[tsStr content]|].
      2:{ intros [= <-]. split; [apply listGrows_refl|]. split; [apply listGrows_refl|].
          split; [apply listGrows_refl | apply recordsGrow_refl]. }
      destruct (parseEQDateUTC host tsStr (Live.timezone cfg)) as [[utcTs|]|]; [| |discriminate].
      - apply live_classify_grows.
      - intros [= <-]. split; [apply listGrows_refl|]. split; [apply listGrows_refl|].
        split; [apply listGrows_refl | apply recordsGrow_refl]. }
    destruct Step as (S1 & S2 & S3 & S4).
    split; [exact (listGrows_trans _ _ _ _ S1 I1)|].
    split; [exact (listGrows_trans _ _ _ _ S2 I2)|].
    split; [exact (listGrows_trans _ _ _ _ S3 I3) | exact (recordsGrow_trans _ _ _ S4 I4)].
Qed.

Lemma recordsGrow_values m m' :
  recordsGrow m m' ->
  exists kept added, mapValues m' = kept ++ added /\ Forall2 widened (mapValues m) kept.
Proof.
  intros (kept & added & -> & H).
  exists (mapValues kept), (mapValues added). split; [apply map_app|].
  unfold mapValues. induction H as [|x y m k [_ W] H IH]; constructor; assumption.
Qed.

(** X18: a longer log gives a longer result.  In batch [parseLog] the
    loot of a log is the loot of any of its beginnings with events added
    at the end, and its attendance holds the records of that beginning at
    their places, each with the same player and bounds that only moved
    outward, followed by new records.  The same holds of the watcher,
    whose published events, loot and zones are only ever added to. *)
Theorem results_only_grow :
  (forall host opts lines more,
     listGrows (Batch.loot (Batch.parseLog host opts lines))
               (Batch.loot (Batch.parseLog host opts (lines ++ more))) /\
     exists kept added,
       Batch.attendance (Batch.parseLog host opts (lines ++ more)) = kept ++ added /\
       Forall2 widened (Batch.attendance (Batch.parseLog host opts lines)) kept) /\
  (forall host cfg w lines more w2,
     Live.processLines host cfg w (lines ++ more) = Returned w2 ->
     exists w1,
       Live.processLines host cfg w lines = Returned w1 /\
       listGrows (Live.emitted w1) (Live.emitted w2) /\
       listGrows (Live.lootEvents w1) (Live.lootEvents w2) /\
       listGrows (Live.zones w1) (Live.zones w2) /\
       exists kept added,
         Live.sessionAttendance w2 = kept ++ added /\
         Forall2 widened (Live.sessionAttendance w1) kept).
Proof.
  split.
  - intros host opts lines more. unfold Batch.parseLog.
    rewrite batch_scan_app.
    destruct (batch_scan_grows host opts more (Batch.scan host opts Batch.init lines))
      as [G1 G2].
    split; [exact G1 | now apply recordsGrow_values].
  - intros host cfg w lines more w2. rewrite live_processLines_app.
    destruct (Live.processLines host cfg w lines) as [w1|]; [|discriminate].
    cbn [Live.andThen]. intros H. exists w1. split; [reflexivity|].
    destruct (live_processLines_grows host cfg more w1 w2 H) as (G1 & G2 & G3 & G4).
    split; [exact G2|]. split; [exact G1|]. split; [exact G3|].
    now apply recordsGrow_values.
Qed.

Lemma results_only_grow_witness :
  exists w1,
    Live.processLines sampleHost liveConfig (Live.create 0) (firstn 4 laterThenEarlier)
    = Returned w1 /\
    listGrows (Live.emitted w1) (Live.emitted sampleWatcher).
Proof.
  assert (H : Live.processLines sampleHost liveConfig (Live.create 0)
                (firstn 4 laterThenEarlier ++ skipn 4 laterThenEarlier)
              = Returned sampleWatcher) by (vm_compute; reflexivity).
  destruct (proj2 results_only_grow sampleHost liveConfig (Live.create 0)
              (firstn 4 laterThenEarlier) (skipn 4 laterThenEarlier) sampleWatcher H)
    as (w1 & H1 & H2 & _).
  exists w1. split; [exact H1 | exact H2].
Defined.
(** ** Counting the lines *)

Lemma batch_classify_lineCount opts zf ts content st :
  Batch.lineCount (Batch.classify opts zf ts content st) = Batch.lineCount st.
Proof. unfold Batch.classify. split_step; reflexivity. Qed.

Lemma batch_scan_lineCount host opts lines : forall st,
  Batch.lineCount (Batch.scan host opts st lines)
  = Batch.lineCount st + Z.of_nat (List.length lines).
Proof.
  unfold Batch.scan. induction lines as [|l ls IH]; intros st.
  - cbn [fold_left List.length]. lia.
  - cbn [fold_left List.length]. rewrite IH.
    assert (E : Batch.lineCount
                  (Batch.parseLine host opts (map normalizeZone (Batch.zones opts)) st l)
                = Batch.lineCount st + 1).
    { unfold Batch.parseLine. destruct (LINE_RE l) as [[tsStr content]|]; [|reflexivity].
      destruct (parseEQDate host tsStr) as [ts|]; [|reflexivity].
      now rewrite batch_classify_lineCount. }
    rewrite E. lia.
Qed.

Lemma auto_classify_lineCount opts utcTs content st st' :
  Auto.classify opts utcTs content st = Returned st' ->
  Auto.lineCount st' = Auto.lineCount st.
Proof.
  unfold Auto.classify.
  repeat match goal with
         | |- context [if ?b then _ else _] => destruct b
         | |- context [match ?x with Some _ => _ | None => _ end] => destruct x
         | |- context [let (_, _) := ?p in _] => destruct p
         | |- context [match ?x with true => _ | false => _ end] => destruct x
         end;
    try discriminate; intros [= <-]; reflexivity.
Qed.

Lemma auto_scan_lineCount host opts lines : forall st st',
  Auto.scan host opts st lines = Returned st' ->
  Auto.lineCount st' = Auto.lineCount st + Z.of_nat (List.length lines).
Proof.
  induction lines as [|l ls IH]; intros st st'; cbn [Auto.scan List.length].
  - intros [= <-]. lia.
  - destruct (Auto.parseLine host opts st l) as [st1|] eqn:E; [|discriminate].
    intros H. rewrite (IH st1 st' H).
    assert (E1 : Auto.lineCount st1 = Auto.lineCount st + 1).
    { revert E. unfold Auto.parseLine.
      destruct (LINE_RE l) as [[tsStr content]|]; [|now intros [= <-]].
      destruct (parseEQDateUTC host tsStr (Auto.timezone opts)) as [[utcTs|]|];
        [| now intros [= <-] | discriminate].
      intros H1. now rewrite (auto_classify_lineCount _ _ _ _ _ H1). }
    rewrite E1. lia.
Qed.

(** X13: the count a scan returns is the number of lines it was given,
    whatever the lines are (matched or not, inside the window or not), in
    batch [parseLog] and, when it returns, in [autoParseLog]. *)
Theorem every_line_is_counted :
  (forall host opts lines,
     Batch.lines_read (Batch.parseLog host opts lines) = Z.of_nat (List.length lines)) /\
  (forall host opts lines r,
     Auto.autoParseLog host opts lines = Returned r ->
     Auto.lines_read r = Z.of_nat (List.length lines)).
Proof.
  split.
  - intros host opts lines. unfold Batch.parseLog, Batch.finish. cbn [Batch.lines_read].
    now rewrite batch_scan_lineCount.
  - intros host opts lines r. unfold Auto.autoParseLog.
    destruct (Auto.scan host opts Auto.init lines) as [st|] eqn:E; [|discriminate].
    intros [= <-]. cbn [Auto.lines_read]. now rewrite (auto_scan_lineCount _ _ _ _ _ E).
Qed.
(** ** Sessions of the auto parser *)

Lemma raid_day_name t :
  Auto.isInRaidWindow (Some t) = true ->
  In (nth (Z.to_nat ((t / msPerDay + 4) mod 7)) Auto.DAY_NAMES []) raidDayNames.
Proof.
  intros H. apply auto_isInRaidWindow_spec in H.
  destruct H as (t0 & [= <-] & Hd & _).
  unfold Auto.RAID_UTC_DAYS in Hd. cbn [In] in Hd.
  destruct Hd as [<-|[<-|[<-|[<-|[]]]]]; vm_compute; tauto.
Qed.

Lemma sessionDated_all host opts lines r s :
  Auto.autoParseLog host opts lines = Returned r ->
  In s (Auto.sessions r) ->
  exists b, sessionDated b /\ sessionGated b /\ s = Auto.flatten b.
Proof.
  apply (auto_run_keeps sessionDated (fun _ => True)).
  - intros t W. split; [|split; [intros l [] | intros k a []]].
    exists t, t. cbn [freshSession Auto.firstSeen Auto.lastSeen Auto.date Auto.dayName].
    repeat split; try assumption; try reflexivity; lia.
  - intros t b W Hd G ((t0 & t1 & Hf & Hl & Hle & D0 & D1 & Hn & W0 & W1) & HL & HB).
    split; [|split; [exact HL | exact HB]].
    exists t0, t. cbn [withLastSeen Auto.firstSeen Auto.lastSeen Auto.date Auto.dayName].
    rewrite Hl in G. unfold date_gt, date_lt in G. apply Z.ltb_lt in G.
    repeat split; try assumption; try (symmetry; assumption); lia.
  - intros z b H. exact H.
  - intros t ps b W Hd _ (H1 & HL & HB). split; [exact H1|]. split; [exact HL|].
    cbn [Auto.attendanceMap Auto.addRoster Auto.date].
    apply flushRoster_bounds; [|exact HB]. exists t. now split.
  - intros line tsStr content t zn l b Hin Hline W Z Hc Hd (H1 & HL & HB).
    split; [exact H1|]. split; [|exact HB].
    cbn [Auto.loot Auto.addLoot Auto.date]. intros l' Hi.
    apply in_app_iff in Hi. destruct Hi as [Hi|[<-|[]]]; [now apply HL|].
    destruct (lootOfContent_line lines _ line tsStr content _ zn l Hin Hline Hc) as (_ & -> & _).
    exists t. now split.
  - intros. exact I.
Qed.

(** X19: every session [autoParseLog] returns is consistent with itself:
    [firstSeen] and [lastSeen] are valid instants inside the raid window,
    in this order, both on the UTC date the session is named after; the
    day name is that of this date and is one of Sunday, Wednesday, Friday
    and Saturday; and every loot event and every attendance bound of the
    session falls on that date. *)
Theorem sessions_are_dated :
  forall (host : Host) (opts : Auto.Opts) (lines : list str)
         (r : Auto.Result) (s : Auto.RaidSession),
    Auto.autoParseLog host opts lines = Returned r ->
    In s (Auto.sessions r) ->
    (exists t t',
       Auto.rs_firstSeen s = Some t /\ Auto.rs_lastSeen s = Some t' /\ t <= t' /\
       isoDate t = Auto.rs_date s /\ isoDate t' = Auto.rs_date s /\
       autoWindow (Some t) /\ autoWindow (Some t') /\
       Auto.rs_dayName s = nth (Z.to_nat ((t / msPerDay + 4) mod 7)) Auto.DAY_NAMES []) /\
    In (Auto.rs_dayName s) raidDayNames /\
    (forall l, In l (Auto.rs_loot s) -> onDate (Auto.rs_date s) (timestamp l)) /\
    (forall a, In a (Auto.rs_attendance s) ->
       onDate (Auto.rs_date s) (firstSeen a) /\ onDate (Auto.rs_date s) (lastSeen a)).
Proof.
  intros host opts lines r s Hr Hs.
  destruct (sessionDated_all host opts lines r s Hr Hs)
    as (b & ((t & t' & Hf & Hl & Hle & D0 & D1 & Hn & W0 & W1) & HL & HB) & _ & ->).
  cbn [Auto.flatten Auto.rs_firstSeen Auto.rs_lastSeen Auto.rs_date Auto.rs_dayName
       Auto.rs_loot Auto.rs_attendance].
  split; [|split; [|split]].
  - exists t, t'. repeat split; try assumption; now apply auto_isInRaidWindow_spec.
  - rewrite Hn. now apply raid_day_name.
  - exact HL.
  - intros a Hin. apply In_mapValues in Hin. destruct Hin as [k Hin]. now apply (HB k).
Qed.

Lemma sessions_are_dated_witness :
  In (Auto.rs_dayName scenarioCSession) raidDayNames.
Proof.
  refine (proj1 (proj2 (sessions_are_dated sampleHost utcOpts scenarioC scenarioCResult
                          scenarioCSession _ _))).
  - vm_compute. reflexivity.
  - vm_compute. tauto.
Defined.
(** ** The watcher's events *)

Lemma lootOfEvents_snoc es e :
  lootOfEvents (es ++ [e])
  = lootOfEvents es ++ match e with Live.EvLoot l _ => [l] | _ => [] end.
Proof. unfold lootOfEvents. rewrite flat_map_app. cbn [flat_map]. now rewrite app_nil_r. Qed.

Lemma zonesOfEvents_snoc es e :
  zonesOfEvents (es ++ [e])
  = match e with Live.EvZone z _ => setAdd z (zonesOfEvents es) | _ => zonesOfEvents es end.
Proof. unfold zonesOfEvents. rewrite fold_left_app. reflexivity. Qed.

Lemma lastRoster_snoc es e :
  lastRoster (es ++ [e])
  = match e with
    | Live.EvAttendance _ total _ allPlayers _ => Some (total, allPlayers)
    | _ => lastRoster es
    end.
Proof. unfold lastRoster. rewrite fold_left_app. reflexivity. Qed.

Lemma mirrorsEvents_create n : mirrorsEvents (Live.create n).
Proof. repeat split. intros l t []. Qed.

Lemma mirrorsEvents_pushLoot l t w :
  timestamp l = Some t -> mirrorsEvents w -> mirrorsEvents (Live.pushLoot l t w).
Proof.
  intros Ht (H1 & H2 & H3 & H4).
  unfold mirrorsEvents. cbn [Live.lootEvents Live.emitted Live.zones Live.attendanceMap
                            Live.pushLoot].
  rewrite lootOfEvents_snoc, zonesOfEvents_snoc, lastRoster_snoc, H1.
  split; [reflexivity|]. split; [exact H2|]. split; [exact H3|].
  intros l' t' Hin. apply in_app_iff in Hin.
  destruct Hin as [Hin|[[= <- <-]|[]]]; [now apply H4 | exact Ht].
Qed.

Lemma live_classify_mirrors cfg utcTs content w w' :
  mirrorsEvents w -> Live.classify cfg utcTs content w = Returned w' -> mirrorsEvents w'.
Proof.
  intros Hw. pose proof Hw as (H1 & H2 & H3 & H4). unfold Live.classify.
  destruct (ZONE_ENTRY_RE content) as [z|].
  { destruct utcTs as [t|]; [|discriminate]. intros [= <-].
    unfold mirrorsEvents. cbn [Live.lootEvents Live.emitted Live.zones Live.attendanceMap
                              Live.enterZone].
    rewrite lootOfEvents_snoc, zonesOfEvents_snoc, lastRoster_snoc, app_nil_r, H2.
    split; [exact H1|]. split; [reflexivity|]. split; [exact H3|].
    intros l' t' Hin. apply in_app_iff in Hin.
    destruct Hin as [Hin|[Hin|[]]]; [now apply H4 | discriminate Hin]. }
  destruct (str_eqb content whoStart).
  { destruct (Live.isInRaidWindow cfg utcTs); intros [= <-]; exact Hw. }
  destruct (Live.inWhoBlock w).
  - destruct (str_eqb content whoSeparator); [intros [= <-]; exact Hw|].
    destruct (WHO_FOOTER_RE content) as [whoZone|].
    + destruct (negb (Live.isApprovedZone cfg (Some whoZone))); [intros [= <-]; exact Hw|].
      cbn [Live.whoBlockUTC Live.closeBlock Live.whoPlayers Live.attendanceMap].
      destruct (fold_left (Live.upsert (Live.whoBlockUTC w)) (Live.whoPlayers w)
                          (Live.attendanceMap w, [])) as [m newPlayers].
      destruct (Live.whoBlockUTC w) as [t|]; [|discriminate]. intros [= <-].
      unfold mirrorsEvents.
      cbn [Live.lootEvents Live.emitted Live.zones Live.attendanceMap Live.recordRoster
           Live.closeBlock].
      rewrite lootOfEvents_snoc, zonesOfEvents_snoc, lastRoster_snoc, app_nil_r.
      split; [exact H1|]. split; [exact H2|]. split; [now split|].
      intros l' t' Hin. apply in_app_iff in Hin.
      destruct Hin as [Hin|[Hin|[]]]; [now apply H4 | discriminate Hin].
    + destruct (WHO_PLAYER_RE content); intros [= <-]; exact Hw.
  - destruct (negb (Live.isInRaidWindow cfg utcTs)
              || negb (Live.isApprovedZone cfg (Live.currentZone w)));
      [intros [= <-]; exact Hw|].
    destruct (SELF_LOOT_RE content) as [it|];
      destruct (Live.truthy (Live.characterName cfg));
      try (destruct (OTHER_LOOT_RE content) as [[who item]|]);
      try (destruct utcTs as [t|]; [|discriminate]);
      intros [= <-]; try exact Hw; now apply mirrorsEvents_pushLoot.
Qed.

Lemma live_processLines_mirrors host cfg lines : forall w w',
  mirrorsEvents w -> Live.processLines host cfg w lines = Returned w' -> mirrorsEvents w'.
Proof.
  induction lines as [|l ls IH]; intros w w' Hw; cbn [Live.processLines].
  - now intros [= <-].
  - destruct (Live.processLine host cfg w l) as [w1|] eqn:E; [|discriminate].
    apply IH. revert E. unfold Live.processLine.
    destruct (LINE_RE l) as [[tsStr content]|]; [|now intros [= <-]].
    destruct (parseEQDateUTC host tsStr (Live.timezone cfg)) as [[utcTs|]|];
      [| now intros [= <-] | discriminate].
    now apply live_classify_mirrors.
Qed.

(** X20: what the watcher holds is what it has published.  After any
    lines, its loot list is the loot of its loot events in order, each
    published with the instant of its loot; its zones are the zones of its
    zone events, each once, in order of first appearance; and the total
    and the names of the last attendance event are the size and the keys
    of its attendance map, which is empty while no such event was
    published. *)
Theorem watcher_state_mirrors_events :
  forall (host : Host) (cfg : Live.Config) (n : nat) (lines : list str) (w : Live.Watcher),
    Live.processLines host cfg (Live.create n) lines = Returned w ->
    Live.lootEvents w = lootOfEvents (Live.emitted w) /\
    Live.zones w = zonesOfEvents (Live.emitted w) /\
    match lastRoster (Live.emitted w) with
    | Some (total, allPlayers) =>
        total = List.length (Live.sessionAttendance w) /\
        allPlayers = mapKeys (Live.attendanceMap w)
    | None => Live.sessionAttendance w = []
    end /\
    (forall l t, In (Live.EvLoot l t) (Live.emitted w) -> timestamp l = Some t).
Proof.
  intros host cfg n lines w H.
  destruct (live_processLines_mirrors host cfg lines (Live.create n) w
              (mirrorsEvents_create n) H) as (H1 & H2 & H3 & H4).
  split; [exact H1|]. split; [exact H2|]. split; [|exact H4].
  unfold Live.sessionAttendance, mapValues.
  destruct (lastRoster (Live.emitted w)) as [[total allPlayers]|].
  - destruct H3 as [-> ->]. split; [now rewrite length_map | reflexivity].
  - now rewrite H3.
Qed.

Lemma watcher_state_mirrors_witness :
  lastRoster (Live.emitted sampleWatcher) = Some (1%nat, [lit "lyri"]) /\
  Live.zones sampleWatcher = zonesOfEvents (Live.emitted sampleWatcher).
Proof.
  split; [vm_compute; reflexivity|].
  refine (proj1 (proj2 (watcher_state_mirrors_events sampleHost liveConfig 0%nat
                          laterThenEarlier sampleWatcher _))).
  vm_compute. reflexivity.
Defined.
(** *** The attendance event *)

Lemma live_upsert_keys t m np p :
  let r := Live.upsert t (m, np) p in
  exists added,
    mapKeys (fst r) = mapKeys m ++ map hasKey added /\ snd r = np ++ added /\
    (forall q, In q added -> q = p /\ ~ In (hasKey p) (mapKeys m)).
Proof.
  unfold Live.upsert. fold (hasKey p).
  destruct (mapGet (hasKey p) m) as [existing|] eqn:E.
  - exists []. destruct (date_gt t (lastSeen existing)); cbn [fst snd map];
      rewrite !app_nil_r.
    + split; [eapply mapKeys_mapSet_present; exact E|].
      split; [reflexivity|]. intros q0 [].
    + split; [reflexivity|]. split; [reflexivity|]. intros q0 [].
  - exists [p]. cbn [fst snd map]. split; [now apply mapKeys_mapSet_absent|].
    split; [reflexivity|]. intros q [<-|[]]. split; [reflexivity|].
    now apply mapGet_None_keys.
Qed.

Lemma live_flush_keys t ps : forall m np,
  let r := fold_left (Live.upsert t) ps (m, np) in
  exists added,
    mapKeys (fst r) = mapKeys m ++ map hasKey added /\ snd r = np ++ added /\
    (forall q, In q added -> In q ps /\ ~ In (hasKey q) (mapKeys m)).
Proof.
  induction ps as [|p ps IH]; intros m np; cbv zeta.
  - exists []. cbn [fold_left fst snd map]. rewrite !app_nil_r.
    split; [reflexivity|]. split; [reflexivity|]. intros q0 [].
  - cbn [fold_left].
    destruct (live_upsert_keys t m np p) as (a1 & K1 & N1 & A1). cbv zeta in K1, N1.
    destruct (Live.upsert t (m, np) p) as [m1 np1]. cbn [fst snd] in K1, N1. subst np1.
    destruct (IH m1 (np ++ a1)) as (a2 & K2 & N2 & A2). cbv zeta in K2, N2.
    exists (a1 ++ a2). rewrite K2, N2, K1, map_app, !app_assoc.
    split; [reflexivity|]. split; [reflexivity|].
    intros q Hq. apply in_app_iff in Hq. destruct Hq as [Hq|Hq].
    + destruct (A1 q Hq) as [-> Hn]. split; [now left | exact Hn].
    + destruct (A2 q Hq) as [Hin Hn]. split; [now right|].
      intros Hc. apply Hn. rewrite K1. apply in_app_iff. now left.
Qed.

(** X21: when a footer closes an open block in an approved zone, the
    watcher publishes one attendance event whose [newPlayers] are players
    of the block under names the map did not hold before; the names of the
    map are the former ones followed by those of [newPlayers], without
    repeats, and the total is the former size plus the number of new
    players. *)
Theorem attendance_event_reports_new_players :
  forall (cfg : Live.Config) (utcTs : Date) (content whoZone : str) (w w' : Live.Watcher),
    Live.inWhoBlock w = true ->
    WHO_FOOTER_RE content = Some whoZone ->
    Live.isApprovedZone cfg (Some whoZone) = true ->
    NoDup (mapKeys (Live.attendanceMap w)) ->
    Live.classify cfg utcTs content w = Returned w' ->
    exists newPlayers t,
      Live.whoBlockUTC w = Some t /\
      Live.emitted w'
      = Live.emitted w
        ++ [Live.EvAttendance whoZone (List.length (Live.attendanceMap w')) newPlayers
                              (mapKeys (Live.attendanceMap w')) t] /\
      mapKeys (Live.attendanceMap w')
      = mapKeys (Live.attendanceMap w) ++ map hasKey newPlayers /\
      NoDup (mapKeys (Live.attendanceMap w')) /\
      List.length (Live.attendanceMap w')
      = (List.length (Live.attendanceMap w) + List.length newPlayers)%nat /\
      (forall p, In p newPlayers ->
         In p (Live.whoPlayers w) /\ ~ In (hasKey p) (mapKeys (Live.attendanceMap w))).
Proof.
  intros cfg utcTs content whoZone w w' B F Z Hnd.
  destruct (content_heads content) as (Hz & Hs & Hf & _ & Hd).
  assert (Hh : hd_error content = Some "T"%char) by (apply Hf; now rewrite F).
  unfold Live.classify.
  destruct (ZONE_ENTRY_RE content) as [z|] eqn:Ez.
  { specialize (Hz eq_refl). congruence. }
  destruct (str_eqb content whoStart) eqn:Es.
  { specialize (Hs eq_refl). congruence. }
  rewrite B.
  destruct (str_eqb content whoSeparator) eqn:Ed.
  { assert (hd_error content = Some "-"%char) by (apply Hd; now left). congruence. }
  rewrite F, Z. cbn [negb].
  cbn [Live.whoBlockUTC Live.closeBlock Live.whoPlayers Live.attendanceMap].
  destruct (live_flush_keys (Live.whoBlockUTC w) (Live.whoPlayers w)
              (Live.attendanceMap w) []) as (added & K & N & A).
  cbv zeta in K, N.
  assert (Hnd' : NoDup (mapKeys (fst (fold_left (Live.upsert (Live.whoBlockUTC w))
                                                (Live.whoPlayers w)
                                                (Live.attendanceMap w, []))))).
  { generalize (Live.whoPlayers w) (Live.attendanceMap w) (@nil Player) Hnd.
    intros ps. induction ps as [|p ps IH]; intros m np Hm; [exact Hm|].
    cbn [fold_left]. destruct (Live.upsert (Live.whoBlockUTC w) (m, np) p) as [m1 np1] eqn:E.
    apply IH. change m1 with (fst (m1, np1)). rewrite <- E. now apply live_upsert_NoDup. }
  destruct (fold_left (Live.upsert (Live.whoBlockUTC w)) (Live.whoPlayers w)
                      (Live.attendanceMap w, [])) as [m newPlayers].
  cbn [fst snd app] in K, N, Hnd'. subst newPlayers.
  destruct (Live.whoBlockUTC w) as [t|]; [|discriminate]. intros [= <-].
  exists added, t.
  cbn [Live.emitted Live.attendanceMap Live.recordRoster Live.closeBlock].
  split; [reflexivity|]. split; [reflexivity|]. split; [exact K|]. split; [exact Hnd'|].
  split; [|exact A].
  assert (L : forall (V : Type) (x : jsMap V), List.length x = List.length (mapKeys x))
    by (intros V x; unfold mapKeys; now rewrite length_map).
  rewrite (L _ m), K, length_app, length_map. now rewrite <- L.
Qed.

Lemma attendance_event_witness :
  exists newPlayers t,
    Live.whoBlockUTC (returnedOr (Live.create 0)
        (Live.processLines sampleHost liveConfig (Live.create 0) (firstn 3 laterThenEarlier)))
    = Some t /\
    map name newPlayers = [lit "Lyri"].
Proof.
  destruct (attendance_event_reports_new_players liveConfig (Some 1769004000000)
              (lit "There are 1 players in The Deep.") (lit "The Deep")
              (returnedOr (Live.create 0)
                 (Live.processLines sampleHost liveConfig (Live.create 0)
                    (firstn 3 laterThenEarlier)))
              (returnedOr (Live.create 0)
                 (Live.processLines sampleHost liveConfig (Live.create 0)
                    (firstn 4 laterThenEarlier))))
    as (np & t & H1 & H2 & _).
  - vm_compute. reflexivity.
  - vm_compute. reflexivity.
  - vm_compute. reflexivity.
  - vm_compute. constructor.
  - vm_compute. reflexivity.
  - exists np, t. split; [exact H1|].
    revert H2. vm_compute. now intros [= <- _].
Defined.
(** ** A read of many lines *)

Lemma splitLines_join : forall ls partial,
  Forall noLF ls -> noLF partial ->
  Live.splitLines (joinLines ls ++ partial) = map chomp ls ++ [partial].
Proof.
  induction ls as [|l ls IH]; intros partial Hls Hp.
  - cbn [joinLines map List.concat app]. now apply splitLines_noLF.
  - inversion Hls as [|x xs Hl Hls']; subst.
    change (joinLines (l :: ls)) with ((l ++ [Live.LF]) ++ joinLines ls).
    rewrite <- !app_assoc. cbn [app].
    rewrite (splitLines_line l _ Hl). cbn [map app]. f_equal.
    now apply IH.
Qed.

Lemma join_withCarry carry ls partial :
  carry ++ joinLines ls ++ partial
  = joinLines (withCarry carry ls) ++ carryAfter carry ls partial.
Proof.
  destruct ls as [|l r]; [reflexivity|].
  cbn [withCarry carryAfter].
  change (joinLines (l :: r)) with ((l ++ [Live.LF]) ++ joinLines r).
  change (joinLines ((carry ++ l) :: r)) with (((carry ++ l) ++ [Live.LF]) ++ joinLines r).
  now rewrite <- !app_assoc.
Qed.

Lemma removelast_snoc (A : Type) (xs : list A) y : removelast (xs ++ [y]) = xs.
Proof. apply removelast_last. Qed.

Lemma last_snoc (A : Type) (xs : list A) y d : last (xs ++ [y]) d = y.
Proof. apply last_last. Qed.

Lemma setSplit_same w : Live.setSplit (Live.offset w) (Live.pendingChunk w) w = w.
Proof. now destruct w. Qed.

(** X22: one read of the watcher, whatever it holds.  When the file has
    grown by any number of complete lines and an unfinished tail, all of
    single-byte characters, the read processes exactly those lines in
    their order (the first one completed by what the last read left
    over, each without the carriage return before its line feed), moves
    the offset to the end of the file and keeps the tail for the next
    read. *)
Theorem one_read_processes_the_complete_lines :
  forall (host : Host) (cfg : Live.Config) (w : Live.Watcher)
         (f0 : list ascii) (ls : list str) (partial : str),
    Live.offset w = List.length f0 ->
    noLF (Live.pendingChunk w) -> Forall noLF ls -> noLF partial ->
    Live.singleBytes (joinLines ls ++ partial) = true ->
    let file := f0 ++ joinLines ls ++ partial in
    Live.readNew host cfg w file
    = Some (mapOutcome
        (Live.setSplit (List.length file) (carryAfter (Live.pendingChunk w) ls partial))
        (Live.processLines host cfg w (map chomp (withCarry (Live.pendingChunk w) ls)))).
Proof.
  intros host cfg w f0 ls partial Ho Hc Hls Hp Hb file. subst file.
  destruct (joinLines ls ++ partial) as [|c0 chunk] eqn:Echunk.
  - assert (ls = [] /\ partial = []) as [-> ->].
    { destruct ls as [|l r].
      - now destruct partial.
      - change (joinLines (l :: r)) with ((l ++ [Live.LF]) ++ joinLines r) in Echunk.
        rewrite <- !app_assoc in Echunk. destruct l; discriminate Echunk. }
    rewrite (readNew_nothing host cfg w f0 Ho).
    cbn [withCarry carryAfter map Live.processLines mapOutcome].
    rewrite !app_nil_r, <- Ho. now rewrite setSplit_same.
  - rewrite <- Echunk in Hb |- *.
    rewrite (readNew_chunk host cfg w f0 _ Ho) by (exact Hb || (rewrite Echunk; discriminate)).
    rewrite (join_withCarry (Live.pendingChunk w) ls partial).
    assert (Hw : Forall noLF (withCarry (Live.pendingChunk w) ls)).
    { destruct ls as [|l r]; [constructor|]. inversion Hls; subst.
      constructor; [now apply noLF_app | assumption]. }
    assert (Ht : noLF (carryAfter (Live.pendingChunk w) ls partial)).
    { destruct ls as [|l r]; [now apply noLF_app | exact Hp]. }
    rewrite (splitLines_join _ _ Hw Ht).
    rewrite removelast_snoc, last_snoc.
    now rewrite live_processLines_setSplit.
Qed.

Lemma one_read_witness :
  Live.readNew sampleHost liveConfig
    (Live.setSplit 0 (lit "[Wed Jan 21 13:59:00 2026] You have ent") (Live.create 0))
    ([] ++ joinLines [lit "ered The Deep."; firstLine] ++ partialLine)
  = Some (mapOutcome
      (Live.setSplit
         (List.length ([] ++ joinLines [lit "ered The Deep."; firstLine] ++ partialLine))
         partialLine)
      (Live.processLines sampleHost liveConfig
         (Live.setSplit 0 (lit "[Wed Jan 21 13:59:00 2026] You have ent") (Live.create 0))
         [lit "[Wed Jan 21 13:59:00 2026] You have entered The Deep."; firstLine])).
Proof.
  apply (one_read_processes_the_complete_lines sampleHost liveConfig
           (Live.setSplit 0 (lit "[Wed Jan 21 13:59:00 2026] You have ent") (Live.create 0))
           [] [lit "ered The Deep."; firstLine] partialLine).
  - reflexivity.
  - apply noLF_check. reflexivity.
  - repeat constructor; apply noLF_check; reflexivity.
  - apply noLF_check. reflexivity.
  - vm_compute. reflexivity.
Defined.
(** ** The watcher's snapshot *)

Lemma padDigits_length : forall w n, List.length (padDigits w n) = w.
Proof.
  induction w as [|w IH]; intros n; [reflexivity|].
  cbn [padDigits]. rewrite length_app, IH. cbn [List.length]. lia.
Qed.

Lemma firstn_exact (A : Type) (a b : list A) n :
  List.length a = n -> firstn n (a ++ b) = a.
Proof.
  intros <-. rewrite firstn_app, Nat.sub_diag, firstn_all. cbn [firstn]. apply app_nil_r.
Qed.

Lemma firstn_within (A : Type) (a b : list A) n :
  (n <= List.length a)%nat -> firstn n (a ++ b) = firstn n a.
Proof.
  intros H. rewrite firstn_app. replace (n - List.length a)%nat with 0%nat by lia.
  cbn [firstn]. apply app_nil_r.
Qed.

(** The first ten characters of [toISOString] are the date [isoDate]
    gives. *)
Lemma toISOString_date t : firstn 10 (toISOString t) = isoDate t.
Proof.
  unfold toISOString, isoDate.
  destruct (civilFromDays (t / msPerDay)) as [[y m] d].
  destruct ((0 <=? y) && (y <=? 9999)).
  - rewrite <- (firstn_exact _ (padDigits 4 y ++ lit "-" ++ padDigits 2 m ++ lit "-" ++ padDigits 2 d)
                  (lit "T" ++ padDigits 2 ((t / msPerHour) mod 24)
                   ++ lit ":" ++ padDigits 2 ((t / msPerMinute) mod 60)
                   ++ lit ":" ++ padDigits 2 ((t / msPerSecond) mod 60)
                   ++ lit "." ++ padDigits 3 (t mod msPerSecond) ++ lit "Z") 10%nat).
    + now rewrite <- !app_assoc.
    + rewrite !length_app, !padDigits_length. reflexivity.
  - rewrite <- (firstn_within _
                  ((if y <? 0 then lit "-" else lit "+") ++ padDigits 6 (Z.abs y)
                   ++ lit "-" ++ padDigits 2 m ++ lit "-" ++ padDigits 2 d)
                  (lit "T" ++ padDigits 2 ((t / msPerHour) mod 24)
                   ++ lit ":" ++ padDigits 2 ((t / msPerMinute) mod 60)
                   ++ lit ":" ++ padDigits 2 ((t / msPerSecond) mod 60)
                   ++ lit "." ++ padDigits 3 (t mod msPerSecond) ++ lit "Z") 10%nat).
    + now rewrite <- !app_assoc.
    + rewrite !length_app, !padDigits_length. destruct (y <? 0); cbn; lia.
Qed.

(** Of numbers none of which is NaN, [Math.min] and [Math.max] return
    one of them, on the right side of all. *)
Lemma pick_fold (pick : Z -> Z -> Z) (le : Z -> Z -> Prop) :
  (forall a b, le (pick a b) a /\ le (pick a b) b /\ (pick a b = a \/ pick a b = b)) ->
  (forall a, le a a) -> (forall a b c, le a b -> le b c -> le a c) ->
  forall ts x,
    exists m,
      fold_left (pickNumber pick) (map Some ts) (Some x) = Some m /\
      le m x /\ (forall t, In t ts -> le m t) /\ In m (x :: ts).
Proof.
  intros Hpick Hrefl Htrans. induction ts as [|t ts IH]; intros x.
  - exists x. cbn. repeat split; [apply Hrefl | intros t [] | now left].
  - cbn [map fold_left pickNumber].
    destruct (IH (pick x t)) as (m & E & Hx & Hts & Hin).
    destruct (Hpick x t) as (P1 & P2 & P3).
    exists m. split; [exact E|]. split; [now apply (Htrans _ (pick x t))|]. split.
    + intros t' [<-|Hi]; [now apply (Htrans _ (pick x t)) | now apply Hts].
    + destruct Hin as [<-|Hin]; [|now right; right].
      destruct P3 as [-> | ->]; [now left | now right; left].
Qed.

Lemma Math_min_spec ts x :
  exists m, Math_min (Some x) (map Some ts) = Some m /\
            m <= x /\ (forall t, In t ts -> m <= t) /\ In m (x :: ts).
Proof.
  apply (pick_fold Z.min Z.le); intros; lia.
Qed.

Lemma Math_max_spec ts x :
  exists m, Math_max (Some x) (map Some ts) = Some m /\
            x <= m /\ (forall t, In t ts -> t <= m) /\ In m (x :: ts).
Proof.
  apply (pick_fold Z.max (fun a b => b <= a)); intros; lia.
Qed.

Lemma clipped_TimeClip x : clipped (TimeClip x).
Proof.
  unfold TimeClip. destruct (Z.abs x <=? 8640000000000000) eqn:E; [|exact I].
  unfold clipped, TimeClip. now rewrite E.
Qed.

Lemma localToUTC_clipped host y mo d h mi s tz r :
  localToUTC host y mo d h mi s tz = Returned r -> clipped r.
Proof.
  unfold localToUTC.
  destruct (zoneDisplay host tz) as [f|]; [|discriminate].
  destruct (DateUTC y mo d h mi s) as [fake|]; [|discriminate].
  cbv zeta.
  destruct (DateUTC _ _ _ _ _ _) as [lv|]; intros [= <-]; [apply clipped_TimeClip | exact I].
Qed.

Lemma parseEQDateUTC_clipped host tsStr tz d :
  parseEQDateUTC host tsStr tz = Returned (Some d) -> clipped d.
Proof.
  unfold parseEQDateUTC.
  destruct (search dateShapeAt tsStr) as [[[[[[mon day] h] mi] sec] year]|]; [|discriminate].
  destruct (localToUTC _ _ _ _ _ _ _ _) as [r|] eqn:E; [|discriminate].
  intros [= <-]. now apply (localToUTC_clipped _ _ _ _ _ _ _ _ _ E).
Qed.

Lemma datesClipped_create n : datesClipped (Live.create n).
Proof. split; [apply soundRecords_nil | exact I]. Qed.

Lemma live_classify_clipped cfg utcTs content w w' :
  clipped utcTs -> datesClipped w ->
  Live.classify cfg utcTs content w = Returned w' -> datesClipped w'.
Proof.
  intros Hc [Hm Hb]. unfold Live.classify.
  destruct (ZONE_ENTRY_RE content) as [z|].
  { destruct utcTs as [t|]; [|discriminate]. intros [= <-]. now split. }
  destruct (str_eqb content whoStart).
  { destruct (Live.isInRaidWindow cfg utcTs); intros [= <-]; now split. }
  destruct (Live.inWhoBlock w).
  - destruct (str_eqb content whoSeparator); [intros [= <-]; now split|].
    destruct (WHO_FOOTER_RE content) as [whoZone|].
    + destruct (negb (Live.isApprovedZone cfg (Some whoZone))); [intros [= <-]; now split|].
      cbn [Live.whoBlockUTC Live.closeBlock Live.whoPlayers Live.attendanceMap].
      pose proof (live_flush_sound clipped (fun _ => True) (Live.whoBlockUTC w)
                    (Live.whoPlayers w) (Live.attendanceMap w) [] Hb (fun _ _ => I) Hm) as Hf.
      destruct (fold_left (Live.upsert (Live.whoBlockUTC w)) (Live.whoPlayers w)
                          (Live.attendanceMap w, [])) as [m newPlayers].
      cbn [fst] in Hf.
      destruct (Live.whoBlockUTC w) as [t|] eqn:Et; [|discriminate]. intros [= <-].
      split; [exact Hf|]. cbn. now rewrite Et.
    + destruct (WHO_PLAYER_RE content) as [m|]; intros [= <-]; now split.
  - destruct (negb (Live.isInRaidWindow cfg utcTs)
              || negb (Live.isApprovedZone cfg (Live.currentZone w)));
      [intros [= <-]; now split|].
    destruct (SELF_LOOT_RE content) as [it|];
      destruct (Live.truthy (Live.characterName cfg));
      try (destruct (OTHER_LOOT_RE content) as [[who item]|]);
      try (destruct utcTs as [t|]; [|discriminate]);
      intros [= <-]; now split.
Qed.

Lemma live_processLines_clipped host cfg : forall ls w w',
  datesClipped w -> Live.processLines host cfg w ls = Returned w' -> datesClipped w'.
Proof.
  induction ls as [|l ls IH]; intros w w' Hw; cbn [Live.processLines].
  - now intros [= <-].
  - destruct (Live.processLine host cfg w l) as [w1|] eqn:E; [|discriminate].
    apply IH. revert E. unfold Live.processLine.
    destruct (LINE_RE l) as [[tsStr content]|]; [|now intros [= <-]].
    destruct (parseEQDateUTC host tsStr (Live.timezone cfg)) as [[utcTs|]|] eqn:Ep;
      [| now intros [= <-] | discriminate].
    apply live_classify_clipped; [|exact Hw].
    now apply (parseEQDateUTC_clipped host tsStr (Live.timezone cfg)).
Qed.

Lemma map_valid (A : Type) (g : A -> Date) (l : list A) :
  (forall a, In a l -> exists t, g a = Some t) ->
  exists ts, map g l = map Some ts /\
             (forall a t, In a l -> g a = Some t -> In t ts) /\
             (forall t, In t ts -> exists a, In a l /\ g a = Some t).
Proof.
  induction l as [|a l IH]; intros H.
  - exists []. repeat split; [intros a t [] | intros t []].
  - destruct (H a (or_introl eq_refl)) as [t Ht].
    destruct IH as (ts & E & Hin & Hex); [intros b Hb; apply H; now right|].
    exists (t :: ts). cbn [map]. rewrite Ht, E. repeat split.
    + intros b u [<-|Hb] Hu; [rewrite Ht in Hu; injection Hu as <-; now left|].
      right. now apply (Hin b).
    + intros u [<-|Hu]; [exists a; split; [now left | exact Ht]|].
      destruct (Hex u Hu) as (b & Hb & Eb). exists b. split; [now right | exact Eb].
Qed.

(** The bounds of a snapshot, given records whose own bounds are valid,
    in order and within what a Date can hold. *)
Lemma snapshot_bounds now att :
  (forall a, In a att ->
     exists fa la, firstSeen a = Some fa /\ lastSeen a = Some la /\ fa <= la /\
                   TimeClip fa = Some fa /\ TimeClip la = Some la) ->
  exists f l,
    Snapshot.earliest now att = Some f /\ Snapshot.latest now att = Some l /\ f <= l /\
    (forall a, In a att ->
       exists fa la, firstSeen a = Some fa /\ lastSeen a = Some la /\ f <= fa /\ la <= l) /\
    (att = [] -> f = now /\ l = now) /\
    (att <> [] -> (exists a, In a att /\ firstSeen a = Some f) /\
                  (exists a, In a att /\ lastSeen a = Some l)).
Proof.
  intros H. destruct att as [|a0 rest].
  - exists now, now. cbn [Snapshot.earliest Snapshot.latest map].
    split; [reflexivity|]. split; [reflexivity|]. split; [lia|].
    split; [intros a []|]. split; [now intros _ | intros Hne; now elim Hne].
  - destruct (map_valid _ (fun a => firstSeen a) (a0 :: rest)) as (fs & Ef & Hf1 & Hf2).
    { intros a Ha. destruct (H a Ha) as (fa & la & E & _). now exists fa. }
    destruct (map_valid _ (fun a => lastSeen a) (a0 :: rest)) as (ls & El & Hl1 & Hl2).
    { intros a Ha. destruct (H a Ha) as (fa & la & _ & E & _). now exists la. }
    unfold Snapshot.earliest, Snapshot.latest. rewrite Ef, El.
    destruct fs as [|f0 fs]; [discriminate Ef|]. destruct ls as [|l0 ls]; [discriminate El|].
    cbn [map].
    destruct (Math_min_spec fs f0) as (f & Emin & Hf0 & Hfs & Hfin).
    destruct (Math_max_spec ls l0) as (l & Emax & Hl0 & Hls & Hlin).
    rewrite Emin, Emax. cbn [dateOfNumber].
    destruct (Hf2 f Hfin) as (af & Haf & Eaf).
    destruct (Hl2 l Hlin) as (al & Hal & Eal).
    assert (Lf : forall t, In t (f0 :: fs) -> f <= t).
    { intros t [<-|Ht]; [exact Hf0 | now apply Hfs]. }
    assert (Ll : forall t, In t (l0 :: ls) -> t <= l).
    { intros t [<-|Ht]; [exact Hl0 | now apply Hls]. }
    exists f, l.
    destruct (H af Haf) as (x & y & Ex & _ & _ & Cx & _).
    destruct (H al Hal) as (x' & y' & Ex' & Ey' & Hxy' & _ & Cy').
    cbn beta in Eaf, Eal.
    rewrite Eaf in Ex. injection Ex as <-. rewrite Eal in Ey'. injection Ey' as <-.
    split; [exact Cx|]. split; [exact Cy'|]. split.
    { pose proof (Lf x' (Hf1 al x' Hal Ex')). lia. }
    split; [|split].
    + intros a Ha. destruct (H a Ha) as (fa & la & Efa & Ela & _).
      exists fa, la. repeat split; try assumption.
      * apply Lf. now apply (Hf1 a).
      * apply Ll. now apply (Hl1 a).
    + discriminate.
    + intros _. split; [now exists af | now exists al].
Qed.

Lemma window_valid cfg d : Live.isInRaidWindow cfg d = true -> exists t, d = Some t.
Proof. destruct d as [t|]; [now exists t | discriminate]. Qed.

(** X23: [getSessionData] on the watcher after any lines.  It returns (no
    Invalid Date reaches [toISOString]); [date] is the UTC calendar date of
    [firstSeen]; [firstSeen] is not after [lastSeen] and the bounds of
    every record lie between the two; without records both are the
    clock's reading, and with records each is a bound of some record and
    an instant of the raid window. *)
Theorem snapshot_after_any_lines :
  forall (host : Host) (cfg : Live.Config) (n : nat) (lines : list str)
         (w : Live.Watcher) (now : Z),
    Live.processLines host cfg (Live.create n) lines = Returned w ->
    exists sd f l,
      Snapshot.getSessionData now w = Returned sd /\
      Snapshot.firstSeen sd = toISOString f /\ Snapshot.lastSeen sd = toISOString l /\
      Snapshot.date sd = isoDate f /\ f <= l /\
      (forall a, In a (Snapshot.attendance sd) ->
         exists fa la, firstSeen a = Some fa /\ lastSeen a = Some la /\ f <= fa /\ la <= l) /\
      (Snapshot.attendance sd = [] -> f = now /\ l = now) /\
      (Snapshot.attendance sd <> [] ->
         (exists a, In a (Snapshot.attendance sd) /\ firstSeen a = Some f) /\
         (exists a, In a (Snapshot.attendance sd) /\ lastSeen a = Some l) /\
         Live.isInRaidWindow cfg (Some f) = true /\
         Live.isInRaidWindow cfg (Some l) = true).
Proof.
  intros host cfg n lines w now Hw.
  destruct (live_run_keeps (fun d => Live.isInRaidWindow cfg d = true) (fun _ => True)
              (fun _ => True) host cfg lines (fun d H => H) (fun _ _ _ _ _ _ _ => I)
              (fun _ _ _ _ _ _ _ _ _ _ _ => I) n w Hw) as (Hk & _).
  destruct (live_processLines_clipped host cfg lines _ w (datesClipped_create n) Hw)
    as (Hc & _).
  destruct (snapshot_bounds now (mapValues (Live.attendanceMap w)))
    as (f & l & Ef & El & Hfl & Hall & Hnone & Hsome).
  { intros a Ha.
    destruct (soundRecords_values _ _ _ a Hk Ha) as (Ho & _ & Wf & Wl).
    destruct (soundRecords_values _ _ _ a Hc Ha) as (_ & _ & Cf & Cl).
    destruct (window_valid _ _ Wf) as [fa Efa]. destruct (window_valid _ _ Wl) as [la Ela].
    rewrite Efa in Cf. rewrite Ela in Cl.
    exists fa, la. repeat split; try assumption. now apply (spanOrdered_le a). }
  exists (Snapshot.mkSessionData (firstn 10 (toISOString f))
            (nth (Z.to_nat ((f / msPerDay + 4) mod 7)) Snapshot.dayNames [])
            (Live.zones w) (mapValues (Live.attendanceMap w)) (Live.lootEvents w)
            (toISOString f) (toISOString l)), f, l.
  unfold Snapshot.getSessionData. cbv zeta. rewrite Ef, El.
  cbn [Snapshot.firstSeen Snapshot.lastSeen Snapshot.date Snapshot.attendance].
  split; [reflexivity|]. split; [reflexivity|]. split; [reflexivity|].
  split; [apply toISOString_date|]. split; [exact Hfl|]. split; [exact Hall|].
  split; [exact Hnone|].
  intros Hne. destruct (Hsome Hne) as ((af & Haf & Eaf) & (al & Hal & Eal)).
  split; [now exists af|]. split; [now exists al|].
  split.
  - destruct (soundRecords_values _ _ _ af Hk Haf) as (_ & _ & Wf & _). now rewrite Eaf in Wf.
  - destruct (soundRecords_values _ _ _ al Hk Hal) as (_ & _ & _ & Wl). now rewrite Eal in Wl.
Qed.

Lemma snapshot_witness :
  exists sd f l,
    Snapshot.getSessionData 1769200000000 sampleWatcher = Returned sd /\
    Snapshot.firstSeen sd = toISOString f /\ Snapshot.lastSeen sd = toISOString l /\
    Snapshot.date sd = isoDate f /\ f <= l /\
    (forall a, In a (Snapshot.attendance sd) ->
       exists fa la, firstSeen a = Some fa /\ lastSeen a = Some la /\ f <= fa /\ la <= l) /\
    (Snapshot.attendance sd = [] -> f = 1769200000000 /\ l = 1769200000000) /\
    (Snapshot.attendance sd <> [] ->
       (exists a, In a (Snapshot.attendance sd) /\ firstSeen a = Some f) /\
       (exists a, In a (Snapshot.attendance sd) /\ lastSeen a = Some l) /\
       Live.isInRaidWindow liveConfig (Some f) = true /\
       Live.isInRaidWindow liveConfig (Some l) = true).
Proof.
  apply (snapshot_after_any_lines sampleHost liveConfig 0%nat laterThenEarlier
           sampleWatcher 1769200000000).
  vm_compute. reflexivity.
Defined.
(** ** The whole-run properties on the sample logs *)

Lemma every_line_is_counted_witness :
  Auto.lines_read scenarioCResult = Z.of_nat (List.length scenarioC).
Proof.
  apply (proj2 every_line_is_counted sampleHost utcOpts scenarioC scenarioCResult).
  vm_compute. reflexivity.
Defined.

Lemma batch_results_pass_witness :
  inBatchWindow scenarioOpts (Some 1769115600000) /\
  zoneMatchesFilters (Some (lit "The Fungus Grove"))
                     (map normalizeZone (Batch.zones scenarioOpts)) = true.
Proof.
  apply (proj1 (batch_results_pass_window_and_filters sampleHost scenarioOpts staleZoneLines)
           (mkLoot (Some (lit "Lyri")) (lit "Shiknar Ichor") (Some 1769115600000)
                   (Some (lit "The Fungus Grove")))).
  vm_compute. now left.
Defined.

Lemma one_record_per_name_witness :
  namesDistinct (Live.sessionAttendance sampleWatcher).
Proof.
  apply (proj2 (proj2 one_record_per_name) sampleHost liveConfig 0%nat laterThenEarlier).
  vm_compute. reflexivity.
Defined.

Lemma first_seen_never_after_witness :
  spanOrdered (mkAttendee lyri60 (Some 1769115267000) (Some 1769115267000)).
Proof.
  apply (proj1 first_seen_never_after_last_seen sampleHost scenarioOpts scenarioA).
  vm_compute. now left.
Defined.

Lemma results_come_from_lines_witness :
  rosterLineOf laterThenEarlier lyri60.
Proof.
  apply (proj1 (proj2 (proj2 results_come_from_lines) sampleHost liveConfig 0%nat
                  laterThenEarlier sampleWatcher ltac:(vm_compute; reflexivity))
           (mkAttendee lyri60 (Some 1769004000000) (Some 1769004000000))).
  vm_compute. now left.
Defined.
(** ** The watcher beside [autoParseLog] *)

Lemma default_window cfg d :
  defaultGates cfg -> Live.isInRaidWindow cfg d = Auto.isInRaidWindow d.
Proof.
  intros (_ & Hd & Hs & He). unfold Live.isInRaidWindow, Auto.isInRaidWindow.
  now rewrite Hd, Hs, He.
Qed.

Lemma default_zones cfg z :
  defaultGates cfg -> Live.isApprovedZone cfg z = Auto.isApprovedZone z.
Proof.
  intros (Hz & _). unfold Live.isApprovedZone, Auto.isApprovedZone. now rewrite Hz.
Qed.

Lemma update_addLoot_exact key l0 sm k s0 :
  mapGet key sm = Some s0 ->
  snd (bucketContents k (Auto.update key (Auto.addLoot l0) sm))
  = snd (bucketContents k sm) ++ (if str_eqb key k then [l0] else []).
Proof.
  intros Hs. unfold bucketContents.
  destruct (list_eq_dec ascii_dec key k) as [<-|Hne].
  - rewrite mapGet_update_same, Hs, str_eqb_refl. reflexivity.
  - rewrite mapGet_update_other by exact Hne. rewrite (str_eqb_neq _ _ Hne).
    now rewrite app_nil_r.
Qed.

Lemma filter_snoc (A : Type) (f : A -> bool) (l : list A) (x : A) :
  filter f (l ++ [x]) = filter f l ++ (if f x then [x] else []).
Proof. rewrite filter_app. cbn [filter]. now destruct (f x). Qed.

(** A footer leaves the loot of every bucket alone. *)
Lemma footer_keeps_loot t z ts ps sm k0 sm' k :
  Auto.getSession t sm = (k0, sm') ->
  snd (bucketContents k
         (Auto.update k0 (Auto.addRoster ts ps) (Auto.update k0 (Auto.addZone z) sm')))
  = snd (bucketContents k sm).
Proof.
  intros E. rewrite update_addRoster_snd.
  rewrite update_contents by (intros s; apply addZone_contents).
  pose proof (getSession_contents t sm k) as H. rewrite E in H. cbn [snd] in H.
  now rewrite H.
Qed.

(** A loot line adds its event to the bucket of its date and to no
    other. *)
Lemma loot_goes_to_its_date t z l sm k0 sm' k :
  Auto.getSession t sm = (k0, sm') ->
  snd (bucketContents k
         (Auto.update k0 (Auto.addLoot l) (Auto.update k0 (Auto.addZone z) sm')))
  = snd (bucketContents k sm) ++ (if str_eqb (isoDate t) k then [l] else []).
Proof.
  intros E.
  destruct (getSession_present t sm) as [s Hs].
  pose proof (getSession_key t sm) as Hk.
  pose proof (getSession_contents t sm k) as H.
  rewrite E in Hs, Hk, H. cbn [fst snd] in Hs, Hk, H. subst k0.
  rewrite (update_addLoot_exact _ _ _ _ (Auto.addZone z s)).
  - rewrite update_contents by (intros s'; apply addZone_contents).
    now rewrite H.
  - now rewrite mapGet_update_same, Hs.
Qed.

Lemma sameProgress_loot st w sm l t :
  sameProgress st w -> timestamp l = Some t ->
  (forall k, snd (bucketContents k sm)
             = snd (bucketContents k (Auto.sessionMap st))
               ++ (if str_eqb (isoDate t) k then [l] else [])) ->
  sameProgress (Auto.setSessions sm st) (Live.pushLoot l t w).
Proof.
  intros (Hz & Hb & Hl) Ht Hsm. split; [exact Hz|]. split; [exact Hb|].
  intros k. cbn [Auto.sessionMap Auto.setSessions Live.lootEvents Live.pushLoot].
  rewrite Hsm, filter_snoc, Hl. unfold lootOn. now rewrite Ht.
Qed.

(** One line keeps the two scans together; the scan of [autoParseLog]
    returns whenever the watcher does. *)
Lemma classify_together opts cfg utcTs content st w w' :
  defaultGates cfg -> Auto.characterName opts = Live.characterName cfg ->
  sameProgress st w ->
  Live.classify cfg utcTs content w = Returned w' ->
  exists st', Auto.classify opts utcTs content st = Returned st' /\ sameProgress st' w'.
Proof.
  intros Hg Hn Hs. pose proof Hs as (Hz & Hb & Hl). unfold Live.classify, Auto.classify.
  destruct (ZONE_ENTRY_RE content) as [z|].
  { destruct utcTs as [t|]; [|discriminate]. intros [= <-].
    eexists. split; [reflexivity|]. exact (conj eq_refl (conj eq_refl Hl)). }
  destruct (str_eqb content whoStart).
  { rewrite <- (default_window cfg utcTs Hg).
    destruct (Live.isInRaidWindow cfg utcTs); intros [= <-];
      (eexists; split; [reflexivity|]).
    - exact (conj Hz (conj eq_refl Hl)).
    - exact Hs. }
  rewrite Hb. destruct (Live.inWhoBlock w) eqn:B.
  - destruct (str_eqb content whoSeparator).
    { intros [= <-]. eexists. split; [reflexivity|]. exact Hs. }
    destruct (WHO_FOOTER_RE content) as [whoZone|].
    + rewrite <- (default_zones cfg (Some whoZone) Hg).
      intros Hlive.
      assert (Hw' : Live.currentZone w' = Live.currentZone w /\ Live.inWhoBlock w' = false /\
                    Live.lootEvents w' = Live.lootEvents w).
      { revert Hlive. destruct (negb (Live.isApprovedZone cfg (Some whoZone)));
          [intros [= <-]; now repeat split|].
        destruct (fold_left _ _ _) as [m np].
        destruct (Live.whoBlockUTC (Live.closeBlock w)); [|discriminate].
        intros [= <-]. now repeat split. }
      destruct Hw' as (W1 & W2 & W3).
      destruct (Live.isApprovedZone cfg (Some whoZone)
                && Auto.isInRaidWindow (Auto.whoBlockUTC (Auto.closeBlock st))) eqn:G.
      * apply andb_true_iff in G. destruct G as [_ G].
        destruct (Auto.whoBlockUTC (Auto.closeBlock st)) as [t|]; [|discriminate G].
        destruct (Auto.getSession t (Auto.sessionMap (Auto.closeBlock st))) as [k sm] eqn:E.
        eexists. split; [reflexivity|].
        split; [now rewrite W1|]. split; [now rewrite W2|].
        intros key. rewrite W3, <- Hl.
        cbn [Auto.sessionMap Auto.setSessions].
        now apply (footer_keeps_loot t _ _ _ (Auto.sessionMap (Auto.closeBlock st))).
      * eexists. split; [reflexivity|].
        split; [now rewrite W1|]. split; [now rewrite W2|].
        intros key. now rewrite W3, <- Hl.
    + destruct (WHO_PLAYER_RE content) as [m|]; intros [= <-];
        (eexists; split; [reflexivity|]); exact Hs.
  - rewrite <- (default_window cfg utcTs Hg), Hz, <- (default_zones cfg _ Hg).
    destruct (negb (Live.isInRaidWindow cfg utcTs)
              || negb (Live.isApprovedZone cfg (Live.currentZone w))) eqn:G.
    { intros [= <-]. eexists. split; [reflexivity|]. exact Hs. }
    apply orb_false_iff in G. destruct G as [G _]. apply negb_false_iff in G.
    destruct utcTs as [t|]; [|discriminate G].
    destruct (Auto.getSession t (Auto.sessionMap st)) as [k sm] eqn:E.
    rewrite Hn.
    assert (Hpush : forall l,
              timestamp l = Some t ->
              sameProgress
                (Auto.setSessions
                   (Auto.update k (Auto.addLoot l)
                      (Auto.update k (Auto.addZone (Live.currentZone w)) sm)) st)
                (Live.pushLoot l t w)).
    { intros l Ht. apply sameProgress_loot; [exact Hs | exact Ht |].
      intros key. now apply loot_goes_to_its_date. }
    assert (Hstay : sameProgress
                      (Auto.setSessions (Auto.update k (Auto.addZone (Live.currentZone w)) sm) st)
                      w).
    { split; [exact Hz|]. split; [now rewrite B|]. intros key. rewrite <- Hl.
      cbn [Auto.sessionMap Auto.setSessions].
      rewrite update_contents by (intros s; apply addZone_contents).
      pose proof (getSession_contents t (Auto.sessionMap st) key) as H.
      rewrite E in H. cbn [snd] in H. now rewrite H. }
    destruct (SELF_LOOT_RE content) as [it|];
      destruct (Live.truthy (Live.characterName cfg)) eqn:T;
      unfold Auto.truthy, Live.truthy in *; rewrite ?T;
      try (destruct (OTHER_LOOT_RE content) as [[who item]|]);
      intros [= <-]; eexists; (split; [reflexivity|]);
      try (now apply Hpush); exact Hstay.
Qed.

Lemma sameProgress_init n : sameProgress Auto.init (Live.create n).
Proof. split; [reflexivity|]. split; [reflexivity|]. intros key. reflexivity. Qed.

Lemma scan_together host opts cfg :
  defaultGates cfg -> Auto.timezone opts = Live.timezone cfg ->
  Auto.characterName opts = Live.characterName cfg ->
  forall lines st w w',
    sameProgress st w ->
    Live.processLines host cfg w lines = Returned w' ->
    exists st', Auto.scan host opts st lines = Returned st' /\ sameProgress st' w'.
Proof.
  intros Hg Htz Hn. induction lines as [|l ls IH]; intros st w w' Hs;
    cbn [Live.processLines Auto.scan].
  - intros [= <-]. now exists st.
  - destruct (Live.processLine host cfg w l) as [w1|] eqn:E; [|discriminate].
    intros Hrest.
    assert (Hstep : exists st1, Auto.parseLine host opts st l = Returned st1 /\
                                sameProgress st1 w1).
    { revert E. unfold Live.processLine, Auto.parseLine. rewrite Htz.
      assert (Hc : sameProgress (Auto.countLine st) w) by exact Hs.
      destruct (LINE_RE l) as [[tsStr content]|];
        [|intros [= <-]; now exists (Auto.countLine st)].
      destruct (parseEQDateUTC host tsStr (Live.timezone cfg)) as [[utcTs|]|];
        [| intros [= <-]; now exists (Auto.countLine st) | discriminate].
      now apply classify_together. }
    destruct Hstep as (st1 & -> & Hs1). now apply (IH st1 w1).
Qed.

(** X24: the watcher beside [autoParseLog].  With the gates [web-app.js]
    gives it by default, and the time zone and character name of the
    call, the watcher read the same lines: whenever its line loop returns,
    [autoParseLog] returns too, the loot of every session it reports is
    the watcher's loot of that session's UTC date, in the same order, and
    every loot event of the watcher is in one of the sessions. *)
Theorem watcher_loot_is_the_loot_of_the_sessions :
  forall (host : Host) (opts : Auto.Opts) (cfg : Live.Config) (n : nat)
         (lines : list str) (w : Live.Watcher),
    defaultGates cfg ->
    Auto.timezone opts = Live.timezone cfg ->
    Auto.characterName opts = Live.characterName cfg ->
    Live.processLines host cfg (Live.create n) lines = Returned w ->
    exists r,
      Auto.autoParseLog host opts lines = Returned r /\
      (forall s, In s (Auto.sessions r) ->
         Auto.rs_loot s = filter (lootOn (Auto.rs_date s)) (Live.lootEvents w)) /\
      (forall l, In l (Live.lootEvents w) ->
         exists s, In s (Auto.sessions r) /\ In l (Auto.rs_loot s)).
Proof.
  intros host opts cfg n lines w Hg Htz Hn Hw.
  destruct (scan_together host opts cfg Hg Htz Hn lines Auto.init (Live.create n) w
              (sameProgress_init n) Hw) as (st & Hscan & (_ & _ & Hl)).
  pose proof (auto_scan_inv host opts lines Auto.init st autoInv_init Hscan) as [Hnd Hkeys].
  unfold Auto.autoParseLog. rewrite Hscan. eexists. split; [reflexivity|].
  cbn [Auto.sessions]. unfold Auto.collect. split.
  - intros s Hin. apply In_sortBy in Hin. apply in_map_iff in Hin.
    destruct Hin as (b & <- & Hb). apply filter_In in Hb. destruct Hb as [Hb _].
    apply In_mapValues in Hb. destruct Hb as [k Hb].
    destruct (Hkeys k b Hb) as [Hd _].
    cbn [Auto.rs_loot Auto.rs_date Auto.flatten]. rewrite Hd, <- Hl.
    unfold bucketContents. now rewrite (In_mapGet _ k b _ Hnd Hb).
  - intros l Hin.
    destruct (live_processLines_inv host cfg lines (Live.create n) w (liveInv_create cfg n) Hw)
      as (_ & Hloot & _).
    destruct (Hloot l Hin) as [Hwin _].
    destruct (timestamp l) as [t|] eqn:Et; [|discriminate Hwin].
    assert (Hk : In l (snd (bucketContents (isoDate t) (Auto.sessionMap st)))).
    { rewrite Hl. apply filter_In. split; [exact Hin|].
      unfold lootOn. rewrite Et. apply str_eqb_refl. }
    unfold bucketContents in Hk.
    destruct (mapGet (isoDate t) (Auto.sessionMap st)) as [b|] eqn:Eb; [|destruct Hk].
    cbn [snd] in Hk. exists (Auto.flatten b). split; [|exact Hk].
    apply In_sortBy. apply in_map. apply filter_In. split.
    + unfold mapValues. apply in_map_iff. exists (isoDate t, b). split; [reflexivity|].
      now apply (mapGet_In _ (isoDate t) b).
    + unfold Auto.nonEmpty. destruct (Auto.loot b); [destruct Hk|].
      cbn [List.length Nat.eqb negb]. apply orb_true_r.
Qed.

Lemma watcher_loot_witness :
  exists r,
    Auto.autoParseLog sampleHost utcOpts scenarioC = Returned r /\
    (forall s, In s (Auto.sessions r) ->
       Auto.rs_loot s
       = filter (lootOn (Auto.rs_date s))
           (Live.lootEvents (returnedOr (Live.create 0)
              (Live.processLines sampleHost liveConfig (Live.create 0) scenarioC)))) /\
    (forall l, In l (Live.lootEvents (returnedOr (Live.create 0)
                       (Live.processLines sampleHost liveConfig (Live.create 0) scenarioC))) ->
       exists s, In s (Auto.sessions r) /\ In l (Auto.rs_loot s)).
Proof.
  apply (watcher_loot_is_the_loot_of_the_sessions sampleHost utcOpts liveConfig 0%nat scenarioC).
  - repeat split.
  - reflexivity.
  - reflexivity.
  - vm_compute. reflexivity.
Defined.
(** ** The time window of the callers *)

Lemma digit_value c : isDigit c = true -> 0 <= Z.of_nat (code c - 48) <= 9.
Proof.
  unfold isDigit, between. intros H. apply andb_true_iff in H. destruct H as [H1 H2].
  apply Nat.leb_le in H1, H2. lia.
Qed.

Lemma toNumber_snoc ds c : toNumber (ds ++ [c]) = toNumber ds * 10 + Z.of_nat (code c - 48).
Proof. unfold toNumber. now rewrite fold_left_app. Qed.

(** A text of [n] digits spells a number below [10 ^ n]. *)
Lemma toNumber_bound : forall ds,
  forallb isDigit ds = true -> 0 <= toNumber ds < 10 ^ Z.of_nat (List.length ds).
Proof.
  induction ds as [|c ds IH] using rev_ind; intros H.
  - cbn. lia.
  - rewrite forallb_app in H. apply andb_true_iff in H. destruct H as [Hds Hc].
    cbn [forallb] in Hc. rewrite andb_true_r in Hc.
    specialize (IH Hds). pose proof (digit_value c Hc) as Hv.
    rewrite toNumber_snoc, length_app. cbn [List.length].
    rewrite Nat2Z.inj_add, Z.pow_add_r by lia. change (10 ^ Z.of_nat 1) with 10. lia.
Qed.

Lemma toNumber_up_to_2 ds :
  (List.length ds <= 2)%nat -> forallb isDigit ds = true -> 0 <= toNumber ds <= 99.
Proof.
  intros L H. pose proof (toNumber_bound ds H) as B.
  assert (10 ^ Z.of_nat (List.length ds) <= 10 ^ 2) by (apply Z.pow_le_mono_r; lia).
  lia.
Qed.

Lemma toNumber_of_4 ds :
  List.length ds = 4%nat -> forallb isDigit ds = true -> 0 <= toNumber ds <= 9999.
Proof.
  intros L H. pose proof (toNumber_bound ds H) as B. rewrite L in B.
  change (10 ^ Z.of_nat 4) with 10000 in B. lia.
Qed.

(** What the groups of an accepted date are. *)
Lemma isoDateShape_fields s y m d :
  isoDateShape s = Some (y, m, d) ->
  0 <= toNumber y <= 9999 /\ 0 <= toNumber m <= 99 /\ 0 <= toNumber d <= 99.
Proof.
  unfold isoDateShape.
  destruct (times 4 (one isDigit) s) as [[y0 r1]|] eqn:E1; [|discriminate].
  destruct (chr "-" r1) as [[x2 r2]|]; [|discriminate].
  destruct (digits12 r2) as [[m0 r3]|] eqn:E3; [|discriminate].
  destruct (chr "-" r3) as [[x4 r4]|]; [|discriminate].
  destruct (digits12 r4) as [[d0 r5]|] eqn:E5; [|discriminate].
  destruct r5; [|discriminate]. intros [= <- <- <-].
  apply times_inv in E1. destruct E1 as (_ & Ly & Hy).
  pose proof (digits12_length _ _ _ E3) as Lm. apply digits12_inv in E3.
  pose proof (digits12_length _ _ _ E5) as Ld. apply digits12_inv in E5.
  destruct E3 as (_ & _ & Hm & _). destruct E5 as (_ & _ & Hd & _).
  split; [now apply toNumber_of_4|]. split; now apply toNumber_up_to_2.
Qed.

Lemma usDateShape_fields s y m d :
  usDateShape s = Some (m, d, y) ->
  isoDateShape s = None /\
  0 <= toNumber y <= 9999 /\ 0 <= toNumber m <= 99 /\ 0 <= toNumber d <= 99.
Proof.
  unfold usDateShape.
  destruct (digits12 s) as [[m0 r1]|] eqn:E1; [|discriminate].
  destruct (chr "/" r1) as [[x2 r2]|] eqn:E2; [|discriminate].
  destruct (digits12 r2) as [[d0 r3]|] eqn:E3; [|discriminate].
  destruct (chr "/" r3) as [[x4 r4]|]; [|discriminate].
  destruct (times 4 (one isDigit) r4) as [[y0 r5]|] eqn:E5; [|discriminate].
  destruct r5; [|discriminate]. intros [= <- <- <-].
  pose proof (digits12_length _ _ _ E1) as Lm. apply digits12_inv in E1.
  pose proof (digits12_length _ _ _ E3) as Ld. apply digits12_inv in E3.
  apply times_inv in E5. destruct E5 as (_ & Ly & Hy).
  destruct E1 as (-> & _ & Hm & _). destruct E3 as (_ & _ & Hd & _).
  apply chr_inv in E2. destruct E2 as (-> & _).
  split; [|split; [now apply toNumber_of_4 | split; now apply toNumber_up_to_2]].
  unfold isoDateShape. rewrite (times_stops isDigit 4 m0 "/" r2); [reflexivity | lia | exact Hm |].
  reflexivity.
Qed.

Lemma timeShape_fields s g : timeShape s = Some g -> 0 <= timeOfDay g.
Proof.
  intros _. destruct g as [[h mi] sec]. unfold timeOfDay, MakeTime, msPerHour, msPerMinute,
    msPerSecond.
  pose proof (toNumber_nonneg h). pose proof (toNumber_nonneg mi).
  assert (0 <= secondsOf sec) by (destruct sec; [apply toNumber_nonneg | cbn; lia]).
  lia.
Qed.

Lemma clockTime_below_a_day g : clockTime g -> timeOfDay g < msPerDay.
Proof.
  destruct g as [[h mi] sec]. unfold clockTime, timeOfDay, MakeTime, msPerHour, msPerMinute,
    msPerSecond, msPerDay. lia.
Qed.

(** The day number of an accepted date is far inside what a Date can
    hold. *)
Lemma MakeDay_bound y m d :
  0 <= y <= 9999 -> 0 <= m <= 99 -> 0 <= d <= 99 ->
  - 800000 <= MakeDay (MakeFullYear y) (m - 1) d <= 3000000.
Proof.
  intros Hy Hm Hd. unfold MakeDay, MakeFullYear, daysFromCivil.
  assert (H0 : 0 <= (if (0 <=? y) && (y <=? 99) then 1900 + y else y) <= 9999).
  { destruct ((0 <=? y) && (y <=? 99)) eqn:E; [|lia].
    apply andb_true_iff in E. destruct E as [_ E]. apply Z.leb_le in E. lia. }
  set (Y := if (0 <=? y) && (y <=? 99) then 1900 + y else y) in *. clearbody Y.
  assert (Hq : -1 <= (m - 1) / 12 <= 8) by (Z.to_euclidean_division_equations; lia).
  assert (Hr : 0 <= (m - 1) mod 12 < 12) by (apply Z.mod_pos_bound; lia).
  set (q := (m - 1) / 12) in *. set (r := (m - 1) mod 12) in *. clearbody q r.
  cbv zeta.
  set (Y' := if r + 1 <=? 2 then Y + q - 1 else Y + q).
  assert (HY' : -2 <= Y' <= 10007) by (subst Y'; destruct (r + 1 <=? 2); lia).
  clearbody Y'.
  set (c := if 2 <? r + 1 then -3 else 9).
  assert (Hc : -3 <= c <= 9) by (subst c; destruct (2 <? r + 1); lia).
  clearbody c.
  pose proof (Z.div_mod Y' 400 ltac:(lia)) as D1.
  pose proof (Z.mod_pos_bound Y' 400 ltac:(lia)) as B1.
  set (era := Y' / 400) in *.
  assert (Hyoe : Y' - era * 400 = Y' mod 400) by lia.
  rewrite Hyoe. set (yoe := Y' mod 400) in *.
  assert (He : -1 <= era <= 25) by lia.
  assert (H4 : 0 <= yoe / 4 <= 100) by (Z.to_euclidean_division_equations; lia).
  assert (H100 : 0 <= yoe / 100 <= 4) by (Z.to_euclidean_division_equations; lia).
  assert (H5 : -100 <= (153 * (r + 1 + c) + 2) / 5 <= 700)
    by (Z.to_euclidean_division_equations; lia).
  lia.
Qed.

Section FixedOffset.
Variable host : Host.
Variable offsetAt : Z -> Z.
Variable o : Z.
Hypothesis host_fixed : forall t, localTZA host t = o.
Hypothesis offset_fixed : forall t, offsetAt t = o.
Hypothesis offset_small : - msPerDay <= o <= msPerDay.

Lemma newDateLocal_midnight y m d :
  0 <= y <= 9999 -> 0 <= m <= 99 -> 0 <= d <= 99 ->
  newDateLocal host y (Some (m - 1)) d 0 0 0
  = Some (MakeDay (MakeFullYear y) (m - 1) d * msPerDay - o).
Proof.
  intros Hy Hm Hd. pose proof (MakeDay_bound y m d Hy Hm Hd) as B.
  unfold newDateLocal. rewrite host_fixed.
  change (MakeTime 0 0 0) with 0. unfold MakeDate. rewrite Z.add_0_r.
  apply TimeClip_in_range. unfold msPerDay in *. lia.
Qed.

Lemma setHours_of_midnight D h mi s :
  - 800000 <= D <= 3000000 -> 0 <= MakeTime h mi s < msPerDay ->
  setHours host offsetAt (Some (D * msPerDay - o)) h mi s
  = Some (D * msPerDay - o + MakeTime h mi s).
Proof.
  intros B T. unfold setHours, LocalTime, UTC. rewrite offset_fixed, host_fixed.
  replace (D * msPerDay - o + o) with (D * msPerDay) by lia.
  rewrite Z.div_mul by (unfold msPerDay; lia).
  unfold MakeDate. rewrite TimeClip_in_range by (unfold msPerDay in *; lia).
  f_equal. lia.
Qed.

Lemma setDate_next_day D T :
  - 800000 <= D <= 3000000 -> 0 <= T < msPerDay ->
  setDate host offsetAt (Some (D * msPerDay - o + T))
          (option_map (Z.add 1) (getDate offsetAt (Some (D * msPerDay - o + T))))
  = Some (D * msPerDay - o + T + msPerDay).
Proof.
  intros B HT. unfold setDate, getDate, LocalTime, UTC. rewrite offset_fixed.
  replace (D * msPerDay - o + T + o) with (T + D * msPerDay) by lia.
  rewrite Z.div_add by (unfold msPerDay; lia).
  rewrite Z.mod_add by (unfold msPerDay; lia).
  rewrite Z.div_small, Z.mod_small by exact HT. rewrite Z.add_0_l.
  pose proof (daysFromCivil_civilFromDays D) as Hrt.
  destruct (civilFromDays D) as [[y m] d]. destruct Hrt as (Hrt & Hm & _).
  cbn [option_map]. rewrite host_fixed.
  assert (E : MakeDay y (m - 1) (1 + d) = D + 1).
  { unfold MakeDay.
    replace ((m - 1) / 12) with 0 by (symmetry; apply Z.div_small; lia).
    replace ((m - 1) mod 12 + 1) with m by (rewrite Z.mod_small; lia).
    rewrite Z.add_0_r.
    assert (Hlin : daysFromCivil y m 1 + d - 1 = daysFromCivil y m d)
      by (unfold daysFromCivil; lia).
    lia. }
  rewrite E. unfold MakeDate.
  rewrite TimeClip_in_range by (unfold msPerDay in *; lia).
  f_equal. lia.
Qed.

Lemma parseDate_midnight dateStr ys mos ds :
  isoDateShape dateStr = Some (ys, mos, ds) \/ usDateShape dateStr = Some (mos, ds, ys) ->
  parseDate host dateStr
  = Some (Some (MakeDay (MakeFullYear (toNumber ys)) (toNumber mos - 1) (toNumber ds)
                * msPerDay - o)) /\
  - 800000 <= MakeDay (MakeFullYear (toNumber ys)) (toNumber mos - 1) (toNumber ds)
  <= 3000000.
Proof.
  intros H. unfold parseDate.
  assert (F : 0 <= toNumber ys <= 9999 /\ 0 <= toNumber mos <= 99 /\ 0 <= toNumber ds <= 99).
  { destruct H as [H|H]; [now apply (isoDateShape_fields dateStr) |].
    now destruct (usDateShape_fields dateStr ys mos ds H) as (_ & F). }
  destruct F as (Fy & Fm & Fd).
  split; [|now apply MakeDay_bound].
  destruct H as [H|H].
  - rewrite H. now rewrite newDateLocal_midnight.
  - destruct (usDateShape_fields dateStr ys mos ds H) as (N & _).
    rewrite N, H. now rewrite newDateLocal_midnight.
Qed.

Lemma applyTime_of_midnight D timeStr g :
  - 800000 <= D <= 3000000 -> timeShape timeStr = Some g -> clockTime g ->
  applyTime host offsetAt (Some (D * msPerDay - o)) timeStr
  = Some (Some (D * msPerDay - o + timeOfDay g)).
Proof.
  intros B Hs Hc. unfold applyTime. rewrite Hs.
  pose proof (timeShape_fields timeStr g Hs) as T0.
  pose proof (clockTime_below_a_day g Hc) as T1.
  destruct g as [[h mi] sec]. unfold timeOfDay in *.
  now rewrite setHours_of_midnight.
Qed.

Lemma timeWindow_value dateStr startStr endStr ys mos ds gs ge :
  isoDateShape dateStr = Some (ys, mos, ds) \/ usDateShape dateStr = Some (mos, ds, ys) ->
  timeShape startStr = Some gs -> clockTime gs ->
  timeShape endStr = Some ge -> clockTime ge ->
  timeWindow host offsetAt dateStr startStr endStr
  = Some (Some (MakeDay (MakeFullYear (toNumber ys)) (toNumber mos - 1) (toNumber ds)
                * msPerDay - o + timeOfDay gs),
          Some (MakeDay (MakeFullYear (toNumber ys)) (toNumber mos - 1) (toNumber ds)
                * msPerDay - o + timeOfDay ge
                + (if timeOfDay ge <=? timeOfDay gs then msPerDay else 0))).
Proof.
  intros Hd Hs Cs He Ce.
  destruct (parseDate_midnight dateStr ys mos ds Hd) as [P B].
  pose proof (timeShape_fields endStr ge He) as E0.
  pose proof (clockTime_below_a_day ge Ce) as E1.
  unfold timeWindow. rewrite P.
  rewrite (applyTime_of_midnight _ startStr gs B Hs Cs).
  rewrite (applyTime_of_midnight _ endStr ge B He Ce).
  set (midnight := MakeDay _ _ _ * msPerDay - o). unfold date_le.
  replace (midnight + timeOfDay ge <=? midnight + timeOfDay gs)
    with (timeOfDay ge <=? timeOfDay gs)
    by (destruct (Z.leb_spec (timeOfDay ge) (timeOfDay gs));
        destruct (Z.leb_spec (midnight + timeOfDay ge) (midnight + timeOfDay gs)); lia).
  destruct (timeOfDay ge <=? timeOfDay gs).
  - subst midnight. now rewrite (setDate_next_day _ _ B (conj E0 E1)).
  - now rewrite Z.add_0_r.
Qed.

(** A line stamped with the date's month, day and year is read as the
    instant of its clock time on that date. *)
Lemma parseEQDate_on_the_date (st : Stamp) ys mos ds :
  wellFormedStamp st = true ->
  0 <= toNumber ys <= 9999 -> 0 <= toNumber mos <= 99 -> 0 <= toNumber ds <= 99 ->
  MONTHS (monthName st) = Some (toNumber mos - 1) ->
  toNumber (dayDigits st) = toNumber ds -> toNumber (yearDigits st) = toNumber ys ->
  parseEQDate host (stampText st)
  = Some (Some (MakeDay (MakeFullYear (toNumber ys)) (toNumber mos - 1) (toNumber ds)
                * msPerDay - o
                + MakeTime (toNumber (hourDigits st)) (toNumber (minuteDigits st))
                           (toNumber (secondDigits st)))).
Proof.
  intros Hw Fy Fm Fd Hm Hd Hy.
  unfold parseEQDate. rewrite (stamp_date_groups st Hw), Hm, Hd, Hy.
  apply wellFormedStamp_spec in Hw.
  destruct Hw as (_ & _ & _ & _ & _ & (Lh & Dh) & (Li & Di) & (Ls & Ds) & _).
  pose proof (toNumber_up_to_2 (hourDigits st) ltac:(lia) Dh) as Bh.
  pose proof (toNumber_up_to_2 (minuteDigits st) ltac:(lia) Di) as Bi.
  pose proof (toNumber_up_to_2 (secondDigits st) ltac:(lia) Ds) as Bs.
  pose proof (MakeDay_bound _ _ _ Fy Fm Fd) as B.
  unfold newDateLocal. rewrite host_fixed. unfold MakeDate.
  rewrite TimeClip_in_range
    by (unfold MakeTime, msPerDay, msPerHour, msPerMinute, msPerSecond in *; lia).
  do 2 f_equal. lia.
Qed.

End FixedOffset.

(** X25: the window both callers hand to [parseLog], on a host whose
    zone stands at a fixed offset from UTC.  For a date of either
    accepted form and two times of the clock, [startTime] is the start
    time on that date and [endTime] the end time on that date, or on the
    next day when it is not after the start time: the window is never
    empty and never longer than a day. *)
Theorem window_runs_from_start_to_next_end :
  forall (host : Host) (offsetAt : Z -> Z) (o : Z)
         (dateStr startStr endStr ys mos ds : str) (gs ge : str * str * option str),
    (forall t, localTZA host t = o) -> (forall t, offsetAt t = o) ->
    - msPerDay <= o <= msPerDay ->
    isoDateShape dateStr = Some (ys, mos, ds) \/ usDateShape dateStr = Some (mos, ds, ys) ->
    timeShape startStr = Some gs -> clockTime gs ->
    timeShape endStr = Some ge -> clockTime ge ->
    let midnight :=
      MakeDay (MakeFullYear (toNumber ys)) (toNumber mos - 1) (toNumber ds) * msPerDay - o in
    let s := midnight + timeOfDay gs in
    let e := midnight + timeOfDay ge
             + (if timeOfDay ge <=? timeOfDay gs then msPerDay else 0) in
    timeWindow host offsetAt dateStr startStr endStr = Some (Some s, Some e) /\
    s < e <= s + msPerDay.
Proof.
  intros host offsetAt o dateStr startStr endStr ys mos ds gs ge H1 H2 H3 Hd Hs Cs He Ce
         midnight s e.
  split.
  - exact (timeWindow_value host offsetAt o H1 H2 H3 dateStr startStr endStr ys mos ds gs ge
             Hd Hs Cs He Ce).
  - pose proof (timeShape_fields startStr gs Hs) as S0.
    pose proof (clockTime_below_a_day gs Cs) as S1.
    pose proof (timeShape_fields endStr ge He) as E0.
    pose proof (clockTime_below_a_day ge Ce) as E1.
    subst s e. destruct (Z.leb_spec (timeOfDay ge) (timeOfDay gs)); lia.
Qed.

Lemma window_witness :
  timeWindow sampleHost (fun _ => 0) (lit "2026-01-22") (lit "20:54") (lit "01:30:00")
  = Some (Some 1769115240000, Some 1769131800000) /\
  1769115240000 < 1769131800000 <= 1769115240000 + msPerDay.
Proof.
  apply (window_runs_from_start_to_next_end sampleHost (fun _ => 0) 0
           (lit "2026-01-22") (lit "20:54") (lit "01:30:00")
           (lit "2026") (lit "01") (lit "22")
           (lit "20", lit "54", None) (lit "01", lit "30", Some (lit "00"))).
  - reflexivity.
  - reflexivity.
  - vm_compute. split; discriminate.
  - left. reflexivity.
  - reflexivity.
  - vm_compute. repeat split; discriminate.
  - reflexivity.
  - vm_compute. repeat split; discriminate.
Defined.

Lemma window_bounds (ts s e : Z) (zones : list str) (cn : option str) :
  inBatchWindow (Batch.mkOpts (Some s) (Some e) zones cn) (Some ts) <-> s <= ts <= e.
Proof.
  unfold inBatchWindow, date_gt, date_lt. cbn [Batch.startTime Batch.endTime].
  rewrite !Z.ltb_ge. tauto.
Qed.

(** X26: the window selects lines by the clock they were written with.
    On a host whose zone stands at a fixed offset from UTC, a line
    stamped with the month, day and year of the window's date passes the
    time window of batch [parseLog] exactly when its clock time lies
    between the start time and the end time, the end time counted on the
    next day when it is not after the start time. *)
Theorem window_selects_lines_by_their_clock :
  forall (host : Host) (offsetAt : Z -> Z) (o : Z)
         (dateStr startStr endStr ys mos ds : str) (gs ge : str * str * option str)
         (st : Stamp) (zones : list str) (cn : option str),
    (forall t, localTZA host t = o) -> (forall t, offsetAt t = o) ->
    - msPerDay <= o <= msPerDay ->
    isoDateShape dateStr = Some (ys, mos, ds) \/ usDateShape dateStr = Some (mos, ds, ys) ->
    timeShape startStr = Some gs -> clockTime gs ->
    timeShape endStr = Some ge -> clockTime ge ->
    wellFormedStamp st = true ->
    MONTHS (monthName st) = Some (toNumber mos - 1) ->
    toNumber (dayDigits st) = toNumber ds -> toNumber (yearDigits st) = toNumber ys ->
    exists startTime endTime ts,
      timeWindow host offsetAt dateStr startStr endStr = Some (startTime, endTime) /\
      parseEQDate host (stampText st) = Some ts /\
      (inBatchWindow (Batch.mkOpts startTime endTime zones cn) ts <->
       timeOfDay gs
       <= MakeTime (toNumber (hourDigits st)) (toNumber (minuteDigits st))
                   (toNumber (secondDigits st))
       <= timeOfDay ge + (if timeOfDay ge <=? timeOfDay gs then msPerDay else 0)).
Proof.
  intros host offsetAt o dateStr startStr endStr ys mos ds gs ge st zones cn
         H1 H2 H3 Hd Hs Cs He Ce Hw Hm Hday Hy.
  assert (F : 0 <= toNumber ys <= 9999 /\ 0 <= toNumber mos <= 99 /\ 0 <= toNumber ds <= 99).
  { destruct Hd as [H|H]; [now apply (isoDateShape_fields dateStr) |].
    now destruct (usDateShape_fields dateStr ys mos ds H) as (_ & F). }
  destruct F as (Fy & Fm & Fd).
  eexists. eexists. eexists. split; [|split].
  - exact (timeWindow_value host offsetAt o H1 H2 H3 dateStr startStr endStr ys mos ds gs ge
             Hd Hs Cs He Ce).
  - exact (parseEQDate_on_the_date host o H1 H3 st ys mos ds Hw Fy Fm Fd Hm Hday Hy).
  - rewrite window_bounds. split; intros [A B]; split; lia.
Qed.

Lemma window_selects_witness :
  exists startTime endTime ts,
    timeWindow sampleHost (fun _ => 0) (lit "2026-01-22") (lit "20:54") (lit "01:30:00")
    = Some (startTime, endTime) /\
    parseEQDate sampleHost (lit "Thu Jan 22 20:54:27 2026") = Some ts /\
    (inBatchWindow (Batch.mkOpts startTime endTime [lit "fungus"] None) ts <->
     timeOfDay (lit "20", lit "54", None)
     <= MakeTime (toNumber (lit "20")) (toNumber (lit "54")) (toNumber (lit "27"))
     <= timeOfDay (lit "01", lit "30", Some (lit "00"))
        + (if timeOfDay (lit "01", lit "30", Some (lit "00"))
              <=? timeOfDay (lit "20", lit "54", None)
           then msPerDay else 0)).
Proof.
  apply (window_selects_lines_by_their_clock sampleHost (fun _ => 0) 0
           (lit "2026-01-22") (lit "20:54") (lit "01:30:00")
           (lit "2026") (lit "01") (lit "22")
           (lit "20", lit "54", None) (lit "01", lit "30", Some (lit "00"))
           (mkStamp (lit "Thu") (lit "Jan") (lit " ") (lit "22") (lit "20") (lit "54")
                    (lit "27") (lit "2026"))
           [lit "fungus"] None).
  - reflexivity.
  - reflexivity.
  - vm_compute. split; discriminate.
  - left. reflexivity.
  - reflexivity.
  - vm_compute. repeat split; discriminate.
  - reflexivity.
  - vm_compute. repeat split; discriminate.
  - reflexivity.
  - reflexivity.
  - reflexivity.
  - reflexivity.
Defined.
